(* ===== verification/_CoqProject ===== *)
-Q . S2P
Prelude.v
Strconv.v
Quantity.v
QuantityText.v
GoStd.v
KubeTypes.v
Labels.v
Json.v
JsonIndent.v
Url.v
Time.v
NodeInfo.v
Samples.v
QuasiScheduler.v
NodeScaler.v
CloudPool.v
PoolClient.v
Messages.v
Duration.v
Flags.v
Config.v
Main.v
Proxy.v
System.v
World.v
Backends.v
Server.v
Stack.v
Concurrent.v
Commands.v
