(* ===== verification/Prelude.v ===== *)
(** * kubeaware-cloudpool-proxy: a verification development

    The program is a REST proxy in front of a cloudpool, the service that sizes
    the pool of machines a Kubernetes cluster runs on.  It passes every request
    through, except the two that can remove machines: setting a smaller size
    and terminating a machine.  For those it first finds Kubernetes nodes that
    can be evacuated, drains them, deletes them from the cluster, and only then
    has the cloudpool terminate their machines.

    ** Parts of the program and files of the development

    - [Prelude] (this file): outcomes (a value or a panic), results (a value or
      an error), programs over an interface of calls ([Prog]), their runs
      against arbitrary replies ([runs]), what a program has left to do after
      some calls ([after]), execution against a given environment ([exec]),
      composition of a program with the implementation of its calls ([interp]),
      and integers at their width.
    - [Strconv]: strings, runes and the number readers of package strconv,
      [strconv.Quote], and the class [GoLib] of what is left open of it.
    - [Quantity]: resource quantities, vendored (apimachinery api/resource and
      inf.v0): [int64] with a scale, promoted to unbounded decimals on overflow;
      [QuantityText]: their canonical text, with the suffixes.
    - [GoStd]: float64 (IEEE 754 binary64), [sort.Slice] and map iteration as
      type classes that admit every behaviour the Go specification allows.
    - [KubeTypes]: the Kubernetes objects the program reads and writes, and the
      error types of all packages with their texts.
    - [Labels]: label selectors, label validation with its messages, and
      tolerations, vendored.
    - [Json]: encoding/json as the program uses it, as an executable reader,
      writer and struct decoder; [JsonIndent]: [json.MarshalIndent].
    - [Url]: URLs with [url.Parse], [url.ParseRequestURI] and [URL.String], and
      [http.NewRequest]; [Time]: time stamps with [time.Parse] on RFC 3339.
    - [NodeInfo]: pkg/kube/nodeinfo.go, resource accounting of a node.
    - [Samples]: builders for the objects of the witnesses.
    - [QuasiScheduler]: pkg/kube/quasi_scheduler.go.  The state is the list of
      nodes with their pods; [Schedule] returns the new state, or panics.
    - [NodeScaler]: pkg/kube/nodescaler.go over the [KubeClient] interface of
      pkg/kube/client.go, and that interface.
    - [CloudPool]: pkg/cloudpool/types.go and functions.go.
    - [PoolClient]: pkg/cloudpool/client.go over one HTTP call; [Messages]: the
      REST messages as a class of types that survive encoding and decoding.
    - [Duration], [Config]: pkg/config/proxy_config.go with
      [time.ParseDuration] and [Duration.String], and the set-up of the
      Kubernetes client in pkg/kube/client.go.
    - [Flags]: package flag, and the flags of the vendored glog.
    - [Main]: cmd/kubeaware-cloudpool-proxy/main.go, from the command line on.
    - [Proxy]: pkg/proxy/proxy.go over its two collaborators.
    - [System]: the interfaces [kube.NodeScaler] and [cloudpool.CloudPoolClient]
      as classes with the laws the proxy relies on, the default node scaler and
      the HTTP client as their instances, and the proxy composed with them,
      over the Kubernetes API and single HTTP requests.
    - [World]: what the two operations of the proxy do to the cluster and the
      pool, proved against the class [PoolWorld] of what its collaborators
      promise about a state; [Backends]: the same down to the Kubernetes API and
      HTTP requests, whose promises (class [Backends]) give the former through
      the default node scaler and the HTTP client, and a store that keeps them.
    - [Server]: pkg/proxy/server.go: routing, handlers and the update lock, as a
      transition system in which a call of the proxy is one step.
    - [Stack]: the running program, every request as a program over the lock
      and the two services, interleaved call by call; [Concurrent]: what an
      incoming update does to the services among other requests.
    - [Commands]: the five commands under samples/, from the command line on.

    ** How code becomes definitions

    A Go function keeps its name.  A method that only computes is a function; a
    method that calls a service is a program ([Prog I A]) over the interface of
    that service: a call and a continuation for every reply.  Nothing is
    assumed about replies, so a theorem about [runs] holds for every behaviour
    of Kubernetes, of the cloudpool and of the network, including replies that
    contradict each other.  A nil dereference, a slice out of bounds or an
    explicit panic is the outcome [Panicked].  A loop with early returns is a
    recursive function on the list it ranges over.  Slices that a method
    updates in place are returned as a new value.  Loops over lists need no
    fuel.  Other loops take a bound as fuel: the length of the text for
    [Json.read_value] (enough by [Json.parse_json_complete]) and
    [Duration.duration_loop] (enough by [Duration.duration_loop_fuel]), the number
    of arguments for [Flags.flag_loop] (enough by [Flags.flag_loop_fuel]), and the
    number of bits for the loops of [QuantityText] that divide out factors
    (enough by [removeInt64Factors_done] and [removeBigIntFactors_done]).

    Go leaves the order of map iteration, and the order in which [sort.Slice]
    puts equal elements, unspecified: [MapRange] and [SliceSort] stand for any
    implementation.  The texts of JSON errors, and which runes above 255
    [strconv.Quote] leaves unescaped, are parameters ([GoLib]); both only appear
    in messages.

    ** What the theorems show

    - Quantities ([Quantity]): addition, subtraction and comparison are exact on
      rationals whatever the representation, and scaled values are ceilings;
      the text of a quantity stands for exactly its value ([QuantityText]).
    - Scheduling ([QuasiScheduler]): the four predicates together accept a
      node exactly when it has room and the documented meaning of taints, label
      selectors and required affinity admits the pod, for valid labels and at
      most one affinity term (beyond these the code departs from the
      documentation); [Schedule] places the pod on an
      admissible node of least load and charges it there; a failure names a
      reason for every node; when it returns and when it panics; the quick
      capacity check never rejects a placeable group.
    - Scale-down checks ([NodeScaler]): an approval implies that the node is
      unprotected, all its pods are movable, budgets allow it and the pods fit
      elsewhere; a refusal states a reason that holds (a pod that could not be
      placed is refused by every node, each for the reason given); checks change nothing;
      draining taints, evicts in order, and removes the taint when an eviction
      fails; tainting and untainting restores the taints.
    - The proxy ([Proxy]): [SetDesiredSize] and [TerminateMachine] refine a
      specification of their traces ([set_size_spec], [terminate_spec]); a
      larger size is passed on; a smaller one removes at most the excess and
      the least loaded candidates first.
    - The composed services ([System]): every request other than a GET that the
      backend receives from an update is the resize that was asked for, or the
      termination of a machine whose node was found safe, drained and deleted,
      in that order; a panic happens before anything was changed.
    - Effects ([World], [Backends], [Concurrent]): what a resize or a termination
      leaves of the nodes, the active machines and the desired size, on success
      and wherever it fails, in terms of the candidates its own calls found: the
      nodes are as they were until the first removal, success removes exactly
      the excess or all candidates, a failure leaves the pairs removed so far
      with at most one removed by half, and the pods a drain evicted or the
      taint it set may be gone or left then; the same for
      an incoming request among other requests that read, with the status it
      is answered with.  These need services that keep promises, which are
      stated as classes, allow every call to fail, and hold of a concrete store.
      Two examples show what is not prevented: the candidates are not checked
      again between removals, and a pool with machines that are not nodes yet
      is shrunk by the backend.
    - The running program ([Stack]): the same for any number of concurrent
      requests, where the only other requests that can change the pool are
      forwarded ones; between the calls of an update no other request calls the
      cluster or updates the pool; the lock is given back after finitely many
      steps of its holder unless it panics; without new requests the program
      comes to rest, with every request answered unless a panic kept the lock.
    - The cloudpool client ([PoolClient]) and the messages ([Messages]): URLs are
      normalised, forwarded requests are preserved, messages survive encoding
      and decoding, operations succeed exactly on a complete 200 response; the
      pool and the size a backend reports are what the client returns after one
      GET; an error response of the server is returned by each operation of the
      client with its message, wrapped in the prefix of that operation.
    - The server ([Server]): routing, the redirect to the clean path (read as
      a target it is that path with the query, and is not redirected again),
      the outcome of both update handlers, the
      response of forwarding; updates are mutually exclusive in every reachable
      state of concurrent requests, the holder of the lock can always move
      unless its call panicked, and once the call of an update panics the lock
      stays held and no update ever runs again.
    - The sample commands ([Commands]): the drain, resize and terminate commands
      change something only after the checks of the packages they use; the pool
      client command terminates every machine of the pool.
    - Configuration and start-up ([Config], [Main]): accepted configurations are
      usable, written configurations read back, the credentials belong together
      and do not depend on map order when unambiguous, the process serves only
      with such a configuration, and every spelling of the options on the
      command line (a boolean alone or with its value after an equals sign)
      selects those options.

    ** What is not modelled

    Logging, but for the glog flags; [NodeInfo.DetailedString], a JSON dump of a
    node's whole API object for logs; the parser of quantities, which only the
    Kubernetes client calls; the usage text of the commands; the network and HTTP framing below one
    request/response exchange; the Kubernetes REST client below the seven
    methods of [KubeClient]; API object fields the program neither reads nor
    writes; the reordering of an affinity expression's values by the label
    library (they are only searched); the fairness of the lock and of the
    goroutine scheduler.  Generated mocks are left out. *)
From stdpp Require Import base tactics list strings gmap.
From Stdlib Require Import ZArith Lia.

Set Default Proof Using "Type".

(** ** Go results, errors and panics *)

(** The outcome of a Go function body: it returns, or it panics (nil
    dereference, slice bounds). *)
Inductive outcome (A : Type) : Type :=
| Done (a : A)
| Panicked (msg : string).
Arguments Done {_} _.
Arguments Panicked {_} _.

Definition obind {A B} (o : outcome A) (k : A → outcome B) : outcome B :=
  match o with
  | Done a => k a
  | Panicked m => Panicked m
  end.

Declare Scope go_scope.
Delimit Scope go_scope with go.

Notation "'let?' x := o 'in' k" := (obind o (λ x, k))
  (at level 200, x pattern, o at level 200, k at level 200, right associativity) : go_scope.

(** A Go [(T, error)] pair whose callers look at the value only when the error
    is nil. *)
Inductive result (E A : Type) : Type :=
| Ok (a : A)
| Err (e : E).
Arguments Ok {_ _} _.
Arguments Err {_ _} _.

Definition rbind {E A B} (r : result E A) (k : A → result E B) : result E B :=
  match r with
  | Ok a => k a
  | Err e => Err e
  end.

Notation "'let*' x := r 'in' k" := (rbind r (λ x, k))
  (at level 200, x pattern, r at level 200, k at level 200, right associativity) : go_scope.

(** ** Programs that call out *)

(** An interface: the calls a component can make and, for each, the type of
    the reply. *)
Record Iface : Type := mkIface { call : Type; reply : call → Type }.

(** A program over an interface is a finite tree: it returns, it panics, or it
    makes a call and continues with whatever reply the environment gives.
    Every Go loop of the repository ranges over a slice, so no program needs
    an infinite tree, and every run of a program is finite. *)
Inductive Prog (I : Iface) (A : Type) : Type :=
| Ret (a : A)
| Panic (msg : string)
| Vis (c : call I) (k : reply I c → Prog I A).
Arguments Ret {_ _} _.
Arguments Panic {_ _} _.
Arguments Vis {_ _} _ _.

Section Prog.
Context {I : Iface}.

Fixpoint bind {A B} (p : Prog I A) (f : A → Prog I B) : Prog I B :=
  match p with
  | Ret a => f a
  | Panic m => Panic m
  | Vis c k => Vis c (λ r, bind (k r) f)
  end.

Definition invoke (c : call I) : Prog I (reply I c) := Vis c Ret.

(** Run code that may panic but makes no call. *)
Definition pure {A} (o : outcome A) : Prog I A :=
  match o with
  | Done a => Ret a
  | Panicked m => Panic m
  end.

(** One call with the reply it got. *)
Definition event : Type := { c : call I & reply I c }.
Definition ev (c : call I) (r : reply I c) : event := existT c r.
Definition trace : Type := list event.

(** [runs p t o]: some environment makes [p] perform exactly the calls of
    [t], with those replies, and end with [o].  Replies are unconstrained,
    so a statement about all runs is a statement about all environments. *)
Fixpoint runs {A} (p : Prog I A) (t : trace) (o : outcome A) : Prop :=
  match p with
  | Ret a => t = [] ∧ o = Done a
  | Panic m => t = [] ∧ o = Panicked m
  | Vis c k => ∃ r t', t = ev c r :: t' ∧ runs (k r) t' o
  end.

(** An environment answers each call from the calls made before. *)
Definition env : Type := trace → ∀ c : call I, reply I c.

(** The run of [p] in a given environment (executable). *)
Fixpoint exec {A} (e : env) (past : trace) (p : Prog I A) : trace * outcome A :=
  match p with
  | Ret a => ([], Done a)
  | Panic m => ([], Panicked m)
  | Vis c k =>
      let r := e past c in
      let '(t, o) := exec e (past ++ [ev c r]) (k r) in
      (ev c r :: t, o)
  end.

(** Stateful environments: a server that answers from its own state. *)
Fixpoint serve {A S} (h : ∀ c : call I, S → reply I c * S) (s : S) (p : Prog I A)
    : trace * outcome A * S :=
  match p with
  | Ret a => ([], Done a, s)
  | Panic m => ([], Panicked m, s)
  | Vis c k =>
      let '(r, s1) := h c s in
      let '(t, o, s2) := serve h s1 (k r) in
      (ev c r :: t, o, s2)
  end.

Lemma exec_runs {A} (e : env) (p : Prog I A) past :
  runs p (exec e past p).1 (exec e past p).2.
Proof.
  revert past. induction p as [a|m|c k IH]; intros past; simpl; [done..|].
  specialize (IH (e past c) (past ++ [ev c (e past c)])).
  destruct (exec e _ (k (e past c))) as [t o]; simpl in *. eauto.
Qed.

(** Running a program and then the rest on its result. *)
Lemma exec_bind {A B} (e : env) (p : Prog I A) (f : A → Prog I B) past t a :
  exec e past p = (t, Done a) →
  exec e past (bind p f) = ((t ++ (exec e (past ++ t) (f a)).1)%list, (exec e (past ++ t) (f a)).2).
Proof.
  revert past t. induction p as [a'|m|c k IH]; intros past t; simpl; [|done|].
  - intros [= <- ->]. rewrite app_nil_r. by destruct (exec e past (f a)).
  - destruct (exec e _ (k (e past c))) as [t' o] eqn:E. intros [= <- ->]. rewrite (IH _ _ _ E). simpl.
    by rewrite <- app_assoc.
Qed.

Lemma serve_runs {A S} (h : ∀ c : call I, S → reply I c * S) (p : Prog I A) s :
  runs p (serve h s p).1.1 (serve h s p).1.2.
Proof.
  revert s. induction p as [a|m|c k IH]; intros s; simpl; [done..|].
  destruct (h c s) as [r s1]. specialize (IH r s1).
  destruct (serve h s1 (k r)) as [[t o] s2]; simpl in *. eauto.
Qed.

Lemma runs_bind {A B} (p : Prog I A) (f : A → Prog I B) t o :
  runs (bind p f) t o ↔
  (∃ t1 t2 a, t = t1 ++ t2 ∧ runs p t1 (Done a) ∧ runs (f a) t2 o) ∨
  (∃ m, o = Panicked m ∧ runs p t (Panicked m)).
Proof.
  revert t. induction p as [a|m|c k IH]; intros t; simpl.
  - split.
    + intros H. left. exists [], t, a. done.
    + intros [(t1&t2&a'&->&[-> Ha]&Hf)|(m&_&_&Hm)]; by simplify_eq.
  - split.
    + intros [-> ->]. right. eauto.
    + intros [(t1&t2&a'&->&[-> Ha]&Hf)|(m'&->&->&Hm)]; by simplify_eq.
  - split.
    + intros (r&t'&->&H). apply IH in H as [(t1&t2&a&->&H1&H2)|(m&->&H1)].
      * left. exists (ev c r :: t1), t2, a. split_and!; [done| |done]. by exists r, t1.
      * right. exists m. split; [done|]. by exists r, t'.
    + intros [(t1&t2&a&->&(r&t'&->&H1)&H2)|(m&->&(r&t'&->&H1))].
      * exists r, (t' ++ t2). split; [done|]. apply IH. left. by exists t', t2, a.
      * exists r, t'. split; [done|]. apply IH. right. eauto.
Qed.

Lemma runs_invoke c t (o : outcome (reply I c)) :
  runs (invoke c) t o ↔ ∃ r, t = [ev c r] ∧ o = Done r.
Proof.
  unfold invoke; simpl. split.
  - intros (r&t'&->&->&->). eauto.
  - intros (r&->&->). exists r, []. done.
Qed.

(** Every call the program can ever make satisfies [P]. *)
Fixpoint calls_only {A} (P : call I → Prop) (p : Prog I A) : Prop :=
  match p with
  | Ret _ => True
  | Panic _ => True
  | Vis c k => P c ∧ ∀ r, calls_only P (k r)
  end.

Lemma calls_only_bind {A B} P (p : Prog I A) (f : A → Prog I B) :
  calls_only P p → (∀ a, calls_only P (f a)) → calls_only P (bind p f).
Proof. intros Hp Hf. induction p as [a|m|c k IH]; simpl in *; naive_solver. Qed.

Lemma calls_only_pure {A} P (o : outcome A) : calls_only P (pure o).
Proof. by destruct o. Qed.

Lemma calls_only_runs {A} P (p : Prog I A) t o :
  calls_only P p → runs p t o → Forall (λ e : event, P (projT1 e)) t.
Proof.
  revert t. induction p as [a|m|c k IH]; intros t Hc; simpl in *.
  - by intros [-> _].
  - by intros [-> _].
  - intros (r & t' & -> & Hr). constructor; naive_solver.
Qed.

(** A program that never panics. *)
Fixpoint no_panic {A} (p : Prog I A) : Prop :=
  match p with
  | Ret _ => True
  | Panic _ => False
  | Vis c k => ∀ r, no_panic (k r)
  end.

Lemma no_panic_bind {A B} (p : Prog I A) (f : A → Prog I B) :
  no_panic p → (∀ a, no_panic (f a)) → no_panic (bind p f).
Proof. intros Hp Hf. induction p as [a|m|c k IH]; simpl in *; naive_solver. Qed.

Lemma no_panic_runs {A} (p : Prog I A) t m : no_panic p → ¬ runs p t (Panicked m).
Proof.
  revert t. induction p as [a|m'|c k IH]; intros t Hp; simpl in *; [naive_solver..|].
  intros (r & t' & -> & Hr). by eapply IH.
Qed.

(** Every value the program can return satisfies [P]. *)
Fixpoint returns {A} (P : A → Prop) (p : Prog I A) : Prop :=
  match p with
  | Ret a => P a
  | Panic _ => True
  | Vis c k => ∀ r, returns P (k r)
  end.

Lemma returns_bind {A B} (P : B → Prop) (p : Prog I A) (f : A → Prog I B) :
  (∀ a, returns P (f a)) → returns P (bind p f).
Proof. intros Hf. induction p as [a|m|c k IH]; simpl; naive_solver. Qed.

Lemma returns_runs {A} (P : A → Prop) (p : Prog I A) t a : returns P p → runs p t (Done a) → P a.
Proof.
  revert t. induction p as [a'|m|c k IH]; intros t Hp; simpl in *; [naive_solver..|].
  intros (r & t' & -> & Hr). by eapply IH.
Qed.

Lemma runs_pure {A} (x : outcome A) t o : runs (pure x) t o ↔ t = [] ∧ o = x.
Proof. destruct x; done. Qed.
End Prog.
(** Substituting, for every call, the program that implements it. *)
Fixpoint interp {I J : Iface} {A} (h : ∀ c : call I, Prog J (reply I c)) (p : Prog I A)
    : Prog J A :=
  match p with
  | Ret a => Ret a
  | Panic m => Panic m
  | Vis c k => bind (h c) (λ r, interp h (k r))
  end.

(** [after p evs p']: having made the calls [evs], [p] continues as [p']. *)
Fixpoint after {I : Iface} {A} (p : Prog I A) (evs : list (@event I)) (p' : Prog I A) : Prop :=
  match evs with
  | [] => p = p'
  | e :: evs' => ∃ c r k, e = ev c r ∧ p = Vis c k ∧ after (k r) evs' p'
  end.

Lemma after_snoc {I : Iface} {A} (p : Prog I A) t c k r :
  after p t (Vis c k) → after p (t ++ [ev c r]) (k r).
Proof.
  revert p. induction t as [|e t IH]; intros p H; simpl in H.
  - subst p. simpl. by exists c, r, k.
  - destruct H as (c' & r' & k' & -> & -> & H). simpl. exists c', r', k'. split_and!; [done..|]. by apply IH.
Qed.

Lemma after_app_inv {I : Iface} {A} (p p' : Prog I A) t1 t2 :
  after p (t1 ++ t2) p' → ∃ q, after p t1 q ∧ after q t2 p'.
Proof.
  revert p. induction t1 as [|e t1 IH]; intros p H; simpl in H; [by exists p|].
  destruct H as (c & r & k & -> & -> & H). apply IH in H as (q & H1 & H2). exists q.
  split; [|done]. simpl. by exists c, r, k.
Qed.

Lemma after_runs {I : Iface} {A} (p p' : Prog I A) t t' o :
  after p t p' → runs p' t' o → runs p (t ++ t') o.
Proof.
  revert p. induction t as [|e t IH]; intros p H Hr; simpl in H; [by subst p|].
  destruct H as (c & r & k & -> & -> & H). simpl. exists r, (t ++ t'). split; [done|]. by apply IH.
Qed.

(** Where some environment exists, what a program has done so far is the
    beginning of a whole run. *)
Lemma after_completes {I : Iface} {A} (e : @env I) (p p' : Prog I A) t :
  after p t p' → ∃ t' o, runs p (t ++ t') o.
Proof. intros H. eexists _, _. eapply after_runs; [done|]. apply (exec_runs e p' []). Qed.

Lemma after_calls_only {I : Iface} {A} P (p p' : Prog I A) t :
  calls_only P p → after p t p' → Forall (λ e : @event I, P (projT1 e)) t ∧ calls_only P p'.
Proof.
  revert p. induction t as [|e t IH]; intros p Hp H; simpl in H; [by subst p|].
  destruct H as (c & r & k & -> & -> & H). destruct Hp as [Hc Hk]. apply IH in H as [Ht Hp']; [|done].
  split; [by constructor|done].
Qed.

(** A caught panic becomes a value. *)
Fixpoint catch {I : Iface} {A} (p : Prog I A) : Prog I (outcome A) :=
  match p with
  | Ret a => Ret (Done a)
  | Panic m => Ret (Panicked m)
  | Vis c k => Vis c (λ r, catch (k r))
  end.

Lemma runs_catch {I : Iface} {A} (p : Prog I A) t o :
  runs (catch p) t o ↔ ∃ x, o = Done x ∧ runs p t x.
Proof.
  revert t. induction p as [a|m|c k IH]; intros t; simpl.
  - split; [intros [-> ->]; eauto|]. by intros (x & -> & -> & ->).
  - split; [intros [-> ->]; eauto|]. by intros (x & -> & -> & ->).
  - split.
    + intros (r & t' & -> & (x & -> & H)%IH). exists x. split; [done|]. eauto.
    + intros (x & -> & r & t' & -> & H). exists r, t'. split; [done|]. apply IH. eauto.
Qed.

(** Every call of [evs], replaced by its implementation, gave the segment of
    the same index. *)
Definition implements {I J : Iface} (h : ∀ c : call I, Prog J (reply I c))
    (evs : list (@event I)) (segs : list (list (@event J))) : Prop :=
  Forall2 (λ (e : @event I) seg, runs (h (projT1 e)) seg (Done (projT2 e))) evs segs.

(** A run of a composed program is a run of the client, each call of which is
    a run of the implementation. *)
Lemma runs_interp {I J : Iface} {A} (h : ∀ c : call I, Prog J (reply I c)) (p : Prog I A) t a :
  runs (interp h p) t (Done a) →
  ∃ evs segs, runs p evs (Done a) ∧ t = concat segs ∧ implements h evs segs.
Proof.
  revert t. induction p as [a'|m|c k IH]; intros t H; simpl in H.
  - destruct H as [-> [= ->]]. exists [], []. split_and!; [done|done|constructor].
  - by destruct H.
  - apply runs_bind in H as [(t1 & t2 & r & -> & H1 & H2)|(m & ? & _)]; [|done].
    apply IH in H2 as (evs & segs & Hr & -> & Hi).
    exists (ev c r :: evs), (t1 :: segs). split_and!; [|done|by constructor]. simpl. eauto.
Qed.

(** A panic of a composed program is a panic of the client, or of the
    implementation of its next call. *)
Lemma runs_interp_panic {I J : Iface} {A} (h : ∀ c : call I, Prog J (reply I c)) (p : Prog I A) t m :
  runs (interp h p) t (Panicked m) →
  ∃ evs segs rest p', after p evs p' ∧ implements h evs segs ∧ t = concat segs ++ rest ∧
    ((p' = Panic m ∧ rest = []) ∨ ∃ c k, p' = Vis c k ∧ runs (h c) rest (Panicked m)).
Proof.
  revert t. induction p as [a'|m'|c k IH]; intros t H; simpl in H.
  - by destruct H.
  - destruct H as [-> [= ->]]. exists [], [], [], (Panic m'). split_and!; [done|constructor|done|by left].
  - apply runs_bind in H as [(t1 & t2 & r & -> & H1 & H2)|(m' & [= <-] & H1)].
    + apply IH in H2 as (evs & segs & rest & p' & Ha & Hi & -> & Hp).
      exists (ev c r :: evs), (t1 :: segs), rest, p'.
      split_and!; [simpl; by exists c, r, k|by constructor|simpl; by rewrite app_assoc|done].
    + exists [], [], t, (Vis c k). split_and!; [done|constructor|done|right; eauto].
Qed.

(** ** Two interfaces side by side *)

Definition sum_iface (I J : Iface) : Iface :=
  mkIface (call I + call J) (λ c, match c with inl c => reply I c | inr c => reply J c end).

Fixpoint lift_l {I J : Iface} {A} (p : Prog I A) : Prog (sum_iface I J) A :=
  match p with
  | Ret a => Ret a
  | Panic m => Panic m
  | Vis c k => Vis (I := sum_iface I J) (inl c) (λ r, lift_l (k r))
  end.

Fixpoint lift_r {I J : Iface} {A} (p : Prog J A) : Prog (sum_iface I J) A :=
  match p with
  | Ret a => Ret a
  | Panic m => Panic m
  | Vis c k => Vis (I := sum_iface I J) (inr c) (λ r, lift_r (k r))
  end.

Definition ev_l {I J : Iface} (e : @event I) : @event (sum_iface I J) :=
  ev (I := sum_iface I J) (inl (projT1 e)) (projT2 e).
Definition ev_r {I J : Iface} (e : @event J) : @event (sum_iface I J) :=
  ev (I := sum_iface I J) (inr (projT1 e)) (projT2 e).

Lemma runs_lift_l {I J : Iface} {A} (p : Prog I A) t o :
  runs (lift_l (J := J) p) t o ↔ ∃ t', t = map ev_l t' ∧ runs p t' o.
Proof.
  revert t. induction p as [a|m|c k IH]; intros t; simpl.
  - split; [intros [-> ->]; by exists []|]. by intros (t' & -> & -> & ->).
  - split; [intros [-> ->]; by exists []|]. by intros (t' & -> & -> & ->).
  - split.
    + intros (r & t1 & -> & (t' & -> & H)%IH). exists (ev c r :: t'). split; [done|]. eauto.
    + intros (t' & -> & r & t1 & -> & H). exists r, (map ev_l t1). split; [done|]. apply IH. eauto.
Qed.

Lemma runs_lift_r {I J : Iface} {A} (p : Prog J A) t o :
  runs (lift_r (I := I) p) t o ↔ ∃ t', t = map ev_r t' ∧ runs p t' o.
Proof.
  revert t. induction p as [a|m|c k IH]; intros t; simpl.
  - split; [intros [-> ->]; by exists []|]. by intros (t' & -> & -> & ->).
  - split; [intros [-> ->]; by exists []|]. by intros (t' & -> & -> & ->).
  - split.
    + intros (r & t1 & -> & (t' & -> & H)%IH). exists (ev c r :: t'). split; [done|]. eauto.
    + intros (t' & -> & r & t1 & -> & H). exists r, (map ev_r t1). split; [done|]. apply IH. eauto.
Qed.

Lemma calls_only_lift_r {I J : Iface} {A} (P : call (sum_iface I J) → Prop) (p : Prog J A) :
  calls_only (λ c, P (inr c)) p → calls_only P (lift_r p).
Proof. induction p as [a|m|c k IH]; simpl; [done..|]. intros [Hc Hk]. auto. Qed.

Lemma calls_only_catch {I : Iface} {A} (P : call I → Prop) (p : Prog I A) : calls_only P p → calls_only P (catch p).
Proof. induction p as [a|m|c k IH]; simpl; [done..|]. intros [Hc Hk]. auto. Qed.

Arguments event : clear implicits.
Arguments trace : clear implicits.
Arguments env : clear implicits.

Notation "'let!' x := p 'in' k" := (bind p (λ x, k))
  (at level 200, x pattern, p at level 200, k at level 200, right associativity) : go_scope.

Create HintDb prog discriminated.
#[export] Hint Resolve calls_only_bind calls_only_pure no_panic_bind : prog.

(** [prog_walk] proves a [calls_only] or [no_panic] goal by following the
    program text. *)
Ltac prog_walk :=
  repeat first
    [ done
    | progress intros
    | apply calls_only_pure
    | apply calls_only_bind
    | apply no_panic_bind
    | match goal with
      | |- calls_only _ (match ?x with _ => _ end) => destruct x
      | |- no_panic (match ?x with _ => _ end) => destruct x
      end
    | solve [eauto with prog]
    | progress cbv zeta
    | split
    | progress simpl ].

(** [runs_inv] takes a hypothesis about a run apart, call by call. *)
Ltac runs_inv :=
  repeat match goal with
  | H : runs (Ret _) _ _ |- _ => simpl in H; destruct H as [? ?]
  | H : runs (Panic _) _ _ |- _ => simpl in H; destruct H as [? ?]
  | H : runs (bind _ _) _ _ |- _ => apply runs_bind in H
  | H : runs (invoke _) _ _ |- _ => apply runs_invoke in H
  | H : runs (pure _) _ _ |- _ => apply runs_pure in H
  | H : runs (Vis _ _) _ _ |- _ => simpl in H
  | H : _ ∨ _ |- _ => destruct H as [H|H]
  | H : ∃ _, _ |- _ => destruct H as [? H]
  | H : _ ∧ _ |- _ => destruct H as [? H]
  | H : Done _ = Done _ |- _ => injection H as H; subst
  | H : Done _ = Panicked _ |- _ => discriminate H
  | H : Panicked _ = Done _ |- _ => discriminate H
  | H : Ok _ = Err _ |- _ => discriminate H
  | H : Err _ = Ok _ |- _ => discriminate H
  end; subst; simpl in *; subst.

(** ** Splitting traces *)

(** Where an element of a concatenation sits. *)
Lemma split_app {A} (l1 l2 a b : list A) x :
  l1 ++ l2 = a ++ x :: b →
  (∃ b', l1 = a ++ x :: b' ∧ b = b' ++ l2) ∨ (∃ a', a = l1 ++ a' ∧ l2 = a' ++ x :: b).
Proof.
  revert a. induction l1 as [|y l1 IH]; intros a H; simpl in *; [right; by exists a|].
  destruct a as [|z a]; simpl in H; injection H as -> H.
  - left. by exists l1.
  - destruct (IH _ H) as [(b' & -> & ->)|(a' & -> & ->)]; [left; by exists b'|right; by exists a'].
Qed.

Lemma split_concat {A} (ls : list (list A)) a x b :
  concat ls = a ++ x :: b →
  ∃ l1 l l2 u v, ls = l1 ++ l :: l2 ∧ l = u ++ x :: v ∧ a = concat l1 ++ u ∧ b = v ++ concat l2.
Proof.
  revert a. induction ls as [|l ls IH]; intros a H; simpl in H; [by destruct a|].
  apply split_app in H as [(b' & -> & ->)|(a' & -> & H)].
  - exists [], (a ++ x :: b'), ls, a, b'. by split_and!.
  - destruct (IH _ H) as (l1 & l' & l2 & u & v & -> & -> & -> & ->).
    exists (l :: l1), (u ++ x :: v), l2, u, v. split_and!; [done|done| |done]. simpl. by rewrite app_assoc.
Qed.

(** ** Fixed-width integers *)

(** Two's complement wrap-around of Go's [int64] and [int32]. *)
Definition wrap64 (z : Z) : Z := ((z + 2^63) mod 2^64 - 2^63)%Z.
Definition wrap32 (z : Z) : Z := ((z + 2^31) mod 2^32 - 2^31)%Z.

Definition MinInt64 : Z := (- 2^63)%Z.
Definition MaxInt64 : Z := (2^63 - 1)%Z.
Definition int64_range (z : Z) : Prop := (MinInt64 ≤ z ≤ MaxInt64)%Z.
Definition in_int64 (z : Z) : bool := ((MinInt64 <=? z) && (z <=? MaxInt64))%Z.

Lemma wrap64_range z : int64_range (wrap64 z).
Proof. unfold int64_range, wrap64, MinInt64, MaxInt64. pose proof (Z.mod_pos_bound (z + 2^63) (2^64)). lia. Qed.

Lemma wrap64_small z : int64_range z → wrap64 z = z.
Proof.
  unfold int64_range, wrap64, MinInt64, MaxInt64. intros H.
  rewrite Z.mod_small; lia.
Qed.

Lemma wrap64_mod z : ∃ k, wrap64 z = (z + k * 2^64)%Z.
Proof.
  exists (- ((z + 2^63) / 2^64))%Z. unfold wrap64.
  pose proof (Z.div_mod (z + 2^63) (2^64)). lia.
Qed.

Lemma wrap32_small z : (- 2^31 ≤ z < 2^31)%Z → wrap32 z = z.
Proof. unfold wrap32. intros H. rewrite Z.mod_small; lia. Qed.

Lemma in_int64_spec z : in_int64 z = true ↔ int64_range z.
Proof. unfold in_int64, int64_range. rewrite andb_true_iff, !Z.leb_le. done. Qed.

#[export] Instance int64_range_dec z : Decision (int64_range z).
Proof. unfold int64_range. apply _. Defined.
