(* ===== verification/Strconv.v ===== *)
(** * Strings, runes and numbers

    What the program uses of packages strings, unicode/utf8 and strconv: texts
    are byte strings, as in Go; [runes] cuts one into UTF-8 sequences; integers
    are read in base 10, and in the base a prefix tells.  Integers are printed by
    the [pretty] of the standard library extension, and read back.

    The class [GoLib] has the two things the texts of messages depend on that
    are left open: which runes outside Latin-1 are printable, and the texts of
    JSON errors. *)
From stdpp Require Import base tactics list strings pretty.
From Stdlib Require Import ZArith NArith Lia Ascii.
From S2P Require Import Prelude.

Local Open Scope string_scope.
#[local] Arguments String.append : simpl nomatch.

(** ** Characters and strings *)

Definition in_range (c lo hi : ascii) : bool :=
  (N_of_ascii lo <=? N_of_ascii c)%N && (N_of_ascii c <=? N_of_ascii hi)%N.

Definition is_lower (c : ascii) : bool := in_range c "a" "z".

Definition is_digit (c : ascii) : bool := in_range c "0" "9".

Definition is_alnum (c : ascii) : bool := is_lower c || in_range c "A" "Z" || is_digit c.

Definition is_letter (c : ascii) : bool := in_range c "a" "z" || in_range c "A" "Z".

Fixpoint char_in (c : ascii) (s : string) : bool :=
  match s with "" => false | String d s' => Ascii.eqb c d || char_in c s' end.

Definition byte (n : N) : ascii := ascii_of_N n.

Definition code (c : ascii) : N := N_of_ascii c.

Definition between (lo hi : N) (c : ascii) : bool := (lo <=? code c)%N && (code c <=? hi)%N.

Lemma app_assoc_s (a b c : string) : (a +:+ b) +:+ c = a +:+ (b +:+ c).
Proof. induction a as [|x a IH]; simpl; [done|]. by rewrite IH. Qed.

Lemma app_nil_s (a : string) : a +:+ "" = a.
Proof. induction a as [|x a IH]; simpl; [done|]. by rewrite IH. Qed.

Lemma length_app_s (a b : string) : String.length (a +:+ b) = (String.length a + String.length b)%nat.
Proof. induction a as [|x a IH]; simpl; [done|]. by rewrite IH. Qed.

Fixpoint all_chars (f : ascii → bool) (s : string) : bool :=
  match s with
  | "" => true
  | String c s' => f c && all_chars f s'
  end.

Lemma all_chars_impl (f g : ascii → bool) s :
  (∀ c, f c = true → g c = true) → all_chars f s = true → all_chars g s = true.
Proof.
  intros Hfg. induction s as [|c s IH]; simpl; [done|]. intros [Hc Hs]%andb_true_iff. rewrite (Hfg c Hc). by apply IH.
Qed.

Lemma all_chars_app f a b : all_chars f (a +:+ b) = all_chars f a && all_chars f b.
Proof. induction a as [|c a IH]; simpl; [done|]. by rewrite IH, andb_assoc. Qed.

Lemma ordinary_chars (f : ascii → bool) :
  forallb f (map ascii_of_nat (seq 0 256)) = true → ∀ c, f c = true.
Proof.
  intros H c. rewrite forallb_forall in H. rewrite <- (ascii_nat_embedding c). apply H, in_map, in_seq.
  pose proof (nat_ascii_bounded c). lia.
Qed.

Fixpoint Split (sep : ascii) (s : string) : list string :=
  match s with
  | EmptyString => [EmptyString]
  | String c s' =>
      if Ascii.eqb c sep then EmptyString :: Split sep s'
      else match Split sep s' with
           | [] => [String c EmptyString]
           | w :: ws => String c w :: ws
           end
  end.

Fixpoint span (f : ascii → bool) (s : string) : string * string :=
  match s with
  | String c s' => if f c then let '(a, b) := span f s' in (String c a, b) else ("", s)
  | "" => ("", "")
  end.

Lemma span_all f s rest :
  all_chars f s = true → match rest with "" => true | String c _ => negb (f c) end = true →
  span f (s +:+ rest) = (s, rest).
Proof.
  induction s as [|c s IH]; intros Hs Hr; simpl in *.
  - destruct rest as [|c rest]; [done|]. simpl. by destruct (f c).
  - apply andb_true_iff in Hs as [Hc Hs]. by rewrite Hc, IH.
Qed.

(** ** unicode/utf8 *)

(** [utf8.EncodeRune]; a surrogate half encodes as U+FFFD. *)
Definition replacement : string := String (byte 239) (String (byte 191) (String (byte 189) "")).

Definition encode_rune (r : N) : string :=
  if (r <? 128)%N then String (byte r) ""
  else if (r <? 2048)%N then String (byte (192 + r / 64)) (String (byte (128 + r mod 64)) "")
  else if (55296 <=? r)%N && (r <=? 57343)%N then replacement
  else if (r <? 65536)%N then
    String (byte (224 + r / 4096)) (String (byte (128 + r / 64 mod 64)) (String (byte (128 + r mod 64)) ""))
  else
    String (byte (240 + r / 262144)) (String (byte (128 + r / 4096 mod 64))
      (String (byte (128 + r / 64 mod 64)) (String (byte (128 + r mod 64)) ""))).

Definition is_cont (c : ascii) : bool := between 128 191 c.

(** The UTF-8 sequences of a string; a byte that belongs to none is [None]. *)
Fixpoint runes (s : string) : list (option string) :=
  match s with
  | "" => []
  | String a s1 =>
      if between 0 127 a then Some (String a "") :: runes s1
      else
        match s1 with
        | String b s2 =>
            if between 194 223 a && is_cont b then Some (String a (String b "")) :: runes s2
            else
              match s2 with
              | String c s3 =>
                  if ((Ascii.eqb a (byte 224) && between 160 191 b) ||
                      (Ascii.eqb a (byte 237) && between 128 159 b) ||
                      ((between 225 236 a || between 238 239 a) && is_cont b)) && is_cont c
                  then Some (String a (String b (String c ""))) :: runes s3
                  else
                    match s3 with
                    | String d s4 =>
                        if ((Ascii.eqb a (byte 240) && between 144 191 b) ||
                            (Ascii.eqb a (byte 244) && between 128 143 b) ||
                            (between 241 243 a && is_cont b)) && is_cont c && is_cont d
                        then Some (String a (String b (String c (String d "")))) :: runes s4
                        else None :: runes s1
                    | "" => None :: runes s1
                    end
              | "" => None :: runes s1
              end
        | "" => None :: runes s1
        end
  end.

(** All bytes are ASCII. *)
Fixpoint is_ascii_string (s : string) : bool :=
  match s with
  | "" => true
  | String c s' => between 0 127 c && is_ascii_string s'
  end.

Lemma runes_ascii s : is_ascii_string s = true → runes s = map (λ c, Some (String c "")) (String.list_ascii_of_string s).
Proof.
  induction s as [|c s IH]; simpl; [done|]. intros [Hc Hs]%andb_true_iff. by rewrite Hc, IH.
Qed.

Definition quote_mark : string := String (byte 34) "".

Definition hex_digit (n : N) : ascii := if (n <? 10)%N then byte (n + 48) else byte (n + 87).

(** ** strconv: reading numbers *)

Definition digit_of (c : ascii) : option Z :=
  let n := Z.of_N (N_of_ascii c) in
  if ((48 <=? n) && (n <=? 57))%Z then Some (n - 48)%Z else None.

Fixpoint parse_digits (acc : Z) (s : string) : option Z :=
  match s with
  | EmptyString => Some acc
  | String c s' =>
      match digit_of c with
      | Some d => parse_digits (acc * 10 + d)%Z s'
      | None => None
      end
  end.

Definition ParseUint10 (s : string) : option Z :=
  match s with EmptyString => None | _ => parse_digits 0 s end.

Definition ParseInt (s : string) : option Z :=
  let '(neg, rest) :=
    match s with
    | String "+" r => (false, r)
    | String "-" r => (true, r)
    | _ => (false, s)
    end in
  match ParseUint10 rest with
  | Some n => let z := (if neg then - n else n)%Z in if in_int64 z then Some z else None
  | None => None
  end.

Inductive num_error : Type := ErrSyntax | ErrRange.

Definition num_error_text (fn quoted : string) (e : num_error) : string :=
  "strconv." +:+ fn +:+ ": parsing " +:+ quoted +:+ ": " +:+
  match e with ErrSyntax => "invalid syntax" | ErrRange => "value out of range" end.

(** The value of a digit or letter, if it is a digit of the base. *)
Definition digit_in (base : Z) (c : ascii) : option Z :=
  let n := Z.of_N (N_of_ascii c) in
  let d := if in_range c "0" "9" then Some (n - 48)%Z
           else if in_range c "a" "z" then Some (n - 87)%Z
           else if in_range c "A" "Z" then Some (n - 55)%Z
           else None in
  match d with Some d => if (d <? base)%Z then Some d else None | None => None end.

(** [strconv.ParseUint]: an overflow is noticed at the digit that causes it,
    before what follows is looked at. *)
Fixpoint uint_loop (base n : Z) (s : string) : result num_error Z :=
  match s with
  | "" => Ok n
  | String c s' =>
      match digit_in base c with
      | None => Err ErrSyntax
      | Some d => if (2^64 <=? n * base + d)%Z then Err ErrRange else uint_loop base (n * base + d) s'
      end
  end.

Definition uint_base_10 (s : string) : result num_error Z :=
  match s with "" => Err ErrSyntax | _ => uint_loop 10 0 s end.

(** Base 0: the prefix tells the base. *)
Definition uint_base_0 (s : string) : result num_error Z :=
  match s with
  | "" => Err ErrSyntax
  | String "0" (String x rest) =>
      if Ascii.eqb x "x" || Ascii.eqb x "X" then
        match rest with "" => Err ErrSyntax | _ => uint_loop 16 0 rest end
      else uint_loop 8 0 (String x rest)
  | _ => uint_loop 10 0 s
  end.

Definition signed (parse_uint : string → result num_error Z) (s : string) : result num_error Z :=
  let '(neg, rest) :=
    match s with
    | String "+" r => (false, r)
    | String "-" r => (true, r)
    | _ => (false, s)
    end in
  match parse_uint rest with
  | Err e => Err e
  | Ok un =>
      if negb neg && (2^63 <=? un)%Z then Err ErrRange
      else if neg && (2^63 <? un)%Z then Err ErrRange
      else Ok (if neg then - un else un)%Z
  end.

Definition Atoi (s : string) : result num_error Z := signed uint_base_10 s.

Definition ParseInt_base_0 (s : string) : result num_error Z := signed uint_base_0 s.

Definition ParseBool (s : string) : result num_error bool :=
  if bool_decide (s ∈ ["1"; "t"; "T"; "true"; "TRUE"; "True"]) then Ok true
  else if bool_decide (s ∈ ["0"; "f"; "F"; "false"; "FALSE"; "False"]) then Ok false
  else Err ErrSyntax.

(** ** Printed numbers are read back *)

Lemma pretty_char_digit n : (n < 10)%N →
  digit_of (pretty_N_char n) = Some (Z.of_N n) ∧ is_digit (pretty_N_char n) = true ∧
  (n ≠ 0%N → Ascii.eqb (pretty_N_char n) "0" = false).
Proof.
  intros H. assert (n ∈ [0;1;2;3;4;5;6;7;8;9]%N) as Hn by (rewrite !elem_of_cons, elem_of_nil; lia).
  rewrite !elem_of_cons, elem_of_nil in Hn. destruct_or?; subst; try done; by split_and!.
Qed.

(** The digits of a positive number: the first is not zero, and they read back
    as the number. *)
Lemma pretty_digits x s : (0 < x)%N →
  ∃ d ds k, pretty_N_go x s = String d ds +:+ s ∧ is_digit d = true ∧ Ascii.eqb d "0" = false ∧
    all_chars is_digit ds = true ∧
    ∀ acc, parse_digits acc (pretty_N_go x s) = parse_digits (acc * 10 ^ Z.of_nat k + Z.of_N x) s.
Proof.
  revert s. induction (N.lt_wf_0 x) as [x _ IH]. intros s Hx. rewrite pretty_N_go_step by done.
  assert (Hm : (x mod 10 < 10)%N) by (apply N.mod_lt; lia).
  destruct (pretty_char_digit _ Hm) as (Hv & Hd & Hz).
  pose proof (N.div_mod x 10 ltac:(lia)) as Hdm.
  destruct (decide (x `div` 10 = 0)%N) as [E|E].
  - rewrite E, pretty_N_go_0. exists (pretty_N_char (x mod 10)), "", 1%nat.
    split_and!; [done|done|apply Hz; lia|done|]. intros acc. cbn [parse_digits]. rewrite Hv. f_equal. lia.
  - assert (x `div` 10 < x)%N by (apply N.div_lt; lia).
    destruct (IH (x `div` 10)%N ltac:(done) (String (pretty_N_char (x mod 10)) s) ltac:(lia))
      as (d & ds & k & Hgo & Hdd & Hd0 & Hds & Hacc).
    exists d, (ds +:+ String (pretty_N_char (x mod 10)) ""), (S k). split_and!; [|done|done| |].
    + rewrite Hgo. change (String d ?a +:+ ?b) with (String d (a +:+ b)). f_equal. by rewrite app_assoc_s.
    + rewrite all_chars_app, Hds. simpl. by rewrite Hd.
    + intros acc. rewrite Hacc. cbn [parse_digits]. rewrite Hv. f_equal.
      rewrite Nat2Z.inj_succ, Z.pow_succ_r by lia. lia.
Qed.

Lemma pretty_N_pos x : (0 < x)%N → pretty x = pretty_N_go x "".
Proof. intros H. unfold pretty, pretty_N. by rewrite decide_False by lia. Qed.

Lemma digit_in_10 c : digit_in 10 c = digit_of c.
Proof.
  pose proof (ordinary_chars (λ c, bool_decide (digit_in 10 c = digit_of c))) as H.
  specialize (H ltac:(vm_compute; reflexivity) c). by apply bool_decide_eq_true in H.
Qed.

Lemma digit_of_nonneg c d : digit_of c = Some d → (0 ≤ d)%Z.
Proof.
  unfold digit_of. destruct (Z.leb_spec 48 (Z.of_N (N_of_ascii c))); [|done]. simpl.
  case_match; [intros [= <-]; lia|done].
Qed.

Lemma parse_digits_ge acc s n : (0 ≤ acc)%Z → parse_digits acc s = Some n → (acc ≤ n)%Z.
Proof.
  revert acc. induction s as [|c s IH]; intros acc Ha H; simpl in H; [by simplify_eq|].
  destruct (digit_of c) as [d|] eqn:Ed; [|done]. apply digit_of_nonneg in Ed.
  apply IH in H; lia.
Qed.

Lemma uint_loop_spec acc s n :
  (0 ≤ acc < 2^64)%Z → uint_loop 10 acc s = Ok n ↔ parse_digits acc s = Some n ∧ (n < 2^64)%Z.
Proof.
  revert acc. induction s as [|c s IH]; intros acc Ha; simpl; [split; [intros [= ->]|intros [[= ->] _]]; done || (split; [done|lia])|].
  rewrite digit_in_10. destruct (digit_of c) as [d|] eqn:Ed; [|split; [done|by intros [? _]]]. apply digit_of_nonneg in Ed.
  destruct (Z.leb_spec (2^64) (acc * 10 + d)); [|apply IH; lia]. split; [done|].
  intros [Hp Hn]. apply parse_digits_ge in Hp; lia.
Qed.

(** [Atoi] reads what [ParseInt] reads. *)
Lemma Atoi_spec s n : Atoi s = Ok n ↔ ParseInt s = Some n.
Proof.
  unfold Atoi, signed, ParseInt.
  destruct (match s with String "+" r => (false, r) | String "-" r => (true, r) | _ => (false, s) end) as [neg rest].
  unfold uint_base_10, ParseUint10. destruct rest as [|c rest]; [by split|]. set (r := String c rest).
  assert (Hr : ∀ un, uint_loop 10 0 r = Ok un ↔ parse_digits 0 r = Some un ∧ (un < 2^64)%Z) by (intros un; apply uint_loop_spec; lia).
  destruct (parse_digits 0 r) as [m|] eqn:Em.
  - assert (0 ≤ m)%Z by by eapply parse_digits_ge. unfold in_int64, MinInt64, MaxInt64.
    destruct (uint_loop 10 0 r) as [un|e] eqn:Eu.
    + destruct (proj1 (Hr un) eq_refl) as [[= ->] Hlt]. destruct neg; simpl negb; simpl andb.
      * destruct (Z.ltb_spec (2^63) un); [rewrite (proj2 (Z.leb_gt _ _)) by lia; by split|].
        rewrite !(proj2 (Z.leb_le _ _)) by lia. simpl. split; by intros [= ->].
      * destruct (Z.leb_spec (2^63) un).
        -- rewrite (proj2 (Z.leb_gt un _)) by lia. by rewrite andb_false_r.
        -- rewrite !(proj2 (Z.leb_le _ _)) by lia. simpl. split; by intros [= ->].
    + assert (2^64 ≤ m)%Z.
      { destruct (Z.lt_ge_cases m (2^64)) as [Hlt|]; [|done]. pose proof (proj2 (Hr m) (conj eq_refl Hlt)). congruence. }
      split; [done|]. destruct neg; [rewrite (proj2 (Z.leb_gt _ (- m))) by lia; done|].
      rewrite (proj2 (Z.leb_gt m _)) by lia. by rewrite andb_false_r.
  - destruct (uint_loop 10 0 r) as [un|e] eqn:Eu; [|by split]. by destruct (proj1 (Hr un) eq_refl).
Qed.

Lemma pretty_leading n :
  n ≠ 0%Z → ∃ d ds, (pretty n = String d ds ∨ pretty n = String "-" (String d ds)) ∧ is_digit d = true ∧ Ascii.eqb d "0" = false.
Proof.
  intros Hn.
  assert (∀ p, ∃ d ds, pretty (N.pos p) = String d ds ∧ is_digit d = true ∧ Ascii.eqb d "0" = false) as Hp.
  { intros p. destruct (pretty_digits (N.pos p) "") as (d & ds & k & Hgo & Hd & H0 & _); [lia|].
    rewrite app_nil_s in Hgo. exists d, ds. split_and!; [|done..]. by rewrite pretty_N_pos. }
  destruct n as [|p|p]; [done|..]; destruct (Hp p) as (d & ds & E & Hd & H0); exists d, ds; (split; [|done]).
  - left. exact E.
  - right. change (pretty (Z.neg p)) with ("-" +:+ pretty (N.pos p)). by rewrite E.
Qed.

(** A number without a leading zero is read in base 10. *)
Lemma uint_base_0_decimal d ds : is_digit d = true → Ascii.eqb d "0" = false → uint_base_0 (String d ds) = uint_base_10 (String d ds).
Proof. intros Hd H0. destruct d as [[] [] [] [] [] [] [] []]; try discriminate Hd; try discriminate H0; reflexivity. Qed.

Lemma signed_digit f d ds : is_digit d = true →
  signed f (String d ds) = match f (String d ds) with Err e => Err e | Ok un => if (2^63 <=? un)%Z then Err ErrRange else Ok un end.
Proof.
  intros Hd. unfold signed.
  assert (match String d ds with String "+" r => (false, r) | String "-" r => (true, r) | _ => (false, String d ds) end
          = (false, String d ds)) as ->.
  { destruct d as [[] [] [] [] [] [] [] []]; try discriminate Hd; done. }
  by destruct (f (String d ds)).
Qed.

(** A printed integer is read back. *)
Lemma ParseInt_pretty n : int64_range n → ParseInt (pretty n) = Some n.
Proof.
  intros Hn. destruct n as [|p|p]; [done|..].
  - change (pretty (Z.pos p)) with (pretty (N.pos p)). rewrite pretty_N_pos by lia.
    destruct (pretty_digits (N.pos p) "") as (d & ds & k & Hgo & Hd & H0 & Hds & Hacc); [lia|].
    rewrite app_nil_s in Hgo. specialize (Hacc 0%Z). rewrite Z.mul_0_l, Z.add_0_l in Hacc. rewrite Hgo in *.
    unfold ParseInt.
    assert (match String d ds with String "+" r => (false, r) | String "-" r => (true, r) | _ => (false, String d ds) end
            = (false, String d ds)) as ->.
    { destruct d as [[] [] [] [] [] [] [] []]; try discriminate Hd; done. }
    cbn [ParseUint10]. rewrite Hacc. simpl parse_digits.
    cbv beta iota. by rewrite (proj2 (in_int64_spec _) Hn).
  - change (pretty (Z.neg p)) with ("-" +:+ pretty (N.pos p)). rewrite pretty_N_pos by lia.
    destruct (pretty_digits (N.pos p) "") as (d & ds & k & Hgo & Hd & H0 & Hds & Hacc); [lia|].
    rewrite app_nil_s in Hgo. specialize (Hacc 0%Z). rewrite Z.mul_0_l, Z.add_0_l in Hacc. rewrite Hgo in *.
    change ("-" +:+ ?x) with (String "-" x). cbn [ParseInt].
    change (ParseUint10 (String d ds)) with (parse_digits 0 (String d ds)).
    rewrite Hacc. simpl parse_digits. cbv beta iota zeta. change (- Z.pos p)%Z with (Z.neg p).
    by rewrite (proj2 (in_int64_spec _) Hn).
Qed.

(** A printed integer is read back as the value of an integer flag. *)
Lemma ParseInt_base_0_pretty n : int64_range n → ParseInt_base_0 (pretty n) = Ok n.
Proof.
  intros Hn. destruct (decide (n = 0%Z)) as [->|Hne]; [done|].
  pose proof (ParseInt_pretty n Hn) as Hp%Atoi_spec. rewrite <- Hp. unfold ParseInt_base_0, Atoi.
  destruct (pretty_leading n Hne) as (d & ds & [->| ->] & Hd & H0).
  - rewrite !signed_digit, uint_base_0_decimal by done. done.
  - unfold signed. by rewrite uint_base_0_decimal.
Qed.

(** ** Texts of errors *)

(** A syntax error, a value of the wrong type for a Go type, or the error of a
    type's own [UnmarshalJSON]. *)
Inductive json_error : Type :=
| JSyntaxError
| JTypeError (value : string) (type : string)
| JCustomError (msg : string).

Class GoLib : Type := {
  (** [strconv.IsPrint] of a rune above 255 *)
  IsPrint : N → bool;
  (** the text of a decoding error of encoding/json *)
  jsonErrorText : json_error → string }.

(** The code point of a UTF-8 sequence. *)
Definition rune_value (seq : string) : N :=
  match seq with
  | String a "" => code a
  | String a (String b "") => ((code a - 192) * 64 + (code b - 128))%N
  | String a (String b (String c "")) => ((code a - 224) * 4096 + (code b - 128) * 64 + (code c - 128))%N
  | String a (String b (String c (String d _))) =>
      ((code a - 240) * 262144 + (code b - 128) * 4096 + (code c - 128) * 64 + (code d - 128))%N
  | "" => 0%N
  end.

(** Hexadecimal digits, [width] of them. *)
Fixpoint hex_text (width : nat) (n : N) : string :=
  match width with
  | O => ""
  | S w => hex_text w (n / 16) +:+ String (hex_digit (n mod 16)) ""
  end.

Fixpoint drop_bytes (n : nat) (s : string) : string :=
  match n, s with S n, String _ s' => drop_bytes n s' | _, _ => s end.

Section Quote.
Context `{lib : !GoLib}.

Definition is_print (r : N) : bool :=
  if (r <=? 255)%N then (32 <=? r)%N && (r <? 127)%N || (161 <=? r)%N && negb (r =? 173)%N else IsPrint r.

(** One rune of a quoted string; [None] is a byte of no rune. *)
Definition appendEscapedRune (seq : string) : string :=
  let r := rune_value seq in
  if (r =? 34)%N || (r =? 92)%N then String "\" seq
  else if is_print r then seq
  else if (r =? 7)%N then "\a"
  else if (r =? 8)%N then "\b"
  else if (r =? 12)%N then "\f"
  else if (r =? 10)%N then "\n"
  else if (r =? 13)%N then "\r"
  else if (r =? 9)%N then "\t"
  else if (r =? 11)%N then "\v"
  else if (r <? 32)%N then "\x" +:+ hex_text 2 r
  else if (r <? 65536)%N then "\u" +:+ hex_text 4 r
  else "\U" +:+ hex_text 8 r.

Fixpoint quote_loop (s : string) (rs : list (option string)) : string :=
  match rs, s with
  | Some seq :: rs, _ => appendEscapedRune seq +:+ quote_loop (drop_bytes (String.length seq) s) rs
  | None :: rs, String c s' => "\x" +:+ hex_text 2 (code c) +:+ quote_loop s' rs
  | _, _ => ""
  end.

(** [strconv.Quote] *)
Definition Quote (s : string) : string := quote_mark +:+ quote_loop s (runes s) +:+ quote_mark.
End Quote.

(** An instance for examples. *)
Definition plain_lib : GoLib := {| IsPrint _ := true; jsonErrorText _ := "json error" |}.

Example quote_escapes : Quote (lib := plain_lib) ("a" +:+ String (byte 10) (String (byte 255) "b")) =
  quote_mark +:+ "a\n\xffb" +:+ quote_mark.
Proof. reflexivity. Qed.
