(* ===== verification/Quantity.v ===== *)
(** * Resource quantities

    The vendored [resource.Quantity] (apimachinery/pkg/api/resource), the only
    number type the scheduler does arithmetic on: an [int64] with a decimal
    scale as long as the arithmetic fits, and an arbitrary-precision [inf.Dec]
    after that.  The cached rendering [s] is not modelled.  All code of the
    repository reads and updates quantities it owns (zero values or deep
    copies), so in-place updates are modelled as functions returning the new
    value.

    The reference definition is [qval], the rational number a quantity stands
    for; the theorems show that [Add], [Sub] and [Cmp] compute exactly with
    it, whichever representation and overflow path they take. *)
From stdpp Require Import base tactics strings.
From Stdlib Require Import ZArith QArith Qpower Qround Lia Lqa.
From S2P Require Import Prelude Strconv.

Local Open Scope Z_scope.

(** ** math.go: overflow-checked int64 arithmetic *)

Definition mostNegative : Z := MinInt64.
Definition mostPositive : Z := MaxInt64.

Definition int64Add (a b : Z) : Z * bool :=
  let c := wrap64 (a + b) in
  if (0 <? a) && (0 <? b) then
    if c <? 0 then (0, false) else (c, true)
  else if (a <? 0) && (b <? 0) then
    if 0 <? c then (0, false)
    else if (a =? mostNegative) && (b =? mostNegative) then (0, false)
    else (c, true)
  else (c, true).

Definition int64MultiplyScale (a b : Z) : Z * bool :=
  if (a =? 0) || (a =? 1) then (wrap64 (a * b), true)
  else if (a =? mostNegative) && negb (b =? 1) then (0, false)
  else let c := wrap64 (a * b) in (c, Z.quot c b =? a).

Definition int64MultiplyScale10 (a : Z) : Z * bool :=
  if (a =? 0) || (a =? 1) then (wrap64 (a * 10), true)
  else if a =? mostNegative then (0, false)
  else let c := wrap64 (a * 10) in (c, Z.quot c 10 =? a).

Definition int64MultiplyScale100 (a : Z) : Z * bool :=
  if (a =? 0) || (a =? 1) then (wrap64 (a * 100), true)
  else if a =? mostNegative then (0, false)
  else let c := wrap64 (a * 100) in (c, Z.quot c 100 =? a).

Definition int64MultiplyScale1000 (a : Z) : Z * bool :=
  if (a =? 0) || (a =? 1) then (wrap64 (a * 1000), true)
  else if a =? mostNegative then (0, false)
  else let c := wrap64 (a * 1000) in (c, Z.quot c 1000 =? a).

(** The loop of [positiveScaleInt64]'s default case. *)
Fixpoint scaleUpLoop (n : nat) (value : Z) : Z * bool :=
  match n with
  | O => (value, true)
  | S n' =>
      let '(v, ok) := int64MultiplyScale value 10 in
      if ok then scaleUpLoop n' v else (0, false)
  end.

Definition positiveScaleInt64 (base scale : Z) : Z * bool :=
  if scale =? 0 then (base, true)
  else if scale =? 1 then int64MultiplyScale10 base
  else if scale =? 2 then int64MultiplyScale100 base
  else if scale =? 3 then int64MultiplyScale1000 base
  else if scale =? 6 then int64MultiplyScale base 1000000
  else if scale =? 9 then int64MultiplyScale base 1000000000
  else scaleUpLoop (Z.to_nat scale) base.

(** The loop of [negativeScaleInt64], with what follows it. *)
Fixpoint scaleDownLoop (n : nat) (base value : Z) (fraction : bool) : Z * bool :=
  match n with
  | O =>
      if fraction then
        if 0 <? base then (value + 1, false) else (value + -1, false)
      else (value, true)
  | S n' =>
      let fraction' := fraction || negb (Z.rem value 10 =? 0) in
      let value' := Z.quot value 10 in
      if value' =? 0 then
        if fraction' then
          if 0 <? base then (1, false) else (-1, false)
        else (0, true)
      else scaleDownLoop n' base value' fraction'
  end.

Definition negativeScaleInt64 (base scale : Z) : Z * bool :=
  if scale =? 0 then (base, true)
  else scaleDownLoop (Z.to_nat scale) base base false.

Definition pow10Int64 (b : Z) : Z :=
  if (0 <=? b) && (b <=? 18) then 10 ^ b else 0.

Definition divideByScaleInt64 (base scale : Z) : Z * Z * bool :=
  if scale =? 0 then (base, 0, true)
  else if 18 <=? scale then (0, base, false)
  else let divisor := pow10Int64 scale in
       (Z.quot base divisor, Z.rem base divisor, true).

(** ** inf.Dec: [unscaled * 10^(-scale)], of unbounded precision *)

Record Dec : Type := MkDec { unscaled : Z; dscale : Z }.

Definition Dec_rescale (x : Dec) (newScale : Z) : Dec :=
  let shift := wrap32 (newScale - dscale x) in
  if shift <? 0 then MkDec (Z.quot (unscaled x) (10 ^ (- shift))) newScale
  else if 0 <? shift then MkDec (unscaled x * 10 ^ shift) newScale
  else x.

Definition Dec_upscale (a b : Dec) : Dec * Dec :=
  if dscale a =? dscale b then (a, b)
  else if dscale b <? dscale a then (a, Dec_rescale b (dscale a))
  else (Dec_rescale a (dscale b), b).

Definition sign_of (c : comparison) : Z :=
  match c with Lt => -1 | Eq => 0 | Gt => 1 end.

Definition Dec_Cmp (x y : Dec) : Z :=
  let '(xx, yy) := Dec_upscale x y in
  sign_of (unscaled xx ?= unscaled yy).

Definition Dec_Add (x y : Dec) : Dec :=
  let '(xx, yy) := Dec_upscale x y in
  MkDec (unscaled xx + unscaled yy) (dscale xx).

Definition Dec_Sub (x y : Dec) : Dec :=
  let '(xx, yy) := Dec_upscale x y in
  MkDec (unscaled xx - unscaled yy) (dscale xx).

(** ** amount.go: int64 with a decimal scale *)

Record int64Amount : Type := Int64Amount { value : Z; scale : Z }.

Definition int64Amount_AsDec (a : int64Amount) : Dec :=
  MkDec (value a) (wrap32 (- scale a)).

Definition cmp_values (a b : Z) : Z :=
  if a =? b then 0 else if a <? b then -1 else 1.

Definition int64Amount_Cmp (a b : int64Amount) : Z :=
  if scale a =? scale b then cmp_values (value a) (value b)
  else if scale b <? scale a then
    let '(result, remainder, exact) :=
      divideByScaleInt64 (value b) (wrap32 (scale a - scale b)) in
    if negb exact then Dec_Cmp (int64Amount_AsDec a) (int64Amount_AsDec b)
    else if result =? value a then
      if remainder =? 0 then 0 else if 0 <? remainder then -1 else 1
    else cmp_values (value a) result
  else
    let '(result, remainder, exact) :=
      divideByScaleInt64 (value a) (wrap32 (scale b - scale a)) in
    if negb exact then Dec_Cmp (int64Amount_AsDec a) (int64Amount_AsDec b)
    else if result =? value b then
      if remainder =? 0 then 0 else if 0 <? remainder then 1 else -1
    else cmp_values result (value b).

(** The receiver after [Add], and whether it was updated. *)
Definition int64Amount_Add (a b : int64Amount) : int64Amount * bool :=
  if value b =? 0 then (a, true)
  else if value a =? 0 then (Int64Amount (value b) (scale b), true)
  else if scale a =? scale b then
    let '(c, ok) := int64Add (value a) (value b) in
    if negb ok then (a, false) else (Int64Amount c (scale a), true)
  else if scale b <? scale a then
    let '(c, ok) := positiveScaleInt64 (value a) (wrap32 (scale a - scale b)) in
    if negb ok then (a, false) else
    let '(c, ok) := int64Add c (value b) in
    if negb ok then (a, false) else (Int64Amount c (scale b), true)
  else
    let '(c, ok) := positiveScaleInt64 (value b) (wrap32 (scale b - scale a)) in
    if negb ok then (a, false) else
    let '(c, ok) := int64Add (value a) c in
    if negb ok then (a, false) else (Int64Amount c (scale a), true).

Definition int64Amount_Sub (a b : int64Amount) : int64Amount * bool :=
  int64Amount_Add a (Int64Amount (wrap64 (- value b)) (scale b)).

Definition int64Amount_AsScaledInt64 (a : int64Amount) (s : Z) : Z * bool :=
  if scale a <? s then ((negativeScaleInt64 (value a) (wrap32 (s - scale a))).1, true)
  else positiveScaleInt64 (value a) (wrap32 (scale a - s)).

(** ** quantity.go *)

Record Quantity : Type := MkQuantity {
  q_i : int64Amount;
  q_d : option Dec;
  Format : string }.

Definition zeroQuantity : Quantity := MkQuantity (Int64Amount 0 0) None EmptyString.

Definition Quantity_IsZero (q : Quantity) : bool :=
  match q_d q with
  | Some d => unscaled d =? 0
  | None => value (q_i q) =? 0
  end.

(** [AsDec] as a reader: the promotion of a copy is not observable. *)
Definition Quantity_AsDec (q : Quantity) : Dec :=
  match q_d q with
  | Some d => d
  | None => int64Amount_AsDec (q_i q)
  end.

(** [ToDec]: promote in place. *)
Definition Quantity_ToDec (q : Quantity) : Quantity :=
  match q_d q with
  | Some _ => q
  | None => MkQuantity (Int64Amount 0 0) (Some (int64Amount_AsDec (q_i q))) (Format q)
  end.

Definition set_format (q : Quantity) (b : bool) (f : string) : Quantity :=
  if b then MkQuantity (q_i q) (q_d q) f else q.

Definition set_dec (q : Quantity) (d : Dec) : Quantity :=
  MkQuantity (q_i q) (Some d) (Format q).

Definition Quantity_Add (q y : Quantity) : Quantity :=
  match q_d q, q_d y with
  | None, None =>
      let q := set_format q (value (q_i q) =? 0) (Format y) in
      let '(i, ok) := int64Amount_Add (q_i q) (q_i y) in
      if ok then MkQuantity i None (Format q)
      else let q := Quantity_ToDec q in
           set_dec q (Dec_Add (Quantity_AsDec q) (Quantity_AsDec y))
  | _, _ =>
      let q := Quantity_ToDec (set_format q (Quantity_IsZero q) (Format y)) in
      set_dec q (Dec_Add (Quantity_AsDec q) (Quantity_AsDec y))
  end.

Definition Quantity_Sub (q y : Quantity) : Quantity :=
  let q := set_format q (Quantity_IsZero q) (Format y) in
  let slow := let q := Quantity_ToDec q in
              set_dec q (Dec_Sub (Quantity_AsDec q) (Quantity_AsDec y)) in
  match q_d q, q_d y with
  | None, None =>
      let '(i, ok) := int64Amount_Sub (q_i q) (q_i y) in
      if ok then MkQuantity i None (Format q) else slow
  | _, _ => slow
  end.

Definition Quantity_Cmp (q y : Quantity) : Z :=
  match q_d q, q_d y with
  | None, None => int64Amount_Cmp (q_i q) (q_i y)
  | _, _ => Dec_Cmp (Quantity_AsDec q) (Quantity_AsDec y)
  end.

(** [int64(math.Pow10(n))]: exact up to [10^18]; beyond, the out-of-range
    float conversion of amd64. *)
Definition int64Pow10 (n : Z) : Z := if n <=? 18 then 10 ^ n else MinInt64.

(** scale_int.go: the decimal brought to [newScale], rounded up. *)
Definition scaledValue (u scl newScale : Z) : Z :=
  let dif := scl - newScale in
  if dif =? 0 then wrap64 u
  else if dif <? 0 then wrap64 (wrap64 u * int64Pow10 (- dif))
  else if (u <? MaxInt64) && (dif <? 19) then
    let divide := int64Pow10 dif in
    let result := Z.quot (wrap64 u) divide in
    let m := Z.rem (wrap64 u) divide in
    if negb (m =? 0) then wrap64 (result + 1) else result
  else
    let result := u / 10 ^ dif in
    if negb (u mod 10 ^ dif =? 0) then wrap64 (wrap64 result + 1) else wrap64 result.

Definition Milli : Z := -3.

Definition Quantity_ScaledValue (q : Quantity) (s : Z) : Z :=
  match q_d q with
  | None => (int64Amount_AsScaledInt64 (q_i q) s).1
  | Some d => scaledValue (unscaled d) (dscale d) (wrap32 (- s))
  end.

Definition Quantity_Value (q : Quantity) : Z := Quantity_ScaledValue q 0.
Definition Quantity_MilliValue (q : Quantity) : Z := Quantity_ScaledValue q Milli.

Definition NewQuantity (v : Z) (f : string) : Quantity := MkQuantity (Int64Amount v 0) None f.
Definition NewMilliQuantity (v : Z) (f : string) : Quantity :=
  MkQuantity (Int64Amount v (-3)) None f.

(** ** The rational number a quantity stands for *)

Definition pow10 (s : Z) : Q := Qpower (inject_Z 10) s.

Definition dval (d : Dec) : Q := (inject_Z (unscaled d) * pow10 (- dscale d))%Q.
Definition ival (a : int64Amount) : Q := (inject_Z (value a) * pow10 (scale a))%Q.

Definition qval (q : Quantity) : Q :=
  match q_d q with
  | Some d => dval d
  | None => ival (q_i q)
  end.

(** Scales stay far inside [int32], so that differences of scales do too. *)
Definition wf_scale (s : Z) : Prop := - 2^29 ≤ s ≤ 2^29.

Definition wf_amount (a : int64Amount) : Prop := int64_range (value a) ∧ wf_scale (scale a).

Definition wf_quantity (q : Quantity) : Prop :=
  match q_d q with
  | Some d => wf_scale (dscale d)
  | None => wf_amount (q_i q)
  end.

(** A well-formed quantity that is not negative: what API validation admits
    as a resource request. *)
Definition wf_request (q : Quantity) : Prop := wf_quantity q ∧ (0 <= qval q)%Q.

(** ** Powers of ten *)

Lemma pow10_plus a b : (pow10 (a + b) == pow10 a * pow10 b)%Q.
Proof. apply Qpower_plus. discriminate. Qed.

Lemma pow10_pos s : (0 < pow10 s)%Q.
Proof. apply Qpower_0_lt. reflexivity. Qed.

Lemma pow10_Z n : 0 ≤ n → (pow10 n == inject_Z (10 ^ n))%Q.
Proof. intros Hn. symmetry. by apply Zpower_Qpower. Qed.

Lemma pow10_eq a b : a = b → (pow10 a == pow10 b)%Q.
Proof. by intros ->. Qed.

Lemma pow10_0 : (pow10 0 == 1)%Q.
Proof. reflexivity. Qed.

(** Moving a factor [10^n] from the scale into the integer. *)
Lemma scale_shift v s n :
  0 ≤ n → (inject_Z (v * 10 ^ n) * pow10 s == inject_Z v * pow10 (s + n))%Q.
Proof. intros Hn. rewrite pow10_plus, (pow10_Z n Hn), inject_Z_mult. ring. Qed.

Lemma compare_scaled a b s :
  ((inject_Z a * pow10 s ?= inject_Z b * pow10 s)%Q) = (a ?= b).
Proof.
  assert (Hc : ∀ x y : Z, (inject_Z x * pow10 s == inject_Z y * pow10 s)%Q ↔ x = y).
  { intros x y. rewrite Qmult_inj_r by (pose proof (pow10_pos s); lra). apply inject_Z_injective. }
  assert (Hl : ∀ x y : Z, (inject_Z x * pow10 s < inject_Z y * pow10 s)%Q ↔ x < y).
  { intros x y. rewrite Qmult_lt_r by apply pow10_pos. by rewrite Zlt_Qlt. }
  destruct (Z.compare_spec a b) as [H|H|H].
  - apply Qeq_alt, Hc, H.
  - apply Qlt_alt, Hl, H.
  - apply Qgt_alt, Hl, H.
Qed.

(** ** int64 arithmetic is exact when it reports success *)

Lemma int64Add_exact a b c :
  int64_range a → int64_range b → int64Add a b = (c, true) → c = a + b ∧ int64_range c.
Proof.
  unfold int64Add, mostNegative. intros Ha Hb.
  pose proof (wrap64_range (a + b)) as Hr. destruct (wrap64_mod (a + b)) as [k Hk].
  unfold int64_range, MinInt64, MaxInt64 in *.
  repeat match goal with
  | |- context [Z.ltb ?x ?y] => destruct (Z.ltb_spec x y); simpl
  | |- context [Z.eqb ?x ?y] => destruct (Z.eqb_spec x y); simpl
  end; intros [= <-]; lia.
Qed.

Lemma mul_check_exact a b :
  1 < b → b < 2^63 → int64_range a → Z.quot (wrap64 (a * b)) b = a → wrap64 (a * b) = a * b.
Proof.
  intros Hb Hb2 Ha Hq. destruct (wrap64_mod (a * b)) as [k Hk].
  pose proof (Z.quot_rem' (wrap64 (a * b)) b) as Hqr. rewrite Hq in Hqr.
  pose proof (Z.rem_bound_abs (wrap64 (a * b)) b) as Hrem.
  assert (k = 0) by nia. lia.
Qed.

Lemma int64MultiplyScale_exact a b c :
  1 < b → b < 2^62 → int64_range a → int64MultiplyScale a b = (c, true) →
  c = a * b ∧ int64_range c.
Proof.
  unfold int64MultiplyScale. intros Hb Hb2 Ha.
  destruct ((a =? 0) || (a =? 1)) eqn:E01.
  - intros [= <-]. apply orb_true_iff in E01. rewrite !Z.eqb_eq in E01.
    assert (int64_range (a * b)) by (unfold int64_range, MinInt64, MaxInt64; nia).
    rewrite wrap64_small by done. done.
  - destruct (_ && _); [discriminate|]. intros [= <- Hq%Z.eqb_eq].
    pose proof (wrap64_range (a * b)) as Hr.
    rewrite (mul_check_exact a b) in * by (done || lia). done.
Qed.

Lemma multiplyScale10_eq a : int64MultiplyScale10 a = int64MultiplyScale a 10.
Proof. unfold int64MultiplyScale10, int64MultiplyScale. simpl. by rewrite andb_true_r. Qed.
Lemma multiplyScale100_eq a : int64MultiplyScale100 a = int64MultiplyScale a 100.
Proof. unfold int64MultiplyScale100, int64MultiplyScale. simpl. by rewrite andb_true_r. Qed.
Lemma multiplyScale1000_eq a : int64MultiplyScale1000 a = int64MultiplyScale a 1000.
Proof. unfold int64MultiplyScale1000, int64MultiplyScale. simpl. by rewrite andb_true_r. Qed.

Lemma scaleUpLoop_exact n v c :
  int64_range v → scaleUpLoop n v = (c, true) → c = v * 10 ^ Z.of_nat n ∧ int64_range c.
Proof.
  revert v. induction n as [|n IH]; intros v Hv; simpl scaleUpLoop.
  - intros [= <-]. simpl. split; [lia|done].
  - destruct (int64MultiplyScale v 10) as [w ok] eqn:Hm. destruct ok; [|discriminate].
    intros Hl. apply int64MultiplyScale_exact in Hm as [-> Hw]; [|lia..|done].
    apply IH in Hl as [-> ?]; [|done]. split; [|done].
    rewrite Nat2Z.inj_succ, Z.pow_succ_r by lia. lia.
Qed.

(** [positiveScaleInt64] multiplies by a power of ten or reports overflow. *)
Lemma positiveScaleInt64_exact base n c :
  0 ≤ n → int64_range base → positiveScaleInt64 base n = (c, true) →
  c = base * 10 ^ n ∧ int64_range c.
Proof.
  unfold positiveScaleInt64. intros Hn Hb.
  rewrite multiplyScale10_eq, multiplyScale100_eq, multiplyScale1000_eq.
  repeat match goal with
  | |- context [if n =? ?k then _ else _] => destruct (Z.eqb_spec n k) as [->|]
  end.
  1: intros [= <-]; split; [lia|done].
  1-5: intros H; apply int64MultiplyScale_exact in H; [|lia..|done]; done.
  intros H. apply scaleUpLoop_exact in H; [|done]. by rewrite Z2Nat.id in H.
Qed.

(** ** Decimals *)

Lemma wf_scale_diff a b : wf_scale a → wf_scale b → wrap32 (a - b) = a - b.
Proof. unfold wf_scale. intros. apply wrap32_small. lia. Qed.

Lemma wf_scale_opp a : wf_scale a → wrap32 (- a) = - a.
Proof. unfold wf_scale. intros. apply wrap32_small. lia. Qed.

Lemma Dec_upscale_spec a b :
  wf_scale (dscale a) → wf_scale (dscale b) →
  let '(aa, bb) := Dec_upscale a b in
  dscale aa = dscale bb ∧ wf_scale (dscale aa) ∧ (dval aa == dval a)%Q ∧ (dval bb == dval b)%Q.
Proof.
  intros Ha Hb. unfold Dec_upscale, Dec_rescale.
  destruct (Z.eqb_spec (dscale a) (dscale b)) as [E|E]; [split_and!; done || reflexivity|].
  destruct (Z.ltb_spec (dscale b) (dscale a)) as [L|L].
  all: rewrite wf_scale_diff by done.
  all: match goal with |- context [?x - ?y <? 0] =>
         destruct (Z.ltb_spec (x - y) 0); [lia|]; destruct (Z.ltb_spec 0 (x - y)); [|lia] end.
  all: simpl; unfold dval; simpl; split_and!; try done.
  all: try reflexivity; rewrite scale_shift by lia; apply Qmult_comp; [reflexivity|]; apply pow10_eq; lia.
Qed.

Lemma Dec_Cmp_spec a b :
  wf_scale (dscale a) → wf_scale (dscale b) → Dec_Cmp a b = sign_of (dval a ?= dval b)%Q.
Proof.
  intros Ha Hb. unfold Dec_Cmp. pose proof (Dec_upscale_spec a b Ha Hb) as H.
  destruct (Dec_upscale a b) as [aa bb]. destruct H as (Hs & _ & <- & <-).
  unfold dval. rewrite Hs, compare_scaled. done.
Qed.

Lemma Dec_Add_spec a b :
  wf_scale (dscale a) → wf_scale (dscale b) →
  wf_scale (dscale (Dec_Add a b)) ∧ (dval (Dec_Add a b) == dval a + dval b)%Q.
Proof.
  intros Ha Hb. unfold Dec_Add. pose proof (Dec_upscale_spec a b Ha Hb) as H.
  destruct (Dec_upscale a b) as [aa bb]. destruct H as (Hs & Hw & <- & <-).
  split; [done|]. unfold dval. simpl. rewrite <- Hs, inject_Z_plus. ring.
Qed.

Lemma Dec_Sub_spec a b :
  wf_scale (dscale a) → wf_scale (dscale b) →
  wf_scale (dscale (Dec_Sub a b)) ∧ (dval (Dec_Sub a b) == dval a - dval b)%Q.
Proof.
  intros Ha Hb. unfold Dec_Sub. pose proof (Dec_upscale_spec a b Ha Hb) as H.
  destruct (Dec_upscale a b) as [aa bb]. destruct H as (Hs & Hw & <- & <-).
  split; [done|]. unfold dval. simpl. unfold Z.sub, Qminus. rewrite <- Hs, inject_Z_plus, inject_Z_opp. ring.
Qed.

Lemma AsDec_spec a :
  wf_amount a → wf_scale (dscale (int64Amount_AsDec a)) ∧ (dval (int64Amount_AsDec a) == ival a)%Q.
Proof.
  intros [_ Hs]. unfold int64Amount_AsDec, dval, ival. simpl. rewrite wf_scale_opp by done.
  rewrite Z.opp_involutive. split; [|reflexivity]. unfold wf_scale in *. lia.
Qed.

Lemma Quantity_AsDec_spec q :
  wf_quantity q → wf_scale (dscale (Quantity_AsDec q)) ∧ (dval (Quantity_AsDec q) == qval q)%Q.
Proof.
  unfold wf_quantity, qval, Quantity_AsDec. destruct (q_d q); [done|]. apply AsDec_spec.
Qed.

(** ** int64 amounts *)

Lemma ival_zero a : value a = 0 → (ival a == 0)%Q.
Proof. unfold ival. intros ->. ring. Qed.

Lemma ival_rescale v s s' :
  s' ≤ s → (inject_Z (v * 10 ^ (s - s')) * pow10 s' == inject_Z v * pow10 s)%Q.
Proof. intros H. rewrite scale_shift by lia. apply Qmult_comp; [reflexivity|]. apply pow10_eq; lia. Qed.

Lemma int64Amount_Add_exact a b r :
  wf_amount a → wf_amount b → int64Amount_Add a b = (r, true) →
  wf_amount r ∧ (ival r == ival a + ival b)%Q.
Proof.
  intros [Ha Hsa] [Hb Hsb]. unfold int64Amount_Add.
  destruct (Z.eqb_spec (value b) 0) as [Eb|_].
  { intros [= <-]. rewrite (ival_zero b Eb). split; [done|ring]. }
  destruct (Z.eqb_spec (value a) 0) as [Ea|_].
  { intros [= <-]. rewrite (ival_zero a Ea). split; [done|]. unfold ival. simpl. ring. }
  destruct (Z.eqb_spec (scale a) (scale b)) as [E|E].
  { destruct (int64Add _ _) as [c ok] eqn:Hadd. destruct ok; [|done]. intros [= <-].
    apply int64Add_exact in Hadd as [-> Hc]; [|done..]. split; [done|].
    unfold ival. simpl. rewrite <- E, inject_Z_plus. ring. }
  destruct (Z.ltb_spec (scale b) (scale a)) as [L|L]; rewrite wf_scale_diff by done.
  all: destruct (positiveScaleInt64 _ _) as [c ok] eqn:Hs; destruct ok; [|done]; simpl.
  all: destruct (int64Add _ _) as [c' ok] eqn:Hadd; destruct ok; [|done]; intros [= <-].
  all: apply positiveScaleInt64_exact in Hs as [-> Hc]; [|lia|done].
  all: apply int64Add_exact in Hadd as [-> Hc']; [|done..]; split; [done|].
  all: unfold ival; simpl; rewrite inject_Z_plus, Qmult_plus_distr_l, ival_rescale by lia; reflexivity.
Qed.

(** Truncating division by [10^n] decides a comparison across scales. *)
Lemma divideByScale_cmp v w n r m :
  0 < n → divideByScaleInt64 v n = (r, m, true) →
  (if r =? w then if m =? 0 then 0 else if 0 <? m then 1 else -1 else cmp_values r w)
  = sign_of (v ?= w * 10 ^ n).
Proof.
  intros Hn. unfold divideByScaleInt64.
  destruct (Z.eqb_spec n 0); [lia|]. destruct (Z.leb_spec 18 n); [discriminate|].
  unfold pow10Int64. destruct (Z.leb_spec 0 n); [|lia]. destruct (Z.leb_spec n 18); [|lia]. simpl.
  intros [= <- <-]. assert (0 < 10 ^ n) as Hp by (apply Z.pow_pos_nonneg; lia).
  generalize dependent (10 ^ n). intros p Hp.
  pose proof (Z.quot_rem' v p) as Hqr. pose proof (Z.rem_bound_abs v p) as Hrem.
  pose proof (Z.rem_sign_mul v p) as Hsg.
  destruct (Z.eqb_spec (Z.quot v p) w) as [Eq|Ne].
  - destruct (Z.compare_spec v (w * p)); destruct (Z.eqb_spec (Z.rem v p) 0);
      try destruct (Z.ltb_spec 0 (Z.rem v p)); simpl; nia.
  - unfold cmp_values. destruct (Z.eqb_spec (Z.quot v p) w); [done|].
    destruct (Z.compare_spec v (w * p)); destruct (Z.ltb_spec (Z.quot v p) w); simpl; nia.
Qed.

Lemma sign_of_opp c : sign_of (CompOpp c) = - sign_of c.
Proof. by destruct c. Qed.

Lemma cmp_values_spec a b : cmp_values a b = sign_of (a ?= b).
Proof.
  unfold cmp_values. destruct (Z.compare_spec a b); destruct (Z.eqb_spec a b), (Z.ltb_spec a b);
    simpl; lia.
Qed.

Lemma int64Amount_Cmp_spec a b :
  wf_amount a → wf_amount b → int64Amount_Cmp a b = sign_of (ival a ?= ival b)%Q.
Proof.
  intros Ha Hb. pose proof Ha as [_ Hsa]. pose proof Hb as [_ Hsb].
  destruct (AsDec_spec a Ha) as [Hda Eda]. destruct (AsDec_spec b Hb) as [Hdb Edb].
  unfold int64Amount_Cmp. destruct (Z.eqb_spec (scale a) (scale b)) as [E|E].
  { rewrite cmp_values_spec. unfold ival. by rewrite E, compare_scaled. }
  destruct (Z.ltb_spec (scale b) (scale a)) as [L|L]; rewrite wf_scale_diff by done.
  - destruct (divideByScaleInt64 _ _) as [[r m] ex] eqn:Hd. destruct ex; simpl.
    2: { rewrite Dec_Cmp_spec by done. by rewrite Eda, Edb. }
    apply (divideByScale_cmp _ (value a)) in Hd; [|lia].
    unfold ival at 1. rewrite <- (ival_rescale (value a) (scale a) (scale b)) by lia.
    unfold ival. rewrite compare_scaled, (Z.compare_antisym (value b)), sign_of_opp, <- Hd.
    rewrite !cmp_values_spec, (Z.compare_antisym r).
    destruct (r =? value a); [|by rewrite sign_of_opp].
    destruct (Z.eqb_spec m 0), (Z.ltb_spec 0 m); lia.
  - destruct (divideByScaleInt64 _ _) as [[r m] ex] eqn:Hd. destruct ex; simpl.
    2: { rewrite Dec_Cmp_spec by done. by rewrite Eda, Edb. }
    apply (divideByScale_cmp _ (value b)) in Hd; [|lia]. rewrite Hd.
    unfold ival at 2. rewrite <- (ival_rescale (value b) (scale b) (scale a)) by lia.
    unfold ival. by rewrite compare_scaled.
Qed.

(** ** Quantities *)

Lemma set_format_val q b f : qval (set_format q b f) = qval q.
Proof. by destruct b. Qed.
Lemma set_format_wf q b f : wf_quantity (set_format q b f) ↔ wf_quantity q.
Proof. by destruct b. Qed.
Lemma set_format_AsDec q b f : Quantity_AsDec (set_format q b f) = Quantity_AsDec q.
Proof. by destruct b. Qed.
Lemma set_format_d q b f : q_d (set_format q b f) = q_d q.
Proof. by destruct b. Qed.
Lemma set_format_i q b f : q_i (set_format q b f) = q_i q.
Proof. by destruct b. Qed.

Lemma ToDec_AsDec q : Quantity_AsDec (Quantity_ToDec q) = Quantity_AsDec q.
Proof. unfold Quantity_ToDec, Quantity_AsDec. by destruct (q_d q) eqn:E; [rewrite E|]. Qed.

(** The slow path: both operands taken as decimals. *)
Lemma slow_Add_exact q y :
  wf_quantity q → wf_quantity y →
  let r := set_dec (Quantity_ToDec q) (Dec_Add (Quantity_AsDec q) (Quantity_AsDec y)) in
  wf_quantity r ∧ (qval r == qval q + qval y)%Q.
Proof.
  intros Hq Hy. destruct (Quantity_AsDec_spec q Hq) as [Hwq Eq'].
  destruct (Quantity_AsDec_spec y Hy) as [Hwy Ey].
  unfold wf_quantity, qval at 1; simpl. rewrite <- Eq', <- Ey. by apply Dec_Add_spec.
Qed.

Lemma slow_Sub_exact q y :
  wf_quantity q → wf_quantity y →
  let r := set_dec (Quantity_ToDec q) (Dec_Sub (Quantity_AsDec q) (Quantity_AsDec y)) in
  wf_quantity r ∧ (qval r == qval q - qval y)%Q.
Proof.
  intros Hq Hy. destruct (Quantity_AsDec_spec q Hq) as [Hwq Eq'].
  destruct (Quantity_AsDec_spec y Hy) as [Hwy Ey].
  unfold wf_quantity, qval at 1; simpl. rewrite <- Eq', <- Ey. by apply Dec_Sub_spec.
Qed.

Lemma Quantity_Add_exact q y :
  wf_quantity q → wf_quantity y →
  wf_quantity (Quantity_Add q y) ∧ (qval (Quantity_Add q y) == qval q + qval y)%Q.
Proof.
  intros Hq Hy. unfold Quantity_Add.
  assert (Hslow : ∀ b f, let q' := set_format q b f in
    let r := set_dec (Quantity_ToDec q') (Dec_Add (Quantity_AsDec (Quantity_ToDec q')) (Quantity_AsDec y)) in
    wf_quantity r ∧ (qval r == qval q + qval y)%Q).
  { intros b f. cbv zeta. rewrite ToDec_AsDec, <- (set_format_val q b f).
    apply slow_Add_exact; [by apply set_format_wf|done]. }
  destruct (q_d q) eqn:Eq; [apply Hslow|]. destruct (q_d y) eqn:Ey; [apply Hslow|].
  destruct (int64Amount_Add _ _) as [i ok] eqn:Hi. rewrite set_format_i in Hi.
  destruct ok; [|apply Hslow].
  unfold wf_quantity in Hq, Hy. rewrite Eq in Hq. rewrite Ey in Hy.
  apply int64Amount_Add_exact in Hi as [Hw Hv]; [|done..].
  unfold wf_quantity, qval. simpl. by rewrite Eq, Ey.
Qed.

(** Subtraction is exact unless the subtrahend holds the one [int64] whose
    negation overflows. *)
Definition negatable (q : Quantity) : Prop := q_d q = None → value (q_i q) ≠ MinInt64.

Lemma Quantity_Sub_exact q y :
  wf_quantity q → wf_quantity y → negatable y →
  wf_quantity (Quantity_Sub q y) ∧ (qval (Quantity_Sub q y) == qval q - qval y)%Q.
Proof.
  intros Hq Hy Hneg. unfold Quantity_Sub.
  assert (Hslow : ∀ b f, let q' := set_format q b f in
    let r := set_dec (Quantity_ToDec q') (Dec_Sub (Quantity_AsDec (Quantity_ToDec q')) (Quantity_AsDec y)) in
    wf_quantity r ∧ (qval r == qval q - qval y)%Q).
  { intros b f. cbv zeta. rewrite ToDec_AsDec, <- (set_format_val q b f).
    apply slow_Sub_exact; [by apply set_format_wf|done]. }
  specialize (Hslow (Quantity_IsZero q) (Format y)). cbv zeta in *.
  rewrite set_format_d, set_format_i.
  destruct (q_d q) eqn:Eq; [done|]. destruct (q_d y) eqn:Ey; [done|].
  destruct (int64Amount_Sub _ _) as [i ok] eqn:Hi. destruct ok; [|done].
  unfold wf_quantity in Hq, Hy. rewrite Eq in Hq. rewrite Ey in Hy.
  specialize (Hneg Ey). destruct Hy as [Hyr Hys].
  assert (int64_range (- value (q_i y))) as Hr by (unfold int64_range, MinInt64, MaxInt64 in *; lia).
  unfold int64Amount_Sub in Hi. rewrite wrap64_small in Hi by done.
  apply int64Amount_Add_exact in Hi as [Hw Hv]; [|done..].
  unfold wf_quantity, qval. simpl. rewrite Eq, Ey. split; [done|].
  rewrite Hv. unfold ival. simpl. rewrite inject_Z_opp. ring.
Qed.

Lemma Quantity_Cmp_exact q y :
  wf_quantity q → wf_quantity y → Quantity_Cmp q y = sign_of (qval q ?= qval y)%Q.
Proof.
  intros Hq Hy. destruct (Quantity_AsDec_spec q Hq) as [Hwq Eq'].
  destruct (Quantity_AsDec_spec y Hy) as [Hwy Ey'].
  assert (Hd : Dec_Cmp (Quantity_AsDec q) (Quantity_AsDec y) = sign_of (qval q ?= qval y)%Q).
  { rewrite Dec_Cmp_spec by done. by rewrite Eq', Ey'. }
  unfold Quantity_Cmp, wf_quantity, qval in *.
  destruct (q_d q); [done|]. destruct (q_d y); [done|]. by apply int64Amount_Cmp_spec.
Qed.

(** The test the scheduler makes: [wanted.Cmp(free) > 0]. *)
Lemma Quantity_Cmp_gt q y :
  wf_quantity q → wf_quantity y → (0 <? Quantity_Cmp q y) = false ↔ (qval q <= qval y)%Q.
Proof.
  intros Hq Hy. rewrite Quantity_Cmp_exact by done.
  destruct (Qcompare_spec (qval q) (qval y)); simpl; split; intros; try done; try lra; exfalso; lra.
Qed.

Lemma qval_zero : (qval zeroQuantity == 0)%Q.
Proof. unfold qval, ival; simpl. ring. Qed.

Lemma wf_zero : wf_request zeroQuantity.
Proof.
  split; [|by rewrite qval_zero].
  unfold wf_quantity, wf_amount, int64_range, wf_scale, MinInt64, MaxInt64; simpl. lia.
Qed.

Lemma wf_request_negatable q : wf_request q → negatable q.
Proof.
  intros [_ Hpos] Ed Emin. unfold qval in Hpos. rewrite Ed in Hpos. unfold ival in Hpos.
  assert (0 <= value (q_i q)) as H0; [|rewrite Emin in H0; unfold MinInt64 in H0; lia].
  apply Z.nlt_ge. intros Hlt. pose proof (pow10_pos (scale (q_i q))) as Hp.
  rewrite Zlt_Qlt in Hlt. change (inject_Z 0) with 0%Q in Hlt. nra.
Qed.

Lemma wf_request_Add q y : wf_request q → wf_request y → wf_request (Quantity_Add q y).
Proof.
  intros [Hq Pq] [Hy Py]. destruct (Quantity_Add_exact q y Hq Hy) as [Hw Hv].
  split; [done|]. rewrite Hv. lra.
Qed.

(** ** Rounding a quantity to an int64 *)

Definition ceil_div (v p : Z) : Z := v / p + (if v mod p =? 0 then 0 else 1).

Lemma Qceiling_unique x k : (inject_Z (k - 1) < x)%Q → (x <= inject_Z k)%Q → Qceiling x = k.
Proof.
  intros Hlo Hhi. apply Z.le_antisymm.
  - rewrite <- (Qceiling_Z k). by apply Qceiling_resp_le.
  - pose proof (Qle_ceiling x) as H. assert (k - 1 < Qceiling x); [|lia].
    rewrite Zlt_Qlt. lra.
Qed.

Lemma Qceiling_scaled_down v n :
  0 ≤ n → Qceiling (inject_Z v * pow10 (- n)) = ceil_div v (10 ^ n).
Proof.
  intros Hn. assert (0 < 10 ^ n) as Hp by (apply Z.pow_pos_nonneg; lia).
  assert (Hinv : (inject_Z (10 ^ n) * pow10 (- n) == 1)%Q).
  { rewrite <- pow10_Z by done. rewrite <- pow10_plus, Z.add_opp_diag_r. reflexivity. }
  pose proof (pow10_pos (- n)) as Hpos.
  assert (Hv : ∀ k, (inject_Z k == inject_Z (k * 10 ^ n) * pow10 (- n))%Q).
  { intros k. rewrite inject_Z_mult, <- Qmult_assoc, Hinv. ring. }
  pose proof (Z.div_mod v (10 ^ n)) as Hdm.
  pose proof (Z.mod_pos_bound v (10 ^ n) Hp) as Hb.
  apply Qceiling_unique; [rewrite (Hv (ceil_div _ _ - 1))|rewrite (Hv (ceil_div _ _))]; unfold ceil_div.
  - apply Qmult_lt_r; [done|]. rewrite <- Zlt_Qlt. destruct (Z.eqb_spec (v mod 10 ^ n) 0); nia.
  - apply Qmult_le_r; [done|]. rewrite <- Zle_Qle. destruct (Z.eqb_spec (v mod 10 ^ n) 0); nia.
Qed.

Lemma int64MultiplyScale_total a b :
  1 < b → 0 ≤ a → int64_range (a * b) → int64MultiplyScale a b = (a * b, true).
Proof.
  intros Hb Ha Hr. unfold int64MultiplyScale, mostNegative. rewrite wrap64_small by done.
  destruct (_ || _); [done|]. unfold MinInt64.
  destruct (Z.eqb_spec a (- 2 ^ 63)); [lia|]. simpl. rewrite Z.quot_mul by lia. by rewrite Z.eqb_refl.
Qed.

Lemma scaleUpLoop_total n v :
  0 ≤ v → v * 10 ^ Z.of_nat n ≤ MaxInt64 → scaleUpLoop n v = (v * 10 ^ Z.of_nat n, true).
Proof.
  revert v. induction n as [|n IH]; intros v Hv.
  { intros _. simpl. by rewrite Z.mul_1_r. }
  rewrite Nat2Z.inj_succ, Z.pow_succ_r by lia. intros Hr. simpl scaleUpLoop.
  assert (1 ≤ 10 ^ Z.of_nat n) by (apply (Z.pow_le_mono_r 10 0); lia).
  rewrite int64MultiplyScale_total by (unfold int64_range, MinInt64; nia).
  rewrite IH by nia. f_equal. lia.
Qed.

Lemma positiveScaleInt64_total v n :
  0 ≤ n → 0 ≤ v → v * 10 ^ n ≤ MaxInt64 → positiveScaleInt64 v n = (v * 10 ^ n, true).
Proof.
  intros Hn Hv Hr. unfold positiveScaleInt64.
  rewrite multiplyScale10_eq, multiplyScale100_eq, multiplyScale1000_eq.
  repeat match goal with
  | |- context [if n =? ?k then _ else _] => destruct (Z.eqb_spec n k) as [->|]
  end.
  1: by rewrite Z.mul_1_r.
  1-5: apply int64MultiplyScale_total; unfold int64_range, MinInt64; lia.
  rewrite scaleUpLoop_total by (rewrite ?Z2Nat.id; done). by rewrite Z2Nat.id.
Qed.

Lemma scaleDownLoop_ceil n base v fr :
  0 ≤ v → (0 < base ∨ v = 0 ∧ fr = false) →
  (scaleDownLoop n base v fr).1 =
    v / 10 ^ Z.of_nat n + (if fr || negb (v mod 10 ^ Z.of_nat n =? 0) then 1 else 0).
Proof.
  revert v fr. induction n as [|n IH]; intros v fr Hv Hbase.
  { simpl. rewrite Z.div_1_r, Z.mod_1_r. simpl. rewrite orb_false_r.
    destruct fr; [|simpl; lia]. destruct (Z.ltb_spec 0 base); simpl; [lia|]. destruct Hbase as [?|[_ ?]]; [lia|done]. }
  assert (0 < 10 ^ Z.of_nat n) as Hp by (apply Z.pow_pos_nonneg; lia).
  rewrite Nat2Z.inj_succ, Z.pow_succ_r by lia. simpl scaleDownLoop.
  rewrite Z.rem_mod_nonneg, Z.quot_div_nonneg by lia.
  rewrite <- Z.div_div, Z.rem_mul_r by lia.
  assert (0 ≤ v / 10) by (apply Z.div_pos; lia).
  assert (0 ≤ v mod 10 < 10) by (apply Z.mod_pos_bound; lia).
  pose proof (Z.mod_pos_bound (v / 10) _ Hp) as Hq.
  assert (Hnz : ∀ r q : Z, 0 ≤ r → 0 ≤ q → negb (r + 10 * q =? 0) = negb (r =? 0) || negb (q =? 0)).
  { intros r q ??. destruct (Z.eqb_spec (r + 10 * q) 0), (Z.eqb_spec r 0), (Z.eqb_spec q 0); simpl; lia. }
  rewrite Hnz, orb_assoc by lia.
  destruct (Z.eqb_spec (v / 10) 0) as [E|E].
  - rewrite E, Z.mod_0_l, Z.div_0_l by lia. simpl. rewrite orb_false_r.
    destruct (fr || negb (v mod 10 =? 0)) eqn:Ef; [|done].
    destruct (Z.ltb_spec 0 base); [done|]. destruct Hbase as [?|[-> ->]]; [lia|done].
  - apply IH; [done|]. destruct Hbase as [?|[-> _]]; [by left|done].
Qed.

Lemma AsScaledInt64_ceil a s :
  wf_amount a → wf_scale s → 0 ≤ value a →
  Qceiling (ival a * pow10 (- s)) ≤ MaxInt64 →
  (int64Amount_AsScaledInt64 a s).1 = Qceiling (ival a * pow10 (- s)).
Proof.
  intros [Hr Hsa] Hs Hv. unfold ival. rewrite <- Qmult_assoc, <- pow10_plus.
  unfold int64Amount_AsScaledInt64. destruct (Z.ltb_spec (scale a) s) as [L|L].
  - replace (scale a + - s) with (- (s - scale a)) by lia.
    rewrite Qceiling_scaled_down, wf_scale_diff by (done || lia). intros _. simpl.
    unfold negativeScaleInt64. destruct (Z.eqb_spec (s - scale a) 0); [lia|].
    rewrite scaleDownLoop_ceil by (done || lia). rewrite Z2Nat.id by lia. unfold ceil_div. simpl.
    by destruct (_ =? 0).
  - rewrite (pow10_Z (scale a + - s)) by lia. rewrite <- inject_Z_mult, Qceiling_Z. intros Hmax.
    rewrite wf_scale_diff by done. by rewrite positiveScaleInt64_total by (done || lia).
Qed.

Lemma scaledValue_ceil u scl ns :
  0 ≤ u → Qceiling (inject_Z u * pow10 (- (scl - ns))) ≤ MaxInt64 →
  scaledValue u scl ns = Qceiling (inject_Z u * pow10 (- (scl - ns))).
Proof.
  intros Hu. unfold scaledValue. generalize (scl - ns). intros n.
  assert (Hi : ∀ z, 0 ≤ z → z ≤ MaxInt64 → wrap64 z = z).
  { intros z ??. apply wrap64_small. unfold int64_range, MinInt64. lia. }
  destruct (Z.eqb_spec n 0) as [->|].
  { change (pow10 (- 0)) with 1%Q. rewrite Qmult_1_r, Qceiling_Z. by apply Hi. }
  destruct (Z.ltb_spec n 0).
  { assert (1 ≤ 10 ^ - n) by (apply (Z.pow_le_mono_r 10 0); lia).
    rewrite pow10_Z, <- inject_Z_mult, Qceiling_Z by lia. intros Hm. rewrite (Hi u) by nia.
    unfold int64Pow10. destruct (Z.leb_spec (- n) 18); [apply Hi; nia|].
    assert (10 ^ 19 ≤ 10 ^ - n) by (apply Z.pow_le_mono_r; lia).
    assert (u = 0) as -> by (unfold MaxInt64 in *; nia). by rewrite !Z.mul_0_l. }
  assert (0 < 10 ^ n) as Hp by (apply Z.pow_pos_nonneg; lia).
  rewrite Qceiling_scaled_down by lia. unfold ceil_div, int64Pow10. intros Hc.
  pose proof (Z.div_pos u (10 ^ n) Hu Hp).
  destruct (Z.ltb_spec u MaxInt64), (Z.ltb_spec n 19); simpl.
  1: destruct (Z.leb_spec n 18); [|lia]; rewrite (Hi u) by lia;
     rewrite Z.rem_mod_nonneg, Z.quot_div_nonneg by lia.
  all: destruct (u mod 10 ^ n =? 0); simpl; rewrite ?(Hi (u / 10 ^ n)) by lia; rewrite ?Hi; lia.
Qed.

Lemma nonneg_value v s : (0 <= inject_Z v * pow10 s)%Q → 0 ≤ v.
Proof.
  intros H. apply Z.nlt_ge. rewrite Zlt_Qlt. change (inject_Z 0) with 0%Q. intros Hlt.
  pose proof (pow10_pos s). nra.
Qed.

(** ** Claims *)

(** C21. Quantity arithmetic is exact: for well-formed operands, [Add], [Sub]
    and [Cmp] of the vendored quantity type (int64 fast path with overflow
    detection, decimal slow path) compute the sum, the difference and the order
    of the rational numbers the operands stand for, and their results are
    well-formed again.  Subtraction excludes the one [int64] whose negation
    overflows. *)
Theorem quantity_arithmetic_exact (q y : Quantity) :
  wf_quantity q → wf_quantity y → negatable y →
  (wf_quantity (Quantity_Add q y) ∧ (qval (Quantity_Add q y) == qval q + qval y)%Q) ∧
  (wf_quantity (Quantity_Sub q y) ∧ (qval (Quantity_Sub q y) == qval q - qval y)%Q) ∧
  Quantity_Cmp q y = sign_of (qval q ?= qval y)%Q.
Proof.
  intros Hq Hy Hn. split; [by apply Quantity_Add_exact|].
  split; [by apply Quantity_Sub_exact|by apply Quantity_Cmp_exact].
Qed.

Lemma quantity_arithmetic_exact_witness :
  let a := NewQuantity MaxInt64 EmptyString in
  let b := NewMilliQuantity 1 EmptyString in
  (qval (Quantity_Add a b) == qval a + qval b)%Q ∧ is_Some (q_d (Quantity_Add a b)).
Proof.
  split; [|by eexists].
  destruct (quantity_arithmetic_exact (NewQuantity MaxInt64 EmptyString) (NewMilliQuantity 1 EmptyString))
    as [[_ H] _]; [vm_compute; intuition congruence..|exact H].
Defined.

(** The integer views of a quantity round up: for a non-negative
    well-formed quantity whose value at scale [10^s] fits an [int64],
    [ScaledValue] (hence [Value] and [MilliValue]) returns the ceiling of that
    value, on the int64 path and on the decimal path. *)
Theorem scaled_value_is_ceiling (q : Quantity) (s : Z) :
  wf_request q → wf_scale s →
  Qceiling (qval q * pow10 (- s)) ≤ MaxInt64 →
  Quantity_ScaledValue q s = Qceiling (qval q * pow10 (- s)).
Proof.
  intros [Hw Hpos] Hs. unfold Quantity_ScaledValue, wf_quantity, qval in *.
  destruct (q_d q) as [d|].
  - rewrite wf_scale_opp by done. unfold dval in *. rewrite <- Qmult_assoc, <- pow10_plus.
    replace (- dscale d + - s) with (- (dscale d - - s)) by lia.
    apply scaledValue_ceil. by eapply nonneg_value.
  - apply AsScaledInt64_ceil; [done..|]. by eapply nonneg_value.
Qed.

Lemma scaled_value_is_ceiling_witness :
  Quantity_Value (NewMilliQuantity 1500 EmptyString) = 2.
Proof.
  refine (scaled_value_is_ceiling (NewMilliQuantity 1500 EmptyString) 0 _ _ _);
    vm_compute; intuition congruence.
Defined.
