(* ===== verification/QuantityText.v ===== *)
(** * The text of a quantity

    [Quantity.String] of the vendored apimachinery/pkg/api/resource: the
    canonical number and exponent of a quantity ([CanonicalizeBytes],
    amount.go), the suffix for it (suffix.go), and the meaning of a suffix
    ([interpret]).  The result is that the text stands for the quantity:
    [canonical_text_is_exact].

    Only texts of quantities that were computed are asked for, so there is no
    cached text to return.  The loops that divide out factors run on fuel: 63
    for an [int64], the number of bits for a [big.Int]; both are enough
    ([removeInt64Factors_done], [removeBigIntFactors_done]). *)
From stdpp Require Import base tactics list strings pretty.
From Stdlib Require Import Ascii ZArith QArith Qpower Lia Lqa.
From S2P Require Import Prelude Strconv Quantity.

Local Open Scope Z_scope.

(** ** math.go: dividing out factors *)

Fixpoint int64_factor_loop (fuel : nat) (base result times : Z) : Z * Z :=
  if (base <=? result) && (Z.rem result base =? 0) then
    match fuel with
    | O => (result, times)
    | S fuel => int64_factor_loop fuel base (Z.quot result base) (times + 1)
    end
  else (result, times).

Definition removeInt64Factors (value base : Z) : Z * Z :=
  let negative := value <? 0 in
  let '(result, times) := int64_factor_loop 63 base (if negative then wrap64 (- value) else value) 0 in
  (if negative then wrap64 (- result) else result, times).

Fixpoint big_factor_loop (fuel : nat) (factor d times : Z) : Z * Z :=
  if negb (d =? 0) && (d mod factor =? 0) then
    match fuel with
    | O => (d, times)
    | S fuel => big_factor_loop fuel factor (d / factor) (times + 1)
    end
  else (d, times).

Definition removeBigIntFactors (d factor : Z) : Z * Z := big_factor_loop (Z.to_nat (Z.log2 (Z.abs d))) factor d 0.

(** ** inf.Dec *)

(** [Round] with [RoundUp]: away from zero. *)
Definition Dec_RoundUp (x : Dec) (s : Z) : Dec :=
  if dscale x <=? s then MkDec (unscaled x * 10 ^ (s - dscale x)) s
  else
    let p := 10 ^ (dscale x - s) in
    MkDec (Z.quot (unscaled x) p + (if Z.rem (unscaled x) p =? 0 then 0 else Z.sgn (unscaled x))) s.

(** ** amount.go: canonical numbers *)

Definition int64Amount_AsScale (a : int64Amount) (s : Z) : int64Amount * bool :=
  if s <=? scale a then (a, true)
  else let '(result, exact) := negativeScaleInt64 (value a) (wrap32 (s - scale a)) in (Int64Amount result s, exact).

Definition Dec_AsScale (d : Dec) (s : Z) : Dec * bool :=
  let tmp := Dec_RoundUp d (wrap32 (- s)) in (tmp, Dec_Cmp tmp d =? 0).

(** Make the exponent a multiple of 3. *)
Fixpoint align_loop (fuel : nat) (amount exponent : Z) : Z * Z :=
  if Z.rem exponent 3 =? 0 then (amount, exponent)
  else match fuel with O => (amount, exponent) | S fuel => align_loop fuel (amount * 10) (exponent - 1) end.

Definition Dec_AsCanonicalBytes (d : Dec) : Z * Z :=
  let '(amount, times) := removeBigIntFactors (unscaled d) 10 in
  align_loop 2 amount (wrap32 (wrap32 (- dscale d) + times)).

Definition int64Amount_AsCanonicalBytes (a : int64Amount) : Z * Z :=
  let '(amount, times) := removeInt64Factors (value a) 10 in
  let exponent := wrap32 (scale a + times) in
  let r := Z.rem exponent 3 in
  if (r =? 1) || (r =? -2) then
    let '(amount, ok) := int64MultiplyScale10 amount in
    if ok then (amount, exponent - 1) else Dec_AsCanonicalBytes (int64Amount_AsDec a)
  else if (r =? 2) || (r =? -1) then
    let '(amount, ok) := int64MultiplyScale100 amount in
    if ok then (amount, exponent - 2) else Dec_AsCanonicalBytes (int64Amount_AsDec a)
  else (amount, exponent).

Definition Dec_AsCanonicalBase1024Bytes (d : Dec) : Z * Z := removeBigIntFactors (unscaled (Dec_RoundUp d 0)) 1024.

Definition int64Amount_AsCanonicalBase1024Bytes (a : int64Amount) : Z * Z :=
  let '(v, ok) := int64Amount_AsScaledInt64 a 0 in
  if ok then removeInt64Factors v 1024 else Dec_AsCanonicalBase1024Bytes (int64Amount_AsDec a).

(** ** suffix.go *)

Definition DecimalExponent : string := "DecimalExponent".
Definition BinarySI : string := "BinarySI".
Definition DecimalSI : string := "DecimalSI".

(** The tables of [newSuffixer]: suffix, base, exponent. *)
Definition decSuffixes : list (string * (Z * Z)) :=
  [(""%string, (2, 0)); ("n"%string, (10, -9)); ("u"%string, (10, -6)); ("m"%string, (10, -3)); (""%string, (10, 0));
   ("k"%string, (10, 3)); ("M"%string, (10, 6)); ("G"%string, (10, 9)); ("T"%string, (10, 12)); ("P"%string, (10, 15));
   ("E"%string, (10, 18))].
Definition binSuffixes : list (string * (Z * Z)) :=
  [("Ki"%string, (2, 10)); ("Mi"%string, (2, 20)); ("Gi"%string, (2, 30)); ("Ti"%string, (2, 40)); ("Pi"%string, (2, 50));
   ("Ei"%string, (2, 60))].

Definition suffix_for (table : list (string * (Z * Z))) (base exponent : Z) : option string :=
  fst <$> List.find (λ e : string * (Z * Z), (e.2.1 =? base) && (e.2.2 =? exponent)) table.

Definition constructBytes (base exponent : Z) (format : string) : option string :=
  if String.eqb format DecimalSI then suffix_for decSuffixes base exponent
  else if String.eqb format BinarySI then suffix_for binSuffixes base exponent
  else if String.eqb format DecimalExponent then
    if negb (base =? 10) then None
    else if exponent =? 0 then Some ""%string
    else Some ("e" +:+ pretty exponent)%string
  else None.

Definition suffix_lookup (table : list (string * (Z * Z))) (s : string) : option (Z * Z) :=
  snd <$> List.find (λ e : string * (Z * Z), String.eqb e.1 s) (rev table).

(** Base, exponent and format a suffix stands for: the tables, then the
    exponent notation. *)
Definition suffixHandler_interpret (s : string) : option (Z * Z * string) :=
  match suffix_lookup decSuffixes s, suffix_lookup binSuffixes s with
  | Some (b, e), _ => Some (b, e, DecimalSI)
  | None, Some (b, e) => Some (b, e, BinarySI)
  | None, None =>
      match s with
      | String c rest =>
          if negb (String.eqb rest "") && (Ascii.eqb c "E"%char || Ascii.eqb c "e"%char) then
            parsed ← ParseInt rest; Some (10, wrap32 parsed, DecimalExponent)
          else None
      | EmptyString => None
      end
  end.

Definition fastSuffixes : list (string * Z) :=
  [(""%string, 0); ("n"%string, -9); ("u"%string, -6); ("m"%string, -3); ("k"%string, 3); ("M"%string, 6); ("G"%string, 9)].

(** [fastLookup.interpret]. *)
Definition interpret (s : string) : option (Z * Z * string) :=
  match List.find (λ e : string * Z, String.eqb e.1 s) fastSuffixes with
  | Some (_, e) => Some (10, e, DecimalSI)
  | None => suffixHandler_interpret s
  end.

(** ** quantity.go: CanonicalizeBytes and String *)

Definition Quantity_CmpInt64 (q : Quantity) (y : Z) : Z :=
  match q_d q with
  | Some d => Dec_Cmp d (MkDec y 0)
  | None => int64Amount_Cmp (q_i q) (Int64Amount y 0)
  end.

Definition Quantity_AsCanonicalBytes (q : Quantity) : Z * Z :=
  match q_d q with Some d => Dec_AsCanonicalBytes d | None => int64Amount_AsCanonicalBytes (q_i q) end.

(** [AsScale(0)], and the base-1024 form of its result. *)
Definition Quantity_AsScale_exact (q : Quantity) : bool :=
  match q_d q with Some d => (Dec_AsScale d 0).2 | None => (int64Amount_AsScale (q_i q) 0).2 end.
Definition Quantity_AsCanonicalBase1024 (q : Quantity) : Z * Z :=
  match q_d q with
  | Some d => Dec_AsCanonicalBase1024Bytes (Dec_AsScale d 0).1
  | None => int64Amount_AsCanonicalBase1024Bytes (int64Amount_AsScale (q_i q) 0).1
  end.

(** The format a quantity is printed in: unknown formats count as exponents,
    small numbers and fractions are not printed with binary suffixes. *)
Definition print_format (q : Quantity) : string :=
  if String.eqb (Format q) DecimalExponent || String.eqb (Format q) DecimalSI then Format q
  else if String.eqb (Format q) BinarySI then
    if (0 <? Quantity_CmpInt64 q (-1024)) && (Quantity_CmpInt64 q 1024 <? 0) then DecimalSI
    else if Quantity_AsScale_exact q then BinarySI else DecimalSI
  else DecimalExponent.

(** The number, and base and exponent of the suffix. *)
Definition canonical (q : Quantity) : Z * (Z * Z) :=
  if String.eqb (print_format q) BinarySI then
    let '(number, exponent) := Quantity_AsCanonicalBase1024 q in (number, (2, exponent * 10))
  else
    let '(number, exponent) := Quantity_AsCanonicalBytes q in (number, (10, exponent)).

Definition CanonicalizeBytes (q : Quantity) : string * string :=
  if Quantity_IsZero q then ("0"%string, ""%string)
  else
    let '(number, (base, exponent)) := canonical q in
    (pretty number, default ""%string (constructBytes base exponent (print_format q))).

Definition Quantity_String (q : Quantity) : string :=
  let '(number, suffix) := CanonicalizeBytes q in (number +:+ suffix)%string.

Example text_milli : Quantity_String (NewMilliQuantity 1500 DecimalSI) = "1500m"%string.
Proof. reflexivity. Qed.

Example text_binary : Quantity_String (NewQuantity 1610612736 BinarySI) = "1536Mi"%string.
Proof. reflexivity. Qed.

Example text_exponent : Quantity_String (NewQuantity 12000000 DecimalExponent) = "12e6"%string.
Proof. reflexivity. Qed.

(** An exponent that has no suffix is dropped. *)
Example text_no_suffix : Quantity_String (MkQuantity (Int64Amount 1 21) None DecimalSI) = "1"%string.
Proof. reflexivity. Qed.

(** ** Dividing out factors is exact and complete *)

Ltac rem_lia := Z.to_euclidean_division_equations; lia.

Lemma int64_factor_loop_spec fuel base r t r' t' :
  1 < base → int64_factor_loop fuel base r t = (r', t') →
  t ≤ t' ≤ t + Z.of_nat fuel ∧ r' * base ^ (t' - t) = r ∧ (0 ≤ r → 0 ≤ r' ≤ r) ∧ (r < 0 → r' = r).
Proof.
  intros Hb. revert r t. induction fuel as [|fuel IH]; intros r t; cbn [int64_factor_loop]; destruct (_ && _) eqn:E.
  1,2,4: intros [= <- <-]; rewrite Z.sub_diag, Z.pow_0_r; lia.
  apply andb_true_iff in E as [Hr%Z.leb_le Hm%Z.eqb_eq]. intros H%IH. destruct H as (Ht & Hv & Hp & _).
  assert (r = base * Z.quot r base) as E by (pose proof (Z.quot_rem' r base); lia).
  assert (0 ≤ Z.quot r base) by (apply Z.quot_pos; lia).
  split_and!; [lia|lia| | |lia].
  - rewrite E at 1. rewrite <- Hv. replace (t' - t) with (Z.succ (t' - (t + 1))) by lia. rewrite Z.pow_succ_r by lia. ring.
  - intros _. destruct (Hp ltac:(lia)). nia.
Qed.

Lemma removeInt64Factors_spec v base r t :
  1 < base → int64_range v → removeInt64Factors v base = (r, t) → 0 ≤ t ≤ 63 ∧ r * base ^ t = v ∧ int64_range r.
Proof.
  intros Hb Hv. unfold removeInt64Factors. destruct (int64_factor_loop _ _ _ _) as [r0 t0] eqn:E.
  apply int64_factor_loop_spec in E as (Ht & Hr & Hpos & Hneg); [|done]. rewrite Z.sub_0_r in Hr.
  unfold int64_range, MinInt64, MaxInt64 in *. destruct (Z.ltb_spec v 0); intros [= <- <-]; [|lia].
  destruct (decide (v = -2^63)) as [->|].
  - change (wrap64 (- - 2 ^ 63)) with (-2^63) in *. rewrite (Hneg ltac:(lia)) in *. change (wrap64 (- - 2^63)) with (-2^63). lia.
  - rewrite (wrap64_small (- v)) in * by (unfold int64_range, MinInt64, MaxInt64; lia).
    rewrite (wrap64_small (- r0)) by (unfold int64_range, MinInt64, MaxInt64; lia). nia.
Qed.

(** The loop stops because no factor is left. *)
Lemma removeInt64Factors_done v base r t :
  1 < base → int64_range v → removeInt64Factors v base = (r, t) → ¬ (base ≤ Z.abs r ∧ Z.rem r base = 0 ∧ r ≠ MinInt64).
Proof.
  intros Hb Hv. unfold removeInt64Factors.
  assert (Hloop : ∀ fuel x t r t', x < 2 ^ (Z.of_nat fuel + 1) → int64_factor_loop fuel base x t = (r, t') →
    (base <=? r) && (Z.rem r base =? 0) = false).
  { intros fuel. induction fuel as [|fuel IH]; intros x t0 r0 t1 Hx; cbn [int64_factor_loop];
      destruct (_ && _) eqn:E; intros H; try (injection H as <- <-; done).
    - apply andb_true_iff in E as [E _]. apply Z.leb_le in E. change (2 ^ (Z.of_nat 0 + 1)) with 2 in Hx. lia.
    - eapply IH; [|exact H]. apply andb_true_iff in E as [E _]. apply Z.leb_le in E.
      replace (Z.of_nat (S fuel) + 1) with (Z.succ (Z.of_nat fuel + 1)) in Hx by lia. rewrite Z.pow_succ_r in Hx by lia.
      pose proof (Z.quot_rem' x base). pose proof (Z.rem_bound_pos x base ltac:(lia) ltac:(lia)). nia. }
  destruct (int64_factor_loop _ _ _ _) as [r0 t0] eqn:E. pose proof (int64_factor_loop_spec _ _ _ _ _ _ Hb E) as (_ & _ & Hpos & Hneg).
  apply Hloop in E; [|unfold int64_range, MinInt64, MaxInt64 in *; destruct (Z.ltb_spec v 0); [|change (Z.of_nat 63 + 1) with 64; lia];
    pose proof (wrap64_range (- v)) as Hw; unfold int64_range, MinInt64, MaxInt64 in Hw; change (Z.of_nat 63 + 1) with 64; lia].
  unfold int64_range, MinInt64, MaxInt64 in *.
  destruct (Z.ltb_spec v 0); intros [= <- <-] (H1 & H2 & H3); apply andb_false_iff in E as [E|E];
    try apply Z.leb_gt in E; try apply Z.eqb_neq in E; try lia.
  all: destruct (decide (v = -2^63)) as [->|]; [change (wrap64 (- - 2 ^ 63)) with (-2^63) in *; rewrite (Hneg ltac:(lia)) in *;
    change (wrap64 (- - 2^63)) with (-2^63) in *; lia|].
  all: rewrite (wrap64_small (- v)) in * by (unfold int64_range, MinInt64, MaxInt64; lia).
  all: rewrite (wrap64_small (- r0)) in * by (unfold int64_range, MinInt64, MaxInt64; lia).
  - lia.
  - rewrite Z.rem_opp_l in H2 by lia. lia.
Qed.

Lemma big_factor_loop_spec fuel factor d t d' t' :
  1 < factor → big_factor_loop fuel factor d t = (d', t') →
  t ≤ t' ≤ t + Z.of_nat fuel ∧ d' * factor ^ (t' - t) = d.
Proof.
  intros Hf. revert d t. induction fuel as [|fuel IH]; intros d t; cbn [big_factor_loop]; destruct (_ && _) eqn:E.
  1,2,4: intros [= <- <-]; rewrite Z.sub_diag, Z.pow_0_r; lia.
  apply andb_true_iff in E as [_ E%Z.eqb_eq]. intros [Ht Hv]%IH. split; [lia|].
  rewrite (Z.div_mod d factor), E, Z.add_0_r by lia. rewrite <- Hv.
  replace (t' - t) with (Z.succ (t' - (t + 1))) by lia. rewrite Z.pow_succ_r by lia. ring.
Qed.

Lemma removeBigIntFactors_done d factor d' t :
  1 < factor → removeBigIntFactors d factor = (d', t) → d' = 0 ∨ d' mod factor ≠ 0.
Proof.
  intros Hf. unfold removeBigIntFactors.
  assert (Hloop : ∀ fuel x t d' t', Z.abs x < 2 ^ (Z.of_nat fuel + 1) → big_factor_loop fuel factor x t = (d', t') →
    d' = 0 ∨ d' mod factor ≠ 0).
  { intros fuel. induction fuel as [|fuel IH]; intros x t0 d1 t1 Hx; cbn [big_factor_loop]; destruct (_ && _) eqn:E.
    2,4: intros [= <- <-]; apply andb_false_iff in E as [E|E]; [left; apply negb_false_iff, Z.eqb_eq in E; done|right; by apply Z.eqb_neq].
    all: apply andb_true_iff in E as [E1 E2]; apply negb_true_iff, Z.eqb_neq in E1; apply Z.eqb_eq in E2;
      pose proof (Z.div_mod x factor ltac:(lia)) as Hdm; rewrite E2, Z.add_0_r in Hdm.
    - change (2 ^ (Z.of_nat 0 + 1)) with 2 in Hx. intros _. exfalso. assert (x / factor = 0) by nia. nia.
    - apply IH. replace (Z.of_nat (S fuel) + 1) with (Z.succ (Z.of_nat fuel + 1)) in Hx by lia. rewrite Z.pow_succ_r in Hx by lia. nia. }
  apply Hloop. destruct (decide (d = 0)) as [->|]; [done|]. rewrite Z2Nat.id by apply Z.log2_nonneg.
  rewrite Z.add_1_r. apply Z.log2_spec. lia.
Qed.

Lemma removeBigIntFactors_spec d factor d' t :
  1 < factor → removeBigIntFactors d factor = (d', t) → 0 ≤ t ≤ Z.log2 (Z.abs d) ∧ d' * factor ^ t = d.
Proof.
  intros Hf H%big_factor_loop_spec; [|done]. rewrite Z2Nat.id, Z.sub_0_r in H by apply Z.log2_nonneg. lia.
Qed.

(** ** The canonical numbers are exact *)

Lemma scale_shift_Z v s e k : 0 ≤ k → e = s - k → (inject_Z (v * 10 ^ k) * pow10 e == inject_Z v * pow10 s)%Q.
Proof. intros Hk ->. rewrite scale_shift by done. by replace (s - k + k) with s by lia. Qed.

(** A decimal amount and exponent that stand for [x], the exponent a multiple
    of three and of 32 bits. *)
Definition canonical_decimal (r : Z * Z) (x : Q) : Prop :=
  (inject_Z r.1 * pow10 r.2 == x)%Q ∧ Z.rem r.2 3 = 0 ∧ - 2^31 ≤ r.2 < 2^31.

#[export] Instance canonical_decimal_proper r : Proper (Qeq ==> iff) (canonical_decimal r).
Proof. intros x y Hxy. unfold canonical_decimal. by rewrite Hxy. Qed.

Lemma align_loop_spec amount e x :
  - 2^30 ≤ e ≤ 2^30 → (inject_Z amount * pow10 e == x)%Q → canonical_decimal (align_loop 2 amount e) x.
Proof.
  intros He Hx. unfold canonical_decimal. cbn [align_loop].
  destruct (Z.eqb_spec (Z.rem e 3) 0); [split_and!; simpl; (done || lia)|]. destruct (Z.eqb_spec (Z.rem (e - 1) 3) 0); cbn [fst snd].
  - split; [|lia]. rewrite <- Hx. apply (scale_shift_Z _ _ _ 1); lia.
  - replace (amount * 10 * 10) with (amount * 10 ^ 2) by lia.
    destruct (Z.eqb_spec (Z.rem (e - 1 - 1) 3) 0) as [H|H]; cbn [fst snd].
    + split; [|lia]. rewrite <- Hx. apply (scale_shift_Z _ _ _ 2); lia.
    + exfalso. rem_lia.
Qed.

(** Decimals of a size that can be stored: fewer than [2^29] bits. *)
Definition wf_digits (d : Dec) : Prop := wf_scale (dscale d) ∧ Z.log2 (Z.abs (unscaled d)) < 2 ^ 29.

Lemma Dec_AsCanonicalBytes_spec d : wf_digits d → canonical_decimal (Dec_AsCanonicalBytes d) (dval d).
Proof.
  intros [Hs Hd]. unfold Dec_AsCanonicalBytes. destruct (removeBigIntFactors _ _) as [amount times] eqn:E.
  apply removeBigIntFactors_spec in E as [Ht E]; [|done].
  rewrite wf_scale_opp by done. unfold wf_scale in Hs. rewrite wrap32_small by lia. apply align_loop_spec; [lia|].
  unfold dval. rewrite <- E, scale_shift by lia. done.
Qed.

Lemma int64_digits a : wf_amount a → wf_digits (int64Amount_AsDec a) ∧ (dval (int64Amount_AsDec a) == ival a)%Q.
Proof.
  intros Ha. pose proof (AsDec_spec a Ha) as [Hs Hv]. split; [split|]; [done| |done].
  destruct Ha as [Hr _]. unfold int64_range, MinInt64, MaxInt64 in Hr. simpl.
  assert (Z.log2 (Z.abs (value a)) ≤ 63); [|lia]. change 63 with (Z.log2 (2 ^ 63)). apply Z.log2_le_mono. lia.
Qed.

Lemma int64Amount_AsCanonicalBytes_spec a : wf_amount a → canonical_decimal (int64Amount_AsCanonicalBytes a) (ival a).
Proof.
  intros Ha. unfold int64Amount_AsCanonicalBytes. destruct (removeInt64Factors _ _) as [amount times] eqn:E.
  assert (Hdec : canonical_decimal (Dec_AsCanonicalBytes (int64Amount_AsDec a)) (ival a)).
  { destruct (int64_digits a Ha) as [Hd Hv]. rewrite <- Hv. by apply Dec_AsCanonicalBytes_spec. }
  destruct Ha as [Hr Hs]. apply removeInt64Factors_spec in E as (Ht & E & Ham); [|done..].
  unfold wf_scale in Hs. rewrite wrap32_small by lia. set (e := scale a + times).
  assert (Hv : (inject_Z amount * pow10 e == ival a)%Q) by (unfold ival, e; rewrite <- E, scale_shift by lia; done).
  rewrite multiplyScale10_eq, multiplyScale100_eq.
  destruct ((Z.rem e 3 =? 1) || _) eqn:E1; [|destruct ((Z.rem e 3 =? 2) || _) eqn:E2].
  - destruct (int64MultiplyScale _ _) as [c []] eqn:Em; [|done].
    apply int64MultiplyScale_exact in Em as [-> _]; [|done..]. apply orb_true_iff in E1. rewrite !Z.eqb_eq in E1.
    split; cbn [fst snd]; [by rewrite <- Hv, <- (scale_shift_Z amount e (e - 1) 1) by lia|split; [rem_lia|lia]].
  - destruct (int64MultiplyScale _ _) as [c []] eqn:Em; [|done].
    apply int64MultiplyScale_exact in Em as [-> _]; [|done..]. apply orb_true_iff in E2. rewrite !Z.eqb_eq in E2.
    split; cbn [fst snd]; [by rewrite <- Hv, <- (scale_shift_Z amount e (e - 2) 2) by lia|split; [rem_lia|lia]].
  - apply orb_false_iff in E1, E2. rewrite !Z.eqb_neq in E1, E2. split; [done|]. cbn [snd]. split; [rem_lia|lia].
Qed.

(** A power of 1024 and the number of them that make [x]. *)
Definition canonical_binary (r : Z * Z) (x : Q) : Prop := (inject_Z (r.1 * 1024 ^ r.2) == x)%Q ∧ 0 ≤ r.2.

#[export] Instance canonical_binary_proper r : Proper (Qeq ==> iff) (canonical_binary r).
Proof. intros x y Hxy. unfold canonical_binary. by rewrite Hxy. Qed.

Lemma scaleDownLoop_exact n base v fr r :
  scaleDownLoop n base v fr = (r, true) → fr = false ∧ r * 10 ^ Z.of_nat n = v.
Proof.
  revert v fr. induction n as [|n IH]; intros v fr; cbn [scaleDownLoop].
  { destruct fr; [by destruct (0 <? base)|]. intros [= ->]. split; [done|]. simpl. lia. }
  destruct (fr || _) eqn:E.
  - destruct (Z.quot v 10 =? 0); [destruct (0 <? base); discriminate|]. by intros [? _]%IH.
  - apply orb_false_iff in E as [-> E]. apply negb_false_iff, Z.eqb_eq in E.
    pose proof (Z.quot_rem' v 10) as Hq. rewrite E, Z.add_0_r in Hq. rewrite Nat2Z.inj_succ, Z.pow_succ_r by lia.
    destruct (Z.eqb_spec (Z.quot v 10) 0) as [E0|].
    + intros [= <-]. split; [done|]. lia.
    + intros [_ H]%IH. split; [done|]. lia.
Qed.

Lemma negativeScaleInt64_exact v n r : 0 ≤ n → negativeScaleInt64 v n = (r, true) → r * 10 ^ n = v.
Proof.
  unfold negativeScaleInt64. intros Hn. destruct (Z.eqb_spec n 0) as [->|]; [intros [= ->]; lia|].
  intros [_ H]%scaleDownLoop_exact. by rewrite Z2Nat.id in H by done.
Qed.

Lemma int64Amount_AsScale_exact a :
  wf_amount a → (int64Amount_AsScale a 0).2 = true →
  let r := (int64Amount_AsScale a 0).1 in wf_amount r ∧ 0 ≤ scale r ∧ (ival r == ival a)%Q.
Proof.
  intros Ha. pose proof Ha as [Hr Hs]. unfold int64Amount_AsScale. destruct (Z.leb_spec 0 (scale a)); [done|].
  rewrite wf_scale_diff by done. destruct (negativeScaleInt64 _ _) as [r ok] eqn:E. simpl. intros ->.
  apply negativeScaleInt64_exact in E; [|lia]. split_and!; [|done|].
  - split; simpl; [|unfold wf_scale; lia]. assert (1 ≤ 10 ^ (0 - scale a)) by (apply (Z.pow_le_mono_r 10 0); lia).
    unfold int64_range, MinInt64, MaxInt64 in *. nia.
  - unfold ival. simpl. rewrite <- E, scale_shift by lia. by replace (scale a + (0 - scale a)) with 0 by lia.
Qed.

Lemma Dec_RoundUp_whole d s : dscale d ≤ s → (dval (Dec_RoundUp d s) == dval d)%Q.
Proof.
  intros H. unfold Dec_RoundUp. destruct (Z.leb_spec (dscale d) s); [|lia]. unfold dval. simpl.
  apply scale_shift_Z; lia.
Qed.

Lemma Dec_AsCanonicalBase1024Bytes_spec d :
  (dval (Dec_RoundUp d 0) == dval d)%Q → canonical_binary (Dec_AsCanonicalBase1024Bytes d) (dval d).
Proof.
  intros Hd. unfold Dec_AsCanonicalBase1024Bytes. destruct (removeBigIntFactors _ _) as [n e] eqn:E.
  apply removeBigIntFactors_spec in E as [He E]; [|done]. split; simpl; [|lia]. rewrite <- Hd, E. unfold dval.
  assert (dscale (Dec_RoundUp d 0) = 0) as -> by (unfold Dec_RoundUp; by destruct (_ <=? _)).
  change (pow10 (- 0)) with 1%Q. ring.
Qed.

Lemma int64Amount_AsCanonicalBase1024Bytes_spec a :
  wf_amount a → 0 ≤ scale a → canonical_binary (int64Amount_AsCanonicalBase1024Bytes a) (ival a).
Proof.
  intros Ha Hpos. pose proof Ha as [Hr Hs]. unfold int64Amount_AsCanonicalBase1024Bytes, int64Amount_AsScaledInt64.
  destruct (Z.ltb_spec (scale a) 0); [lia|]. rewrite wf_scale_diff by done. rewrite Z.sub_0_r.
  destruct (positiveScaleInt64 _ _) as [v []] eqn:E.
  - apply positiveScaleInt64_exact in E as [-> Hv]; [|done..]. destruct (removeInt64Factors _ _) as [n e] eqn:E.
    apply removeInt64Factors_spec in E as (He & E & _); [|done..]. split; simpl; [|lia].
    rewrite E. unfold ival. by rewrite pow10_Z, inject_Z_mult by done.
  - destruct (int64_digits a Ha) as [_ Hv]. rewrite <- Hv. apply Dec_AsCanonicalBase1024Bytes_spec, Dec_RoundUp_whole.
    simpl. rewrite wf_scale_opp by done. lia.
Qed.

Lemma Dec_AsScale_exact d :
  wf_scale (dscale d) → (Dec_AsScale d 0).2 = true →
  dscale (Dec_AsScale d 0).1 = 0 ∧ (dval (Dec_AsScale d 0).1 == dval d)%Q.
Proof.
  intros Hs. unfold Dec_AsScale. simpl. intros H%Z.eqb_eq.
  assert (dscale (Dec_RoundUp d (wrap32 (- 0))) = 0) as E by (unfold Dec_RoundUp; by destruct (_ <=? _)).
  rewrite Dec_Cmp_spec in H by (rewrite ?E; done || unfold wf_scale; lia). split; [done|].
  apply Qeq_alt. by destruct (_ ?= _)%Q.
Qed.

(** Quantities of a size that can be stored. *)
Definition wf_text (q : Quantity) : Prop :=
  match q_d q with Some d => wf_digits d | None => wf_amount (q_i q) end.

Lemma Quantity_AsCanonicalBytes_spec q : wf_text q → canonical_decimal (Quantity_AsCanonicalBytes q) (qval q).
Proof.
  unfold wf_text, Quantity_AsCanonicalBytes, qval. destruct (q_d q).
  - apply Dec_AsCanonicalBytes_spec.
  - apply int64Amount_AsCanonicalBytes_spec.
Qed.

Lemma Quantity_AsCanonicalBase1024_spec q :
  wf_text q → Quantity_AsScale_exact q = true → canonical_binary (Quantity_AsCanonicalBase1024 q) (qval q).
Proof.
  unfold wf_text, Quantity_AsScale_exact, Quantity_AsCanonicalBase1024, qval. destruct (q_d q) as [d|].
  - intros [Hs _] H. apply Dec_AsScale_exact in H as [H0 Hv]; [|done]. rewrite <- Hv.
    apply Dec_AsCanonicalBase1024Bytes_spec, Dec_RoundUp_whole. lia.
  - intros Ha H. apply int64Amount_AsScale_exact in H as (Hw & Hs & Hv); [|done]. rewrite <- Hv.
    by apply int64Amount_AsCanonicalBase1024Bytes_spec.
Qed.

(** ** Suffixes *)

(** The quantities whose exponent has a suffix in the printed format. *)
Definition has_suffix (q : Quantity) : bool :=
  let e := (canonical q).2.2 in
  if String.eqb (print_format q) DecimalSI then (-9 <=? e) && (e <=? 18)
  else if String.eqb (print_format q) BinarySI then e <=? 60 else true.

(** A text after a number: not read as part of it. *)
Definition not_numeric (s : string) : bool :=
  match s with EmptyString => true | String c _ => negb (is_digit c || Ascii.eqb c "."%char) end.

(** [s] stands for [base^exponent]. *)
Definition denotes (s : string) (base exponent : Z) : Prop :=
  not_numeric s = true ∧
  ∃ b e f, interpret s = Some (b, e, f) ∧ (Qpower (inject_Z b) e == Qpower (inject_Z base) exponent)%Q.

Lemma decimal_suffix e :
  -9 ≤ e ≤ 18 → Z.rem e 3 = 0 → ∃ s, suffix_for decSuffixes 10 e = Some s ∧ denotes s 10 e.
Proof.
  intros He Hm. assert (∃ k, e = 3 * k ∧ -3 ≤ k ≤ 6) as (k & -> & Hk) by (exists (Z.quot e 3); rem_lia).
  assert (k ∈ [-3; -2; -1; 0; 1; 2; 3; 4; 5; 6]) as Hin by (rewrite !elem_of_cons; lia).
  repeat (apply elem_of_cons in Hin as [->|Hin]; [eexists; split; [reflexivity|]; split; [done|]; by do 3 eexists|]).
  by apply not_elem_of_nil in Hin.
Qed.

Lemma binary_suffix k :
  0 ≤ k ≤ 6 → denotes (default ""%string (suffix_for binSuffixes 2 (k * 10))) 2 (k * 10).
Proof.
  intros Hk. assert (k ∈ [0; 1; 2; 3; 4; 5; 6]) as Hin by (rewrite !elem_of_cons; lia).
  repeat (apply elem_of_cons in Hin as [->|Hin]; [split; [done|]; by do 3 eexists|]).
  by apply not_elem_of_nil in Hin.
Qed.

Lemma exponent_suffix e : - 2^31 ≤ e < 2^31 → e ≠ 0 → denotes ("e" +:+ pretty e) 10 e.
Proof.
  intros He H0. split; [done|]. exists 10, e, DecimalExponent. split; [|done].
  assert (ParseInt (pretty e) = Some e) as Hp by (apply ParseInt_pretty; unfold int64_range, MinInt64, MaxInt64; lia).
  change (interpret ("e" +:+ pretty e))
    with (if negb (String.eqb (pretty e) "") && true then parsed ← ParseInt (pretty e); Some (10, wrap32 parsed, DecimalExponent) else None).
  rewrite Hp. destruct (pretty e) eqn:E; [by destruct (pretty_leading e H0) as (d & ds & [?|?] & _); congruence|].
  simpl. by rewrite wrap32_small by lia.
Qed.

Lemma print_format_cases q :
  print_format q = DecimalSI ∨ print_format q = DecimalExponent ∨
  print_format q = BinarySI ∧ Quantity_AsScale_exact q = true.
Proof.
  unfold print_format. destruct (_ || _) eqn:E; [apply orb_true_iff in E; rewrite !String.eqb_eq in E; tauto|].
  destruct (String.eqb (Format q) BinarySI); [|tauto]. destruct (_ && _); [tauto|].
  destruct (Quantity_AsScale_exact q) eqn:Ex; rewrite ?Ex; tauto.
Qed.

Lemma zero_qval q : Quantity_IsZero q = true → (qval q == 0)%Q.
Proof.
  unfold Quantity_IsZero, qval, dval, ival. destruct (q_d q); intros ->%Z.eqb_eq; apply Qmult_0_l.
Qed.

Lemma pow1024 k : 0 ≤ k → (Qpower (inject_Z 2) (k * 10) == inject_Z (1024 ^ k))%Q.
Proof. intros Hk. rewrite <- Zpower_Qpower by lia. rewrite Z.mul_comm, Z.pow_mul_r by lia. done. Qed.

(** ** Claims *)

(** The text of a quantity stands for it: whatever its representation and
    format, [Quantity.String] of a quantity that can be stored and whose
    exponent has a suffix is a decimal number followed by a suffix which
    [interpret] reads as a base and an exponent, and number, base and exponent
    make exactly the quantity's value. *)
Theorem quantity_text_is_exact (q : Quantity) :
  wf_text q → has_suffix q = true →
  ∃ number suffix base exponent format,
    Quantity_String q = (pretty number +:+ suffix)%string ∧ not_numeric suffix = true ∧
    interpret suffix = Some (base, exponent, format) ∧
    (qval q == inject_Z number * Qpower (inject_Z base) exponent)%Q.
Proof.
  intros Hw Hs. unfold Quantity_String, CanonicalizeBytes. destruct (Quantity_IsZero q) eqn:Ez.
  { exists 0, ""%string, 10, 0, DecimalSI. split_and!; [done..|]. rewrite zero_qval by done. done. }
  assert (∃ n b e, canonical q = (n, (b, e)) ∧ (qval q == inject_Z n * Qpower (inject_Z b) e)%Q ∧
    denotes (default ""%string (constructBytes b e (print_format q))) b e) as (n & b & e & -> & Hv & Hn & b' & e' & f & Hi & Hp).
  2: { exists n, (default ""%string (constructBytes b e (print_format q))), b', e', f. split_and!; [done..|]. by rewrite Hp. }
  revert Hs. unfold has_suffix, canonical.
  pose proof (Quantity_AsCanonicalBytes_spec q Hw) as (Hd & Hm & Hr).
  pose proof (Quantity_AsCanonicalBase1024_spec q Hw) as Hb.
  destruct (Quantity_AsCanonicalBytes q) as [n e]. destruct (Quantity_AsCanonicalBase1024 q) as [n2 k]. cbn [fst snd] in *.
  destruct (print_format_cases q) as [->|[->|[-> Hx]]]; simpl; intros Hs.
  - exists n, 10, e. split_and!; [done..|]. apply andb_true_iff in Hs. rewrite !Z.leb_le in Hs.
    destruct (decimal_suffix e) as (s & E & Hden); [lia|done|]. change (constructBytes 10 e DecimalSI) with (suffix_for decSuffixes 10 e).
    by rewrite E.
  - exists n, 10, e. split_and!; [done..|]. unfold constructBytes. simpl. destruct (Z.eqb_spec e 0) as [->|]; [by split; [|do 3 eexists]|].
    by apply exponent_suffix.
  - destruct (Hb Hx) as [Hv Hk]. simpl in *. apply Z.leb_le in Hs. exists n2, 2, (k * 10). split_and!; [done| |apply binary_suffix; lia].
    by rewrite pow1024, <- inject_Z_mult, Hv by done.
Qed.

Lemma quantity_text_is_exact_witness :
  ∃ number suffix base exponent format,
    Quantity_String (NewQuantity 1610612736 BinarySI) = (pretty number +:+ suffix)%string ∧ not_numeric suffix = true ∧
    interpret suffix = Some (base, exponent, format) ∧
    (qval (NewQuantity 1610612736 BinarySI) == inject_Z number * Qpower (inject_Z base) exponent)%Q.
Proof.
  refine (quantity_text_is_exact (NewQuantity 1610612736 BinarySI) _ _); [|reflexivity].
  vm_compute. intuition congruence.
Defined.
