(* ===== verification/GoStd.v ===== *)
(** * What the code uses of Go's standard library

    [float64] as IEEE 754 binary64 (the executable reference of the standard
    library, round to nearest even); [sort.Slice] and the iteration order of
    [range] over a map, whose results Go leaves unspecified, as type classes
    that state what the code may rely on, each with a concrete inhabitant. *)
From stdpp Require Import base tactics list strings gmap fin_maps.
From Stdlib Require Import ZArith Lia SpecFloat Sorted.
From S2P Require Import Prelude Strconv.

Local Open Scope Z_scope.

(** ** float64 *)

Abbreviation float64 := spec_float.

Definition float64_of_int64 (z : Z) : float64 := binary_normalize 53 1024 z 0 false.
Definition float64_div (x y : float64) : float64 := SFdiv 53 1024 x y.
Definition float64_add (x y : float64) : float64 := SFadd 53 1024 x y.
Definition float64_lt (x y : float64) : bool := SFltb x y.
Definition MaxFloat64 : float64 := SFmax_float 53 1024.
Definition is_nan (x : float64) : bool := match x with S754_nan => true | _ => false end.

(** A key whose lexicographic order is the order of non-NaN floats. *)
Definition float_key (x : float64) : Z * Z * Z :=
  match x with
  | S754_infinity true => (-2, 0, 0)
  | S754_finite true m e => (-1, - e, - Zpos m)
  | S754_zero _ => (0, 0, 0)
  | S754_finite false m e => (1, e, Zpos m)
  | S754_infinity false => (2, 0, 0)
  | S754_nan => (3, 0, 0)
  end.

Definition key_lt (a b : Z * Z * Z) : Prop :=
  let '(a1, a2, a3) := a in let '(b1, b2, b3) := b in
  a1 < b1 ∨ a1 = b1 ∧ (a2 < b2 ∨ a2 = b2 ∧ a3 < b3).

Lemma float64_lt_key x y :
  is_nan x = false → is_nan y = false → float64_lt x y = true ↔ key_lt (float_key x) (float_key y).
Proof.
  unfold float64_lt, SFltb. destruct x as [sx|[]| |sx mx ex], y as [sy|[]| |sy my ey]; try done;
    intros _ _; simpl; try (destruct sx); try (destruct sy); simpl; try (split; [done || lia|done || lia]).
  - change (Pos.compare_cont Eq mx my) with (mx ?= my)%positive.
    destruct (Z.compare_spec ex ey); [subst|split; [done|lia]|split; [lia|done]].
    destruct (Pos.compare_spec mx my); simpl; split; (done || lia).
  - change (Pos.compare_cont Eq mx my) with (mx ?= my)%positive.
    destruct (Z.compare_spec ex ey); [subst|split; [lia|done]|split; [done|lia]].
    destruct (Pos.compare_spec mx my); simpl; split; (done || lia).
Qed.

Lemma float64_lt_nan_l x y : is_nan x = true → float64_lt x y = false.
Proof. by destruct x. Qed.
Lemma float64_lt_nan_r x y : is_nan y = true → float64_lt x y = false.
Proof. destruct x as [?|[]| |[] ? ?], y as [?|[]| |[] ? ?]; done. Qed.

Lemma float64_lt_not_nan x y : float64_lt x y = true → is_nan x = false ∧ is_nan y = false.
Proof.
  intros H. destruct (is_nan x) eqn:Ex; [by rewrite float64_lt_nan_l in H|].
  destruct (is_nan y) eqn:Ey; [by rewrite float64_lt_nan_r in H|]. done.
Qed.

Lemma float64_lt_irrefl x : float64_lt x x = false.
Proof.
  apply not_true_iff_false. intros H. pose proof (float64_lt_not_nan _ _ H) as [Hx _].
  apply float64_lt_key in H; [|done..]. destruct (float_key x) as [[? ?] ?]; simpl in H. lia.
Qed.

Lemma float64_lt_trans x y z :
  float64_lt x y = true → float64_lt y z = true → float64_lt x z = true.
Proof.
  intros H1 H2. pose proof (float64_lt_not_nan _ _ H1) as [Hx Hy].
  pose proof (float64_lt_not_nan _ _ H2) as [_ Hz].
  apply float64_lt_key in H1, H2; [|done..]. apply float64_lt_key; [done..|].
  destruct (float_key x) as [[? ?] ?], (float_key y) as [[? ?] ?], (float_key z) as [[? ?] ?];
    simpl in *. lia.
Qed.

Lemma float64_lt_asym x y : float64_lt x y = true → float64_lt y x = false.
Proof.
  intros H. apply not_true_iff_false. intros H'.
  pose proof (float64_lt_trans _ _ _ H H') as Hx. by rewrite float64_lt_irrefl in Hx.
Qed.

(** ** Strict weak orders, and sort.Slice *)

Record strict_weak_on {A} (less : A → A → bool) (l : list A) : Prop := {
  swo_irrefl : ∀ x, x ∈ l → less x x = false;
  swo_trans : ∀ x y z, x ∈ l → y ∈ l → z ∈ l →
    less x y = true → less y z = true → less x z = true;
  swo_incomp : ∀ x y z, x ∈ l → y ∈ l → z ∈ l →
    less x y = false → less y z = false → less x z = false }.

(** [sort.Slice]: the slice is permuted; if [less] is a strict weak order on
    it, no later element is less than an earlier one.  The sort is not
    stable. *)
Class SliceSort : Type := {
  sortSlice : ∀ {A}, (A → A → bool) → list A → list A;
  sortSlice_perm : ∀ {A} (less : A → A → bool) l, sortSlice less l ≡ₚ l;
  sortSlice_sorted : ∀ {A} (less : A → A → bool) l, strict_weak_on less l →
    ∀ i j x y, (i < j)%nat → sortSlice less l !! i = Some x → sortSlice less l !! j = Some y →
    less y x = false }.

Lemma float64_strict_weak {A} (load : A → float64) (l : list A) :
  (∀ x, x ∈ l → is_nan (load x) = false) →
  strict_weak_on (λ x y, float64_lt (load x) (load y)) l.
Proof.
  intros Hn.
  assert (Hk : ∀ x y, x ∈ l → y ∈ l →
    float64_lt (load x) (load y) = true ↔ key_lt (float_key (load x)) (float_key (load y))).
  { intros x y Hx Hy. apply float64_lt_key; auto. }
  assert (Hkf : ∀ x y, x ∈ l → y ∈ l →
    float64_lt (load x) (load y) = false ↔ ¬ key_lt (float_key (load x)) (float_key (load y))).
  { intros x y Hx Hy. rewrite <- Hk by done. by destruct (float64_lt _ _). }
  split.
  - intros x Hx. apply Hkf; [done..|]. destruct (float_key _) as [[? ?] ?]; simpl. lia.
  - intros x y z Hx Hy Hz. rewrite !Hk by done.
    destruct (float_key (load x)) as [[? ?] ?], (float_key (load y)) as [[? ?] ?],
      (float_key (load z)) as [[? ?] ?]; simpl. lia.
  - intros x y z Hx Hy Hz. rewrite !Hkf by done.
    destruct (float_key (load x)) as [[? ?] ?], (float_key (load y)) as [[? ?] ?],
      (float_key (load z)) as [[? ?] ?]; simpl. lia.
Qed.

(** Insertion sort satisfies the contract. *)
Fixpoint insertSorted {A} (less : A → A → bool) (x : A) (l : list A) : list A :=
  match l with
  | [] => [x]
  | y :: l' => if less x y then x :: y :: l' else y :: insertSorted less x l'
  end.

Definition insertionSort {A} (less : A → A → bool) (l : list A) : list A :=
  foldr (insertSorted less) [] l.

Lemma insertSorted_perm {A} (less : A → A → bool) x l : insertSorted less x l ≡ₚ x :: l.
Proof.
  induction l as [|y l IH]; simpl; [done|]. destruct (less x y); [done|].
  rewrite IH. apply Permutation_swap.
Qed.

Lemma insertionSort_perm {A} (less : A → A → bool) l : insertionSort less l ≡ₚ l.
Proof. induction l as [|x l IH]; simpl; [done|]. by rewrite insertSorted_perm, IH. Qed.

Lemma insertSorted_sorted {A} (less : A → A → bool) (all : list A) x l :
  strict_weak_on less all → x ∈ all → (∀ y, y ∈ l → y ∈ all) →
  StronglySorted (λ a b, less b a = false) l →
  StronglySorted (λ a b, less b a = false) (insertSorted less x l).
Proof.
  intros Hsw Hx Hl Hs. induction Hs as [|y l Hs IH Hall]; simpl.
  { repeat constructor. }
  rewrite Forall_forall in Hall. destruct (less x y) eqn:E.
  - assert (Hyx : less y x = false).
    { destruct (less y x) eqn:E'; [|done]. assert (less x x = true) as Hxx.
      - apply (swo_trans _ _ Hsw x y x); [done|apply Hl; by left|done..].
      - rewrite (swo_irrefl _ _ Hsw) in Hxx; done. }
    constructor; [constructor; [done|]; by rewrite Forall_forall|].
    rewrite Forall_forall. intros z [->|Hz]%elem_of_cons; [done|].
    eapply (swo_incomp _ _ Hsw _ y); eauto; apply Hl; set_solver.
  - constructor; [apply IH; set_solver|]. rewrite Forall_forall. intros z.
    rewrite insertSorted_perm. intros [->|Hz]%elem_of_cons; [done|]. by apply Hall.
Qed.

Lemma insertionSort_sorted {A} (less : A → A → bool) (all l : list A) :
  strict_weak_on less all → (∀ y, y ∈ l → y ∈ all) →
  StronglySorted (λ a b, less b a = false) (insertionSort less l).
Proof.
  intros Hsw. induction l as [|x l IH]; intros Hl; simpl; [constructor|].
  apply (insertSorted_sorted _ all); [done|set_solver| |apply IH; set_solver].
  intros y. rewrite insertionSort_perm. set_solver.
Qed.

Lemma StronglySorted_lookup {A} (R : A → A → Prop) (l : list A) :
  StronglySorted R l → ∀ i j x y, (i < j)%nat → l !! i = Some x → l !! j = Some y → R x y.
Proof.
  induction 1 as [|a l Hs IH Hall]; intros i j x y Hij Hi Hj; [done|].
  destruct j as [|j]; [lia|]. destruct i as [|i]; simplify_eq/=.
  - rewrite Forall_forall in Hall. apply Hall. by apply list_elem_of_lookup_2 in Hj.
  - eapply (IH i j); eauto. lia.
Qed.

Definition insertion_sort : SliceSort.
Proof.
  refine {| sortSlice := @insertionSort; sortSlice_perm := @insertionSort_perm |}.
  intros A less l Hsw i j x y Hij Hi Hj.
  eapply (StronglySorted_lookup (λ a b, less b a = false)); [|exact Hij|exact Hi|exact Hj].
  eapply insertionSort_sorted; [exact Hsw|done].
Defined.

(** ** Iteration over maps *)

(** [range] over a map visits every entry once, in an order Go does not
    specify. *)
Class MapRange : Type := {
  range : ∀ {V}, gmap string V → list (string * V);
  range_perm : ∀ {V} (m : gmap string V), range m ≡ₚ map_to_list m }.

Definition map_to_list_range : MapRange.
Proof. exact {| range V m := map_to_list m; range_perm V m := Permutation_refl _ |}. Defined.

Lemma elem_of_range `{MapRange} {V} (m : gmap string V) k v : (k, v) ∈ range m ↔ m !! k = Some v.
Proof. rewrite range_perm. apply elem_of_map_to_list. Qed.

Lemma nodup_range_keys `{MapRange} {V} (m : gmap string V) : NoDup (range m).*1.
Proof. rewrite range_perm. apply NoDup_fst_map_to_list. Qed.
