(* ===== verification/KubeTypes.v ===== *)
(** * Kubernetes API objects, NodeInfo and the error types

    The fields of the vendored API types (client-go/pkg/api/v1, policy/v1beta1,
    apimachinery/meta/v1) that the program reads or writes; the other fields
    are carried unchanged by the code and are left out.  A nil pointer is
    [None]; an absent map key reads as the zero value.

    The second half holds the error values of the four packages, one
    constructor per Go error type, and their [Error()] texts. *)
From stdpp Require Import base tactics list strings gmap pretty.
From Stdlib Require Import ZArith.
From S2P Require Import Prelude Strconv GoStd Quantity QuantityText.

(** ** Metadata *)

Record OwnerReference : Type := MkOwnerReference {
  Owner_Kind : string;
  Owner_Name : string;
  Controller : option bool }.

Record ObjectMeta : Type := MkObjectMeta {
  Name : string;
  Namespace : string;
  Labels : gmap string string;
  Annotations : gmap string string;
  OwnerReferences : list OwnerReference;
  DeletionGracePeriodSeconds : option Z }.

(** ** Taints, tolerations, node selectors *)

Record Taint : Type := MkTaint {
  Taint_Key : string;
  Taint_Value : string;
  Taint_Effect : string;
  TimeAdded : Z }.

Definition TaintEffectNoSchedule : string := "NoSchedule".
Definition TaintEffectNoExecute : string := "NoExecute".

Record Toleration : Type := MkToleration {
  Tol_Key : string;
  Tol_Operator : string;
  Tol_Value : string;
  Tol_Effect : string }.

Definition TolerationOpExists : string := "Exists".
Definition TolerationOpEqual : string := "Equal".

Record NodeSelectorRequirement : Type := MkNodeSelectorRequirement {
  Req_Key : string;
  Req_Operator : string;
  Req_Values : list string }.

Record NodeSelectorTerm : Type := MkNodeSelectorTerm {
  MatchExpressions : list NodeSelectorRequirement }.

Record NodeSelector : Type := MkNodeSelector { NodeSelectorTerms : list NodeSelectorTerm }.

Record NodeAffinity : Type := MkNodeAffinity {
  RequiredDuringSchedulingIgnoredDuringExecution : option NodeSelector }.

Record Affinity : Type := MkAffinity { Affinity_NodeAffinity : option NodeAffinity }.

(** ** Pods *)

Record Container : Type := MkContainer {
  Container_Name : string;
  Requests : gmap string Quantity }.

(** A volume source is a pointer; only whether it is nil is looked at. *)
Record Volume : Type := MkVolume {
  Volume_Name : string;
  HostPath : option string;
  EmptyDir : option string }.

Record PodSpec : Type := MkPodSpec {
  Volumes : list Volume;
  Containers : list Container;
  Spec_NodeSelector : gmap string string;
  Tolerations : list Toleration;
  Spec_Affinity : option Affinity }.

Record Pod : Type := MkPod {
  Pod_Meta : ObjectMeta;
  Pod_Spec : PodSpec;
  Phase : string }.

Definition PodPending : string := "Pending".
Definition PodRunning : string := "Running".

(** ** Nodes *)

Record NodeSpec : Type := MkNodeSpec {
  PodCIDR : string;
  ExternalID : string;
  ProviderID : string;
  Unschedulable : bool;
  Taints : list Taint }.

Record NodeCondition : Type := MkNodeCondition {
  Condition_Type : string;
  Condition_Status : string }.

Definition NodeReady : string := "Ready".
Definition ConditionTrue : string := "True".

Record NodeStatus : Type := MkNodeStatus {
  Allocatable : gmap string Quantity;
  Conditions : list NodeCondition }.

Record Node : Type := MkNode {
  Node_Meta : ObjectMeta;
  Node_Spec : NodeSpec;
  Node_Status : NodeStatus }.

(** nodeinfo.go: a node with the pods scheduled onto it. *)
Record NodeInfo : Type := MkNodeInfo { NodeOf : Node; Pods : list Pod }.

(** Field access through the embedded structs. *)
Definition podName (p : Pod) : string := Name (Pod_Meta p).
Definition podNamespace (p : Pod) : string := Namespace (Pod_Meta p).
Definition nodeName (n : NodeInfo) : string := Name (Node_Meta (NodeOf n)).

(** [node.Spec.Taints = taints]. *)
Definition set_taints (n : Node) (ts : list Taint) : Node :=
  let s := Node_Spec n in
  MkNode (Node_Meta n)
    (MkNodeSpec (PodCIDR s) (ExternalID s) (ProviderID s) (Unschedulable s) ts)
    (Node_Status n).

(** ** Disruption budgets and evictions *)

Record LabelSelectorRequirement : Type := MkLabelSelectorRequirement {
  Sel_Key : string;
  Sel_Operator : string;
  Sel_Values : list string }.

Record LabelSelector : Type := MkLabelSelector {
  MatchLabels : gmap string string;
  Sel_MatchExpressions : list LabelSelectorRequirement }.

Record PodDisruptionBudget : Type := MkPodDisruptionBudget {
  PDB_Meta : ObjectMeta;
  PDB_Selector : option LabelSelector;
  PodDisruptionsAllowed : Z }.

Record Eviction : Type := MkEviction {
  Evict_Name : string;
  Evict_Namespace : string;
  GracePeriodSeconds : option Z }.

Record ListOptions : Type := MkListOptions { FieldSelector : string }.

(** ** Errors *)

(** Errors of the vendored label-selector package. *)
Inductive labels_error : Type :=
| InvalidLabelKey (k : string) (messages : list string)
| InvalidLabelValue (v : string) (messages : list string)
| EmptyInValues
| NotOneEqualsValue
| NonEmptyExistsValues
| NotOneGtLtValue
| GtLtValueNotInteger
| NotANodeSelectorOperator (op : string)
| NotAPodSelectorOperator (op : string).

Record InsufficientResource : Type := MkInsufficientResource {
  Res_Type : string;
  Wanted : Quantity;
  Free : Quantity }.

(** proxy.go: why one node is not a viable scale-down candidate. *)
Record NoScaleDownCandidateError : Type := MkNoScaleDownCandidateError {
  NoCand_NodeName : string;
  NoCand_Reason : string }.

Inductive error : Type :=
(* errors.New, fmt.Errorf, and the errors of services and libraries *)
| ErrorString (msg : string)
(* pkg/kube *)
| NodeScaleDownProtectedError (NodeName : string)
| PodWithoutControllerError (NodeName PodName : string)
| PodLocalStorageError (NodeName PodName : string)
| NodeEvacuationInfeasibleError (NodeName : string) (Reason : error)
| PodDisruptionViolationError (PDB : string) (RequiredDisruptions AllowedDisruptions : Z)
| NoEvacuationNodesAvailableError
| NoSchedulableNodesError
| ClusterCapacityError (r : InsufficientResource)
| InsufficientResourceError (r : InsufficientResource)
| TaintTolerationError (PodName NodeName : string) (t : Taint)
| NodeSelectorMismatchError (pod : Pod) (node : Node)
| NodeAffinityMismatchError (pod : Pod) (node : Node)
| PodSchedulingError (PodName : string) (NodeMismatches : list (string * node_mismatch))
(* pkg/proxy *)
| KubernetesClientError (Reason : string)
| CloudPoolClientError (Reason : string)
| NodeNotFoundError (Reason : string)
| MachineNotFoundError (Reason : string)
| ScaleDownError (Reason : string)
| NoViableScaleDownCandidateError (Rejections : list (option NoScaleDownCandidateError))
(* pkg/cloudpool *)
| ErrorMessage (Message Detail : string)
(** [NodeMismatchError]: why one pod does not go onto one node. *)
with node_mismatch : Type :=
| NodeMismatchError (PodName NodeName : string) (Reason : error).

(** Writing a map held as an association list without duplicate keys. *)
Fixpoint assoc_set {V} (k : string) (v : V) (m : list (string * V)) : list (string * V) :=
  match m with
  | [] => [(k, v)]
  | (k', v') :: m' => if String.eqb k k' then (k, v) :: m' else (k', v') :: assoc_set k v m'
  end.

Lemma assoc_set_keys {V} k (v : V) m x :
  x ∈ (assoc_set k v m).*1 ↔ x = k ∨ x ∈ m.*1.
Proof.
  induction m as [|[k' v'] m IH]; simpl; [set_solver|].
  destruct (String.eqb_spec k k') as [->|]; simpl; set_solver.
Qed.

Lemma assoc_set_elem {V} k (v : V) m x : x ∈ assoc_set k v m → x = (k, v) ∨ x ∈ m.
Proof.
  induction m as [|[k' v'] m IH]; simpl; [set_solver|].
  destruct (String.eqb_spec k k') as [->|]; simpl; set_solver.
Qed.

Section LabelsErrorText.
Context `{lib : !GoLib}.
Local Open Scope string_scope.

(** The texts of [labels.NewRequirement] and of the conversions of selectors. *)
Definition labelsErrorString (e : labels_error) : string :=
  match e with
  | InvalidLabelKey k msgs => "invalid label key " +:+ Quote k +:+ ": " +:+ String.concat "; " msgs
  | InvalidLabelValue v msgs => "invalid label value: " +:+ Quote v +:+ ": " +:+ String.concat "; " msgs
  | EmptyInValues => "for 'in', 'notin' operators, values set can't be empty"
  | NotOneEqualsValue => "exact-match compatibility requires one single value"
  | NonEmptyExistsValues => "values set must be empty for exists and does not exist"
  | NotOneGtLtValue => "for 'Gt', 'Lt' operators, exactly one value is required"
  | GtLtValueNotInteger => "for 'Gt', 'Lt' operators, the value must be an integer"
  | NotANodeSelectorOperator op => Quote op +:+ " is not a valid node selector operator"
  | NotAPodSelectorOperator op => Quote op +:+ " is not a valid pod selector operator"
  end.
End LabelsErrorText.

Section ErrorText.
Context `{!MapRange}.
Local Open Scope string_scope.

Definition newline : string := String (Ascii.ascii_of_nat 10) EmptyString.

(** *** What fmt prints *)

(** A slice of already printed elements. *)
Definition slice_text (elements : list string) : string := "[" +:+ String.concat " " elements +:+ "]".

(** [%s] on a map of strings: in no particular order (Go 1.10). *)
Definition labelsString (m : gmap string string) : string :=
  "map" +:+ slice_text (map (λ '(k, v), k +:+ ":" +:+ v) (range m)).

(** [%v] and [%+v] on node selector requirements and terms. *)
Definition requirement_text (r : NodeSelectorRequirement) : string :=
  "{" +:+ Req_Key r +:+ " " +:+ Req_Operator r +:+ " " +:+ slice_text (Req_Values r) +:+ "}".
Definition termsString (ts : list NodeSelectorTerm) : string :=
  slice_text (map (λ t, "{" +:+ slice_text (map requirement_text (MatchExpressions t)) +:+ "}") ts).
Definition matchExpressionsString (rs : list NodeSelectorRequirement) : string :=
  slice_text (map (λ r, "{Key:" +:+ Req_Key r +:+ " Operator:" +:+ Req_Operator r +:+
                         " Values:" +:+ slice_text (Req_Values r) +:+ "}") rs).

(** *** pkg/kube/nodescaler.go *)

Definition NoScaleDownAnnotationText : string :=
  "cluster-autoscaler.kubernetes.io/scale-down-disabled".

Definition NodeScaleDownProtectedError_Error (nodeName : string) : string :=
  "node " +:+ nodeName +:+ " is protected from scale-down via " +:+ NoScaleDownAnnotationText +:+ " annotation".

Definition PodWithoutControllerError_Error (nodeName podName : string) : string :=
  "pod " +:+ podName +:+ " on node " +:+ nodeName +:+
  " does not have a (replication) controller and cannot be evacuated (it won't get recreated)".

Definition PodLocalStorageError_Error (nodeName podName : string) : string :=
  "pod " +:+ podName +:+ " on node " +:+ nodeName +:+ " has a node-local storage volume and cannot be evacuated".

Definition NodeEvacuationInfeasibleError_Error (nodeName reason : string) : string :=
  "not all pods on node " +:+ nodeName +:+ " can be safely evacuated: " +:+ reason.

Definition PodDisruptionViolationError_Error (budget : string) (required allowed : Z) : string :=
  "pod disruption budget " +:+ budget +:+ " prevents node evacuation: " +:+
  "disruptions required: " +:+ pretty required +:+ ", disruptions allowed: " +:+ pretty allowed.

Definition NoEvacuationNodesAvailableError_Error : string := "no other schedulable nodes to evacuate to".

(** *** pkg/kube/quasi_scheduler.go *)

Definition NoSchedulableNodesError_Error : string := "there are no schedulable nodes available".

Definition InsufficientResourceError_Error (r : InsufficientResource) : string :=
  "insufficient " +:+ Res_Type r +:+ ": wanted: " +:+ Quantity_String (Wanted r) +:+
  ", free: " +:+ Quantity_String (Free r).

Definition ClusterCapacityError_Error (r : InsufficientResource) : string :=
  "insufficient room on cluster nodes: " +:+ InsufficientResourceError_Error r.

Definition TaintTolerationError_Error (podName node : string) (t : Taint) : string :=
  "pod " +:+ podName +:+ " does not tolerate node " +:+ node +:+ " taint: " +:+
  Taint_Key t +:+ "=" +:+ Taint_Value t +:+ ":" +:+ Taint_Effect t.

Definition NodeSelectorMismatchError_Error (pod : Pod) (node : Node) : string :=
  "pod " +:+ podName pod +:+ " nodeSelector does not match node " +:+ Name (Node_Meta node) +:+
  " labels: " +:+ labelsString (Spec_NodeSelector (Pod_Spec pod)) +:+ " does not match " +:+
  labelsString (Labels (Node_Meta node)).

Definition affinity_terms (pod : Pod) : list NodeSelectorTerm :=
  match Spec_Affinity (Pod_Spec pod) with
  | Some (MkAffinity (Some (MkNodeAffinity (Some s)))) => NodeSelectorTerms s
  | _ => []
  end.

Definition NodeAffinityMismatchError_Error (pod : Pod) (node : Node) : string :=
  "pod " +:+ podName pod +:+ " node affinity does not match node " +:+ Name (Node_Meta node) +:+
  " labels: " +:+ termsString (affinity_terms pod) +:+ " does not match " +:+
  labelsString (Labels (Node_Meta node)).

Definition NodeMismatchError_Error (podName node reason : string) : string :=
  "pod " +:+ podName +:+ " could not be scheduled onto node " +:+ node +:+ ": " +:+ reason.

(** The mismatches are those of the map, as texts. *)
Definition PodSchedulingError_Error (podName : string) (mismatches : gmap string string) : string :=
  "failed to reschedule pod " +:+ podName +:+ ":" +:+ newline +:+
  foldr (λ '(node, mismatch) acc, "  " +:+ node +:+ ": " +:+ mismatch +:+ newline +:+ acc) EmptyString
    (range mismatches).

(** *** pkg/proxy/proxy.go *)

Definition KubernetesClientError_Error (reason : string) : string := reason.
Definition CloudPoolClientError_Error (reason : string) : string := reason.
Definition NodeNotFoundError_Error (reason : string) : string := reason.
Definition MachineNotFoundError_Error (reason : string) : string := reason.
Definition ScaleDownError_Error (reason : string) : string := reason.

Definition NoScaleDownCandidateError_Error (e : NoScaleDownCandidateError) : string :=
  NoCand_NodeName e +:+ " is not a viable scale-down candidate: " +:+ NoCand_Reason e.

(** [%s] on a nil [*NoScaleDownCandidateError]. *)
Definition rejection_text (e : option NoScaleDownCandidateError) : string :=
  match e with Some e => NoScaleDownCandidateError_Error e | None => "<nil>" end.

(** On a nil rejection the Go method panics. *)
Definition NoViableScaleDownCandidateError_Error (rejections : list (option NoScaleDownCandidateError)) : string :=
  "found no viable candidates for scaling down: " +:+ String.concat "; " (map rejection_text rejections).

(** *** pkg/cloudpool/types.go *)

Definition ErrorMessage_String (message detail : string) : string := message +:+ ": " +:+ detail.
Definition ErrorMessage_Error (message detail : string) : string := ErrorMessage_String message detail.

(** [e.Error()], by the dynamic type of the error. *)
Fixpoint Error (e : error) : string :=
  match e with
  | ErrorString msg => msg
  | NodeScaleDownProtectedError n => NodeScaleDownProtectedError_Error n
  | PodWithoutControllerError n p => PodWithoutControllerError_Error n p
  | PodLocalStorageError n p => PodLocalStorageError_Error n p
  | NodeEvacuationInfeasibleError n r => NodeEvacuationInfeasibleError_Error n (Error r)
  | PodDisruptionViolationError b req allowed => PodDisruptionViolationError_Error b req allowed
  | NoEvacuationNodesAvailableError => NoEvacuationNodesAvailableError_Error
  | NoSchedulableNodesError => NoSchedulableNodesError_Error
  | ClusterCapacityError r => ClusterCapacityError_Error r
  | InsufficientResourceError r => InsufficientResourceError_Error r
  | TaintTolerationError p n t => TaintTolerationError_Error p n t
  | NodeSelectorMismatchError p n => NodeSelectorMismatchError_Error p n
  | NodeAffinityMismatchError p n => NodeAffinityMismatchError_Error p n
  | PodSchedulingError p ms =>
      PodSchedulingError_Error p
        (list_to_map (map (λ '(k, NodeMismatchError mp mn r), (k, NodeMismatchError_Error mp mn (Error r))) ms))
  | KubernetesClientError r => KubernetesClientError_Error r
  | CloudPoolClientError r => CloudPoolClientError_Error r
  | NodeNotFoundError r => NodeNotFoundError_Error r
  | MachineNotFoundError r => MachineNotFoundError_Error r
  | ScaleDownError r => ScaleDownError_Error r
  | NoViableScaleDownCandidateError rs => NoViableScaleDownCandidateError_Error rs
  | ErrorMessage m d => ErrorMessage_Error m d
  end.
End ErrorText.
