(* ===== verification/Labels.v ===== *)
(** * Label selectors and taint tolerations

    The vendored apimachinery/pkg/labels (requirements and selectors with their
    validation), [metav1.LabelSelectorAsSelector] and
    [Toleration.ToleratesTaint]: the matching rules the scheduler and the
    disruption-budget check are built on.

    A selector is the conjunction of its requirements, so the order its
    requirements are kept in is not observable by [Matches]; the theorems give
    each constructor's meaning as a proposition on label maps. *)
From stdpp Require Import base tactics list strings gmap pretty.
From Stdlib Require Import ZArith Ascii.
From S2P Require Import Prelude Strconv GoStd KubeTypes.

Local Open Scope Z_scope.

(** ** util/validation *)

Definition is_ext (c : ascii) : bool :=
  is_alnum c || Ascii.eqb c "-" || Ascii.eqb c "_" || Ascii.eqb c ".".
Definition is_dns (c : ascii) : bool := is_lower c || is_digit c.
Definition is_dns_ext (c : ascii) : bool := is_dns c || Ascii.eqb c "-".

Fixpoint string_forall (p : ascii → bool) (s : string) : bool :=
  match s with EmptyString => true | String c s' => p c && string_forall p s' end.

Fixpoint last_char (c : ascii) (s : string) : ascii :=
  match s with EmptyString => c | String c' s' => last_char c' s' end.

(** [^E(F*E)?$] as a check: non-empty, first and last character in [E], all
    characters in [F]; the shape of the regular expressions of validation.go
    (where [E] is contained in [F]). *)
Definition bracketed (edge inner : ascii → bool) (s : string) : bool :=
  match s with
  | EmptyString => false
  | String c s' => edge c && edge (last_char c s') && string_forall inner s
  end.

Definition qualifiedNameMaxLength : nat := 63.
Definition LabelValueMaxLength : nat := 63.
Definition DNS1123SubdomainMaxLength : nat := 253.

Definition qualifiedNameFmt : string := "([A-Za-z0-9][-A-Za-z0-9_.]*)?[A-Za-z0-9]".
Definition qualifiedNameErrMsg : string :=
  "must consist of alphanumeric characters, '-', '_' or '.', and must start and end with an alphanumeric character".
Definition labelValueFmt : string := "(" +:+ qualifiedNameFmt +:+ ")?".
Definition labelValueErrMsg : string := "a valid label must be an empty string or consist of alphanumeric characters, '-', '_' or '.', and must start and end with an alphanumeric character".
Definition dns1123LabelFmt : string := "[a-z0-9]([-a-z0-9]*[a-z0-9])?".
Definition dns1123SubdomainFmt : string := dns1123LabelFmt +:+ "(\." +:+ dns1123LabelFmt +:+ ")*".
Definition dns1123SubdomainErrorMsg : string :=
  "a DNS-1123 subdomain must consist of lower case alphanumeric characters, '-' or '.', and must start and end with an alphanumeric character".

Definition MaxLenError (length : nat) : string := "must be no more than " +:+ pretty length +:+ " characters".
Definition EmptyError : string := "must be non-empty".
Definition RegexError (msg fmt : string) (examples : list string) : string :=
  match examples with
  | [] => msg +:+ " (regex used for validation is '" +:+ fmt +:+ "')"
  | _ => msg +:+ " (e.g. " +:+ String.concat " or " (map (λ e, "'" +:+ e +:+ "', ") examples) +:+
         "regex used for validation is '" +:+ fmt +:+ "')"
  end.
Definition name_regex_error : string := RegexError qualifiedNameErrMsg qualifiedNameFmt ["MyName"; "my.name"; "123-abc"].

(** The messages of the checks that fail. *)
Definition failing (checks : list (bool * string)) : list string := map snd (List.filter fst checks).

Definition IsDNS1123Subdomain (s : string) : list string :=
  failing
    [((DNS1123SubdomainMaxLength <? String.length s)%nat, MaxLenError DNS1123SubdomainMaxLength);
     (negb (forallb (bracketed is_dns is_dns_ext) (Split "." s)),
      RegexError dns1123SubdomainErrorMsg dns1123SubdomainFmt ["example.com"])].

Definition name_part_errors (name : string) : list string :=
  (if (String.length name =? 0)%nat then ["name part " +:+ EmptyError]
   else if (qualifiedNameMaxLength <? String.length name)%nat then ["name part " +:+ MaxLenError qualifiedNameMaxLength]
   else []) ++
  failing [(negb (bracketed is_alnum is_ext name), "name part " +:+ name_regex_error)].

(** The messages, none for a qualified name. *)
Definition IsQualifiedName (value : string) : list string :=
  match Split "/" value with
  | [name] => name_part_errors name
  | [prefix; name] =>
      (if (String.length prefix =? 0)%nat then ["prefix part " +:+ EmptyError]
       else map (λ m, "prefix part " +:+ m) (IsDNS1123Subdomain prefix)) ++ name_part_errors name
  | _ =>
      ["a qualified name " +:+ name_regex_error +:+
       " with an optional DNS subdomain prefix and '/' (e.g. 'example.com/MyName')"]
  end.

Definition IsValidLabelValue (value : string) : list string :=
  failing
    [((LabelValueMaxLength <? String.length value)%nat, MaxLenError LabelValueMaxLength);
     (negb (String.eqb value EmptyString || bracketed is_alnum is_ext value),
      RegexError labelValueErrMsg labelValueFmt ["MyValue"; "my_value"; "12345"])].

Example qualified : IsQualifiedName "example.com/app" = [].
Proof. reflexivity. Qed.

Example value_message : IsValidLabelValue "a b" =
  [labelValueErrMsg +:+ " (e.g. 'MyValue',  or 'my_value',  or '12345', regex used for validation is '" +:+ labelValueFmt +:+ "')"].
Proof. reflexivity. Qed.

(** ** labels/selector.go *)

Inductive Operator : Type :=
| OpIn | OpNotIn | OpEquals | OpDoubleEquals | OpNotEquals
| OpExists | OpDoesNotExist | OpGreaterThan | OpLessThan.

Record Requirement : Type := MkRequirement {
  key : string;
  operator : Operator;
  strValues : list string }.

Section Selectors.
Context `{sorter : !SliceSort}.

Definition check_values (op : Operator) (vals : list string) : option labels_error :=
  match op with
  | OpIn | OpNotIn =>
      if (length vals =? 0)%nat then Some EmptyInValues else None
  | OpEquals | OpDoubleEquals | OpNotEquals =>
      if negb (length vals =? 1)%nat then Some NotOneEqualsValue else None
  | OpExists | OpDoesNotExist =>
      if negb (length vals =? 0)%nat then Some NonEmptyExistsValues else None
  | OpGreaterThan | OpLessThan =>
      if negb (length vals =? 1)%nat then Some NotOneGtLtValue
      else if forallb (λ v, bool_decide (is_Some (ParseInt v))) vals then None
      else Some GtLtValueNotInteger
  end.

(** [validateLabelKey] and [validateLabelValue]. *)
Definition validateLabelKey (k : string) : option labels_error :=
  let errs := IsQualifiedName k in if negb (length errs =? 0)%nat then Some (InvalidLabelKey k errs) else None.
Definition validateLabelValue (v : string) : option labels_error :=
  let errs := IsValidLabelValue v in if negb (length errs =? 0)%nat then Some (InvalidLabelValue v errs) else None.

Fixpoint invalid_value (vals : list string) : option labels_error :=
  match vals with
  | [] => None
  | v :: rest => match validateLabelValue v with Some e => Some e | None => invalid_value rest end
  end.

Definition NewRequirement (k : string) (op : Operator) (vals : list string)
    : result labels_error Requirement :=
  match validateLabelKey k with
  | Some e => Err e
  | None =>
      match check_values op vals with
      | Some e => Err e
      | None =>
          match invalid_value vals with
          | Some e => Err e
          | None => Ok (MkRequirement k op (sortSlice String.ltb vals))
          end
      end
  end.

Definition hasValue (r : Requirement) (v : string) : bool :=
  existsb (λ v', String.eqb v' v) (strValues r).

Definition Requirement_Matches (r : Requirement) (ls : gmap string string) : bool :=
  match operator r with
  | OpIn | OpEquals | OpDoubleEquals =>
      match ls !! key r with None => false | Some v => hasValue r v end
  | OpNotIn | OpNotEquals =>
      match ls !! key r with None => true | Some v => negb (hasValue r v) end
  | OpExists => bool_decide (is_Some (ls !! key r))
  | OpDoesNotExist => negb (bool_decide (is_Some (ls !! key r)))
  | (OpGreaterThan | OpLessThan) as op =>
      match ls !! key r with
      | None => false
      | Some v =>
          match ParseInt v, strValues r with
          | Some lsValue, [s] =>
              match ParseInt s with
              | Some rValue =>
                  match op with
                  | OpGreaterThan => rValue <? lsValue
                  | _ => lsValue <? rValue
                  end
              | None => false
              end
          | _, _ => false
          end
      end
  end.

Inductive Selector : Type :=
| Nothing
| internalSelector (reqs : list Requirement).

Definition Everything : Selector := internalSelector [].
Definition NewSelector : Selector := internalSelector [].

Definition ByKey (a b : Requirement) : bool := String.ltb (key a) (key b).

Definition Selector_Add (s : Selector) (r : Requirement) : Selector :=
  match s with
  | Nothing => Nothing
  | internalSelector l => internalSelector (sortSlice ByKey (l ++ [r]))
  end.

Definition Selector_Matches (s : Selector) (ls : gmap string string) : bool :=
  match s with
  | Nothing => false
  | internalSelector l => forallb (λ r, Requirement_Matches r ls) l
  end.

Context `{ranger : !MapRange}.

Fixpoint equality_requirements (entries : list (string * string)) : option (list Requirement) :=
  match entries with
  | [] => Some []
  | (label, v) :: rest =>
      match NewRequirement label OpEquals [v] with
      | Ok r => match equality_requirements rest with
                | Some rs => Some (r :: rs)
                | None => None
                end
      | Err _ => None
      end
  end.

(** An entry that is not a valid label makes the selector match everything. *)
Definition SelectorFromSet (ls : gmap string string) : Selector :=
  match equality_requirements (range ls) with
  | Some rs => internalSelector (sortSlice ByKey rs)
  | None => internalSelector []
  end.

Fixpoint add_match_labels (sel : Selector) (entries : list (string * string))
    : result labels_error Selector :=
  match entries with
  | [] => Ok sel
  | (k, v) :: rest =>
      match NewRequirement k OpEquals [v] with
      | Ok r => add_match_labels (Selector_Add sel r) rest
      | Err e => Err e
      end
  end.

Definition label_operator (op : string) : option Operator :=
  if String.eqb op "In" then Some OpIn
  else if String.eqb op "NotIn" then Some OpNotIn
  else if String.eqb op "Exists" then Some OpExists
  else if String.eqb op "DoesNotExist" then Some OpDoesNotExist
  else None.

Fixpoint add_match_expressions (sel : Selector) (exprs : list LabelSelectorRequirement)
    : result labels_error Selector :=
  match exprs with
  | [] => Ok sel
  | e :: rest =>
      match label_operator (Sel_Operator e) with
      | None => Err (NotAPodSelectorOperator (Sel_Operator e))
      | Some op =>
          match NewRequirement (Sel_Key e) op (Sel_Values e) with
          | Ok r => add_match_expressions (Selector_Add sel r) rest
          | Err e => Err e
          end
      end
  end.

(** apis/meta/v1/helpers.go *)
Definition LabelSelectorAsSelector (ps : option LabelSelector) : result labels_error Selector :=
  match ps with
  | None => Ok Nothing
  | Some ps =>
      if (size (MatchLabels ps) + length (Sel_MatchExpressions ps) =? 0)%nat then Ok Everything
      else match add_match_labels NewSelector (range (MatchLabels ps)) with
           | Err e => Err e
           | Ok sel => add_match_expressions sel (Sel_MatchExpressions ps)
           end
  end.
End Selectors.

(** client-go/pkg/api/v1/toleration.go *)
Definition ToleratesTaint (t : Toleration) (taint : Taint) : bool :=
  if negb (String.eqb (Tol_Effect t) EmptyString) && negb (String.eqb (Tol_Effect t) (Taint_Effect taint))
  then false
  else if negb (String.eqb (Tol_Key t) EmptyString) && negb (String.eqb (Tol_Key t) (Taint_Key taint))
  then false
  else if String.eqb (Tol_Operator t) EmptyString || String.eqb (Tol_Operator t) TolerationOpEqual
  then String.eqb (Tol_Value t) (Taint_Value taint)
  else String.eqb (Tol_Operator t) TolerationOpExists.

(** ** Meaning of selectors *)

Section SelectorFacts.
Context `{sorter : !SliceSort, ranger : !MapRange}.

(** What a requirement demands of a label map. *)
Definition requirement_holds (op : Operator) (k : string) (vals : list string)
    (ls : gmap string string) : Prop :=
  match op with
  | OpIn | OpEquals | OpDoubleEquals => ∃ v, ls !! k = Some v ∧ v ∈ vals
  | OpNotIn | OpNotEquals => ∀ v, ls !! k = Some v → v ∉ vals
  | OpExists => is_Some (ls !! k)
  | OpDoesNotExist => ls !! k = None
  | OpGreaterThan => ∃ v s a b, ls !! k = Some v ∧ vals = [s] ∧
      ParseInt v = Some a ∧ ParseInt s = Some b ∧ b < a
  | OpLessThan => ∃ v s a b, ls !! k = Some v ∧ vals = [s] ∧
      ParseInt v = Some a ∧ ParseInt s = Some b ∧ a < b
  end.

Lemma hasValue_spec r v : hasValue r v = true ↔ v ∈ strValues r.
Proof.
  unfold hasValue. rewrite existsb_exists. setoid_rewrite String.eqb_eq.
  setoid_rewrite <- list_elem_of_In. naive_solver.
Qed.

Lemma Requirement_Matches_spec r ls :
  Requirement_Matches r ls = true ↔ requirement_holds (operator r) (key r) (strValues r) ls.
Proof.
  unfold Requirement_Matches, requirement_holds.
  destruct (operator r), (ls !! key r) as [v|] eqn:E;
    rewrite ?negb_true_iff, <- ?not_true_iff_false, ?hasValue_spec, ?bool_decide_eq_true;
    try (split; [done|naive_solver]); try naive_solver.
  all: destruct (ParseInt v) as [a|] eqn:Ea; [|naive_solver].
  all: destruct (strValues r) as [|s [|]]; [naive_solver| |naive_solver].
  all: destruct (ParseInt s) as [b|] eqn:Eb; [rewrite Z.ltb_lt|]; naive_solver.
Qed.

(** Selectors that match the same label maps. *)
Definition selector_equiv (s1 s2 : Selector) : Prop :=
  ∀ ls, Selector_Matches s1 ls = Selector_Matches s2 ls.

#[export] Instance selector_equiv_equivalence : Equivalence selector_equiv.
Proof. split; [done|intros s1 s2 E ls; by rewrite E|intros s1 s2 s3 E1 E2 ls; by rewrite E1]. Qed.

Lemma forallb_perm {A} (f : A → bool) l1 l2 : l1 ≡ₚ l2 → forallb f l1 = forallb f l2.
Proof.
  intros H. apply eq_true_iff_eq. rewrite !forallb_forall.
  setoid_rewrite <- list_elem_of_In. by setoid_rewrite H.
Qed.

(** The order of the requirements of a selector is not observable. *)
#[export] Instance internalSelector_proper :
  Proper (Permutation ==> selector_equiv) internalSelector.
Proof. intros l1 l2 H ls. by apply forallb_perm. Qed.

Lemma Selector_Add_Matches s r ls :
  Selector_Matches (Selector_Add s r) ls = Selector_Matches s ls && Requirement_Matches r ls.
Proof.
  destruct s as [|l]; simpl; [done|].
  rewrite (forallb_perm _ _ _ (sortSlice_perm _ _)), forallb_app. simpl. by rewrite andb_true_r.
Qed.

#[export] Instance Selector_Add_proper r :
  Proper (selector_equiv ==> selector_equiv) (λ s, Selector_Add s r).
Proof. intros s1 s2 H ls. by rewrite !Selector_Add_Matches, H. Qed.

Lemma requirement_holds_perm op k vals vals' ls :
  vals ≡ₚ vals' → requirement_holds op k vals ls ↔ requirement_holds op k vals' ls.
Proof.
  intros H. destruct op; simpl; try done; try (by setoid_rewrite H).
  all: split; intros (v & s & a & b & ? & -> & ?); exists v, s, a, b; split_and!; try naive_solver.
  all: by apply Permutation_singleton_r || (symmetry in H; by apply Permutation_singleton_r).
Qed.

Lemma NewRequirement_spec k op vals r ls :
  NewRequirement k op vals = Ok r →
  Requirement_Matches r ls = true ↔ requirement_holds op k vals ls.
Proof.
  unfold NewRequirement. destruct (validateLabelKey _); [done|]. destruct (check_values _ _); [done|].
  destruct (invalid_value _); [done|]. intros [= <-]. rewrite Requirement_Matches_spec. simpl.
  apply requirement_holds_perm, sortSlice_perm.
Qed.

Definition valid_label (k v : string) : bool :=
  (length (IsQualifiedName k) =? 0)%nat && (length (IsValidLabelValue v) =? 0)%nat.

Lemma NewRequirement_Equals k v :
  NewRequirement k OpEquals [v] = Ok (MkRequirement k OpEquals (sortSlice String.ltb [v])) ∧ valid_label k v = true
  ∨ (∃ e, NewRequirement k OpEquals [v] = Err e) ∧ valid_label k v = false.
Proof.
  unfold NewRequirement, validateLabelKey, valid_label. destruct (IsQualifiedName k); simpl; [|by right; eauto].
  unfold validateLabelValue. destruct (IsValidLabelValue v); simpl; [by left|right; eauto].
Qed.

Lemma equality_requirements_spec entries ls :
  match equality_requirements entries with
  | Some rs => Forall (λ '(k, v), valid_label k v = true) entries ∧
      (forallb (λ r, Requirement_Matches r ls) rs = true ↔
       Forall (λ '(k, v), ls !! k = Some v) entries)
  | None => ¬ Forall (λ '(k, v), valid_label k v = true) entries
  end.
Proof.
  induction entries as [|[k v] rest IH]; simpl; [by split|].
  destruct (NewRequirement_Equals k v) as [[HN Hv]|[[e HN] Hv]]; rewrite HN.
  2: { intros [? ?]%Forall_cons. congruence. }
  pose proof (NewRequirement_spec _ _ _ _ ls HN) as Hm.
  destruct (equality_requirements rest) as [rs|].
  - destruct IH as [Hall IH]. rewrite !Forall_cons. split; [done|].
    simpl forallb. rewrite andb_true_iff, Hm, IH. simpl.
    split; intros [H ?]; split; try done.
    + destruct H as (v' & ? & ->%list_elem_of_singleton). done.
    + exists v. by rewrite list_elem_of_singleton.
  - rewrite Forall_cons. naive_solver.
Qed.

Lemma Forall_range_subseteq (m ls : gmap string string) :
  Forall (λ '(k, v), ls !! k = Some v) (range m) ↔ m ⊆ ls.
Proof.
  rewrite Forall_forall, map_subseteq_spec. split.
  - intros H k v Hk. apply (H (k, v)). by apply elem_of_range.
  - intros H [k v] Hk. apply H. by apply elem_of_range.
Qed.

(** A valid set selects the label maps that contain it; a set with an
    invalid entry selects every label map. *)
Lemma SelectorFromSet_Matches (m ls : gmap string string) :
  Selector_Matches (SelectorFromSet m) ls = true ↔
  (map_Forall (λ k v, valid_label k v = true) m → m ⊆ ls).
Proof.
  assert (Hv : map_Forall (λ k v, valid_label k v = true) m ↔
    Forall (λ '(k, v), valid_label k v = true) (range m)).
  { rewrite map_Forall_to_list, !Forall_forall. by setoid_rewrite range_perm. }
  rewrite Hv. unfold SelectorFromSet. pose proof (equality_requirements_spec (range m) ls) as H.
  destruct (equality_requirements (range m)) as [rs|]; simpl.
  - destruct H as [Hall H]. rewrite (forallb_perm _ _ _ (sortSlice_perm _ _)), H.
    rewrite Forall_range_subseteq. naive_solver.
  - naive_solver.
Qed.

Lemma add_match_labels_spec entries s s' ls :
  add_match_labels s entries = Ok s' →
  Selector_Matches s' ls = true ↔
  Selector_Matches s ls = true ∧ Forall (λ '(k, v), ls !! k = Some v) entries.
Proof.
  revert s. induction entries as [|[k v] rest IH]; intros s; simpl.
  { intros [= <-]. rewrite Forall_nil. tauto. }
  destruct (NewRequirement k OpEquals [v]) as [r|e] eqn:HN; [|done].
  intros H. rewrite (IH _ H), Selector_Add_Matches, andb_true_iff, Forall_cons.
  rewrite (NewRequirement_spec _ _ _ _ ls HN). simpl.
  setoid_rewrite list_elem_of_singleton. naive_solver.
Qed.

Definition expression_holds (e : LabelSelectorRequirement) (ls : gmap string string) : Prop :=
  ∃ op, label_operator (Sel_Operator e) = Some op ∧
    requirement_holds op (Sel_Key e) (Sel_Values e) ls.

Lemma add_match_expressions_spec exprs s s' ls :
  add_match_expressions s exprs = Ok s' →
  Selector_Matches s' ls = true ↔
  Selector_Matches s ls = true ∧ Forall (λ e, expression_holds e ls) exprs.
Proof.
  revert s. induction exprs as [|e rest IH]; intros s; simpl.
  { intros [= <-]. rewrite Forall_nil. tauto. }
  destruct (label_operator (Sel_Operator e)) as [op|] eqn:Eop; [|done].
  destruct (NewRequirement _ op _) as [r|err] eqn:HN; [|done].
  intros H. rewrite (IH _ H), Selector_Add_Matches, andb_true_iff, Forall_cons.
  rewrite (NewRequirement_spec _ _ _ _ ls HN). unfold expression_holds at 2. rewrite Eop. naive_solver.
Qed.

(** The pods a disruption budget covers: none without a selector, otherwise
    those whose labels contain [matchLabels] and satisfy every expression. *)
Definition selector_covers (ps : option LabelSelector) (ls : gmap string string) : Prop :=
  match ps with
  | None => False
  | Some ps => MatchLabels ps ⊆ ls ∧ Forall (λ e, expression_holds e ls) (Sel_MatchExpressions ps)
  end.

Lemma LabelSelectorAsSelector_Matches ps sel ls :
  LabelSelectorAsSelector ps = Ok sel → Selector_Matches sel ls = true ↔ selector_covers ps ls.
Proof.
  unfold LabelSelectorAsSelector, selector_covers. destruct ps as [ps|]; [|by intros [= <-]].
  destruct (Nat.eqb_spec (size (MatchLabels ps) + length (Sel_MatchExpressions ps)) 0) as [E|E].
  - intros [= <-]. assert (size (MatchLabels ps) = 0%nat) as Hm%map_size_empty_inv by lia.
    assert (length (Sel_MatchExpressions ps) = 0%nat) as ->%nil_length_inv by lia.
    rewrite Hm. simpl. split; [|done]. split; [apply map_empty_subseteq|constructor].
  - destruct (add_match_labels _ _) as [s|e] eqn:Hl; [|done]. intros Hx.
    rewrite (add_match_expressions_spec _ _ _ ls Hx), (add_match_labels_spec _ _ _ ls Hl).
    rewrite Forall_range_subseteq. simpl. naive_solver.
Qed.

Lemma ToleratesTaint_spec t taint :
  ToleratesTaint t taint = true ↔
  (Tol_Effect t = EmptyString ∨ Tol_Effect t = Taint_Effect taint) ∧
  (Tol_Key t = EmptyString ∨ Tol_Key t = Taint_Key taint) ∧
  (Tol_Operator t = TolerationOpExists ∨
   (Tol_Operator t = EmptyString ∨ Tol_Operator t = TolerationOpEqual) ∧ Tol_Value t = Taint_Value taint).
Proof.
  unfold ToleratesTaint, TolerationOpExists, TolerationOpEqual.
  repeat match goal with
  | |- context [String.eqb ?x ?y] => destruct (String.eqb_spec x y); simpl
  end; try congruence; naive_solver congruence.
Qed.
End SelectorFacts.
