(* ===== verification/Json.v ===== *)
(** * encoding/json, as far as the program uses it

    The texts accepted by [json.Unmarshal] (grammar, string escapes, invalid
    UTF-8, surrogate pairs), the compact texts produced by [json.Marshal], and
    the decoding of a value into a Go struct: fields found by name or, failing
    that, by folded name; [null] ignored by everything but pointers; the first
    type error reported at the end, the rest of the value still decoded.

    Strings are byte strings.  The parser runs on fuel; [Unmarshal] gives it the
    length of the text plus one, which is enough because every recursive call
    consumes a byte (the round-trip theorem runs it with that fuel). *)
From stdpp Require Import base tactics list strings pretty.
From Stdlib Require Import ZArith Lia Ascii.
From S2P Require Import Prelude Strconv Labels.

Local Open Scope string_scope.

(** A string keeps the text it was written with, between the quotes. *)
Inductive json : Type :=
| JNull
| JBool (b : bool)
| JNum (lit : string)
| JStr (s : string) (raw : string)
| JArr (vs : list json)
| JObj (fields : list (string * json)).

(** ** Characters *)

Definition is_space (c : ascii) : bool :=
  Ascii.eqb c " " || Ascii.eqb c (byte 9) || Ascii.eqb c (byte 10) || Ascii.eqb c (byte 13).

Definition hex_val (c : ascii) : option N :=
  let n := code c in
  if in_range c "0" "9" then Some (n - 48)%N
  else if in_range c "a" "f" then Some (n - 87)%N
  else if in_range c "A" "F" then Some (n - 55)%N
  else None.

Definition hex4 (a b c d : ascii) : option N :=
  match hex_val a, hex_val b, hex_val c, hex_val d with
  | Some a, Some b, Some c, Some d => Some (a * 4096 + b * 256 + c * 16 + d)%N
  | _, _, _, _ => None
  end.

(** [utf16.DecodeRune] of a pair, if it is one. *)
Definition decode_pair (r1 r2 : N) : option N :=
  if (55296 <=? r1)%N && (r1 <=? 56319)%N && (56320 <=? r2)%N && (r2 <=? 57343)%N
  then Some ((r1 - 55296) * 1024 + (r2 - 56320) + 65536)%N else None.

(** Every byte outside a well-formed sequence becomes U+FFFD. *)
Definition coerce_utf8 (s : string) : string := foldr (λ r acc, default replacement r +:+ acc) "" (runes s).

(** ** Reading *)

Fixpoint skip_space (s : string) : string :=
  match s with
  | String c s' => if is_space c then skip_space s' else s
  | "" => ""
  end.

Fixpoint first_n (n : nat) (s : string) : string :=
  match n, s with
  | S n, String c s' => String c (first_n n s')
  | _, _ => ""
  end.

(** The rest of a string literal after its opening quote: the bytes it stands
    for and what follows the closing quote. *)
Fixpoint read_string (s : string) : option (string * string) :=
  let cons_to (x : string) (r : option (string * string)) :=
    match r with Some (str, rest) => Some (x +:+ str, rest) | None => None end in
  match s with
  | "" => None
  | String c s1 =>
      if Ascii.eqb c (byte 34) then Some ("", s1)
      else if (code c <? 32)%N then None
      else if Ascii.eqb c "\"%char then
        match s1 with
        | "" => None
        | String e s2 =>
            if Ascii.eqb e (byte 34) || Ascii.eqb e "\"%char || Ascii.eqb e "/"%char
            then cons_to (String e "") (read_string s2)
            else if Ascii.eqb e "b"%char then cons_to (String (byte 8) "") (read_string s2)
            else if Ascii.eqb e "f"%char then cons_to (String (byte 12) "") (read_string s2)
            else if Ascii.eqb e "n"%char then cons_to (String (byte 10) "") (read_string s2)
            else if Ascii.eqb e "r"%char then cons_to (String (byte 13) "") (read_string s2)
            else if Ascii.eqb e "t"%char then cons_to (String (byte 9) "") (read_string s2)
            else if Ascii.eqb e "u"%char then
              match s2 with
              | String h1 (String h2 (String h3 (String h4 s3))) =>
                  match hex4 h1 h2 h3 h4 with
                  | None => None
                  | Some r =>
                      match s3 with
                      | String b (String u (String k1 (String k2 (String k3 (String k4 s4))))) =>
                          match (if Ascii.eqb b "\"%char && Ascii.eqb u "u"%char then hex4 k1 k2 k3 k4 else None) with
                          | Some r2 =>
                              match decode_pair r r2 with
                              | Some rune => cons_to (encode_rune rune) (read_string s4)
                              | None => cons_to (encode_rune r) (read_string s3)
                              end
                          | None => cons_to (encode_rune r) (read_string s3)
                          end
                      | _ => cons_to (encode_rune r) (read_string s3)
                      end
                  end
              | _ => None
              end
            else None
        end
      else cons_to (String c "") (read_string s1)
  end.

Definition is_num_char (c : ascii) : bool :=
  is_digit c || Ascii.eqb c "-" || Ascii.eqb c "+" || Ascii.eqb c "." || Ascii.eqb c "e" || Ascii.eqb c "E".

(** The optional exponent and the optional fraction of a number literal. *)
Definition valid_exp (s : string) : bool :=
  match s with
  | "" => true
  | String e s1 =>
      (Ascii.eqb e "e" || Ascii.eqb e "E") &&
      let s2 := match s1 with String c s' => if Ascii.eqb c "+" || Ascii.eqb c "-" then s' else s1 | "" => s1 end in
      let '(ds, rest) := span is_digit s2 in
      negb (String.eqb ds "") && String.eqb rest ""
  end.

Definition valid_frac (s : string) : bool :=
  match s with
  | String c s1 =>
      if Ascii.eqb c "." then
        let '(ds, rest) := span is_digit s1 in negb (String.eqb ds "") && valid_exp rest
      else valid_exp s
  | "" => true
  end.

Definition valid_number (s : string) : bool :=
  let s1 := match s with String c s' => if Ascii.eqb c "-" then s' else s | "" => s end in
  match s1 with
  | "" => false
  | String d s2 =>
      if Ascii.eqb d "0" then valid_frac s2
      else is_digit d && (let '(_, rest) := span is_digit s2 in valid_frac rest)
  end.

(** [strip p s]: what follows [p] in [s]. *)
Fixpoint strip (p s : string) : option string :=
  match p, s with
  | "", _ => Some s
  | String a p', String b s' => if Ascii.eqb a b then strip p' s' else None
  | _, "" => None
  end.

(** A value, with what follows it.  [read_elements] and [read_members] read the
    rest of an array or object after its first bracket and a space-free start. *)
Fixpoint read_value (fuel : nat) (s : string) : option (json * string) :=
  match fuel with
  | O => None
  | S fuel =>
      match skip_space s with
      | "" => None
      | String c s1 =>
          if Ascii.eqb c "{"%char then
            match skip_space s1 with
            | String d s2 =>
                if Ascii.eqb d "}"%char then Some (JObj [], s2)
                else match read_members fuel (String d s2) with
                     | Some (fs, rest) => Some (JObj fs, rest)
                     | None => None
                     end
            | "" => None
            end
          else if Ascii.eqb c "["%char then
            match skip_space s1 with
            | String d s2 =>
                if Ascii.eqb d "]"%char then Some (JArr [], s2)
                else match read_elements fuel (String d s2) with
                     | Some (vs, rest) => Some (JArr vs, rest)
                     | None => None
                     end
            | "" => None
            end
          else if Ascii.eqb c (byte 34) then
            match read_string s1 with
            | Some (str, rest) =>
                Some (JStr (coerce_utf8 str) (first_n (String.length s1 - String.length rest - 1) s1), rest)
            | None => None
            end
          else if Ascii.eqb c "t"%char then
            match strip "rue" s1 with Some rest => Some (JBool true, rest) | None => None end
          else if Ascii.eqb c "f"%char then
            match strip "alse" s1 with Some rest => Some (JBool false, rest) | None => None end
          else if Ascii.eqb c "n"%char then
            match strip "ull" s1 with Some rest => Some (JNull, rest) | None => None end
          else
            let '(lit, rest) := span is_num_char (String c s1) in
            if valid_number lit then Some (JNum lit, rest) else None
      end
  end
with read_elements (fuel : nat) (s : string) : option (list json * string) :=
  match fuel with
  | O => None
  | S fuel =>
      match read_value fuel s with
      | None => None
      | Some (v, rest) =>
          match skip_space rest with
          | "" => None
          | String c s1 =>
              if Ascii.eqb c ","%char then
                match read_elements fuel s1 with
                | Some (vs, rest) => Some (v :: vs, rest)
                | None => None
                end
              else if Ascii.eqb c "]"%char then Some ([v], s1)
              else None
          end
      end
  end
with read_members (fuel : nat) (s : string) : option (list (string * json) * string) :=
  match fuel with
  | O => None
  | S fuel =>
      match skip_space s with
      | "" => None
      | String q s1 =>
          if negb (Ascii.eqb q (byte 34)) then None
          else
            match read_string s1 with
            | None => None
            | Some (k, rest) =>
                match skip_space rest with
                | "" => None
                | String c s2 =>
                    if negb (Ascii.eqb c ":"%char) then None
                    else
                      match read_value fuel s2 with
                      | None => None
                      | Some (v, rest) =>
                          match skip_space rest with
                          | "" => None
                          | String c s3 =>
                              if Ascii.eqb c ","%char then
                                match read_members fuel s3 with
                                | Some (fs, rest) => Some ((coerce_utf8 k, v) :: fs, rest)
                                | None => None
                                end
                              else if Ascii.eqb c "}"%char then Some ([(coerce_utf8 k, v)], s3)
                              else None
                          end
                      end
                end
            end
      end
  end.

(** The syntax check and parse of [json.Unmarshal]. *)
Definition parse_json (s : string) : option json :=
  match read_value (S (String.length s)) s with
  | Some (v, rest) => if String.eqb (skip_space rest) "" then Some v else None
  | None => None
  end.

(** ** Decoding into Go values *)

(** Decoding into a value: it is filled in and the first type error is
    remembered, or decoding is aborted, or a custom decoder panics. *)
Inductive decoded (T : Type) : Type :=
| Filled (v : T) (saved : option json_error)
| Aborted (e : json_error)
| DecodePanic (msg : string).
Arguments Filled {_} _ _.
Arguments Aborted {_} _.
Arguments DecodePanic {_} _.

Definition decoder (T : Type) : Type := T → json → decoded T.

Definition kind_of (v : json) : string :=
  match v with
  | JNull => "null"
  | JBool _ => "bool"
  | JNum lit => "number " +:+ lit
  | JStr _ _ => "string"
  | JArr _ => "array"
  | JObj _ => "object"
  end.

Definition mismatch {T} (cur : T) (v : json) (type : string) : decoded T :=
  Filled cur (Some (JTypeError (match v with JNum _ => "number" | _ => kind_of v end) type)).

Definition dec_string : decoder string := λ cur v,
  match v with JStr s _ => Filled s None | JNull => Filled cur None | _ => mismatch cur v "string" end.

Definition dec_bool : decoder bool := λ cur v,
  match v with JBool b => Filled b None | JNull => Filled cur None | _ => mismatch cur v "bool" end.

Definition dec_int : decoder Z := λ cur v,
  match v with
  | JNum lit =>
      match ParseInt lit with
      | Some n => Filled n None
      | None => Filled cur (Some (JTypeError (kind_of v) "int"))
      end
  | JNull => Filled cur None
  | _ => mismatch cur v "int"
  end.

(** Through a pointer: null makes it nil, anything else is decoded into the
    value pointed to (a fresh one if it was nil). *)
Definition dec_ptr {T} (zero : T) (d : decoder T) : decoder (option T) := λ cur v,
  match v with
  | JNull => Filled None None
  | _ =>
      match d (default zero cur) v with
      | Filled x e => Filled (Some x) e
      | Aborted e => Aborted e
      | DecodePanic m => DecodePanic m
      end
  end.

(** The first error is kept. *)
Definition keep_first (a b : option json_error) : option json_error :=
  match a with Some _ => a | None => b end.

(** The elements [old] of the slice are decoded into, further ones are fresh. *)
Fixpoint dec_elements {T} (zero : T) (d : decoder T) (old : list T) (vs : list json) : decoded (list T) :=
  match vs with
  | [] => Filled [] None
  | v :: rest =>
      match d (hd zero old) v with
      | Aborted e => Aborted e
      | DecodePanic m => DecodePanic m
      | Filled x e1 =>
          match dec_elements zero d (tl old) rest with
          | Filled xs e2 => Filled (x :: xs) (keep_first e1 e2)
          | Aborted e => Aborted e
          | DecodePanic m => DecodePanic m
          end
      end
  end.

(** Into a slice, nil or not: null makes it nil, an array gives it as many
    elements as the array has.  (An element beyond the length, left over from a
    longer array decoded earlier into the same slice, counts as fresh.) *)
Definition dec_slice {T} (zero : T) (d : decoder T) : decoder (option (list T)) := λ cur v,
  match v with
  | JArr vs =>
      match dec_elements zero d (default [] cur) vs with
      | Filled xs e => Filled (Some xs) e
      | Aborted e => Aborted e
      | DecodePanic m => DecodePanic m
      end
  | JNull => Filled None None
  | _ => mismatch cur v "slice"
  end.

(** *** Structs *)

(** Letters are compared without case; U+212A and U+017F count as k and s. *)
Definition upper (c : ascii) : ascii := if is_lower c then byte (code c - 32) else c.

Fixpoint equal_fold (name key : string) : bool :=
  match name, key with
  | "", "" => true
  | String a name', String b key' =>
      if (code b <? 128)%N then Ascii.eqb (upper a) (upper b) && equal_fold name' key'
      else
        match key' with
        | String b2 key2 =>
            (Ascii.eqb (upper a) "S" && Ascii.eqb b (byte 197) && Ascii.eqb b2 (byte 191) && equal_fold name' key2) ||
            match key2 with
            | String b3 key3 =>
                Ascii.eqb (upper a) "K" && Ascii.eqb b (byte 226) && Ascii.eqb b2 (byte 132) &&
                Ascii.eqb b3 (byte 170) && equal_fold name' key3
            | "" => false
            end
        | "" => false
        end
  | _, _ => false
  end.

(** A struct field: its JSON name and how a value is stored in it. *)
Definition field (T : Type) : Type := string * decoder T.

(** The field with that exact name, or else the first with that folded name. *)
Definition find_field {T} (fields : list (field T)) (key : string) : option (decoder T) :=
  match List.find (λ f : field T, String.eqb f.1 key) fields with
  | Some f => Some f.2
  | None => match List.find (λ f : field T, equal_fold f.1 key) fields with Some f => Some f.2 | None => None end
  end.

Fixpoint dec_members {T} (fields : list (field T)) (cur : T) (ms : list (string * json)) : decoded T :=
  match ms with
  | [] => Filled cur None
  | (k, v) :: rest =>
      match find_field fields k with
      | None => dec_members fields cur rest
      | Some d =>
          match d cur v with
          | Aborted e => Aborted e
          | DecodePanic m => DecodePanic m
          | Filled cur e1 =>
              match dec_members fields cur rest with
              | Filled cur e2 => Filled cur (keep_first e1 e2)
              | Aborted e => Aborted e
              | DecodePanic m => DecodePanic m
              end
          end
      end
  end.

Definition dec_struct {T} (type : string) (fields : list (field T)) : decoder T := λ cur v,
  match v with
  | JObj ms => dec_members fields cur ms
  | JNull => Filled cur None
  | _ => mismatch cur v type
  end.

(** A field of type [F] of a struct of type [T]. *)
Definition at_field {T F} (name : string) (get : T → F) (set : T → F → T) (d : decoder F) : field T :=
  (name, λ cur v,
    match d (get cur) v with
    | Filled x e => Filled (set cur x) e
    | Aborted e => Aborted e
    | DecodePanic m => DecodePanic m
    end).

(** [json.Unmarshal] into a fresh value: the value or the error. *)
Definition Unmarshal {T} (zero : T) (d : decoder T) (text : string) : outcome (result json_error T) :=
  match parse_json text with
  | None => Done (Err JSyntaxError)
  | Some v =>
      match d zero v with
      | Filled x None => Done (Ok x)
      | Filled _ (Some e) => Done (Err e)
      | Aborted e => Done (Err e)
      | DecodePanic m => Panicked m
      end
  end.

(** ** Writing *)

(** An ASCII byte of a string literal. *)
Definition quote_byte (c : ascii) : string :=
  let n := code c in
  if Ascii.eqb c (byte 34) || Ascii.eqb c "\"%char then String "\" (String c "")
  else if (n =? 10)%N then "\n"
  else if (n =? 13)%N then "\r"
  else if (n =? 9)%N then "\t"
  else if (n <? 32)%N || Ascii.eqb c "<" || Ascii.eqb c ">" || Ascii.eqb c "&" then
    "\u00" +:+ String (hex_digit (n / 16)) (String (hex_digit (n mod 16)) "")
  else String c "".

(** U+2028 and U+2029 are escaped too; other sequences are copied. *)
Definition quote_rune (r : option string) : string :=
  match r with
  | None => "\ufffd"
  | Some (String c "") => quote_byte c
  | Some s =>
      if String.eqb s (encode_rune 8232) then "\u2028"
      else if String.eqb s (encode_rune 8233) then "\u2029"
      else s
  end.

Definition quote_bytes (s : string) : string := foldr (λ r acc, quote_rune r +:+ acc) "" (runes s).

Definition write_string (s : string) : string := quote_mark +:+ quote_bytes s +:+ quote_mark.

(** A string as it is written. *)
Definition jstr (s : string) : json := JStr s (quote_bytes s).

(** [json.Marshal]; a string is written as it was read, or as [jstr] quotes it. *)
Fixpoint write_json (v : json) : string :=
  match v with
  | JNull => "null"
  | JBool b => if b then "true" else "false"
  | JNum lit => lit
  | JStr _ raw => quote_mark +:+ raw +:+ quote_mark
  | JArr vs => "[" +:+ String.concat "," (map write_json vs) +:+ "]"
  | JObj fs => "{" +:+ String.concat "," (map (λ '(k, v), write_string k +:+ ":" +:+ write_json v) fs) +:+ "}"
  end.

(** ** Strings *)

#[local] Arguments String.append : simpl nomatch.

Lemma first_n_app (a b : string) : first_n (String.length a) (a +:+ b) = a.
Proof. induction a as [|x a IH]; simpl; [done|]. by rewrite IH. Qed.

Lemma coerce_utf8_ascii s : is_ascii_string s = true → coerce_utf8 s = s.
Proof.
  intros H. unfold coerce_utf8. rewrite runes_ascii by done. clear H.
  induction s as [|c s IH]; simpl; [done|]. by rewrite IH.
Qed.

Definition prepend (x : string) (r : option (string * string)) : option (string * string) :=
  match r with Some (str, rest) => Some (x +:+ str, rest) | None => None end.

(** An escaped code below the surrogates stands for itself, whatever follows. *)
Lemma read_escape h1 h2 h3 h4 r s :
  hex4 h1 h2 h3 h4 = Some r → (r < 55296)%N →
  read_string (String "\" (String "u" (String h1 (String h2 (String h3 (String h4 s)))))) =
  prepend (encode_rune r) (read_string s).
Proof.
  intros Hh Hr. assert (Hd : ∀ r2, decode_pair r r2 = None).
  { intros r2. unfold decode_pair. destruct (N.leb_spec 55296 r); [lia|done]. }
  cbn -[hex4 encode_rune decode_pair String.append]. rewrite Hh.
  destruct s as [|b [|u [|k1 [|k2 [|k3 [|k4 s4]]]]]]; try done.
  destruct (if Ascii.eqb b _ && Ascii.eqb u _ then hex4 k1 k2 k3 k4 else None) as [r2|]; [|done]. by rewrite Hd.
Qed.

Lemma read_quoted_byte c s :
  between 0 127 c = true → read_string (quote_byte c +:+ s) = prepend (String c "") (read_string s).
Proof.
  intros Hc. unfold quote_byte.
  destruct (Ascii.eqb c (byte 34) || Ascii.eqb c "\"%char) eqn:E1.
  { apply orb_true_iff in E1 as [E1|E1]; apply Ascii.eqb_eq in E1; by subst c. }
  apply orb_false_iff in E1 as [Eq Eb].
  destruct (N.eqb_spec (code c) 10) as [E|]; [by rewrite <- (ascii_N_embedding c); fold (code c); rewrite E|].
  destruct (N.eqb_spec (code c) 13) as [E|]; [by rewrite <- (ascii_N_embedding c); fold (code c); rewrite E|].
  destruct (N.eqb_spec (code c) 9) as [E|]; [by rewrite <- (ascii_N_embedding c); fold (code c); rewrite E|].
  destruct ((code c <? 32)%N || Ascii.eqb c "<" || Ascii.eqb c ">" || Ascii.eqb c "&") eqn:E2.
  - cbn [String.append].
    rewrite (read_escape _ _ _ _ (code c)).
    + unfold encode_rune. unfold between in Hc. apply andb_true_iff in Hc as [_ Hc%N.leb_le].
      destruct (N.ltb_spec (code c) 128); [|lia]. unfold byte, code. by rewrite ascii_N_embedding.
    + destruct c as [[] [] [] [] [] [] [] []]; try discriminate Hc; reflexivity.
    + unfold between in Hc. apply andb_true_iff in Hc as [_ Hc%N.leb_le]. lia.
  - rewrite !orb_false_iff in E2. destruct E2 as [[[E2 _] _] _].
    cbn -[Ascii.eqb byte code N.ltb]. by rewrite Eq, E2, Eb.
Qed.

Lemma quote_bytes_ascii c s :
  is_ascii_string (String c s) = true → quote_bytes (String c s) = quote_byte c +:+ quote_bytes s.
Proof. unfold quote_bytes. simpl. intros [-> _]%andb_true_iff. done. Qed.

Lemma read_quoted s rest :
  is_ascii_string s = true → read_string (quote_bytes s +:+ quote_mark +:+ rest) = Some (s, rest).
Proof.
  induction s as [|c s IH]; intros Hs; [done|].
  rewrite quote_bytes_ascii by done. simpl in Hs. apply andb_true_iff in Hs as [Hc Hs].
  rewrite app_assoc_s, read_quoted_byte by done. by rewrite (IH Hs).
Qed.

(** ** Reading back what was written *)

(** Number literals are syntactically valid and strings are ASCII. *)
Fixpoint wf_json (v : json) : bool :=
  match v with
  | JNull | JBool _ => true
  | JNum lit => valid_number lit && all_chars is_num_char lit
  | JStr s raw => is_ascii_string s && String.eqb raw (quote_bytes s)
  | JArr vs => forallb wf_json vs
  | JObj fs => forallb (λ '(k, v), is_ascii_string k && wf_json v) fs
  end.

(** What follows a value does not continue a number. *)
Definition stops (s : string) : bool :=
  match s with
  | "" => true
  | String c _ => negb (is_num_char c)
  end.

(** The first character of a number literal. *)
Lemma number_head lit : valid_number lit = true →
  ∃ c s, lit = String c s ∧ (is_digit c || Ascii.eqb c "-") = true.
Proof.
  unfold valid_number. destruct lit as [|c s]; [done|]. intros H. exists c, s. split; [done|].
  destruct (Ascii.eqb c "-"); [by rewrite orb_true_r|]. destruct (Ascii.eqb_spec c "0") as [->|]; [done|].
  by apply andb_true_iff in H as [-> _].
Qed.

Lemma read_number fuel lit rest :
  valid_number lit = true → all_chars is_num_char lit = true → stops rest = true →
  read_value (S fuel) (lit +:+ rest) = Some (JNum lit, rest).
Proof.
  intros Hv Ha Hr. destruct (number_head lit Hv) as (c & s & -> & Hc).
  assert (Hsp : span is_num_char (String c s +:+ rest) = (String c s, rest)) by (by apply span_all).
  cbn [read_value]. change (String c s +:+ rest) with (String c (s +:+ rest)) in *.
  assert (Hf : is_space c = false ∧ Ascii.eqb c "{" = false ∧ Ascii.eqb c "[" = false ∧ Ascii.eqb c (byte 34) = false ∧
    Ascii.eqb c "t" = false ∧ Ascii.eqb c "f" = false ∧ Ascii.eqb c "n" = false).
  { destruct c as [[] [] [] [] [] [] [] []]; try discriminate Hc; done. }
  destruct Hf as (H1 & H2 & H3 & H4 & H5 & H6 & H7).
  cbn [skip_space]. rewrite H1, H2, H3, H4, H5, H6, H7, Hsp, Hv. done.
Qed.

(** The first character of a written value is not a space or a closing bracket. *)
Lemma write_json_head v :
  wf_json v = true → ∃ c s, write_json v = String c s ∧ is_space c = false ∧ Ascii.eqb c "]" = false.
Proof.
  destruct v as [|[]|lit|s raw|vs|fs]; intros Hw; try (eexists _, _; by split_and!).
  apply andb_true_iff in Hw as [Hv _]. destruct (number_head lit Hv) as (c & s & -> & Hc).
  exists c, s. split; [done|]. destruct c as [[] [] [] [] [] [] [] []]; try discriminate Hc; done.
Qed.

Lemma concat_cons sep (x : string) xs :
  xs ≠ [] → String.concat sep (x :: xs) = x +:+ sep +:+ String.concat sep xs.
Proof. by destruct xs. Qed.

Definition write_member (kv : string * json) : string :=
  let '(k, v) := kv in write_string k +:+ ":" +:+ write_json v.

(** The reader by the first character. *)
Lemma read_value_quote fuel s :
  read_value (S fuel) (String (byte 34) s) =
  match read_string s with
  | Some (str, rest) => Some (JStr (coerce_utf8 str) (first_n (String.length s - String.length rest - 1) s), rest)
  | None => None
  end.
Proof. done. Qed.

Lemma read_value_bracket fuel d s :
  is_space d = false → Ascii.eqb d "]" = false →
  read_value (S fuel) (String "[" (String d s)) =
  match read_elements fuel (String d s) with Some (vs, rest) => Some (JArr vs, rest) | None => None end.
Proof. intros Hs Hb. cbn -[read_elements is_space Ascii.eqb]. simpl. by rewrite Hs, Hb. Qed.

Lemma read_value_brace fuel s :
  read_value (S fuel) (String "{" (String (byte 34) s)) =
  match read_members fuel (String (byte 34) s) with Some (fs, rest) => Some (JObj fs, rest) | None => None end.
Proof. done. Qed.

(** One element or member and its separator. *)
Lemma read_elements_step fuel s v rest :
  read_value fuel s = Some (v, rest) →
  read_elements (S fuel) s =
  match skip_space rest with
  | "" => None
  | String c s1 =>
      if Ascii.eqb c "," then
        match read_elements fuel s1 with Some (vs, rest) => Some (v :: vs, rest) | None => None end
      else if Ascii.eqb c "]" then Some ([v], s1) else None
  end.
Proof. intros H. cbn [read_elements]. by rewrite H. Qed.

Lemma read_members_step fuel k s v rest :
  is_ascii_string k = true → read_value fuel s = Some (v, rest) →
  read_members (S fuel) (write_string k +:+ ":" +:+ s) =
  match skip_space rest with
  | "" => None
  | String c s1 =>
      if Ascii.eqb c "," then
        match read_members fuel s1 with Some (fs, rest) => Some ((k, v) :: fs, rest) | None => None end
      else if Ascii.eqb c "}" then Some ([(k, v)], s1) else None
  end.
Proof.
  intros Hk H. unfold write_string. rewrite !app_assoc_s.
  change (quote_mark +:+ ?x) with (String (byte 34) x) at 1.
  cbn [read_members]. change (skip_space (String (byte 34) ?x)) with (String (byte 34) x).
  cbv iota beta. change (negb (Ascii.eqb (byte 34) (byte 34))) with false. cbv iota.
  rewrite read_quoted by done. cbn [skip_space String.append].
  change (negb (Ascii.eqb ":" ":")) with false. cbv iota.
  change (is_space ":") with false. cbv iota. change (negb (Ascii.eqb ":" ":")) with false. cbv iota.
  rewrite H. by rewrite coerce_utf8_ascii.
Qed.

(** The texts of a list of values and of members, one step at a time. *)
Lemma write_elements_cons v v' vs rest :
  String.concat "," (map write_json (v :: v' :: vs)) +:+ rest =
  write_json v +:+ "," +:+ String.concat "," (map write_json (v' :: vs)) +:+ rest.
Proof. cbn [map]. rewrite concat_cons by done. by rewrite !app_assoc_s. Qed.

Lemma write_members_cons k v kv' fs rest :
  String.concat "," (map write_member ((k, v) :: kv' :: fs)) +:+ rest =
  write_string k +:+ ":" +:+ write_json v +:+ "," +:+ String.concat "," (map write_member (kv' :: fs)) +:+ rest.
Proof.
  cbn [map]. rewrite concat_cons by done. change (write_member (k, v)) with (write_string k +:+ ":" +:+ write_json v).
  by rewrite !app_assoc_s.
Qed.

Lemma write_string_head k rest : ∃ s, write_string k +:+ rest = String (byte 34) s.
Proof. unfold write_string. rewrite !app_assoc_s. by eexists. Qed.

(** A text is read back with fuel exceeding its length. *)
Lemma read_written fuel :
  (∀ v rest, wf_json v = true → stops rest = true → (String.length (write_json v) < fuel)%nat →
     read_value fuel (write_json v +:+ rest) = Some (v, rest)) ∧
  (∀ v vs rest, forallb wf_json (v :: vs) = true →
     (String.length (String.concat "," (map write_json (v :: vs))) + 1 < fuel)%nat →
     read_elements fuel (String.concat "," (map write_json (v :: vs)) +:+ "]" +:+ rest) = Some (v :: vs, rest)) ∧
  (∀ kv fs rest, forallb (λ '(k, v), is_ascii_string k && wf_json v) (kv :: fs) = true →
     (String.length (String.concat "," (map write_member (kv :: fs))) + 1 < fuel)%nat →
     read_members fuel (String.concat "," (map write_member (kv :: fs)) +:+ "}" +:+ rest) = Some (kv :: fs, rest)).
Proof.
  induction fuel as [|fuel (IHv & IHe & IHm)]; [split_and!; intros; lia|]. split_and!.
  - intros v rest Hw Hr Hl. destruct v as [|[]|lit|s raw|[|v vs]|[|[k v] fs]]; try done.
    + apply andb_true_iff in Hw as [Hv Ha]. by apply read_number.
    + apply andb_true_iff in Hw as [Hs Hraw%String.eqb_eq]. subst raw.
      cbn [write_json]. unfold write_string. rewrite !app_assoc_s.
      change (read_value (S fuel) (String (byte 34) (quote_bytes s +:+ quote_mark +:+ rest)) = Some (jstr s, rest)).
      rewrite read_value_quote, read_quoted by done. rewrite coerce_utf8_ascii by done.
      rewrite !length_app_s. change (String.length quote_mark) with 1%nat.
      replace (String.length (quote_bytes s) + (1 + String.length rest) - String.length rest - 1)%nat
        with (String.length (quote_bytes s)) by lia. by rewrite first_n_app.
    + cbn [write_json] in Hl |- *. rewrite !length_app_s in Hl. cbn [String.length] in Hl. rewrite !app_assoc_s.
      assert (Hel := IHe v vs rest Hw ltac:(lia)).
      destruct (write_json_head v) as (c & s & Hc & Hs & Hb); [by apply andb_true_iff in Hw as [? _]|].
      assert (∃ s', String.concat "," (map write_json (v :: vs)) +:+ "]" +:+ rest = String c s') as (s' & Hs').
      { destruct vs as [|v' vs]; [|rewrite write_elements_cons]; [cbn [map String.concat]|]; rewrite Hc; by eexists. }
      change ("[" +:+ ?x) with (String "[" x). rewrite Hs' in *. by rewrite read_value_bracket, Hel.
    + cbn [write_json] in Hl |- *. fold write_member in *. rewrite !length_app_s in Hl. cbn [String.length] in Hl.
      rewrite !app_assoc_s. assert (Hm := IHm (k, v) fs rest Hw ltac:(lia)).
      assert (∃ s', String.concat "," (map write_member ((k, v) :: fs)) +:+ "}" +:+ rest = String (byte 34) s') as (s' & Hs').
      { destruct fs as [|kv' fs]; [|rewrite write_members_cons; apply write_string_head].
        cbn [map String.concat write_member]. rewrite app_assoc_s. apply write_string_head. }
      change ("{" +:+ ?x) with (String "{" x). rewrite Hs' in *. by rewrite read_value_brace, Hm.
  - intros v vs rest Hw Hl. apply andb_true_iff in Hw as [Hv Hvs]. destruct vs as [|v' vs].
    + cbn [map String.concat] in *. erewrite read_elements_step; [|apply IHv; [done|done|lia]]. done.
    + rewrite write_elements_cons in *. cbn [map] in Hl. rewrite concat_cons, !length_app_s in Hl by done.
      erewrite read_elements_step; [|apply IHv; [done|done|lia]].
      change (skip_space ("," +:+ ?x)) with (String "," x). cbv iota. change (Ascii.eqb "," ",") with true. cbv iota.
      rewrite (IHe v' vs rest Hvs); [done|]. cbn [map String.length] in Hl |- *. lia.
  - intros [k v] fs rest Hw Hl. cbn [forallb] in Hw. apply andb_true_iff in Hw as [[Hk Hv]%andb_true_iff Hfs].
    destruct fs as [|kv' fs].
    + cbn [map String.concat write_member] in *. rewrite !length_app_s in Hl. rewrite !app_assoc_s.
      erewrite read_members_step; [|done|apply IHv; [done|done|lia]]. done.
    + rewrite write_members_cons in *. cbn [map] in Hl.
      rewrite concat_cons in Hl by done. cbn [write_member] in Hl. rewrite !length_app_s in Hl. cbn [String.length] in Hl.
      erewrite read_members_step; [|done|apply IHv; [done|done|lia]].
      change (skip_space ("," +:+ ?x)) with (String "," x). cbv iota. change (Ascii.eqb "," ",") with true. cbv iota.
      rewrite (IHm kv' fs rest Hfs); [done|]. cbn [map]. lia.
Qed.

Lemma parse_write v : wf_json v = true → parse_json (write_json v) = Some v.
Proof.
  intros Hw. unfold parse_json. destruct (read_written (S (String.length (write_json v)))) as [H _].
  rewrite <- (app_nil_s (write_json v)) at 2. rewrite H; [done|done|done|lia].
Qed.

(** ** The fuel of the reader is enough *)

Lemma skip_space_shorter s : (String.length (skip_space s) ≤ String.length s)%nat.
Proof. induction s as [|c s IH]; simpl; [done|]. destruct (is_space c); simpl; lia. Qed.

Lemma read_string_shorter s : ∀ str rest, read_string s = Some (str, rest) → (String.length rest < String.length s)%nat.
Proof.
  induction s as [s IH] using (induction_ltof1 _ String.length). unfold ltof in IH.
  assert (∀ x s' str rest, (String.length s' < String.length s)%nat → prepend x (read_string s') = Some (str, rest) →
    (String.length rest < String.length s)%nat) as Hp.
  { intros x s' str rest Hs'. destruct (read_string s') as [[str' rest']|] eqn:E; [|done]. intros [= _ <-].
    apply IH in E; lia. }
  intros str rest. destruct s as [|c s1]; [done|]. cbn [read_string].
  destruct (Ascii.eqb c (byte 34)); [intros [= _ <-]; simpl; lia|].
  destruct (code c <? 32)%N; [done|]. destruct (Ascii.eqb c "\"%char); [|apply Hp; simpl; lia].
  destruct s1 as [|e s2]; [done|].
  repeat (match goal with |- (if ?b then _ else _) = _ → _ => destruct b end; [first [apply Hp; simpl; lia|idtac]|]); [|done].
  destruct s2 as [|h1 [|h2 [|h3 [|h4 s3]]]]; try done. destruct (hex4 h1 h2 h3 h4) as [r|]; [|done].
  assert (prepend (encode_rune r) (read_string s3) = Some (str, rest) →
    (String.length rest < String.length (String c (String e (String h1 (String h2 (String h3 (String h4 s3)))))))%nat) as H3
    by (apply Hp; simpl; lia).
  destruct s3 as [|b [|u [|k1 [|k2 [|k3 [|k4 s4]]]]]]; try exact H3.
  destruct (if Ascii.eqb b _ && _ then _ else _) as [r2|]; [|exact H3].
  destruct (decode_pair r r2); [|exact H3]. apply Hp; simpl; lia.
Qed.

Lemma strip_shorter p : ∀ s rest, strip p s = Some rest → (String.length rest ≤ String.length s)%nat.
Proof.
  induction p as [|a p IH]; simpl; intros s rest; [by intros [= ->]|]. destruct s as [|b s]; [done|].
  destruct (Ascii.eqb a b); [|done]. intros H%IH. simpl; lia.
Qed.

Lemma span_length f s u rest : span f s = (u, rest) → (String.length u + String.length rest = String.length s)%nat.
Proof.
  revert u rest. induction s as [|c s IH]; simpl; intros u rest; [by intros [= <- <-]|].
  destruct (f c); [|by intros [= <- <-]]. destruct (span f s) as [a b]. intros [= <- <-]. simpl. by rewrite (IH a b).
Qed.

Lemma valid_number_nonempty lit : valid_number lit = true → (0 < String.length lit)%nat.
Proof. destruct lit; [done|]. simpl. lia. Qed.

(** [f] succeeds with any fuel above what it consumes. *)
Definition reads_within {A} (f : nat → string → option (A * string)) (n : nat) : Prop :=
  ∀ s x rest, f n s = Some (x, rest) →
    (String.length rest < String.length s)%nat ∧
    ∀ m, (String.length s < m + String.length rest)%nat → f m s = Some (x, rest).

Lemma read_leaf_shorter c s1 v rest :
  (if Ascii.eqb c (byte 34) then
     match read_string s1 with
     | Some (str, rest) => Some (JStr (coerce_utf8 str) (first_n (String.length s1 - String.length rest - 1) s1), rest)
     | None => None
     end
   else if Ascii.eqb c "t"%char then
     match strip "rue" s1 with Some rest => Some (JBool true, rest) | None => None end
   else if Ascii.eqb c "f"%char then
     match strip "alse" s1 with Some rest => Some (JBool false, rest) | None => None end
   else if Ascii.eqb c "n"%char then
     match strip "ull" s1 with Some rest => Some (JNull, rest) | None => None end
   else
     let '(lit, rest) := span is_num_char (String c s1) in
     if valid_number lit then Some (JNum lit, rest) else None) = Some (v, rest) →
  (String.length rest < String.length (String c s1))%nat.
Proof.
  intros H. simpl String.length.
  destruct (Ascii.eqb c (byte 34)).
  { destruct (read_string s1) as [[str r]|] eqn:E; [|done]. apply read_string_shorter in E. injection H as _ <-. lia. }
  destruct (Ascii.eqb c "t"%char).
  { destruct (strip "rue" s1) as [r|] eqn:E; [|done]. apply strip_shorter in E. injection H as _ <-. lia. }
  destruct (Ascii.eqb c "f"%char).
  { destruct (strip "alse" s1) as [r|] eqn:E; [|done]. apply strip_shorter in E. injection H as _ <-. lia. }
  destruct (Ascii.eqb c "n"%char).
  { destruct (strip "ull" s1) as [r|] eqn:E; [|done]. apply strip_shorter in E. injection H as _ <-. lia. }
  destruct (span is_num_char (String c s1)) as [lit r] eqn:E. destruct (valid_number lit) eqn:Ev; [|done].
  apply valid_number_nonempty in Ev. apply span_length in E. simpl in E. injection H as _ <-. lia.
Qed.

Lemma read_value_within n : reads_within read_elements n → reads_within read_members n → reads_within read_value (S n).
Proof.
  intros IHe IHm.
  intros s v rest H. cbn [read_value] in H. pose proof (skip_space_shorter s) as Hsk.
  destruct (skip_space s) as [|c s1] eqn:Es; [done|]. simpl in Hsk.
  destruct (Ascii.eqb c "{"%char) eqn:E1; [|destruct (Ascii.eqb c "["%char) eqn:E2].
  + pose proof (skip_space_shorter s1) as Hsk1. destruct (skip_space s1) as [|d s2] eqn:Es1; [done|]. simpl in Hsk1.
    destruct (Ascii.eqb d "}"%char) eqn:Ed.
    * injection H as <- <-. split; [lia|]. intros [|m] Hm; [lia|]. cbn [read_value]. by rewrite Es, E1, Es1, Ed.
    * destruct (read_members n (String d s2)) as [[fs r]|] eqn:E; [|done]. injection H as <- <-.
      apply IHm in E as [Hl E]. simpl in Hl. split; [lia|]. intros [|m] Hm; [lia|]. cbn [read_value].
      rewrite Es, E1, Es1, Ed, E; [done|]. simpl. lia.
  + pose proof (skip_space_shorter s1) as Hsk1. destruct (skip_space s1) as [|d s2] eqn:Es1; [done|]. simpl in Hsk1.
    destruct (Ascii.eqb d "]"%char) eqn:Ed.
    * injection H as <- <-. split; [lia|]. intros [|m] Hm; [lia|]. cbn [read_value]. by rewrite Es, E1, E2, Es1, Ed.
    * destruct (read_elements n (String d s2)) as [[vs r]|] eqn:E; [|done]. injection H as <- <-.
      apply IHe in E as [Hl E]. simpl in Hl. split; [lia|]. intros [|m] Hm; [lia|]. cbn [read_value].
      rewrite Es, E1, E2, Es1, Ed, E; [done|]. simpl. lia.
  + assert ((String.length rest < String.length s)%nat) as Hl by (apply read_leaf_shorter in H; simpl in H; lia).
    split; [done|]. intros [|m] Hm; [lia|]. cbn [read_value]. rewrite Es, E1, E2. exact H.
Qed.

Lemma read_elements_within n : reads_within read_value n → reads_within read_elements n → reads_within read_elements (S n).
Proof.
  intros IHv IHe.
  intros s vs rest H. cbn [read_elements] in H. destruct (read_value n s) as [[v r]|] eqn:E; [|done].
  apply IHv in E as [Hl E]. pose proof (skip_space_shorter r) as Hsk.
  destruct (skip_space r) as [|c s1] eqn:Es; [done|]. simpl in Hsk. destruct (Ascii.eqb c ","%char) eqn:Ec.
  + destruct (read_elements n s1) as [[vs' r']|] eqn:E'; [|done]. injection H as <- <-.
    apply IHe in E' as [Hl' E']. split; [lia|]. intros [|m] Hm; [lia|]. cbn [read_elements].
    rewrite E by lia. rewrite Es, Ec, E' by lia. done.
  + destruct (Ascii.eqb c "]"%char) eqn:Ec'; [|done]. injection H as <- <-. split; [lia|].
    intros [|m] Hm; [lia|]. cbn [read_elements]. rewrite E by lia. by rewrite Es, Ec, Ec'.
Qed.

Lemma read_members_within n : reads_within read_value n → reads_within read_members n → reads_within read_members (S n).
Proof.
  intros IHv IHm.
  intros s fs rest H. cbn [read_members] in H. pose proof (skip_space_shorter s) as Hsk.
  destruct (skip_space s) as [|q s1] eqn:Es; [done|]. simpl in Hsk. destruct (negb (Ascii.eqb q (byte 34))) eqn:Eq; [done|].
  destruct (read_string s1) as [[k r]|] eqn:Ek; [|done]. pose proof (read_string_shorter _ _ _ Ek) as Hk.
  pose proof (skip_space_shorter r) as Hsk1. destruct (skip_space r) as [|c s2] eqn:Es2; [done|]. simpl in Hsk1.
  destruct (negb (Ascii.eqb c ":"%char)) eqn:Ecol; [done|].
  destruct (read_value n s2) as [[v r2]|] eqn:E; [|done]. apply IHv in E as [Hl E].
  pose proof (skip_space_shorter r2) as Hsk2. destruct (skip_space r2) as [|c3 s3] eqn:Es3; [done|]. simpl in Hsk2.
  destruct (Ascii.eqb c3 ","%char) eqn:Ec.
  + destruct (read_members n s3) as [[fs' r']|] eqn:E'; [|done]. injection H as <- <-.
    apply IHm in E' as [Hl' E']. split; [lia|]. intros [|m] Hm; [lia|]. cbn [read_members].
    rewrite Es, Eq, Ek, Es2, Ecol, E by lia. rewrite Es3, Ec, E' by lia. done.
  + destruct (Ascii.eqb c3 "}"%char) eqn:Ec'; [|done]. injection H as <- <-. split; [lia|].
    intros [|m] Hm; [lia|]. cbn [read_members]. rewrite Es, Eq, Ek, Es2, Ecol, E by lia. by rewrite Es3, Ec, Ec'.
Qed.

Lemma read_within n : reads_within read_value n ∧ reads_within read_elements n ∧ reads_within read_members n.
Proof.
  induction n as [|n (IHv & IHe & IHm)]; [done|].
  split_and!; [by apply read_value_within|by apply read_elements_within|by apply read_members_within].
Qed.

(** A document that can be read with any fuel is read by [parse_json]. *)
Lemma parse_json_complete n s v rest :
  read_value n s = Some (v, rest) → read_value (S (String.length s)) s = Some (v, rest).
Proof. intros H. apply (read_within n) in H as [Hl H]. apply H. lia. Qed.
