(* ===== verification/JsonIndent.v ===== *)
(** * json.MarshalIndent with two spaces

    The layout the program uses for error responses and for the [String] methods
    of its messages, and the proof that reading it gives the value back. *)
From stdpp Require Import base tactics list strings.
From Stdlib Require Import ZArith Lia Ascii.
From S2P Require Import Prelude Strconv KubeTypes Labels Json.

Local Open Scope string_scope.
#[local] Arguments String.append : simpl nomatch.

(** A new line and [depth] levels of indentation. *)
Fixpoint spaces (depth : nat) : string :=
  match depth with O => "" | S d => "  " +:+ spaces d end.
Definition line_at (depth : nat) : string := newline +:+ spaces depth.

(** [json.Indent]: empty arrays and objects stay on one line. *)
Fixpoint write_indent (depth : nat) (v : json) : string :=
  match v with
  | JArr [] => "[]"
  | JArr vs =>
      "[" +:+ line_at (S depth) +:+
      String.concat ("," +:+ line_at (S depth)) (map (write_indent (S depth)) vs) +:+ line_at depth +:+ "]"
  | JObj [] => "{}"
  | JObj fs =>
      "{" +:+ line_at (S depth) +:+
      String.concat ("," +:+ line_at (S depth))
        (map (λ '(k, v), write_string k +:+ ": " +:+ write_indent (S depth) v) fs) +:+ line_at depth +:+ "}"
  | _ => write_json v
  end.

Definition MarshalIndent (v : json) : string := write_indent 0 v.

Example indent_object :
  MarshalIndent (JObj [("a", JNum "1"); ("b", JArr [JBool true])]) =
  "{" +:+ newline +:+ "  " +:+ write_string "a" +:+ ": 1," +:+ newline +:+
  "  " +:+ write_string "b" +:+ ": [" +:+ newline +:+ "    true" +:+ newline +:+ "  ]" +:+ newline +:+ "}".
Proof. reflexivity. Qed.

(** ** Induction over values *)

Section JsonInd.
Variable P : json → Prop.
Hypothesis (Hnull : P JNull) (Hbool : ∀ b, P (JBool b)) (Hnum : ∀ lit, P (JNum lit)) (Hstr : ∀ s raw, P (JStr s raw)).
Hypothesis (Harr : ∀ vs, Forall P vs → P (JArr vs)).
Hypothesis (Hobj : ∀ fs, Forall (λ kv : string * json, P kv.2) fs → P (JObj fs)).

Fixpoint json_nested_ind (v : json) : P v :=
  match v with
  | JNull => Hnull
  | JBool b => Hbool b
  | JNum lit => Hnum lit
  | JStr s raw => Hstr s raw
  | JArr vs =>
      Harr vs ((fix go vs : Forall P vs :=
        match vs with [] => @List.Forall_nil _ _ | v :: vs => @List.Forall_cons _ _ v vs (json_nested_ind v) (go vs) end) vs)
  | JObj fs =>
      Hobj fs ((fix go fs : Forall (λ kv : string * json, P kv.2) fs :=
        match fs with [] => @List.Forall_nil _ _ | kv :: fs => @List.Forall_cons _ _ kv fs (json_nested_ind kv.2) (go fs) end) fs)
  end.
End JsonInd.

(** ** Reading with some fuel *)

Definition value_at (s : string) (v : json) (rest : string) : Prop := ∃ n, read_value n s = Some (v, rest).
Definition elements_at (s : string) (vs : list json) (rest : string) : Prop := ∃ n, read_elements n s = Some (vs, rest).
Definition members_at (s : string) (fs : list (string * json)) (rest : string) : Prop :=
  ∃ n, read_members n s = Some (fs, rest).

(** Any larger fuel does as well. *)
Lemma within_larger {A} (f : nat → string → option (A * string)) s x rest n m :
  (∀ k, reads_within f k) → f n s = Some (x, rest) → (String.length s < m)%nat → f m s = Some (x, rest).
Proof. intros Hf H Hm. apply (Hf n) in H as [_ H]. apply H. lia. Qed.

Lemma value_at_fuel s v rest m : value_at s v rest → (String.length s < m)%nat → read_value m s = Some (v, rest).
Proof. intros [n H]. apply within_larger with n; [intros k; apply read_within|done]. Qed.
Lemma elements_at_fuel s vs rest m :
  elements_at s vs rest → (String.length s < m)%nat → read_elements m s = Some (vs, rest).
Proof. intros [n H]. apply within_larger with n; [intros k; apply read_within|done]. Qed.
Lemma members_at_fuel s fs rest m :
  members_at s fs rest → (String.length s < m)%nat → read_members m s = Some (fs, rest).
Proof. intros [n H]. apply within_larger with n; [intros k; apply read_within|done]. Qed.

Lemma skip_space_idem s : skip_space (skip_space s) = skip_space s.
Proof. induction s as [|c s IH]; simpl; [done|]. destruct (is_space c) eqn:E; [done|]. simpl. by rewrite E. Qed.

(** Leading space is skipped. *)
Lemma value_at_skip s s' v rest : skip_space s = skip_space s' → value_at s v rest → value_at s' v rest.
Proof. intros E [[|n] H]; [done|]. exists (S n). cbn [read_value] in *. by rewrite <- E. Qed.
Lemma members_at_skip s s' fs rest : skip_space s = skip_space s' → members_at s fs rest → members_at s' fs rest.
Proof. intros E [[|n] H]; [done|]. exists (S n). cbn [read_members] in *. by rewrite <- E. Qed.

Lemma fuel_above (a b : nat) : ∃ m, (a < m)%nat ∧ (b < m)%nat.
Proof. exists (S (a + b)). lia. Qed.

Lemma elements_last s v r rest :
  value_at s v r → skip_space r = String "]" rest → elements_at s [v] rest.
Proof.
  intros Hv Hr. destruct (fuel_above (String.length s) 0) as (m & ? & _). exists (S m). cbn [read_elements].
  rewrite (value_at_fuel _ _ _ _ Hv) by lia. by rewrite Hr.
Qed.

Lemma elements_next s v r s' vs rest :
  value_at s v r → skip_space r = String "," s' → elements_at s' vs rest → elements_at s (v :: vs) rest.
Proof.
  intros Hv Hr He. destruct (fuel_above (String.length s) (String.length s')) as (m & ? & ?). exists (S m). cbn [read_elements].
  rewrite (value_at_fuel _ _ _ _ Hv) by lia. rewrite Hr. change (Ascii.eqb "," ",") with true. cbv iota.
  by rewrite (elements_at_fuel _ _ _ _ He) by lia.
Qed.

(** A member up to the value. *)
Definition member_at (s : string) (k : string) (v : json) (rest : string) : Prop :=
  ∃ s1 r s2, skip_space s = String (byte 34) s1 ∧ read_string s1 = Some (k, r) ∧
    skip_space r = String ":" s2 ∧ value_at s2 v rest.

Lemma members_last s k v r rest :
  member_at s k v r → skip_space r = String "}" rest → members_at s [(coerce_utf8 k, v)] rest.
Proof.
  intros (s1 & r1 & s2 & E1 & E2 & E3 & Hv) Hr. destruct (fuel_above (String.length s2) 0) as (m & ? & _). exists (S m). cbn [read_members].
  rewrite E1. change (negb (Ascii.eqb (byte 34) (byte 34))) with false. cbv iota. rewrite E2, E3.
  change (negb (Ascii.eqb ":" ":")) with false. cbv iota. rewrite (value_at_fuel _ _ _ _ Hv) by lia. by rewrite Hr.
Qed.

Lemma members_next s k v r s' fs rest :
  member_at s k v r → skip_space r = String "," s' → members_at s' fs rest →
  members_at s ((coerce_utf8 k, v) :: fs) rest.
Proof.
  intros (s1 & r1 & s2 & E1 & E2 & E3 & Hv) Hr Hm. destruct (fuel_above (String.length s2) (String.length s')) as (m & ? & ?). exists (S m).
  cbn [read_members]. rewrite E1. change (negb (Ascii.eqb (byte 34) (byte 34))) with false. cbv iota. rewrite E2, E3.
  change (negb (Ascii.eqb ":" ":")) with false. cbv iota. rewrite (value_at_fuel _ _ _ _ Hv) by lia.
  rewrite Hr. change (Ascii.eqb "," ",") with true. cbv iota. by rewrite (members_at_fuel _ _ _ _ Hm) by lia.
Qed.

(** ** What is written can be read *)

Lemma skip_line d s : skip_space (line_at d +:+ s) = skip_space s.
Proof.
  unfold line_at. rewrite app_assoc_s. change (skip_space (newline +:+ ?x)) with (skip_space x).
  induction d as [|d IH]; [done|]. cbn [spaces]. rewrite app_assoc_s. exact IH.
Qed.

Lemma stops_line d s : stops (line_at d +:+ s) = true.
Proof. done. Qed.

(** The first character of a value is not a space. *)
Lemma write_indent_head d v :
  wf_json v = true → ∃ c s, write_indent d v = String c s ∧ is_space c = false ∧ Ascii.eqb c "]" = false.
Proof.
  destruct v as [| | | |[|v vs]|[|f fs]]; try apply write_json_head; intros _; eexists _, _; by split_and!.
Qed.

Definition indent_member (d : nat) (kv : string * json) : string :=
  let '(k, v) := kv in write_string k +:+ ": " +:+ write_indent d v.

(** The claim of the round trip for one value. *)
Definition reads_back (v : json) : Prop :=
  ∀ d rest, wf_json v = true → stops rest = true → value_at (write_indent d v +:+ rest) v rest.

Lemma reads_back_elements d d' v vs rest :
  Forall reads_back (v :: vs) → forallb wf_json (v :: vs) = true →
  elements_at (String.concat ("," +:+ line_at d) (map (write_indent d) (v :: vs)) +:+ line_at d' +:+ "]" +:+ rest)
    (v :: vs) rest.
Proof.
  revert v. induction vs as [|v' vs IH]; intros v [Hv Hvs]%Forall_cons [Hw Hws]%andb_true_iff.
  - apply elements_last with (line_at d' +:+ "]" +:+ rest); [by apply Hv|]. by rewrite skip_line.
  - cbn [map]. rewrite concat_cons by done. rewrite !app_assoc_s.
    eapply elements_next; [apply Hv; [done|reflexivity]|reflexivity|].
    destruct (IH v' Hvs Hws) as [n Hn]. exists n. destruct n as [|n]; [done|]. cbn [read_elements] in *.
    cbn [map] in Hn. destruct n as [|n]; [done|]. cbn [read_value] in *. by rewrite skip_line.
Qed.

Lemma member_written d k v rest :
  is_ascii_string k = true → value_at (write_indent d v +:+ rest) v rest →
  member_at (indent_member d (k, v) +:+ rest) k v rest.
Proof.
  intros Hk Hv. unfold indent_member, write_string. rewrite !app_assoc_s.
  eexists _, _, _. split; [reflexivity|]. split; [by apply read_quoted|]. split; [reflexivity|].
  eapply value_at_skip; [|exact Hv]. reflexivity.
Qed.

Lemma reads_back_members d d' kv fs rest :
  Forall (λ kv : string * json, reads_back kv.2) (kv :: fs) →
  forallb (λ '(k, v), is_ascii_string k && wf_json v) (kv :: fs) = true →
  members_at (String.concat ("," +:+ line_at d) (map (indent_member d) (kv :: fs)) +:+ line_at d' +:+ "}" +:+ rest)
    (kv :: fs) rest.
Proof.
  revert kv. induction fs as [|kv' fs IH]; intros [k v] [Hv Hvs]%Forall_cons [[Hk Hw]%andb_true_iff Hws]%andb_true_iff;
    rewrite <- (coerce_utf8_ascii k Hk) at 2.
  - apply members_last with (line_at d' +:+ "}" +:+ rest); [|by rewrite skip_line].
    apply member_written; [done|]. by apply Hv.
  - cbn [map]. rewrite concat_cons by done. rewrite !app_assoc_s.
    eapply members_next; [apply member_written; [done|apply Hv; [done|reflexivity]]|reflexivity|].
    eapply members_at_skip; [|apply (IH kv' Hvs Hws)]. by rewrite skip_line.
Qed.

(** An indented value is read back. *)
Lemma read_indented v : reads_back v.
Proof.
  induction v as [|b|lit|s raw|vs IH|fs IH] using json_nested_ind; intros d rest Hw Hr.
  1-4: eexists; apply (proj1 (read_written _) _ _ Hw Hr); constructor.
  - destruct vs as [|v vs]; [by exists 1%nat|].
    destruct (reads_back_elements (S d) d v vs rest IH Hw) as [n Hn]. exists (S n).
    cbn [write_indent]. rewrite !app_assoc_s. change ("[" +:+ ?x) with (String "[" x). cbn [read_value].
    change (skip_space (String "[" ?x)) with (String "[" x). cbv iota.
    change (Ascii.eqb "[" "{") with false. change (Ascii.eqb "[" "[") with true. cbv iota. rewrite skip_line.
    destruct (write_indent_head (S d) v) as (c & s & Ec & Hsp & Hb); [by apply andb_true_iff in Hw as [Hw _]|].
    assert (∃ s', String.concat ("," +:+ line_at (S d)) (map (write_indent (S d)) (v :: vs)) +:+
      line_at d +:+ "]" +:+ rest = String c s') as [s' Es'].
    { cbn [map]. destruct vs as [|v' vs]; [by rewrite Ec; eexists|]. cbn [map]. rewrite concat_cons by done.
      rewrite Ec. by eexists. }
    rewrite Es' in Hn |- *. change (skip_space (String c s')) with (if is_space c then skip_space s' else String c s').
    rewrite Hsp, Hb. by rewrite Hn.
  - destruct fs as [|[k v] fs]; [by exists 1%nat|].
    destruct (reads_back_members (S d) d (k, v) fs rest IH Hw) as [n Hn]. exists (S n).
    cbn [write_indent]. rewrite !app_assoc_s. change ("{" +:+ ?x) with (String "{" x). cbn [read_value].
    change (skip_space (String "{" ?x)) with (String "{" x). cbv iota. change (Ascii.eqb "{" "{") with true. cbv iota.
    rewrite skip_line. fold (indent_member (S d)).
    assert (∃ s', String.concat ("," +:+ line_at (S d)) (map (indent_member (S d)) ((k, v) :: fs)) +:+
      line_at d +:+ "}" +:+ rest = String (byte 34) s') as [s' Es'].
    { cbn [map]. destruct fs as [|f fs]; [by eexists|]. cbn [map]. rewrite concat_cons by done. by eexists. }
    unfold indent_member in Es', Hn |- *. rewrite Es' in Hn |- *.
    change (skip_space (String (byte 34) s')) with (String (byte 34) s'). change (Ascii.eqb (byte 34) "}") with false.
    cbv iota. by rewrite Hn.
Qed.

Lemma parse_indent v : wf_json v = true → parse_json (MarshalIndent v) = Some v.
Proof.
  intros Hw. unfold parse_json, MarshalIndent. pose proof (read_indented v 0%nat "" Hw eq_refl) as H.
  rewrite app_nil_s in H. rewrite (value_at_fuel _ _ _ _ H) by lia. done.
Qed.
