(* ===== verification/Url.v ===== *)
(** * net/url and net/http.NewRequest

    URLs as Go 1.10 has them: [url.Parse] with its error texts,
    [url.ParseRequestURI] (the target of a request a server receives),
    [URL.String], and the checks of [http.NewRequest].  Strings are byte
    strings, as in Go.  The main result is that printing a URL of a request and
    parsing it again restores it ([ParseRequestURI_String]). *)
From stdpp Require Import base tactics list strings.
From Stdlib Require Import ZArith NArith Lia Ascii.
From S2P Require Import Prelude Strconv KubeTypes Labels Json.

Local Open Scope string_scope.

(** ** Characters *)

Definition hex_value (c : ascii) : option N :=
  if in_range c "0" "9" then Some (N_of_ascii c - 48)%N
  else if in_range c "a" "f" then Some (N_of_ascii c - 87)%N
  else if in_range c "A" "F" then Some (N_of_ascii c - 55)%N
  else None.

Inductive encoding : Type := encodePath | encodeHost | encodeZone | encodeUserPassword | encodeFragment.

(** [shouldEscape] *)
Definition shouldEscape (c : ascii) (mode : encoding) : bool :=
  if is_alnum c then false
  else if match mode with encodeHost | encodeZone => char_in c "!$&'()*+,;=:[]<>" || (N_of_ascii c =? 34)%N | _ => false end
  then false
  else if char_in c "-_.~" then false
  else if char_in c "$&+,/:;=?@" then
    match mode with
    | encodePath => Ascii.eqb c "?"
    | encodeUserPassword => char_in c "@/?:"
    | encodeFragment => false
    | _ => true
    end
  else match mode with encodeFragment => negb (char_in c "!()*") | _ => true end.

(** A digit of ["0123456789ABCDEF"]. *)
Definition upper_hex (n : N) : ascii := if (n <? 10)%N then ascii_of_N (n + 48) else ascii_of_N (n + 55).

Definition escape_char (c : ascii) (rest : string) : string :=
  String "%" (String (upper_hex (N_of_ascii c / 16)) (String (upper_hex (N_of_ascii c mod 16)) rest)).

Fixpoint escape (mode : encoding) (s : string) : string :=
  match s with
  | "" => ""
  | String c s' => if shouldEscape c mode then escape_char c (escape mode s') else String c (escape mode s')
  end.

(** ** URLs *)

(** A user name, and the password if it is set. *)
Record Userinfo : Type := MkUserinfo { Username : string; Password : option string }.

(** The path is decoded; [URL_RawPath] is its encoded form when that is not the
    default encoding. *)
Record URL : Type := MkURL {
  URL_Scheme : string;
  URL_Opaque : string;
  URL_User : option Userinfo;
  URL_Host : string;
  URL_Path : string;
  URL_RawPath : string;
  URL_ForceQuery : bool;
  URL_RawQuery : string;
  URL_Fragment : string }.

(** The URL that consists of a path. *)
Definition path_url (path : string) : URL := MkURL "" "" None "" path "" false "" "".

(** [url.Path = p], on a copy. *)
Definition with_path (u : URL) (p : string) : URL :=
  MkURL (URL_Scheme u) (URL_Opaque u) (URL_User u) (URL_Host u) p (URL_RawPath u) (URL_ForceQuery u) (URL_RawQuery u)
    (URL_Fragment u).

(** ** Cutting strings *)

(** Before and after the first [c]. *)
Fixpoint cut (c : ascii) (s : string) : string * option string :=
  match s with
  | "" => ("", None)
  | String d s' =>
      if Ascii.eqb d c then ("", Some s')
      else let '(a, b) := cut c s' in (String d a, b)
  end.

(** Before and after the last [c]. *)
Fixpoint cut_last (c : ascii) (s : string) : option (string * string) :=
  match s with
  | "" => None
  | String d s' =>
      match cut_last c s' with
      | Some (a, b) => Some (String d a, b)
      | None => if Ascii.eqb d c then Some ("", s') else None
      end
  end.

(** Before and from the first occurrence of [pat]. *)
Fixpoint find_text (pat s : string) : option (string * string) :=
  match strip pat s with
  | Some _ => Some ("", s)
  | None =>
      match s with
      | "" => None
      | String d s' => match find_text pat s' with Some (a, b) => Some (String d a, b) | None => None end
      end
  end.

(** The text does not have the character. *)
Definition no_char (c : ascii) (s : string) : bool := all_chars (λ d, negb (Ascii.eqb d c)) s.

Section Url.
Context `{lib : !GoLib}.

(** ** Decoding *)

Definition EscapeError (s : string) : string := "invalid URL escape " +:+ Quote s.
Definition InvalidHostError (s : string) : string := "invalid character " +:+ Quote s +:+ " in host name".

(** Whether the byte [v], written with the hexadecimal digits [a] and [b], may
    be escaped in this part of a URL. *)
Definition escape_allowed (mode : encoding) (a b : ascii) (v : N) : bool :=
  let percent := Ascii.eqb a "2" && Ascii.eqb b "5" in
  match mode with
  | encodeHost => negb (v <? 128)%N || percent
  | encodeZone => percent || (v =? 32)%N || negb (shouldEscape (ascii_of_N v) encodeHost)
  | _ => true
  end.

Definition allowed_in (mode : encoding) (c : ascii) : bool :=
  match mode with
  | encodeHost | encodeZone => negb (N_of_ascii c <? 128)%N || negb (shouldEscape c mode)
  | _ => true
  end.

Definition prepend (c : ascii) (r : result string string) : result string string :=
  match r with Ok t => Ok (String c t) | Err e => Err e end.

Fixpoint unescape (mode : encoding) (s : string) : result string string :=
  match s with
  | "" => Ok ""
  | String c s' =>
      if Ascii.eqb c "%" then
        match s' with
        | String a (String b s'') =>
            match hex_value a, hex_value b with
            | Some x, Some y =>
                let v := (16 * x + y)%N in
                if escape_allowed mode a b v then prepend (ascii_of_N v) (unescape mode s'')
                else Err (EscapeError (String c (String a (String b ""))))
            | _, _ => Err (EscapeError (String c (String a (String b ""))))
            end
        | _ => Err (EscapeError s)
        end
      else if allowed_in mode c then prepend c (unescape mode s')
      else Err (InvalidHostError (String c ""))
  end.

(** ** Parsing *)

(** The scheme, empty if there is none, and what follows it. *)
Fixpoint scheme_loop (rawurl : string) (scheme : string) (s : string) : result string (string * string) :=
  match s with
  | "" => Ok ("", rawurl)
  | String c s' =>
      let next := scheme +:+ String c "" in
      if is_letter c then scheme_loop rawurl next s'
      else if is_digit c || char_in c "+-." then
        if String.eqb scheme "" then Ok ("", rawurl) else scheme_loop rawurl next s'
      else if Ascii.eqb c ":" then if String.eqb scheme "" then Err "missing protocol scheme" else Ok (scheme, s')
      else Ok ("", rawurl)
  end.

Definition getscheme (rawurl : string) : result string (string * string) := scheme_loop rawurl "" rawurl.

Definition validOptionalPort (port : string) : bool :=
  match port with
  | "" => true
  | String c digits => Ascii.eqb c ":" && all_chars is_digit digits
  end.

Definition parseHost (host : string) : result string string :=
  match host with
  | String "[" _ =>
      match cut_last "]" host with
      | None => Err "missing ']' in host"
      | Some (before, colonPort) =>
          if negb (validOptionalPort colonPort) then Err ("invalid port " +:+ Quote colonPort +:+ " after host")
          else match find_text "%25" before with
               | Some (host1, host2) =>
                   match unescape encodeHost host1, unescape encodeZone host2, unescape encodeHost ("]" +:+ colonPort) with
                   | Err e, _, _ => Err e
                   | _, Err e, _ => Err e
                   | _, _, Err e => Err e
                   | Ok h1, Ok h2, Ok h3 => Ok (h1 +:+ h2 +:+ h3)
                   end
               | None => unescape encodeHost host
               end
      end
  | _ => unescape encodeHost host
  end.

Definition validUserinfo (s : string) : bool := all_chars (λ c, is_alnum c || char_in c "-._:~!$&'()*+,;=%@") s.

Definition parseAuthority (authority : string) : result string (option Userinfo * string) :=
  match cut_last "@" authority with
  | None => match parseHost authority with Err e => Err e | Ok host => Ok (None, host) end
  | Some (userinfo, host) =>
      match parseHost host with
      | Err e => Err e
      | Ok host =>
          if negb (validUserinfo userinfo) then Err "net/url: invalid userinfo"
          else
            let '(username, password) := cut ":" userinfo in
            match unescape encodeUserPassword username, password with
            | Err e, _ => Err e
            | Ok username, None => Ok (Some (MkUserinfo username None), host)
            | Ok username, Some password =>
                match unescape encodeUserPassword password with
                | Err e => Err e
                | Ok password => Ok (Some (MkUserinfo username (Some password)), host)
                end
            end
      end
  end.

Definition lower_char (c : ascii) : ascii := if in_range c "A" "Z" then ascii_of_N (N_of_ascii c + 32) else c.

Fixpoint ToLower (s : string) : string :=
  match s with "" => "" | String c s' => String (lower_char c) (ToLower s') end.

(** [setPath]: the decoded path, and the encoded one unless it is the default. *)
Definition setPath (p : string) : result string (string * string) :=
  match unescape encodePath p with
  | Err e => Err e
  | Ok path => Ok (path, if String.eqb p (escape encodePath path) then "" else p)
  end.

(** The rest of a URL before its query, whether it ends in a bare question
    mark, and the query. *)
Definition split_query (rest : string) : string * bool * string :=
  match cut "?" rest with
  | (before, None) => (before, false, "")
  | (before, Some "") => (before, true, "")
  | (before, Some query) => (before, false, query)
  end.

Definition starts_with (c : ascii) (s : string) : bool :=
  match s with String d _ => Ascii.eqb d c | "" => false end.

(** A URL without fragment; [viaRequest]: the target of a request. *)
Definition parse (rawurl : string) (viaRequest : bool) : result string URL :=
  if String.eqb rawurl "" && viaRequest then Err "empty url"
  else if String.eqb rawurl "*" then Ok (path_url "*")
  else
    match getscheme rawurl with
    | Err e => Err e
    | Ok (scheme, rest) =>
        let scheme := ToLower scheme in
        let has_scheme := negb (String.eqb scheme "") in
        let '(rest, force, query) := split_query rest in
        let rooted := starts_with "/" rest in
        if negb rooted && has_scheme then Ok (MkURL scheme rest None "" "" "" force query "")
        else if negb rooted && viaRequest then Err "invalid URI for request"
        else if negb rooted && (match cut ":" (fst (cut "/" rest)) with (_, Some _) => true | _ => false end)
        then Err "first path segment in URL cannot contain colon"
        else
          let whole :=
            match setPath rest with
            | Err e => Err e
            | Ok (path, raw) => Ok (MkURL scheme "" None "" path raw force query "")
            end in
          match strip "//" rest with
          | Some after =>
              if has_scheme || (negb viaRequest && negb (starts_with "/" after)) then
                let '(authority, path) := cut "/" after in
                match parseAuthority authority with
                | Err e => Err e
                | Ok (user, host) =>
                    match setPath (match path with Some p => String "/" p | None => "" end) with
                    | Err e => Err e
                    | Ok (path, raw) => Ok (MkURL scheme "" user host path raw force query "")
                    end
                end
              else whole
          | None => whole
          end
    end.

Definition url_error (url : string) (e : string) : error := ErrorString ("parse " +:+ url +:+ ": " +:+ e).

(** [url.Parse] *)
Definition Parse (rawurl : string) : result error URL :=
  let '(u, frag) := cut "#" rawurl in
  match parse u false with
  | Err e => Err (url_error u e)
  | Ok url =>
      match unescape encodeFragment (default "" frag) with
      | Err e => Err (url_error rawurl e)
      | Ok fragment =>
          Ok (MkURL (URL_Scheme url) (URL_Opaque url) (URL_User url) (URL_Host url) (URL_Path url) (URL_RawPath url)
                (URL_ForceQuery url) (URL_RawQuery url) fragment)
      end
  end.

(** [url.ParseRequestURI] *)
Definition ParseRequestURI (rawurl : string) : result error URL :=
  match parse rawurl true with Err e => Err (url_error rawurl e) | Ok url => Ok url end.

Definition urlParseError (rawurl : string) : option error :=
  match Parse rawurl with Err e => Some e | Ok _ => None end.

(** The URL of a request made for a text, and its path. *)
Definition parsedURL (rawurl : string) : URL :=
  match Parse rawurl with Ok url => url | Err _ => path_url "" end.

Definition urlPath (rawurl : string) : string := URL_Path (parsedURL rawurl).

(** ** Printing *)

Definition validEncodedPath (s : string) : bool :=
  all_chars (λ c, char_in c "!$&'()*+,;=:@[]%" || negb (shouldEscape c encodePath)) s.

(** [URL.EscapedPath] *)
Definition EscapedPath (u : URL) : string :=
  let default_encoding := if String.eqb (URL_Path u) "*" then "*" else escape encodePath (URL_Path u) in
  if negb (String.eqb (URL_RawPath u) "") && validEncodedPath (URL_RawPath u) then
    match unescape encodePath (URL_RawPath u) with
    | Ok p => if String.eqb p (URL_Path u) then URL_RawPath u else default_encoding
    | Err _ => default_encoding
    end
  else default_encoding.

Definition Userinfo_String (ui : Userinfo) : string :=
  escape encodeUserPassword (Username ui) +:+
  match Password ui with Some p => ":" +:+ escape encodeUserPassword p | None => "" end.

(** What comes before the path: scheme, user and host. *)
Definition url_prefix (u : URL) : string :=
  (if String.eqb (URL_Scheme u) "" then "" else URL_Scheme u +:+ ":") +:+
  if String.eqb (URL_Opaque u) "" then
    let has_authority := negb (String.eqb (URL_Host u) "") || match URL_User u with Some _ => true | None => false end in
    if negb (String.eqb (URL_Scheme u) "") || has_authority then
      (if has_authority || negb (String.eqb (URL_Path u) "") then "//" else "") +:+
      (match URL_User u with Some ui => Userinfo_String ui +:+ "@" | None => "" end) +:+
      escape encodeHost (URL_Host u)
    else ""
  else URL_Opaque u.

(** The path as printed: a slash in front when it follows a host, a dot segment
    when its first element could be taken for a scheme. *)
Definition url_path_text (u : URL) (before : string) : string :=
  let path := EscapedPath u in
  let path := if negb (String.eqb path "") && negb (starts_with "/" path) && negb (String.eqb (URL_Host u) "")
              then String "/" path else path in
  if String.eqb before "" && negb (no_char ":" (fst (cut "/" path))) then "./" +:+ path else path.

(** [URL.String] *)
Definition URL_String (u : URL) : string :=
  url_prefix u +:+
  (if String.eqb (URL_Opaque u) "" then url_path_text u (url_prefix u) else "") +:+
  (if URL_ForceQuery u || negb (String.eqb (URL_RawQuery u) "") then "?" +:+ URL_RawQuery u else "") +:+
  (if String.eqb (URL_Fragment u) "" then "" else "#" +:+ escape encodeFragment (URL_Fragment u)).

(** ** http.NewRequest *)

(** The method of a request made without one. *)
Definition request_method (method : string) : string := if String.eqb method "" then "GET" else method.

Definition validMethod (method : string) : bool :=
  negb (String.eqb method "") && all_chars (λ c, is_alnum c || char_in c "!#$%&'*+-.^_`|~") method.

Definition newRequestError (method rawurl : string) : option error :=
  if negb (validMethod (request_method method)) then
    Some (ErrorString ("net/http: invalid method " +:+ Quote (request_method method)))
  else urlParseError rawurl.
End Url.

(** ** Ordinary URLs *)

Lemma cut_absent c s : no_char c s = true → cut c s = (s, None).
Proof.
  induction s as [|d s IH]; simpl; [done|]. intros [Hd Hs]%andb_true_iff. apply negb_true_iff in Hd.
  by rewrite Hd, (IH Hs).
Qed.

Lemma cut_at c a b : no_char c a = true → cut c (a +:+ String c b) = (a, Some b).
Proof.
  induction a as [|d a IH]; simpl.
  - by rewrite Ascii.eqb_refl.
  - intros [Hd Ha]%andb_true_iff. apply negb_true_iff in Hd. by rewrite Hd, (IH Ha).
Qed.

Lemma cut_last_absent c s : no_char c s = true → cut_last c s = None.
Proof.
  induction s as [|d s IH]; simpl; [done|]. intros [Hd Hs]%andb_true_iff. apply negb_true_iff in Hd.
  by rewrite (IH Hs), Hd.
Qed.

(** The characters of ordinary hosts with ports, and of ordinary paths. *)
Definition host_char (c : ascii) : bool := is_alnum c || char_in c "-_.:".
Definition path_char (c : ascii) : bool := is_alnum c || char_in c "-_.~/".

Lemma host_char_ordinary c :
  host_char c = true →
  allowed_in encodeHost c = true ∧ Ascii.eqb c "%" = false ∧ Ascii.eqb c "#" = false ∧ Ascii.eqb c "?" = false ∧
  Ascii.eqb c "@" = false ∧ Ascii.eqb c "/" = false ∧ Ascii.eqb c "[" = false.
Proof.
  intros Hc. pose proof (ordinary_chars (λ c, implb (host_char c) (allowed_in encodeHost c &&
    negb (char_in c "%#?@/[")))) as H. specialize (H ltac:(vm_compute; reflexivity) c). simpl in H. rewrite Hc in H.
  apply andb_true_iff in H as [Ha Hn]. apply negb_true_iff in Hn. rewrite !orb_false_iff in Hn. tauto.
Qed.

Lemma path_char_ordinary c :
  path_char c = true → Ascii.eqb c "%" = false ∧ Ascii.eqb c "#" = false ∧ Ascii.eqb c "?" = false.
Proof.
  intros Hc. pose proof (ordinary_chars (λ c, implb (path_char c) (negb (char_in c "%#?")))) as H.
  specialize (H ltac:(vm_compute; reflexivity) c). simpl in H. rewrite Hc in H. apply negb_true_iff in H.
  rewrite !orb_false_iff in H. tauto.
Qed.

Lemma ordinary_path_kept c : path_char c = true → negb (shouldEscape c encodePath) = true.
Proof.
  intros Hc. pose proof (ordinary_chars (λ c, implb (path_char c) (negb (shouldEscape c encodePath)))
    ltac:(vm_compute; reflexivity) c) as H. simpl in H. by rewrite Hc in H.
Qed.

Lemma no_char_of (f : ascii → bool) c s :
  (∀ d, f d = true → Ascii.eqb d c = false) → all_chars f s = true → no_char c s = true.
Proof. intros Hf. apply all_chars_impl. intros d Hd. by rewrite (Hf d Hd). Qed.

Lemma no_char_app c a b : no_char c (a +:+ b) = no_char c a && no_char c b.
Proof. apply all_chars_app. Qed.

(** Texts that need no escape in JSON. *)
Definition plain_char (c : ascii) : bool := is_alnum c || char_in c "-+:.".

Lemma digit_plain c : is_digit c = true → plain_char c = true.
Proof. destruct c as [[] [] [] [] [] [] [] []]; intros H; try discriminate H; done. Qed.

Lemma plain_quoted s : all_chars plain_char s = true → quote_bytes s = s ∧ is_ascii_string s = true.
Proof.
  induction s as [|c s IH]; [done|]. cbn [all_chars]. intros [Hc Hs]%andb_true_iff. destruct (IH Hs) as [E1 E2].
  assert (quote_bytes (String c s) = String c (quote_bytes s)) as ->.
  { destruct c as [[] [] [] [] [] [] [] []]; try discriminate Hc; reflexivity. }
  rewrite E1. split; [done|]. cbn [is_ascii_string]. rewrite E2.
  destruct c as [[] [] [] [] [] [] [] []]; try discriminate Hc; done.
Qed.

Section Ordinary.
Context `{lib : !GoLib}.

Lemma unescape_plain mode s :
  all_chars (λ c, negb (Ascii.eqb c "%") && allowed_in mode c) s = true → unescape mode s = Ok s.
Proof.
  induction s as [|c s IH]; cbn [all_chars unescape]; [done|]. intros [[Hc Ha]%andb_true_iff Hs]%andb_true_iff.
  apply negb_true_iff in Hc. rewrite Hc, Ha, (IH Hs). done.
Qed.

Lemma escape_plain mode s : all_chars (λ c, negb (shouldEscape c mode)) s = true → escape mode s = s.
Proof.
  induction s as [|c s IH]; cbn [all_chars escape]; [done|]. intros [Hc Hs]%andb_true_iff.
  apply negb_true_iff in Hc. by rewrite Hc, (IH Hs).
Qed.

(** An escaped path decodes to the path. *)
Lemma escape_char_digits c :
  hex_value (upper_hex (N_of_ascii c / 16)) = Some (N_of_ascii c / 16)%N ∧
  hex_value (upper_hex (N_of_ascii c mod 16)) = Some (N_of_ascii c mod 16)%N.
Proof.
  pose proof (ordinary_chars (λ c,
    bool_decide (hex_value (upper_hex (N_of_ascii c / 16)) = Some (N_of_ascii c / 16)%N) &&
    bool_decide (hex_value (upper_hex (N_of_ascii c mod 16)) = Some (N_of_ascii c mod 16)%N))) as H.
  specialize (H ltac:(vm_compute; reflexivity) c). apply andb_true_iff in H as [H1 H2].
  by apply bool_decide_eq_true in H1, H2.
Qed.

Lemma unescape_escape_path s : unescape encodePath (escape encodePath s) = Ok s.
Proof.
  induction s as [|c s IH]; cbn [escape]; [done|]. destruct (shouldEscape c encodePath) eqn:E.
  - unfold escape_char. cbn [unescape]. change (Ascii.eqb "%" "%") with true. cbv iota.
    destruct (escape_char_digits c) as [-> ->]. cbn [escape_allowed]. rewrite IH. cbn [prepend].
    rewrite <- N.div_mod by done. by rewrite ascii_N_embedding.
  - cbn [unescape]. assert (Ascii.eqb c "%" = false) as ->.
    { apply Ascii.eqb_neq. intros ->. done. }
    cbn [allowed_in]. by rewrite IH.
Qed.

(** No question mark is left in an escaped path. *)
Lemma escape_path_no_query s : no_char "?" (escape encodePath s) = true.
Proof.
  induction s as [|c s IH]; cbn [escape]; [done|]. destruct (shouldEscape c encodePath) eqn:E.
  - pose proof (ordinary_chars (λ c, negb (Ascii.eqb (upper_hex (N_of_ascii c / 16)) "?") &&
      negb (Ascii.eqb (upper_hex (N_of_ascii c mod 16)) "?")) ltac:(vm_compute; reflexivity) c) as H.
    apply andb_true_iff in H as [H1 H2]. unfold escape_char, no_char in *. cbn [all_chars].
    by rewrite H1, H2, IH.
  - unfold no_char in *. cbn [all_chars]. rewrite IH, andb_true_r. apply negb_true_iff, Ascii.eqb_neq. by intros ->.
Qed.

Lemma valid_path_no_query s : validEncodedPath s = true → no_char "?" s = true.
Proof.
  apply all_chars_impl. intros c H. apply negb_true_iff, Ascii.eqb_neq. by intros ->.
Qed.

(** The printed path of a rooted URL decodes to the path, and stays rooted. *)
Lemma EscapedPath_decodes u :
  starts_with "/" (URL_Path u) = true →
  unescape encodePath (EscapedPath u) = Ok (URL_Path u) ∧ no_char "?" (EscapedPath u) = true.
Proof.
  intros Hr. unfold EscapedPath.
  assert (String.eqb (URL_Path u) "*" = false) as -> by (by destruct (String.eqb_spec (URL_Path u) "*") as [E|]; [rewrite E in Hr|]).
  destruct (negb _ && validEncodedPath _) eqn:E; [|auto using unescape_escape_path, escape_path_no_query].
  apply andb_true_iff in E as [_ Hv]. destruct (unescape encodePath (URL_RawPath u)) as [p|e] eqn:Eu;
    [|auto using unescape_escape_path, escape_path_no_query].
  destruct (String.eqb_spec p (URL_Path u)) as [->|]; [|auto using unescape_escape_path, escape_path_no_query].
  auto using valid_path_no_query.
Qed.

(** A request target: the path decodes to a rooted path, so it starts with a
    slash or with an escaped one; only the former is a target. *)
Definition origin_form (u : URL) : Prop :=
  URL_Scheme u = "" ∧ URL_Opaque u = "" ∧ URL_User u = None ∧ URL_Host u = "" ∧ URL_Fragment u = "" ∧
  starts_with "/" (URL_Path u) = true ∧ starts_with "/" (EscapedPath u) = true ∧
  (URL_ForceQuery u = true → URL_RawQuery u = "").

Lemma URL_String_origin u :
  origin_form u →
  URL_String u = EscapedPath u +:+
    (if URL_ForceQuery u || negb (String.eqb (URL_RawQuery u) "") then "?" +:+ URL_RawQuery u else "").
Proof.
  intros (Hs & Ho & Hu & Hh & Hf & Hr & Hp & _). unfold URL_String, url_prefix, url_path_text.
  rewrite Hs, Ho, Hu, Hh, Hf, Hp. cbn -[String.append cut no_char]. rewrite andb_false_r.
  destruct (EscapedPath u) as [|d rest]; [done|]. cbn [starts_with] in Hp. apply Ascii.eqb_eq in Hp as ->.
  cbn -[String.append]. by rewrite !app_nil_s, andb_false_r.
Qed.

(** A URL printed and read back as a request target. *)
Lemma ParseRequestURI_String u :
  origin_form u →
  ParseRequestURI (URL_String u) =
  Ok (MkURL "" "" None "" (URL_Path u)
        (if String.eqb (EscapedPath u) (escape encodePath (URL_Path u)) then "" else EscapedPath u)
        (URL_ForceQuery u) (URL_RawQuery u) "").
Proof.
  intros Hu. rewrite (URL_String_origin u Hu). destruct Hu as (_ & _ & _ & _ & _ & Hr & Hp & Hq).
  destruct (EscapedPath_decodes u Hr) as [Hd Hn].
  unfold ParseRequestURI, parse. set (tail := if URL_ForceQuery u || _ then _ else _).
  assert (∃ rest, EscapedPath u = String "/" rest) as [rest Er].
  { destruct (EscapedPath u) as [|d rest]; [done|]. apply Ascii.eqb_eq in Hp as ->. by exists rest. }
  assert (split_query (EscapedPath u +:+ tail) = (EscapedPath u, URL_ForceQuery u, URL_RawQuery u)) as Hsplit.
  { unfold split_query, tail. destruct (URL_ForceQuery u) eqn:Ef; cbn [orb].
    - rewrite (Hq eq_refl). change ("?" +:+ "") with (String "?" ""). by rewrite cut_at.
    - destruct (URL_RawQuery u) as [|q qs] eqn:Eq; cbn [String.eqb negb].
      + rewrite app_nil_s. by rewrite cut_absent.
      + change ("?" +:+ ?x) with (String "?" x). by rewrite cut_at. }
  rewrite Er in *. change (String "/" rest +:+ tail) with (String "/" (rest +:+ tail)) in *.
  change (getscheme (String "/" (rest +:+ tail))) with (Ok (A := string * string) (E := string) ("", String "/" (rest +:+ tail))).
  change (String.eqb (String "/" (rest +:+ tail)) "") with false.
  change (String.eqb (String "/" (rest +:+ tail)) "*") with false. cbn [andb]. rewrite Hsplit.
  change (String.eqb (ToLower "") "") with true. cbn [starts_with negb andb orb]. rewrite Ascii.eqb_refl. cbn [negb andb orb].
  assert (setPath (String "/" rest) = Ok (URL_Path u, if String.eqb (String "/" rest) (escape encodePath (URL_Path u)) then "" else String "/" rest)) as ->.
  { unfold setPath. by rewrite Hd. }
  by destruct (strip "//" (String "/" rest)).
Qed.

Lemma parseAuthority_host host : all_chars host_char host = true → parseAuthority host = Ok (None, host).
Proof.
  intros Hh. unfold parseAuthority. rewrite cut_last_absent; [|by eapply no_char_of; [|exact Hh]; apply host_char_ordinary].
  assert (unescape encodeHost host = Ok host) as Hu.
  { apply unescape_plain. eapply all_chars_impl; [|exact Hh]. intros c Hc.
    destruct (host_char_ordinary c Hc) as (-> & -> & _). done. }
  unfold parseHost. rewrite Hu. destruct host as [|c host]; [done|]. simpl in Hh. apply andb_true_iff in Hh as [Hc _].
  destruct (host_char_ordinary c Hc) as (_ & _ & _ & _ & _ & _ & Hb).
  destruct c as [[] [] [] [] [] [] [] []]; try done.
Qed.

Lemma setPath_ordinary path : all_chars path_char path = true → setPath path = Ok (path, "").
Proof.
  intros Hp. unfold setPath. rewrite unescape_plain; [|eapply all_chars_impl; [|exact Hp]; intros c Hc;
    by destruct (path_char_ordinary c Hc) as (-> & _)].
  rewrite escape_plain, String.eqb_refl; [done|]. eapply all_chars_impl; [|exact Hp]. apply ordinary_path_kept.
Qed.

(** An ordinary HTTP URL, with or without a query. *)
Definition query_text (query : option string) : string :=
  match query with Some q => "?" +:+ q | None => "" end.

Lemma split_query_text before query :
  no_char "?" before = true →
  split_query (before +:+ query_text query) = (before, bool_decide (query = Some ""), default "" query).
Proof.
  intros Hb. unfold split_query. destruct query as [q|]; cbn [query_text default].
  - change ("?" +:+ q) with (String "?" q). rewrite cut_at by done. by destruct q.
  - by rewrite app_nil_s, cut_absent.
Qed.

Lemma Parse_ordinary_query scheme host path query :
  scheme = "http" ∨ scheme = "https" → all_chars host_char host = true → all_chars path_char path = true →
  no_char "#" (default "" query) = true →
  Parse (scheme +:+ "://" +:+ host +:+ String "/" path +:+ query_text query) =
  Ok (MkURL scheme "" None host (String "/" path) "" (bool_decide (query = Some "")) (default "" query) "").
Proof.
  intros Hscheme Hh Hp Hq.
  assert (Hno : ∀ c, c = "#"%char ∨ c = "?"%char → no_char c (host +:+ String "/" path) = true).
  { intros c Hc. rewrite no_char_app. apply andb_true_iff. split.
    - eapply no_char_of; [|exact Hh]. intros d Hd. destruct (host_char_ordinary d Hd) as (_ & _ & ? & ? & _). by destruct Hc as [->| ->].
    - change (no_char c (String "/" path)) with (negb (Ascii.eqb "/" c) && no_char c path). apply andb_true_iff.
      split; [by destruct Hc as [->| ->]|]. eapply no_char_of; [|exact Hp]. intros d Hd.
      destruct (path_char_ordinary d Hd) as (_ & ? & ?). by destruct Hc as [->| ->]. }
  set (rest := "//" +:+ host +:+ String "/" path +:+ query_text query).
  change ("://" +:+ host +:+ String "/" path +:+ query_text query) with (String ":" rest).
  assert (Hrest : rest = String "/" (String "/" (host +:+ String "/" path)) +:+ query_text query).
  { unfold rest. change (String "/" (String "/" (host +:+ String "/" path))) with ("//" +:+ (host +:+ String "/" path)).
    by rewrite !app_assoc_s. }
  assert (Hparse : parse (scheme +:+ String ":" rest) false =
    Ok (MkURL scheme "" None host (String "/" path) "" (bool_decide (query = Some "")) (default "" query) "")).
  { unfold parse. rewrite andb_false_r.
    destruct (String.eqb_spec (scheme +:+ String ":" rest) "*") as [E|_]; [by destruct Hscheme as [->| ->]|].
    assert (getscheme (scheme +:+ String ":" rest) = Ok (scheme, rest)) as -> by (by destruct Hscheme as [->| ->]).
    cbv beta iota.
    assert (ToLower scheme = scheme ∧ String.eqb scheme "" = false) as [-> ->] by by destruct Hscheme as [->| ->].
    rewrite Hrest, split_query_text by (change (no_char "?" (host +:+ String "/" path) = true); auto).
    set (tail := host +:+ String "/" path).
    change (strip "//" (String "/" (String "/" tail))) with (Some tail).
    cbn -[setPath cut]. unfold tail.
    rewrite cut_at; [|by eapply no_char_of; [|exact Hh]; apply host_char_ordinary].
    rewrite parseAuthority_host by done. by rewrite setPath_ordinary. }
  unfold Parse. rewrite cut_absent; [by rewrite Hparse|].
  assert (no_char "#" scheme = true) as Hs by by destruct Hscheme as [->| ->].
  rewrite no_char_app, Hs. change (no_char "#" rest = true). rewrite Hrest, no_char_app. apply andb_true_iff.
  split; [change (no_char "#" (host +:+ String "/" path) = true); auto|]. by destruct query.
Qed.

Lemma Parse_ordinary scheme host path :
  scheme = "http" ∨ scheme = "https" → all_chars host_char host = true → all_chars path_char path = true →
  Parse (scheme +:+ "://" +:+ host +:+ String "/" path) = Ok (MkURL scheme "" None host (String "/" path) "" false "" "").
Proof.
  intros Hs Hh Hp. pose proof (Parse_ordinary_query scheme host path None Hs Hh Hp eq_refl) as H.
  cbn [query_text] in H. by rewrite app_nil_s in H.
Qed.

(** What a target that starts with a slash is parsed to: a path and a query. *)
Lemma ParseRequestURI_origin rest u :
  ParseRequestURI (String "/" rest) = Ok u →
  URL_Scheme u = "" ∧ URL_Opaque u = "" ∧ URL_User u = None ∧ URL_Host u = "" ∧ URL_Fragment u = "" ∧
  (URL_ForceQuery u = true → URL_RawQuery u = "") ∧
  (URL_RawPath u = "" ∨ unescape encodePath (URL_RawPath u) = Ok (URL_Path u)).
Proof.
  unfold ParseRequestURI, parse.
  change (String.eqb (String "/" rest) "") with false. change (String.eqb (String "/" rest) "*") with false.
  change (getscheme (String "/" rest)) with (Ok (A := string * string) (E := string) ("", String "/" rest)).
  cbn [andb]. change (String.eqb (ToLower "") "") with true.
  destruct (split_query (String "/" rest)) as [[before force] query] eqn:Esplit. cbn [negb andb orb]. rewrite !andb_false_r, !andb_true_r.
  assert (force = true → query = "") as Hq.
  { unfold split_query in Esplit. destruct (cut "?" (String "/" rest)) as [b [[|]|]]; by simplify_eq. }
  destruct (starts_with "/" before); [|done]. cbn [negb andb].
  destruct (setPath before) as [[path raw]|e] eqn:Ep; [|by destruct (strip "//" before)].
  intros H. assert (u = MkURL "" "" None "" path raw force query "") as -> by (destruct (strip "//" before); by simplify_eq).
  split_and!; try done. cbn. unfold setPath in Ep. destruct (unescape encodePath before) as [p|] eqn:Eu; [|done].
  destruct (String.eqb before (escape encodePath p)); simplify_eq; auto.
Qed.

Lemma starts_with_escape s : starts_with "/" s = true → starts_with "/" (escape encodePath s) = true.
Proof. destruct s as [|c s]; [done|]. cbn [starts_with]. intros ->%Ascii.eqb_eq. done. Qed.

(** A request target with its path replaced, as in a redirect: it prints to a
    target with the new path and the same query. *)
Lemma redirected_target rest u p :
  ParseRequestURI (String "/" rest) = Ok u → starts_with "/" p = true → p ≠ URL_Path u →
  ParseRequestURI (URL_String (with_path u p)) = Ok (MkURL "" "" None "" p "" (URL_ForceQuery u) (URL_RawQuery u) "").
Proof.
  intros Hu Hp Hne. destruct (ParseRequestURI_origin rest u Hu) as (Hs & Ho & Hus & Hh & Hf & Hq & Hraw).
  assert (EscapedPath (with_path u p) = escape encodePath p) as Hesc.
  { unfold EscapedPath. cbn [with_path URL_Path URL_RawPath].
    assert (String.eqb p "*" = false) as -> by (by destruct (String.eqb_spec p "*") as [->|]).
    destruct Hraw as [->|Hraw]; [done|]. destruct (negb _ && _); [|done]. rewrite Hraw.
    by destruct (String.eqb_spec (URL_Path u) p) as [E|]. }
  rewrite ParseRequestURI_String.
  - rewrite Hesc. cbn [with_path URL_Path URL_ForceQuery URL_RawQuery]. by rewrite String.eqb_refl.
  - unfold origin_form. rewrite Hesc. cbn [with_path URL_Scheme URL_Opaque URL_User URL_Host URL_Path URL_Fragment URL_ForceQuery URL_RawQuery].
    split_and!; auto using starts_with_escape.
Qed.
End Ordinary.
