(* ===== verification/Time.v ===== *)
(** * time.Time in JSON messages

    [Time.UnmarshalJSON] and [Time.MarshalJSON] of Go 1.10: the layout
    [2006-01-02T15:04:05Z07:00] read field by field with the checks and the
    error texts of [time.Parse], and the layout with a fraction written.

    A time is kept as the calendar fields and the zone it was given in, which is
    what is written again; the zone is a number of minutes east of UTC.  The
    main result is that a written time is read back ([time_roundtrip]). *)
From stdpp Require Import base tactics list strings.
From Stdlib Require Import ZArith NArith Lia Ascii.
From S2P Require Import Prelude Strconv Labels Json Url.

Local Open Scope go_scope.
Local Open Scope string_scope.

Record Time : Type := MkTime {
  Year : Z;
  Month : Z;
  Day : Z;
  Hour : Z;
  Minute : Z;
  Seconds : Z;
  Nanosecond : Z;
  Zone : Z }.

(** The zero [Time]. *)
Definition zero_time : Time := MkTime 1 1 1 0 0 0 0 0.

Definition is_leap (year : Z) : bool :=
  (year mod 4 =? 0)%Z && (negb (year mod 100 =? 0)%Z || (year mod 400 =? 0)%Z).

Definition daysIn (month year : Z) : Z :=
  if (month =? 2)%Z then if is_leap year then 29 else 28
  else if bool_decide (month ∈ [4; 6; 9; 11]%Z) then 30 else 31.

(** ** Reading *)

(** [atoi] of package time: a sign is allowed, and so is no digit. *)
Definition time_atoi (s : string) : option Z :=
  let '(neg, digits) :=
    match s with String "-" r => (true, r) | String "+" r => (false, r) | _ => (false, s) end in
  match parse_digits 0 digits with
  | Some n => if (n <=? MaxInt64)%Z then Some (if neg then - n else n)%Z else None
  | None => None
  end.

(** One or two digits; [fixed]: two. *)
Definition getnum (s : string) (fixed : bool) : option (Z * string) :=
  match s with
  | String a rest =>
      match digit_of a with
      | None => None
      | Some x =>
          match rest with
          | String b rest' =>
              match digit_of b with
              | Some y => Some (x * 10 + y, rest')%Z
              | None => if fixed then None else Some (x, rest)
              end
          | "" => if fixed then None else Some (x, "")
          end
      end
  | "" => None
  end.

Definition time_quote (s : string) : string := quote_mark +:+ s +:+ quote_mark.
Definition RFC3339 : string := "2006-01-02T15:04:05Z07:00".

Section Parse.
(** The whole text, for the errors. *)
Variable value : string.

(** [elem] of the layout does not match [rest]. *)
Definition cannot_parse {A} (rest elem : string) : result string A :=
  Err ("parsing time " +:+ time_quote value +:+ " as " +:+ time_quote (time_quote RFC3339) +:+ ": cannot parse " +:+
       time_quote rest +:+ " as " +:+ time_quote elem).

Definition time_error {A} (message : string) : result string A :=
  Err ("parsing time " +:+ time_quote value +:+ ": " +:+ message).

Definition skip_char (c : ascii) (s : string) : result string string :=
  match s with
  | String d s' => if Ascii.eqb d c then Ok s' else cannot_parse s (String c "")
  | "" => cannot_parse s (String c "")
  end.

Definition read_year (s : string) : result string (Z * string) :=
  match s with
  | String a (String b (String c (String d rest))) =>
      if is_digit a then
        match time_atoi (String a (String b (String c (String d "")))) with
        | Some n => Ok (n, rest)
        | None => cannot_parse rest "2006"
        end
      else cannot_parse s "2006"
  | _ => cannot_parse s "2006"
  end.

(** A month that cannot be read counts as 0, which is out of range. *)
Definition read_month (s : string) : result string (Z * string) :=
  match getnum s true with
  | Some (n, rest) => if (n <=? 0)%Z || (12 <? n)%Z then time_error "month out of range" else Ok (n, rest)
  | None => time_error "month out of range"
  end.

Definition read_day (s : string) : result string (Z * string) :=
  match getnum s true with Some r => Ok r | None => cannot_parse s "02" end.

Definition read_hour (s : string) : result string (Z * string) :=
  match getnum s false with
  | Some (n, rest) => if (24 <=? n)%Z then time_error "hour out of range" else Ok (n, rest)
  | None => cannot_parse s "15"
  end.

Definition read_minute (s : string) : result string (Z * string) :=
  match getnum s true with
  | Some (n, rest) => if (60 <=? n)%Z then time_error "minute out of range" else Ok (n, rest)
  | None => cannot_parse s "04"
  end.

(** The digits of a fraction as nanoseconds; more than nine are not scaled. *)
Definition parseNanoseconds (digits rest : string) : result string Z :=
  match time_atoi digits with
  | None => cannot_parse rest "05"
  | Some ns =>
      if (1000000000 <=? ns)%Z then time_error "fractional second out of range"
      else Ok (ns * 10 ^ Z.of_nat (9 - String.length digits))%Z
  end.

(** Seconds, and a fraction that the layout does not have; a fraction may stand
    alone. *)
Definition read_seconds (s : string) : result string (Z * Z * string) :=
  let '(sec, rest, bad) := match getnum s true with Some (n, rest) => (n, rest, false) | None => (0%Z, s, true) end in
  if (60 <=? sec)%Z then time_error "second out of range"
  else
    match rest with
    | String "." (String d _ as frac) =>
        if is_digit d then
          let '(digits, rest') := span is_digit frac in
          let* ns := parseNanoseconds digits rest' in
          Ok (sec, ns, rest')
        else if bad then cannot_parse rest "05" else Ok (sec, 0%Z, rest)
    | _ => if bad then cannot_parse rest "05" else Ok (sec, 0%Z, rest)
    end.

Definition read_zone (s : string) : result string (Z * string) :=
  match s with
  | String "Z" rest => Ok (0%Z, rest)
  | String sign (String h1 (String h2 (String colon (String m1 (String m2 rest))))) =>
      if negb (Ascii.eqb colon ":") then cannot_parse s "Z07:00"
      else
        match time_atoi (String h1 (String h2 "")), time_atoi (String m1 (String m2 "")) with
        | Some hr, Some mm =>
            if Ascii.eqb sign "+" then Ok (hr * 60 + mm, rest)%Z
            else if Ascii.eqb sign "-" then Ok (- (hr * 60 + mm), rest)%Z
            else cannot_parse rest "Z07:00"
        | _, _ => cannot_parse rest "Z07:00"
        end
  | _ => cannot_parse s "Z07:00"
  end.

Definition parse_time : result string Time :=
  let* s := skip_char (byte 34) value in
  let* (year, s) := read_year s in
  let* s := skip_char "-" s in
  let* (month, s) := read_month s in
  let* s := skip_char "-" s in
  let* (day, s) := read_day s in
  let* s := skip_char "T" s in
  let* (hour, s) := read_hour s in
  let* s := skip_char ":" s in
  let* (min, s) := read_minute s in
  let* s := skip_char ":" s in
  let* (sec, nsec, s) := read_seconds s in
  let* (zone, s) := read_zone s in
  let* s := skip_char (byte 34) s in
  if negb (String.eqb s "") then time_error ("extra text: " +:+ s)
  else if (day <? 1)%Z || (daysIn month year <? day)%Z then time_error "day out of range"
  else Ok (MkTime year month day hour min sec nsec zone).
End Parse.

(** ** Writing *)

Definition digit_char (n : N) : ascii := ascii_of_N (48 + n).

(** The last [width] digits of a number. *)
Fixpoint digits (width : nat) (n : N) : string :=
  match width with
  | O => ""
  | S w => digits w (n / 10) +:+ String (digit_char (n mod 10)) ""
  end.

(** [appendInt] for numbers that are not negative: at least [width] digits. *)
Definition append_int (n : Z) (width : nat) : string :=
  if (n <? 10 ^ Z.of_nat width)%Z then digits width (Z.to_N n) else pretty.pretty n.

Fixpoint trim_zeros (s : string) : string :=
  match s with
  | "" => ""
  | String c s' =>
      match trim_zeros s' with
      | "" => if Ascii.eqb c "0" then "" else String c ""
      | t => String c t
      end
  end.

Definition fraction_text (ns : Z) : string :=
  match trim_zeros (digits 9 (Z.to_N ns)) with "" => "" | t => "." +:+ t end.

Definition zone_text (zone : Z) : string :=
  if (zone =? 0)%Z then "Z"
  else (if (zone <? 0)%Z then "-" else "+") +:+ append_int (Z.abs zone / 60) 2 +:+ ":" +:+ append_int (Z.abs zone mod 60) 2.

(** [AppendFormat] with the layout [RFC3339Nano]. *)
Definition time_text (t : Time) : string :=
  append_int (Year t) 4 +:+ "-" +:+ append_int (Month t) 2 +:+ "-" +:+ append_int (Day t) 2 +:+ "T" +:+
  append_int (Hour t) 2 +:+ ":" +:+ append_int (Minute t) 2 +:+ ":" +:+ append_int (Seconds t) 2 +:+
  fraction_text (Nanosecond t) +:+ zone_text (Zone t).

(** [MarshalJSON] refuses years that do not have four digits. *)
Definition time_printable (t : Time) : bool := (0 <=? Year t)%Z && (Year t <? 10000)%Z.

Definition time_json (t : Time) : json := jstr (time_text t).

(** ** JSON *)

(** [UnmarshalJSON] gets the text of the value (of an array or object, here, the
    compact text); null leaves the time as it is. *)
Definition dec_time : decoder Time := λ cur v,
  match v with
  | JNull => Filled cur None
  | JStr _ raw =>
      match parse_time (quote_mark +:+ raw +:+ quote_mark) with
      | Ok t => Filled t None
      | Err e => Aborted (JCustomError e)
      end
  | _ => match parse_time (write_json v) with Ok t => Filled t None | Err e => Aborted (JCustomError e) end
  end.

Example parse_fraction :
  parse_time (time_quote "2017-02-28T09:05:01.25+01:30") = Ok (MkTime 2017 2 28 9 5 1 250000000 90).
Proof. reflexivity. Qed.

Example parse_day_range :
  parse_time (time_quote "2017-02-29T09:05:01Z") =
  Err ("parsing time " +:+ time_quote (time_quote "2017-02-29T09:05:01Z") +:+ ": day out of range").
Proof. reflexivity. Qed.

(** ** Round trip *)

Definition valid_time (t : Time) : Prop :=
  (0 ≤ Year t < 10000 ∧ 1 ≤ Month t ≤ 12 ∧ 1 ≤ Day t ≤ daysIn (Month t) (Year t) ∧ 0 ≤ Hour t < 24 ∧
   0 ≤ Minute t < 60 ∧ 0 ≤ Seconds t < 60 ∧ 0 ≤ Nanosecond t < 1000000000 ∧ - 6000 < Zone t < 6000)%Z.

Lemma daysIn_le month year : (daysIn month year ≤ 31)%Z.
Proof. unfold daysIn. destruct (month =? 2)%Z; [by destruct (is_leap year)|]. by destruct (bool_decide _). Qed.

Lemma digit_char_spec k :
  (k < 10)%N → digit_of (digit_char k) = Some (Z.of_N k) ∧ is_digit (digit_char k) = true.
Proof.
  intros H. assert (k ∈ [0;1;2;3;4;5;6;7;8;9]%N) as Hn by (rewrite !elem_of_cons, elem_of_nil; lia).
  rewrite !elem_of_cons, elem_of_nil in Hn. destruct_or?; by subst.
Qed.

Lemma parse_digits_app a b acc :
  parse_digits acc (a +:+ b) = match parse_digits acc a with Some x => parse_digits x b | None => None end.
Proof.
  revert acc. induction a as [|c a IH]; intros acc; [done|]. change (String c a +:+ b) with (String c (a +:+ b)).
  cbn [parse_digits]. by destruct (digit_of c).
Qed.

Lemma digits_value w n acc :
  parse_digits acc (digits w n) = Some (acc * 10 ^ Z.of_nat w + Z.of_N (n mod 10 ^ N.of_nat w))%Z.
Proof.
  revert n acc. induction w as [|w IH]; intros n acc.
  - cbn [digits parse_digits]. rewrite N.mod_1_r. f_equal. lia.
  - cbn [digits]. rewrite parse_digits_app, IH. cbn [parse_digits].
    destruct (digit_char_spec (n mod 10) ltac:(by apply N.mod_lt)) as [-> _]. f_equal.
    rewrite !Nat2N.inj_succ, N.pow_succ_r', Nat2Z.inj_succ, Z.pow_succ_r by lia.
    rewrite (N.Div0.mod_mul_r n 10). lia.
Qed.

Lemma digits_chars w n : all_chars is_digit (digits w n) = true.
Proof.
  revert n. induction w as [|w IH]; intros n; [done|]. cbn [digits]. rewrite all_chars_app, IH. cbn [all_chars].
  by destruct (digit_char_spec (n mod 10) ltac:(by apply N.mod_lt)) as [_ ->].
Qed.

Lemma digits_length w n : String.length (digits w n) = w.
Proof. revert n. induction w as [|w IH]; intros n; [done|]. cbn [digits]. rewrite length_app_s, IH. simpl. lia. Qed.

(** A number that fits is written with exactly the width. *)
Lemma append_int_fits n w :
  (0 ≤ n < 10 ^ Z.of_nat w)%Z →
  append_int n w = digits w (Z.to_N n) ∧ parse_digits 0 (append_int n w) = Some n.
Proof.
  intros H. unfold append_int. rewrite (proj2 (Z.ltb_lt _ _)) by lia. split; [done|]. rewrite digits_value.
  rewrite N.mod_small; [f_equal; lia|]. apply N2Z.inj_lt. rewrite N2Z.inj_pow, nat_N_Z. lia.
Qed.

(** Two digits are read back. *)
Lemma two_digits n :
  (0 ≤ n < 100)%Z → ∃ a b, append_int n 2 = String a (String b "") ∧ is_digit a = true ∧ is_digit b = true ∧
    ∀ rest fixed, getnum (append_int n 2 +:+ rest) fixed = Some (n, rest).
Proof.
  intros H. destruct (append_int_fits n 2 ltac:(lia)) as [E Hp]. rewrite E in *. cbn [digits] in *.
  change (("" +:+ String ?a "") +:+ String ?b "") with (String a (String b "")) in *.
  destruct (digit_char_spec (Z.to_N n / 10 mod 10) ltac:(by apply N.mod_lt)) as [Ha Ha'].
  destruct (digit_char_spec (Z.to_N n mod 10) ltac:(by apply N.mod_lt)) as [Hb Hb'].
  eexists _, _. split_and!; [done..|]. intros rest fixed. cbn [parse_digits] in Hp. rewrite Ha, Hb in Hp.
  change (String ?a (String ?b "") +:+ rest) with (String a (String b rest)). cbn [getnum]. rewrite Ha, Hb. f_equal.
  injection Hp as Hp. f_equal. lia.
Qed.

Lemma read_year_written v n rest : (0 ≤ n < 10000)%Z → read_year v (append_int n 4 +:+ rest) = Ok (n, rest).
Proof.
  intros H. destruct (append_int_fits n 4 ltac:(lia)) as [E Hp]. rewrite E in *. cbn [digits] in *.
  change (((("" +:+ String ?a "") +:+ String ?b "") +:+ String ?c "") +:+ String ?d "") with (String a (String b (String c (String d "")))) in *.
  change (String ?a (String ?b (String ?c (String ?d ""))) +:+ rest) with (String a (String b (String c (String d rest)))).
  cbn [read_year]. destruct (digit_char_spec (Z.to_N n / 10 / 10 / 10 mod 10) ltac:(by apply N.mod_lt)) as [_ Hd]. rewrite Hd.
  unfold time_atoi. destruct (digit_char (Z.to_N n / 10 / 10 / 10 mod 10)) as [[] [] [] [] [] [] [] []] eqn:Ed;
    try discriminate Hd; rewrite Hp; (rewrite (proj2 (Z.leb_le _ _)) by (unfold MaxInt64; lia)); reflexivity.
Qed.

(** The digits of a fraction without its trailing zeros. *)
Fixpoint zeros (k : nat) : string := match k with O => "" | S k => String "0" (zeros k) end.

Lemma zeros_value k acc : parse_digits acc (zeros k) = Some (acc * 10 ^ Z.of_nat k)%Z.
Proof.
  revert acc. induction k as [|k IH]; intros acc; cbn [zeros parse_digits]; [f_equal; lia|].
  change (digit_of "0") with (Some 0%Z). cbv iota. rewrite IH. f_equal.
  rewrite Nat2Z.inj_succ, Z.pow_succ_r by lia. lia.
Qed.

Lemma trim_zeros_spec s : ∃ k, s = trim_zeros s +:+ zeros k.
Proof.
  induction s as [|c s [k IH]]; [by exists 0%nat|]. cbn [trim_zeros]. destruct (trim_zeros s) as [|d t] eqn:E.
  - destruct (Ascii.eqb_spec c "0") as [->|].
    + exists (S k). cbn [zeros]. change ("" +:+ ?x) with x in *. by f_equal.
    + exists k. change (String c "" +:+ zeros k) with (String c (zeros k)). by f_equal.
  - exists k. change (String c (String d t) +:+ zeros k) with (String c (String d t +:+ zeros k)). by f_equal.
Qed.

Lemma length_zeros k : String.length (zeros k) = k.
Proof. induction k; simpl; congruence. Qed.

Lemma time_atoi_digits s n : all_chars is_digit s = true → parse_digits 0 s = Some n → (n ≤ MaxInt64)%Z → time_atoi s = Some n.
Proof.
  intros Hs Hp Hn. unfold time_atoi.
  assert (match s with String "-" r => (true, r) | String "+" r => (false, r) | _ => (false, s) end = (false, s)) as ->.
  { destruct s as [|c s]; [done|]. simpl in Hs. apply andb_true_iff in Hs as [Hc _].
    destruct c as [[] [] [] [] [] [] [] []]; try discriminate Hc; done. }
  rewrite Hp. by rewrite (proj2 (Z.leb_le _ _)).
Qed.

(** What follows the seconds, or a zone, starts with no digit or dot. *)
Definition ends_seconds (s : string) : Prop :=
  match s with String c _ => is_digit c = false ∧ Ascii.eqb c "." = false | "" => True end.

Lemma read_seconds_written v sec ns rest :
  (0 ≤ sec < 60)%Z → (0 ≤ ns < 1000000000)%Z → ends_seconds rest →
  read_seconds v (append_int sec 2 +:+ fraction_text ns +:+ rest) = Ok (sec, ns, rest).
Proof.
  intros Hs Hns Hrest. unfold read_seconds. destruct (two_digits sec ltac:(lia)) as (_ & _ & _ & _ & _ & Hg).
  rewrite Hg. rewrite (proj2 (Z.leb_gt 60 sec)) by lia. unfold fraction_text.
  destruct (append_int_fits ns 9 ltac:(lia)) as [E Hp]. rewrite E in Hp. clear E.
  pose proof (digits_chars 9 (Z.to_N ns)) as Hd. pose proof (digits_length 9 (Z.to_N ns)) as Hl.
  destruct (trim_zeros_spec (digits 9 (Z.to_N ns))) as [k Hk].
  destruct (trim_zeros (digits 9 (Z.to_N ns))) as [|d t].
  - change ("" +:+ ?x) with x in *. rewrite Hk, zeros_value in Hp. injection Hp as <-.
    destruct rest as [|c rest]; [done|]. destruct Hrest as [_ Hc].
    by destruct c as [[] [] [] [] [] [] [] []]; try discriminate Hc.
  - rewrite Hk in Hd, Hl, Hp. rewrite all_chars_app in Hd. apply andb_true_iff in Hd as [Hd _].
    rewrite length_app_s, length_zeros in Hl. rewrite parse_digits_app in Hp.
    destruct (parse_digits 0 (String d t)) as [x|] eqn:Ex; [|done]. rewrite zeros_value in Hp. injection Hp as Hp.
    change (("." +:+ String d t) +:+ rest) with (String "." (String d t +:+ rest)).
    assert (is_digit d = true) as Hdd by (simpl in Hd; by apply andb_true_iff in Hd as []).
    change (String d t +:+ rest) with (String d (t +:+ rest)). cbv iota. rewrite Hdd.
    change (String d (t +:+ rest)) with (String d t +:+ rest).
    rewrite (span_all is_digit (String d t) rest Hd) by (destruct rest as [|c rest]; [done|]; by destruct Hrest as [-> _]).
    unfold parseNanoseconds.
    assert (0 ≤ x)%Z by (clear -Ex Hp Hns; assert (0 < 10 ^ Z.of_nat k)%Z by (apply Z.pow_pos_nonneg; lia); nia).
    assert (x ≤ ns)%Z by (clear -Ex Hp Hns H; assert (0 < 10 ^ Z.of_nat k)%Z by (apply Z.pow_pos_nonneg; lia); nia).
    rewrite (time_atoi_digits _ x Hd Ex) by (unfold MaxInt64; lia).
    rewrite (proj2 (Z.leb_gt _ x)) by lia. cbn [rbind]. replace (9 - String.length (String d t))%nat with k by lia. by rewrite Hp.
Qed.

Lemma two_digit_atoi n a b : (0 ≤ n < 100)%Z → append_int n 2 = String a (String b "") → time_atoi (String a (String b "")) = Some n.
Proof.
  intros Hn E. destruct (append_int_fits n 2 ltac:(lia)) as [Ed Hp]. rewrite E in *. apply time_atoi_digits; [|done|unfold MaxInt64; lia].
  rewrite Ed. apply digits_chars.
Qed.

Lemma read_zone_written v zone rest : (- 6000 < zone < 6000)%Z → read_zone v (zone_text zone +:+ rest) = Ok (zone, rest).
Proof.
  intros Hz. unfold zone_text. destruct (Z.eqb_spec zone 0) as [->|Hne]; [done|].
  assert (0 ≤ Z.abs zone / 60 < 100)%Z as Hq by (split; [apply Z.div_pos; lia|apply Z.div_lt_upper_bound; lia]).
  assert (0 ≤ Z.abs zone mod 60 < 60)%Z as Hr by (apply Z.mod_pos_bound; lia).
  pose proof (Z.div_mod (Z.abs zone) 60 ltac:(lia)) as Hqr.
  destruct (two_digits (Z.abs zone / 60) ltac:(lia)) as (a & b & E1 & Ha & _).
  destruct (two_digits (Z.abs zone mod 60) ltac:(lia)) as (c & d & E2 & _).
  pose proof (two_digit_atoi (Z.abs zone / 60) a b ltac:(lia) E1) as H1. pose proof (two_digit_atoi (Z.abs zone mod 60) c d ltac:(lia) E2) as H2.
  rewrite E1, E2, !app_assoc_s.
  change (String a (String b "") +:+ ":" +:+ String c (String d "") +:+ rest)
    with (String a (String b (String ":" (String c (String d rest))))).
  destruct (Z.ltb_spec zone 0).
  - change ("-" +:+ ?x) with (String "-" x). cbn [read_zone]. change (Ascii.eqb ":" ":") with true. cbn [negb].
    rewrite H1, H2. change (Ascii.eqb "-" "+") with false. change (Ascii.eqb "-" "-") with true. cbv iota. do 2 f_equal. lia.
  - change ("+" +:+ ?x) with (String "+" x). cbn [read_zone]. change (Ascii.eqb ":" ":") with true. cbn [negb].
    rewrite H1, H2. change (Ascii.eqb "+" "+") with true. cbv iota. do 2 f_equal. lia.
Qed.

Lemma zone_ends zone rest : ends_seconds (zone_text zone +:+ rest).
Proof. unfold zone_text. destruct (zone =? 0)%Z; [done|]. by destruct (zone <? 0)%Z. Qed.

(** A written time is read back, as the same calendar time in the same zone. *)
Lemma time_roundtrip t : valid_time t → parse_time (time_quote (time_text t)) = Ok t.
Proof.
  destruct t as [year month day hour min sec ns zone].
  intros (Hy & Hm & Hd & Hh & Hmin & Hs & Hns & Hz). cbn [Year Month Day Hour Minute Seconds Nanosecond Zone] in *.
  pose proof (daysIn_le month year) as Hdays.
  unfold parse_time. set (v := time_quote _).
  assert (Hskip : ∀ c s, skip_char v c (String c s) = Ok s) by (intros c s; cbn [skip_char]; by rewrite Ascii.eqb_refl).
  assert (Hsk : ∀ c s, skip_char v c (String c "" +:+ s) = Ok s) by (intros c s; apply Hskip).
  assert (skip_char v (byte 34) v = Ok (time_text (MkTime year month day hour min sec ns zone) +:+ String (byte 34) "")) as ->
    by (unfold v at 2; apply Hsk).
  unfold time_text. cbn [Year Month Day Hour Minute Seconds Nanosecond Zone]. rewrite !app_assoc_s.
  cbn [rbind]. rewrite read_year_written by lia. cbn [rbind].
  rewrite Hsk. cbn [rbind]. unfold read_month. destruct (two_digits month ltac:(lia)) as (_ & _ & _ & _ & _ & ->).
  rewrite (proj2 (Z.leb_gt month 0)), (proj2 (Z.ltb_ge 12 month)) by lia. cbn [orb rbind].
  rewrite Hsk. cbn [rbind]. unfold read_day. destruct (two_digits day ltac:(lia)) as (_ & _ & _ & _ & _ & ->). cbn [rbind].
  rewrite Hsk. cbn [rbind]. unfold read_hour. destruct (two_digits hour ltac:(lia)) as (_ & _ & _ & _ & _ & ->).
  rewrite (proj2 (Z.leb_gt 24 hour)) by lia. cbn [rbind].
  rewrite Hsk. cbn [rbind]. unfold read_minute. destruct (two_digits min ltac:(lia)) as (_ & _ & _ & _ & _ & ->).
  rewrite (proj2 (Z.leb_gt 60 min)) by lia. cbn [rbind].
  rewrite Hsk. cbn [rbind]. rewrite read_seconds_written by (lia || apply zone_ends). cbn [rbind].
  rewrite read_zone_written by lia. cbn [rbind]. rewrite Hskip. cbn [rbind].
  rewrite (proj2 (Z.ltb_ge day 1)), (proj2 (Z.ltb_ge (daysIn month year) day)) by lia. done.
Qed.

(** The text of a time needs no escape, so its JSON form is read back too. *)
Lemma digits_plain s : all_chars is_digit s = true → all_chars plain_char s = true.
Proof. apply all_chars_impl, digit_plain. Qed.

Lemma append_int_plain n w : (0 ≤ n < 10 ^ Z.of_nat w)%Z → all_chars plain_char (append_int n w) = true.
Proof. intros H. destruct (append_int_fits n w H) as [-> _]. apply digits_plain, digits_chars. Qed.

Lemma fraction_plain ns : all_chars plain_char (fraction_text ns) = true.
Proof.
  unfold fraction_text. pose proof (digits_plain _ (digits_chars 9 (Z.to_N ns))) as H.
  destruct (trim_zeros_spec (digits 9 (Z.to_N ns))) as [k Hk]. rewrite Hk, all_chars_app in H.
  apply andb_true_iff in H as [H _]. by destruct (trim_zeros (digits 9 (Z.to_N ns))).
Qed.

Lemma zone_plain zone : (- 6000 < zone < 6000)%Z → all_chars plain_char (zone_text zone) = true.
Proof.
  intros Hz. unfold zone_text. destruct (zone =? 0)%Z; [done|]. rewrite !all_chars_app, !append_int_plain.
  - by destruct (zone <? 0)%Z.
  - pose proof (Z.mod_pos_bound (Z.abs zone) 60 ltac:(lia)). lia.
  - split; [apply Z.div_pos; lia|apply Z.div_lt_upper_bound; lia].
Qed.

Lemma time_text_plain t : valid_time t → all_chars plain_char (time_text t) = true.
Proof.
  intros (Hy & Hm & Hd & Hh & Hmin & Hs & Hns & Hz). unfold time_text.
  pose proof (daysIn_le (Month t) (Year t)).
  rewrite !all_chars_app, !append_int_plain, fraction_plain, zone_plain by (simpl; lia). done.
Qed.

Lemma dec_time_json cur t : valid_time t → dec_time cur (time_json t) = Filled t None.
Proof.
  intros Ht. unfold time_json, jstr, dec_time. destruct (plain_quoted _ (time_text_plain t Ht)) as [-> _].
  change (quote_mark +:+ time_text t +:+ quote_mark) with (time_quote (time_text t)). by rewrite time_roundtrip.
Qed.

Lemma time_json_wf t : valid_time t → wf_json (time_json t) = true.
Proof.
  intros Ht. destruct (plain_quoted _ (time_text_plain t Ht)) as [_ H]. unfold time_json, jstr. cbn [wf_json].
  by rewrite H, String.eqb_refl.
Qed.

Lemma valid_printable t : valid_time t → time_printable t = true.
Proof. intros (Hy & _). unfold time_printable. by rewrite (proj2 (Z.leb_le _ _)), (proj2 (Z.ltb_lt _ _)) by lia. Qed.
