(* ===== verification/NodeInfo.v ===== *)
(** * pkg/kube/nodeinfo.go: resource accounting of a node

    Free, allocatable and allocated CPU and memory of a node with its pods.
    [DetailedString] (a JSON dump for logs) is not modelled.

    The theorems relate the quantities the code computes to rational sums:
    for nodes whose requests are valid, free = allocatable - sum of requests,
    exactly. *)
From stdpp Require Import base tactics list strings gmap.
From Stdlib Require Import ZArith QArith Lqa.
From S2P Require Import Prelude Strconv Quantity KubeTypes.

(** Reading a [ResourceList] (a missing key gives the zero quantity). *)
Definition resource_of (m : gmap string Quantity) (res : string) : Quantity :=
  default zeroQuantity (m !! res).

(** The inner and the outer loop that add up container requests. *)
Definition add_container_requests (res : string) (total : Quantity) (cs : list Container) : Quantity :=
  foldl (λ t c, Quantity_Add t (resource_of (Requests c) res)) total cs.

Definition add_pod_requests (res : string) (total : Quantity) (pods : list Pod) : Quantity :=
  foldl (λ t p, add_container_requests res t (Containers (Pod_Spec p))) total pods.

Definition AllocatableCPU (n : NodeInfo) : Quantity :=
  resource_of (Allocatable (Node_Status (NodeOf n))) "cpu".
Definition AllocatableMem (n : NodeInfo) : Quantity :=
  resource_of (Allocatable (Node_Status (NodeOf n))) "memory".

Definition AllocatedCPU (n : NodeInfo) : Quantity := add_pod_requests "cpu" zeroQuantity (Pods n).
Definition AllocatedMem (n : NodeInfo) : Quantity := add_pod_requests "memory" zeroQuantity (Pods n).

Definition FreeCPU (n : NodeInfo) : Quantity := Quantity_Sub (AllocatableCPU n) (AllocatedCPU n).
Definition FreeMem (n : NodeInfo) : Quantity := Quantity_Sub (AllocatableMem n) (AllocatedMem n).

Definition NodeInfo_String (n : NodeInfo) : string := nodeName n.

(** ** Accounting over the rationals *)

Definition sumQ {A} (f : A → Q) (l : list A) : Q := foldr (λ x acc, f x + acc)%Q 0%Q l.

Definition podRequest (res : string) (p : Pod) : Q :=
  sumQ (λ c, qval (resource_of (Requests c) res)) (Containers (Pod_Spec p)).

Definition podsRequest (res : string) (ps : list Pod) : Q := sumQ (podRequest res) ps.

Definition allocatable (res : string) (n : NodeInfo) : Q :=
  qval (resource_of (Allocatable (Node_Status (NodeOf n))) res).

(** Free capacity, as a number. *)
Definition freeQ (res : string) (n : NodeInfo) : Q :=
  (allocatable res n - podsRequest res (Pods n))%Q.

(** Every request of the pod is a well-formed, non-negative quantity. *)
Definition wf_pod (p : Pod) : Prop :=
  ∀ c res q, c ∈ Containers (Pod_Spec p) → Requests c !! res = Some q → wf_request q.

Definition wf_node (n : NodeInfo) : Prop :=
  (∀ res q, Allocatable (Node_Status (NodeOf n)) !! res = Some q → wf_quantity q) ∧
  Forall wf_pod (Pods n).

Section SumQ.
Context {A : Type}.
Implicit Types (f g : A → Q) (l : list A).
Local Open Scope Q_scope.

Lemma sumQ_app f l1 l2 : sumQ f (l1 ++ l2) == sumQ f l1 + sumQ f l2.
Proof. induction l1 as [|x l IH]; simpl; [ring|]. rewrite IH. ring. Qed.

#[export] Instance sumQ_perm f : Proper (Permutation ==> Qeq) (sumQ f).
Proof.
  intros l1 l2 H. induction H as [|x l l' _ IH|x y l|l l' l'' _ IH1 _ IH2]; simpl.
  - reflexivity.
  - by rewrite IH.
  - ring.
  - by rewrite IH1.
Qed.

Lemma sumQ_nonneg f l : (∀ x, x ∈ l → 0 <= f x) → 0 <= sumQ f l.
Proof.
  induction l as [|x l IH]; intros H; simpl; [lra|].
  assert (0 <= f x) by (apply H; by left). assert (0 <= sumQ f l) by (apply IH; set_solver). lra.
Qed.

Lemma sumQ_le f g l : (∀ x, x ∈ l → f x <= g x) → sumQ f l <= sumQ g l.
Proof.
  induction l as [|x l IH]; intros H; simpl; [lra|].
  assert (f x <= g x) by (apply H; by left).
  assert (sumQ f l <= sumQ g l) by (apply IH; set_solver). lra.
Qed.
End SumQ.

Lemma podsRequest_cons res p ps : podsRequest res (p :: ps) = (podRequest res p + podsRequest res ps)%Q.
Proof. done. Qed.

Lemma podsRequest_app res ps1 ps2 :
  (podsRequest res (ps1 ++ ps2) == podsRequest res ps1 + podsRequest res ps2)%Q.
Proof. apply sumQ_app. Qed.

Lemma resource_of_request m res :
  (∀ r q, m !! r = Some q → wf_request q) → wf_request (resource_of m res).
Proof.
  intros H. unfold resource_of. destruct (m !! res) eqn:E; simpl; [by eapply H|apply wf_zero].
Qed.

Lemma add_container_requests_spec res total cs :
  wf_request total → (∀ c r q, c ∈ cs → Requests c !! r = Some q → wf_request q) →
  wf_request (add_container_requests res total cs) ∧
  (qval (add_container_requests res total cs) ==
     qval total + sumQ (λ c, qval (resource_of (Requests c) res)) cs)%Q.
Proof.
  revert total. induction cs as [|c cs IH]; intros total Ht Hcs; simpl.
  { split; [done|]. ring. }
  assert (wf_request (resource_of (Requests c) res)) as Hc.
  { apply resource_of_request. intros r q. apply Hcs. by left. }
  destruct (IH (Quantity_Add total (resource_of (Requests c) res))) as [Hw Hv].
  - by apply wf_request_Add.
  - intros c' r q Hc'. apply Hcs. by right.
  - split; [done|]. rewrite Hv. destruct (Quantity_Add_exact total (resource_of (Requests c) res)) as [_ ->].
    + apply Ht.
    + apply Hc.
    + ring.
Qed.

Lemma add_pod_requests_spec res total ps :
  wf_request total → Forall wf_pod ps →
  wf_request (add_pod_requests res total ps) ∧
  (qval (add_pod_requests res total ps) == qval total + podsRequest res ps)%Q.
Proof.
  revert total. induction ps as [|p ps IH]; intros total Ht Hps.
  { split; [done|]. unfold podsRequest; simpl. ring. }
  rewrite podsRequest_cons. apply Forall_cons in Hps as [Hp Hps].
  change (add_pod_requests res total (p :: ps))
    with (add_pod_requests res (add_container_requests res total (Containers (Pod_Spec p))) ps).
  destruct (add_container_requests_spec res total (Containers (Pod_Spec p))) as [Hw Hv]; [done|done|].
  destruct (IH _ Hw Hps) as [Hw' Hv']. split; [done|]. rewrite Hv', Hv.
  unfold podRequest. ring.
Qed.

Lemma allocatable_wf n res : wf_node n → wf_quantity (resource_of (Allocatable (Node_Status (NodeOf n))) res).
Proof.
  intros [H _]. unfold resource_of. destruct (_ !! res) eqn:E; simpl; [by eapply H|apply wf_zero].
Qed.

(** Free quantities are exact, whatever representation the sums went through. *)
Lemma free_spec res n :
  wf_node n →
  let q := Quantity_Sub (resource_of (Allocatable (Node_Status (NodeOf n))) res)
             (add_pod_requests res zeroQuantity (Pods n)) in
  wf_quantity q ∧ (qval q == freeQ res n)%Q.
Proof.
  intros Hn. destruct (add_pod_requests_spec res zeroQuantity (Pods n) wf_zero (proj2 Hn)) as [Hw Hv].
  destruct (Quantity_Sub_exact (resource_of (Allocatable (Node_Status (NodeOf n))) res)
    (add_pod_requests res zeroQuantity (Pods n))) as [Hw' Hv'].
  - by apply allocatable_wf.
  - apply Hw.
  - by apply wf_request_negatable.
  - split; [done|]. rewrite Hv', Hv, qval_zero. unfold freeQ, allocatable. ring.
Qed.

Lemma FreeCPU_spec n : wf_node n → wf_quantity (FreeCPU n) ∧ (qval (FreeCPU n) == freeQ "cpu" n)%Q.
Proof. apply free_spec. Qed.
Lemma FreeMem_spec n : wf_node n → wf_quantity (FreeMem n) ∧ (qval (FreeMem n) == freeQ "memory" n)%Q.
Proof. apply free_spec. Qed.

Lemma podsRequest_nonneg res ps : Forall wf_pod ps → (0 <= podsRequest res ps)%Q.
Proof.
  intros H. apply sumQ_nonneg. intros p Hp. apply sumQ_nonneg. intros c Hc.
  apply resource_of_request. intros r q. rewrite Forall_forall in H. by apply (H p Hp).
Qed.
