(* ===== verification/Samples.v ===== *)
(** * Sample objects

    Builders for small concrete nodes and pods, on which the witnesses of the
    theorems are evaluated. *)
From stdpp Require Import base tactics list strings gmap pretty.
From Stdlib Require Import ZArith QArith.
From S2P Require Import Prelude Strconv GoStd Quantity KubeTypes NodeInfo.

Definition sample_meta (name ns : string) (labels : gmap string string) (owned : bool) : ObjectMeta :=
  MkObjectMeta name ns labels ∅
    (if owned then [MkOwnerReference "ReplicaSet" "rs" (Some true)] else []) (Some 30%Z).

Definition cpu_mem (millicpu mem : Z) : gmap string Quantity :=
  {[ "cpu" := NewMilliQuantity millicpu "DecimalSI"; "memory" := NewQuantity mem "BinarySI" ]}.

(** A running, controlled pod with one container. *)
Definition sample_pod (name : string) (millicpu mem : Z) : Pod :=
  MkPod (sample_meta name "default" {[ "app" := "web" ]} true)
    (MkPodSpec [] [MkContainer "c" (cpu_mem millicpu mem)] ∅ [] None) "Running".

(** A ready, schedulable node. *)
Definition sample_node (name externalID : string) (millicpu mem : Z) (pods : list Pod) : NodeInfo :=
  MkNodeInfo
    (MkNode (sample_meta name "" ∅ false)
       (MkNodeSpec "10.0.0.0/24" externalID ("sample://" +:+ externalID) false [])
       (MkNodeStatus (cpu_mem millicpu mem) [MkNodeCondition "Ready" "True"]))
    pods.

Lemma wf_milli v f : int64_range v → wf_quantity (NewMilliQuantity v f).
Proof. intros H. split; [exact H|]. unfold wf_scale. simpl. lia. Qed.
Lemma wf_new v f : int64_range v → wf_quantity (NewQuantity v f).
Proof. intros H. split; [exact H|]. unfold wf_scale. simpl. lia. Qed.

Lemma cpu_mem_wf c m res q :
  (0 ≤ c ≤ MaxInt64)%Z → (0 ≤ m ≤ MaxInt64)%Z → cpu_mem c m !! res = Some q → wf_request q.
Proof.
  intros Hc Hm. unfold cpu_mem. rewrite lookup_insert_Some, lookup_singleton_Some.
  unfold MaxInt64 in *. assert (∀ v s, (0 ≤ v)%Z → (0 <= inject_Z v * pow10 s)%Q) as Hp.
  { intros v s Hv. apply Qmult_le_0_compat; [by rewrite Zle_Qle in Hv|]. apply Qlt_le_weak, pow10_pos. }
  intros [[_ <-]|(_ & _ & <-)]; (split; [apply wf_milli || apply wf_new|apply Hp; simpl; lia]);
    unfold int64_range, MinInt64, MaxInt64; lia.
Qed.

Lemma sample_pod_wf name c m :
  (0 ≤ c ≤ MaxInt64)%Z → (0 ≤ m ≤ MaxInt64)%Z → wf_pod (sample_pod name c m).
Proof.
  intros Hc Hm k res q Hk Hq. simpl in Hk. apply list_elem_of_singleton in Hk as ->.
  eapply cpu_mem_wf; [exact Hc|exact Hm|exact Hq].
Qed.

Lemma sample_node_wf name eid c m pods :
  (0 ≤ c ≤ MaxInt64)%Z → (0 ≤ m ≤ MaxInt64)%Z → Forall wf_pod pods →
  wf_node (sample_node name eid c m pods).
Proof. intros Hc Hm Hp. split; [|done]. intros res q Hq. eapply cpu_mem_wf; [exact Hc|exact Hm|exact Hq]. Qed.
