(* ===== verification/QuasiScheduler.v ===== *)
(** * pkg/kube/quasi_scheduler.go: simulated pod scheduling

    [QuasiPodScheduler] places pods, one after the other, on the least loaded
    of the nodes that accept them.  Go keeps a slice of node pointers and
    appends to the chosen node's pods through the pointer; here a node pointer
    is an index into [Nodes], so that the update is seen by later calls.
    [NewQuasiScheduler] copies the nodes and their pod slices, hence the
    caller's nodes are not affected.

    A predicate that accepts is [None]; one that rejects gives its error. *)
From stdpp Require Import base tactics list strings gmap.
From Stdlib Require Import ZArith QArith Lia Lqa SpecFloat.
From S2P Require Import Prelude Strconv GoStd Quantity KubeTypes Labels NodeInfo Samples.

Definition ResourceTypeCPU : string := "cpu".
Definition ResourceTypeMem : string := "memory".

Record PodPlacement : Type := MkPodPlacement { Placed_Pod : string; Placed_Node : string }.

Definition PodPlacement_String (p : PodPlacement) : string := (Placed_Pod p +:+ " -> " +:+ Placed_Node p)%string.

Definition NodeLoadFunction : Type := NodeInfo → float64.

(** Node load: the sum of the allocated CPU and memory fractions. *)
Definition SumOfAllocatedMemAndCPUFractions (node : NodeInfo) : float64 :=
  let allocatableCPU := Quantity_MilliValue (AllocatableCPU node) in
  let allocatedCPU := wrap64 (allocatableCPU - Quantity_MilliValue (FreeCPU node)) in
  let cpuFraction := float64_div (float64_of_int64 allocatedCPU) (float64_of_int64 allocatableCPU) in
  let allocatableMem := Quantity_Value (AllocatableMem node) in
  let allocatedMem := wrap64 (allocatableMem - Quantity_Value (FreeMem node)) in
  let memFraction := float64_div (float64_of_int64 allocatedMem) (float64_of_int64 allocatableMem) in
  float64_add cpuFraction memFraction.

Record QuasiPodScheduler : Type := MkQuasiPodScheduler {
  Nodes : list NodeInfo;
  NodeLoadFunc : NodeLoadFunction }.

Definition NewQuasiScheduler (nodes : list NodeInfo) (loadFunc : option NodeLoadFunction)
    : QuasiPodScheduler :=
  let schedulableNodes := map (λ node, MkNodeInfo (NodeOf node) (map (λ pod, pod) (Pods node))) nodes in
  MkQuasiPodScheduler schedulableNodes (default SumOfAllocatedMemAndCPUFractions loadFunc).

Definition scheduler_FreeCPU (s : QuasiPodScheduler) : Quantity :=
  foldl (λ t node, Quantity_Add t (FreeCPU node)) zeroQuantity (Nodes s).
Definition scheduler_FreeMem (s : QuasiPodScheduler) : Quantity :=
  foldl (λ t node, Quantity_Add t (FreeMem node)) zeroQuantity (Nodes s).

Definition scheduler_NodeLoad (s : QuasiPodScheduler) (node : NodeInfo) : float64 :=
  NodeLoadFunc s node.

Definition podSize (pod : Pod) : Quantity * Quantity :=
  (add_container_requests "cpu" zeroQuantity (Containers (Pod_Spec pod)),
   add_container_requests "memory" zeroQuantity (Containers (Pod_Spec pod))).

Definition totalCPURequests (pods : list Pod) : Quantity := add_pod_requests "cpu" zeroQuantity pods.
Definition totalMemRequests (pods : list Pod) : Quantity := add_pod_requests "memory" zeroQuantity pods.

Definition VerifySchedulingViable (s : QuasiPodScheduler) (podsToEvacuate : list Pod) : option error :=
  let neededCPU := totalCPURequests podsToEvacuate in
  let freeCPU := scheduler_FreeCPU s in
  if (0 <? Quantity_Cmp neededCPU freeCPU)%Z then
    Some (ClusterCapacityError (MkInsufficientResource ResourceTypeCPU neededCPU freeCPU))
  else
    let neededMem := totalMemRequests podsToEvacuate in
    let freeMem := scheduler_FreeMem s in
    if (0 <? Quantity_Cmp neededMem freeMem)%Z then
      Some (ClusterCapacityError (MkInsufficientResource ResourceTypeMem neededMem freeMem))
    else None.

(** ** Predicates *)

Definition acceptablePodDestination : Type := Pod → NodeInfo → option error.

Definition podFitsOnNode : acceptablePodDestination := λ pod node,
  let '(requestedCPU, requestedMem) := podSize pod in
  let freeCPU := FreeCPU node in
  if (0 <? Quantity_Cmp requestedCPU freeCPU)%Z then
    Some (InsufficientResourceError (MkInsufficientResource ResourceTypeCPU requestedCPU freeCPU))
  else
    let freeMem := FreeMem node in
    if (0 <? Quantity_Cmp requestedMem freeMem)%Z then
      Some (InsufficientResourceError (MkInsufficientResource ResourceTypeMem requestedMem freeMem))
    else None.

Definition hasToleration (pod : Pod) (taint : Taint) : bool :=
  existsb (λ toleration, ToleratesTaint toleration taint) (Tolerations (Pod_Spec pod)).

Fixpoint untolerated_taint (pod : Pod) (taints : list Taint) : option Taint :=
  match taints with
  | [] => None
  | taint :: rest =>
      if negb (String.eqb (Taint_Effect taint) TaintEffectNoSchedule) &&
         negb (String.eqb (Taint_Effect taint) TaintEffectNoExecute)
      then untolerated_taint pod rest
      else if negb (hasToleration pod taint) then Some taint
      else untolerated_taint pod rest
  end.

Definition podToleratesNodeTaints : acceptablePodDestination := λ pod node,
  match untolerated_taint pod (Taints (Node_Spec (NodeOf node))) with
  | Some taint => Some (TaintTolerationError (podName pod) (nodeName node) taint)
  | None => None
  end.

(** The operator names of a node selector requirement. *)
Definition node_selector_operator (op : string) : option Operator :=
  if String.eqb op "In" then Some OpIn
  else if String.eqb op "NotIn" then Some OpNotIn
  else if String.eqb op "Exists" then Some OpExists
  else if String.eqb op "DoesNotExist" then Some OpDoesNotExist
  else if String.eqb op "Gt" then Some OpGreaterThan
  else if String.eqb op "Lt" then Some OpLessThan
  else None.

Section Scheduler.
Context `{sorter : !SliceSort, ranger : !MapRange, lib : !GoLib}.

Definition podNodeSelectorPermitsNode : acceptablePodDestination := λ pod node,
  let selector := SelectorFromSet (Spec_NodeSelector (Pod_Spec pod)) in
  if negb (Selector_Matches selector (Labels (Node_Meta (NodeOf node))))
  then Some (NodeSelectorMismatchError pod (NodeOf node))
  else None.

Fixpoint add_requirements (selector : Selector) (exprs : list NodeSelectorRequirement)
    : result labels_error Selector :=
  match exprs with
  | [] => Ok selector
  | expr :: rest =>
      match node_selector_operator (Req_Operator expr) with
      | None => Err (NotANodeSelectorOperator (Req_Operator expr))
      | Some op =>
          match NewRequirement (Req_Key expr) op (Req_Values expr) with
          | Err e => Err e
          | Ok r => add_requirements (Selector_Add selector r) rest
          end
      end
  end.

Definition nodeSelectorRequirementsAsSelector (term : NodeSelectorTerm)
    : result labels_error Selector :=
  if (length (MatchExpressions term) =? 0)%nat then Ok Nothing
  else add_requirements NewSelector (MatchExpressions term).

Fixpoint check_affinity_terms (pod : Pod) (node : NodeInfo) (terms : list NodeSelectorTerm)
    : option error :=
  match terms with
  | [] => None
  | term :: rest =>
      match nodeSelectorRequirementsAsSelector term with
      | Err e =>
          Some (ErrorString ("failed to parse MatchExpressions: " +:+
            matchExpressionsString (MatchExpressions term) +:+ ": " +:+ labelsErrorString e))
      | Ok nodeSelector =>
          if negb (Selector_Matches nodeSelector (Labels (Node_Meta (NodeOf node))))
          then Some (NodeAffinityMismatchError pod (NodeOf node))
          else check_affinity_terms pod node rest
      end
  end.

Definition podNodeAffinityPermitsNode : acceptablePodDestination := λ pod node,
  match Spec_Affinity (Pod_Spec pod) with
  | Some (MkAffinity (Some (MkNodeAffinity (Some hardAffinityConstraints)))) =>
      check_affinity_terms pod node (NodeSelectorTerms hardAffinityConstraints)
  | _ => None
  end.

Definition nodePredicates : list acceptablePodDestination :=
  [podFitsOnNode; podToleratesNodeTaints; podNodeSelectorPermitsNode; podNodeAffinityPermitsNode].

(** The first predicate that rejects. *)
Fixpoint first_rejection (pod : Pod) (node : NodeInfo) (predicates : list acceptablePodDestination)
    : option error :=
  match predicates with
  | [] => None
  | predicate :: rest =>
      match predicate pod node with
      | Some err => Some err
      | None => first_rejection pod node rest
      end
  end.

(** The loop over the nodes: indices of the candidates, and the rejections
    so far. *)
Fixpoint candidates_loop (pod : Pod) (i : nat) (nodes : list NodeInfo)
    (predicates : list acceptablePodDestination) (rejections : list (string * node_mismatch))
    : list nat * list (string * node_mismatch) :=
  match nodes with
  | [] => ([], rejections)
  | node :: rest =>
      match first_rejection pod node predicates with
      | Some err =>
          candidates_loop pod (S i) rest predicates
            (assoc_set (nodeName node) (NodeMismatchError (podName pod) (nodeName node) err) rejections)
      | None =>
          let '(candidates, rejections) := candidates_loop pod (S i) rest predicates rejections in
          (i :: candidates, rejections)
      end
  end.

Definition schedulingCandidates (pod : Pod) (nodes : list NodeInfo)
    (predicates : list acceptablePodDestination) : list nat * error :=
  let '(candidates, mismatches) := candidates_loop pod 0 nodes predicates [] in
  (candidates, PodSchedulingError (podName pod) mismatches).

(** The node with the least load, or nil if no load is below the largest
    float (as when every load is NaN). *)
Fixpoint least_loaded_loop (s : QuasiPodScheduler) (candidates : list nat)
    (leastLoaded : option nat) (minLoad : float64) : option nat :=
  match candidates with
  | [] => leastLoaded
  | i :: rest =>
      match Nodes s !! i with
      | Some node =>
          let load := NodeLoadFunc s node in
          if float64_lt load minLoad then least_loaded_loop s rest (Some i) load
          else least_loaded_loop s rest leastLoaded minLoad
      | None => least_loaded_loop s rest leastLoaded minLoad
      end
  end.

Definition leastLoadedNode (s : QuasiPodScheduler) (candidates : list nat) : option nat :=
  least_loaded_loop s candidates None MaxFloat64.

(** [node.Pods = append(node.Pods, pod)]. *)
Definition append_pod (node : NodeInfo) (pod : Pod) : NodeInfo :=
  MkNodeInfo (NodeOf node) (Pods node ++ [pod]).

Definition set_nodes (s : QuasiPodScheduler) (nodes : list NodeInfo) : QuasiPodScheduler :=
  MkQuasiPodScheduler nodes (NodeLoadFunc s).

(** The placement or the error, and the scheduler afterwards. *)
Definition Schedule (s : QuasiPodScheduler) (pod : Pod)
    : outcome (result error PodPlacement * QuasiPodScheduler) :=
  if (length (Nodes s) =? 0)%nat then Done (Err NoSchedulableNodesError, s)
  else
    let '(candidateNodes, rejections) := schedulingCandidates pod (Nodes s) nodePredicates in
    if (length candidateNodes =? 0)%nat then Done (Err rejections, s)
    else
      match i ← leastLoadedNode s candidateNodes; node ← Nodes s !! i; Some (i, node) with
      | Some (i, assignedNode) =>
          Done (Ok (MkPodPlacement (podName pod) (nodeName assignedNode)),
                set_nodes s (<[i := append_pod assignedNode pod]> (Nodes s)))
      | None => Panicked "nil pointer dereference: assignedNode.Pods"
      end.
End Scheduler.

(** ** What the predicates decide *)

(** The pod's requests fit into the node's free capacity. *)
Definition fits (p : Pod) (n : NodeInfo) : Prop :=
  (podRequest "cpu" p <= freeQ "cpu" n)%Q ∧ (podRequest "memory" p <= freeQ "memory" n)%Q.

(** Every taint that keeps pods away is tolerated. *)
Definition tolerates (p : Pod) (n : NodeInfo) : Prop :=
  ∀ t, t ∈ Taints (Node_Spec (NodeOf n)) →
    Taint_Effect t = TaintEffectNoSchedule ∨ Taint_Effect t = TaintEffectNoExecute →
    ∃ tol, tol ∈ Tolerations (Pod_Spec p) ∧ ToleratesTaint tol t = true.

(** The node has every label the pod's nodeSelector asks for; a nodeSelector
    with a label that is not valid is one that every node passes. *)
Definition selected (p : Pod) (n : NodeInfo) : Prop :=
  map_Forall (λ k v, valid_label k v = true) (Spec_NodeSelector (Pod_Spec p)) →
  Spec_NodeSelector (Pod_Spec p) ⊆ Labels (Node_Meta (NodeOf n)).

Section SchedulerFacts.
Context `{sorter : !SliceSort, ranger : !MapRange, lib : !GoLib}.

(** A node selector term: a non-empty conjunction of well-formed
    requirements, all of which hold. *)
Definition term_holds (ls : gmap string string) (term : NodeSelectorTerm) : Prop :=
  MatchExpressions term ≠ [] ∧
  Forall (λ e, ∃ op r, node_selector_operator (Req_Operator e) = Some op ∧
                NewRequirement (Req_Key e) op (Req_Values e) = Ok r ∧
                requirement_holds op (Req_Key e) (Req_Values e) ls) (MatchExpressions term).

(** Every term of the pod's hard node affinity holds, as the code requires (the
    API documents the terms as alternatives, see [api_affine]). *)
Definition affine (p : Pod) (n : NodeInfo) : Prop :=
  Forall (term_holds (Labels (Node_Meta (NodeOf n)))) (affinity_terms p).

(** The conditions on a placement that do not depend on capacity. *)
Definition admissible (p : Pod) (n : NodeInfo) : Prop := tolerates p n ∧ selected p n ∧ affine p n.

Lemma podSize_spec p :
  wf_pod p →
  (wf_quantity (podSize p).1 ∧ (qval (podSize p).1 == podRequest "cpu" p)%Q) ∧
  (wf_quantity (podSize p).2 ∧ (qval (podSize p).2 == podRequest "memory" p)%Q).
Proof.
  intros Hp. unfold podSize. simpl.
  destruct (add_container_requests_spec "cpu" zeroQuantity (Containers (Pod_Spec p)) wf_zero Hp) as [[Hc _] Ec].
  destruct (add_container_requests_spec "memory" zeroQuantity (Containers (Pod_Spec p)) wf_zero Hp) as [[Hm _] Em].
  rewrite qval_zero, Qplus_0_l in Ec, Em. done.
Qed.

Lemma podFitsOnNode_spec p n : wf_pod p → wf_node n → podFitsOnNode p n = None ↔ fits p n.
Proof.
  intros Hp Hn. unfold podFitsOnNode, fits.
  destruct (podSize_spec p Hp) as [[Hc Ec] [Hm Em]]. destruct (podSize p) as [rc rm]; simpl in *.
  destruct (FreeCPU_spec n Hn) as [Hfc Efc]. destruct (FreeMem_spec n Hn) as [Hfm Efm].
  rewrite <- Ec, <- Em, <- Efc, <- Efm, <- (Quantity_Cmp_gt rc), <- (Quantity_Cmp_gt rm) by done.
  destruct (0 <? Quantity_Cmp rc (FreeCPU n))%Z, (0 <? Quantity_Cmp rm (FreeMem n))%Z; naive_solver.
Qed.

Lemma podToleratesNodeTaints_spec p n : podToleratesNodeTaints p n = None ↔ tolerates p n.
Proof.
  unfold podToleratesNodeTaints, tolerates. induction (Taints _) as [|t ts IH]; simpl; [set_solver|].
  setoid_rewrite elem_of_cons.
  assert (Ht : hasToleration p t = true ↔ ∃ tol, tol ∈ Tolerations (Pod_Spec p) ∧ ToleratesTaint tol t = true).
  { unfold hasToleration. rewrite existsb_exists. by setoid_rewrite list_elem_of_In. }
  destruct (String.eqb_spec (Taint_Effect t) TaintEffectNoSchedule) as [E1|E1],
    (String.eqb_spec (Taint_Effect t) TaintEffectNoExecute) as [E2|E2]; simpl;
    try (destruct (hasToleration p t); simpl);
    first [rewrite IH; naive_solver|split; [done|intros H; exfalso; naive_solver]].
Qed.

Lemma podNodeSelectorPermitsNode_spec p n : podNodeSelectorPermitsNode p n = None ↔ selected p n.
Proof.
  unfold podNodeSelectorPermitsNode, selected. rewrite <- SelectorFromSet_Matches.
  destruct (Selector_Matches _ _); naive_solver.
Qed.

Lemma add_requirements_spec exprs sel ls :
  match add_requirements sel exprs with
  | Ok sel' =>
      Forall (λ e, ∃ op r, node_selector_operator (Req_Operator e) = Some op ∧
                NewRequirement (Req_Key e) op (Req_Values e) = Ok r) exprs ∧
      (Selector_Matches sel' ls = true ↔ Selector_Matches sel ls = true ∧
        Forall (λ e, ∃ op, node_selector_operator (Req_Operator e) = Some op ∧
                requirement_holds op (Req_Key e) (Req_Values e) ls) exprs)
  | Err _ => ¬ Forall (λ e, ∃ op r, node_selector_operator (Req_Operator e) = Some op ∧
                NewRequirement (Req_Key e) op (Req_Values e) = Ok r) exprs
  end.
Proof.
  revert sel. induction exprs as [|e rest IH]; intros sel; simpl.
  { rewrite !Forall_nil. tauto. }
  destruct (node_selector_operator (Req_Operator e)) as [op|] eqn:Eop.
  2: { intros [(op & r & ? & _) _]%Forall_cons. congruence. }
  destruct (NewRequirement (Req_Key e) op (Req_Values e)) as [r|err] eqn:HN.
  2: { intros [(op' & r & ? & Hr) _]%Forall_cons. congruence. }
  specialize (IH (Selector_Add sel r)). destruct (add_requirements _ rest) as [sel'|err].
  - destruct IH as [Hf Hm]. rewrite !Forall_cons, Hm, Selector_Add_Matches, andb_true_iff.
    rewrite (NewRequirement_spec _ _ _ _ ls HN), Eop. split; [naive_solver|]. naive_solver.
  - rewrite Forall_cons. naive_solver.
Qed.

Lemma term_selector_spec term ls :
  (∃ sel, nodeSelectorRequirementsAsSelector term = Ok sel ∧ Selector_Matches sel ls = true) ↔
  term_holds ls term.
Proof.
  unfold nodeSelectorRequirementsAsSelector, term_holds.
  destruct (MatchExpressions term) as [|e es] eqn:Ee; simpl length; simpl Nat.eqb; cbv iota.
  { naive_solver. }
  pose proof (add_requirements_spec (e :: es) NewSelector ls) as H.
  destruct (add_requirements NewSelector (e :: es)) as [sel|err].
  - destruct H as [Hf Hm]. split.
    + intros (? & [= <-] & Hs). split; [done|]. apply Hm in Hs as [_ Hs].
      rewrite Forall_forall in Hf, Hs |- *. intros x Hx.
      destruct (Hf x Hx) as (op & r & ? & ?), (Hs x Hx) as (op' & ? & ?).
      exists op, r. naive_solver.
    + intros [_ Hs]. exists sel. split; [done|]. apply Hm. split; [done|].
      eapply Forall_impl; [exact Hs|]. naive_solver.
  - split; [naive_solver|]. intros [_ Hs]. exfalso. apply H.
    eapply Forall_impl; [exact Hs|]. naive_solver.
Qed.

Lemma podNodeAffinityPermitsNode_spec p n : podNodeAffinityPermitsNode p n = None ↔ affine p n.
Proof.
  assert (Hterms : ∀ terms, check_affinity_terms p n terms = None ↔
    Forall (term_holds (Labels (Node_Meta (NodeOf n)))) terms).
  { induction terms as [|term rest IH]; simpl; [by rewrite Forall_nil|].
    rewrite Forall_cons, <- term_selector_spec.
    destruct (nodeSelectorRequirementsAsSelector term) as [sel|e].
    2: { split; [done|]. intros [(? & ? & _) _]. done. }
    destruct (Selector_Matches sel _) eqn:Em; simpl.
    - rewrite IH. split; [|tauto]. intros ?. split; [|done]. by exists sel.
    - split; [done|]. intros [(sel' & Hs & ?) _]. simplify_eq. congruence. }
  unfold podNodeAffinityPermitsNode, affine, affinity_terms.
  destruct (Spec_Affinity (Pod_Spec p)) as [[[[sel]|]]|]; [|by rewrite Forall_nil..].
  destruct sel as [s|]; [apply Hterms|by rewrite Forall_nil].
Qed.

(** A node is a candidate iff the pod fits and is admissible. *)
Lemma first_rejection_spec p n :
  wf_pod p → wf_node n → first_rejection p n nodePredicates = None ↔ fits p n ∧ admissible p n.
Proof.
  intros Hp Hn. unfold admissible.
  rewrite <- (podFitsOnNode_spec p n Hp Hn), <- podToleratesNodeTaints_spec,
    <- podNodeSelectorPermitsNode_spec, <- podNodeAffinityPermitsNode_spec.
  unfold nodePredicates; simpl.
  destruct (podFitsOnNode p n), (podToleratesNodeTaints p n), (podNodeSelectorPermitsNode p n),
    (podNodeAffinityPermitsNode p n); naive_solver.
Qed.

(** ** Candidates and the choice among them *)

Lemma candidates_loop_spec pod i nodes preds rej0 cs rej :
  candidates_loop pod i nodes preds rej0 = (cs, rej) →
  (∀ j, j ∈ cs ↔ ∃ k n, j = (i + k)%nat ∧ nodes !! k = Some n ∧ first_rejection pod n preds = None) ∧
  (∀ x, x ∈ rej.*1 ↔ x ∈ rej0.*1 ∨
     ∃ n, n ∈ nodes ∧ nodeName n = x ∧ first_rejection pod n preds ≠ None) ∧
  (∀ x m, (x, m) ∈ rej → (x, m) ∈ rej0 ∨
     ∃ n err, n ∈ nodes ∧ nodeName n = x ∧ first_rejection pod n preds = Some err ∧
       m = NodeMismatchError (podName pod) x err).
Proof.
  revert i rej0 cs rej. induction nodes as [|n nodes IH]; intros i rej0 cs rej; simpl.
  { intros [= <- <-]. split_and!; [|set_solver..]. intros j. split; [set_solver|]. naive_solver. }
  destruct (first_rejection pod n preds) as [err|] eqn:En.
  - intros H. apply IH in H as (Hc & Hk & Hr). split_and!.
    + intros j. rewrite Hc. split.
      * intros (k & n' & -> & ? & ?). exists (S k), n'. split_and!; [lia|done..].
      * intros ([|k] & n' & -> & ? & ?); simplify_eq/=. exists k, n'. split_and!; [lia|done..].
    + intros x. rewrite Hk, assoc_set_keys. set_solver.
    + intros x m Hm. apply Hr in Hm as [Hm|Hm]; [|set_solver].
      apply assoc_set_elem in Hm as [[= -> ->]|Hm]; [|by left].
      right. exists n, err. set_solver.
  - destruct (candidates_loop pod (S i) nodes preds rej0) as [cs' rej'] eqn:El.
    intros [= <- <-]. apply IH in El as (Hc & Hk & Hr). split_and!.
    + intros j. rewrite elem_of_cons, Hc. split.
      * intros [->|(k & n' & -> & ? & ?)]; [exists 0%nat, n|exists (S k), n']; split_and!; (lia || done).
      * intros ([|k] & n' & -> & ? & ?); simplify_eq/=; [left; lia|].
        right. exists k, n'. split_and!; [lia|done..].
    + intros x. rewrite Hk. set_solver.
    + intros x m Hm. apply Hr in Hm. set_solver.
Qed.

Lemma schedulingCandidates_spec pod nodes preds cs rej :
  schedulingCandidates pod nodes preds = (cs, rej) →
  (∀ j, j ∈ cs ↔ ∃ n, nodes !! j = Some n ∧ first_rejection pod n preds = None) ∧
  ∃ ms, rej = PodSchedulingError (podName pod) ms ∧
    (∀ x, x ∈ ms.*1 ↔ ∃ n, n ∈ nodes ∧ nodeName n = x ∧ first_rejection pod n preds ≠ None) ∧
    (∀ x m, (x, m) ∈ ms → ∃ n err, n ∈ nodes ∧ nodeName n = x ∧
       first_rejection pod n preds = Some err ∧ m = NodeMismatchError (podName pod) x err).
Proof.
  unfold schedulingCandidates. destruct (candidates_loop _ _ _ _ _) as [cs' ms] eqn:E.
  intros [= <- <-]. apply candidates_loop_spec in E as (Hc & Hk & Hr). split; [|exists ms; split_and!].
  - intros j. rewrite Hc. split; [intros (k & n & -> & ?); by exists n|intros (n & ?); by exists j, n].
  - done.
  - intros x. rewrite Hk. set_solver.
  - intros x m Hm. apply Hr in Hm. set_solver.
Qed.

(** The load of the node an index points to. *)
Definition load_at (s : QuasiPodScheduler) (i : nat) (f : float64) : Prop :=
  ∃ n, Nodes s !! i = Some n ∧ NodeLoadFunc s n = f.

Lemma least_loaded_loop_spec s cs ll ml :
  (least_loaded_loop s cs ll ml = ll ∧
    ∀ j f, j ∈ cs → load_at s j f → float64_lt f ml = false) ∨
  (∃ i f, i ∈ cs ∧ load_at s i f ∧ least_loaded_loop s cs ll ml = Some i ∧ float64_lt f ml = true ∧
    ∀ j g, j ∈ cs → load_at s j g → float64_lt g f = false).
Proof.
  revert ll ml. induction cs as [|i cs IH]; intros ll ml; simpl; [left; set_solver|].
  destruct (Nodes s !! i) as [n|] eqn:Ei.
  2: { assert (Hno : ∀ g, ¬ load_at s i g) by (intros g (n & ? & _); congruence).
       destruct (IH ll ml) as [[-> H]|(j & f & Hj & Hf & -> & Hlt & H)]; [left|right].
       - split; [done|]. intros j f [->|Hj]%elem_of_cons Hl; [by apply Hno in Hl|eauto].
       - exists j, f. split_and!; [by right|done..|]. intros k g [->|Hk]%elem_of_cons Hl; [by apply Hno in Hl|eauto]. }
  assert (Hi : ∀ g, load_at s i g → g = NodeLoadFunc s n) by (intros g (n' & ? & <-); congruence).
  assert (Hi' : load_at s i (NodeLoadFunc s n)) by (by exists n).
  destruct (float64_lt (NodeLoadFunc s n) ml) eqn:El.
  - right. destruct (IH (Some i) (NodeLoadFunc s n)) as [[-> H]|(j & f & Hj & Hf & -> & Hlt & H)].
    + exists i, (NodeLoadFunc s n). split_and!; [by left|done..|].
      intros j g [->|Hj]%elem_of_cons Hl; [|eauto]. rewrite (Hi _ Hl). apply float64_lt_irrefl.
    + exists j, f. split_and!; [by right|done|done|by eapply float64_lt_trans|].
      intros k g [->|Hk]%elem_of_cons Hl; [|eauto]. rewrite (Hi _ Hl). by apply float64_lt_asym.
  - destruct (IH ll ml) as [[-> H]|(j & f & Hj & Hf & -> & Hlt & H)]; [left|right].
    + split; [done|]. intros j f [->|Hj]%elem_of_cons Hl; [by rewrite (Hi _ Hl)|eauto].
    + exists j, f. split_and!; [by right|done..|].
      intros k g [->|Hk]%elem_of_cons Hl; [|eauto]. rewrite (Hi _ Hl).
      apply not_true_iff_false. intros Hc. pose proof (float64_lt_trans _ _ _ Hc Hlt). congruence.
Qed.

(** Everything [Schedule] can do. *)
Inductive schedule_spec (s : QuasiPodScheduler) (pod : Pod)
    : outcome (result error PodPlacement * QuasiPodScheduler) → Prop :=
| schedule_no_nodes :
    Nodes s = [] → schedule_spec s pod (Done (Err NoSchedulableNodesError, s))
| schedule_rejected ms :
    Nodes s ≠ [] →
    (∀ n, n ∈ Nodes s → first_rejection pod n nodePredicates ≠ None) →
    (∀ x, x ∈ ms.*1 ↔ ∃ n, n ∈ Nodes s ∧ nodeName n = x) →
    (∀ x m, (x, m) ∈ ms → ∃ n err, n ∈ Nodes s ∧ nodeName n = x ∧
       first_rejection pod n nodePredicates = Some err ∧ m = NodeMismatchError (podName pod) x err) →
    schedule_spec s pod (Done (Err (PodSchedulingError (podName pod) ms), s))
| schedule_placed i n :
    Nodes s !! i = Some n →
    first_rejection pod n nodePredicates = None →
    (∀ j m, Nodes s !! j = Some m → first_rejection pod m nodePredicates = None →
       float64_lt (NodeLoadFunc s m) (NodeLoadFunc s n) = false) →
    float64_lt (NodeLoadFunc s n) MaxFloat64 = true →
    schedule_spec s pod
      (Done (Ok (MkPodPlacement (podName pod) (nodeName n)),
             set_nodes s (<[i := append_pod n pod]> (Nodes s))))
| schedule_panics msg n :
    n ∈ Nodes s → first_rejection pod n nodePredicates = None →
    (∀ m, m ∈ Nodes s → first_rejection pod m nodePredicates = None →
       float64_lt (NodeLoadFunc s m) MaxFloat64 = false) →
    schedule_spec s pod (Panicked msg).

Lemma Schedule_meets_spec s pod : schedule_spec s pod (Schedule s pod).
Proof.
  unfold Schedule. destruct (Nodes s) as [|n0 ns0] eqn:En; [by constructor|].
  simpl length. simpl Nat.eqb. cbv iota. rewrite <- En. assert (Hne : Nodes s ≠ []) by congruence. clear En.
  destruct (schedulingCandidates pod (Nodes s) nodePredicates) as [cs rej] eqn:Ec.
  apply schedulingCandidates_spec in Ec as (Hc & ms & -> & Hk & Hr).
  destruct cs as [|c cs]; simpl length; simpl Nat.eqb; cbv iota.
  { assert (Hall : ∀ n, n ∈ Nodes s → first_rejection pod n nodePredicates ≠ None).
    { intros n [j Hj]%list_elem_of_lookup Hn. assert (j ∈ @nil nat) as H by (apply Hc; eauto). by apply not_elem_of_nil in H. }
    apply schedule_rejected; [done..| |done]. intros x. rewrite Hk. naive_solver. }
  unfold leastLoadedNode.
  destruct (least_loaded_loop_spec s (c :: cs) None MaxFloat64)
    as [[-> H]|(i & f & Hi & (n & Hn & <-) & -> & Hlt & H)]; simpl.
  - destruct (proj1 (Hc c)) as (n & Hn & Hf); [by left|].
    apply (schedule_panics _ _ _ n); [by apply list_elem_of_lookup_2 in Hn|done|].
    intros m [j Hj]%list_elem_of_lookup Hm. apply (H j); [apply Hc; eauto|by exists m].
  - rewrite Hn. simpl. destruct (proj1 (Hc i) Hi) as (n' & ? & Hf). simplify_eq.
    apply schedule_placed; [done|done| |done]. intros j m Hj Hm. apply (H j); [apply Hc; eauto|by exists m].
Qed.

(** ** Feasible placements *)

(** [ps] can run on [n] beside the pods that are already there. *)
Definition placeable (n : NodeInfo) (ps : list Pod) : Prop :=
  ps = [] ∨
  (podsRequest "cpu" (Pods n ++ ps) <= allocatable "cpu" n)%Q ∧
  (podsRequest "memory" (Pods n ++ ps) <= allocatable "memory" n)%Q ∧
  Forall (λ p, admissible p n) ps.

(** The pods can be distributed over the nodes: every pod goes to exactly one
    node, no node that receives pods is over-committed, and every pod is
    admissible where it goes. *)
Definition feasible (nodes : list NodeInfo) (pods : list Pod) : Prop :=
  ∃ placed : list (list Pod), Forall2 placeable nodes placed ∧ concat placed ≡ₚ pods.

Lemma wf_append_pod n p : wf_node n → wf_pod p → wf_node (append_pod n p).
Proof. intros [Ha Hp] Hw. split; [done|]. simpl. by apply Forall_app_2; [|constructor]. Qed.

Lemma placeable_one n p : fits p n → admissible p n → placeable n [p].
Proof.
  intros [Hc Hm] Ha. right. rewrite !podsRequest_app, !podsRequest_cons. unfold freeQ in *.
  unfold podsRequest at 2 4. simpl. split_and!; [lra|lra|by constructor].
Qed.

Lemma placeable_cons n p ps :
  fits p n → admissible p n → placeable (append_pod n p) ps → placeable n (p :: ps).
Proof.
  intros Hf Ha [->|(Hc & Hm & Hps)]; [by apply placeable_one|]. right.
  simpl in *. rewrite <- app_assoc in Hc, Hm. split_and!; [done..|by constructor].
Qed.

Lemma concat_insert_perm (l : list (list Pod)) i x p :
  l !! i = Some x → concat (<[i := p :: x]> l) ≡ₚ p :: concat l.
Proof.
  revert i. induction l as [|y l IH]; intros [|i] H; simplify_eq/=; [done|].
  rewrite (IH i H). by rewrite Permutation_middle.
Qed.

Lemma feasible_nil nodes : feasible nodes [].
Proof.
  exists (map (λ _, []) nodes). split.
  - induction nodes; simpl; constructor; [by left|done].
  - induction nodes; simpl; done.
Qed.

Lemma feasible_place nodes i n p ps :
  nodes !! i = Some n → fits p n → admissible p n →
  feasible (<[i := append_pod n p]> nodes) ps → feasible nodes (p :: ps).
Proof.
  intros Hi Hf Ha (placed & H2 & Hperm).
  assert (Hi' : <[i := append_pod n p]> nodes !! i = Some (append_pod n p)).
  { apply list_lookup_insert_eq. by eapply lookup_lt_Some. }
  destruct (Forall2_lookup_l _ _ _ _ _ H2 Hi') as (x & Hx & Hp).
  exists (<[i := p :: x]> placed). split; [|by rewrite concat_insert_perm, Hperm].
  rewrite <- (list_insert_id nodes i n Hi), <- (list_insert_insert_eq nodes i n (append_pod n p)).
  apply Forall2_insert; [done|]. by apply placeable_cons.
Qed.

(** ** The quick check *)

Lemma sum_free_spec (free : NodeInfo → Quantity) res nodes total :
  (∀ n, wf_node n → wf_quantity (free n) ∧ (qval (free n) == freeQ res n)%Q) →
  wf_quantity total → Forall wf_node nodes →
  let q := foldl (λ t n, Quantity_Add t (free n)) total nodes in
  wf_quantity q ∧ (qval q == qval total + sumQ (freeQ res) nodes)%Q.
Proof.
  intros Hfree. revert total. induction nodes as [|n nodes IH]; intros total Ht Hn; simpl.
  { split; [done|ring]. }
  apply Forall_cons in Hn as [Hn Hns]. destruct (Hfree n Hn) as [Hw Hv].
  destruct (Quantity_Add_exact total (free n) Ht Hw) as [Hw' Hv'].
  destruct (IH _ Hw' Hns) as [Hw'' Hv'']. split; [done|]. rewrite Hv'', Hv', Hv. ring.
Qed.

(** The two comparisons of the check, as numbers. *)
Lemma viability_comparisons s pods :
  Forall wf_node (Nodes s) → Forall wf_pod pods →
  ((0 <? Quantity_Cmp (totalCPURequests pods) (scheduler_FreeCPU s))%Z = false ↔
     (podsRequest "cpu" pods <= sumQ (freeQ "cpu") (Nodes s))%Q) ∧
  ((0 <? Quantity_Cmp (totalMemRequests pods) (scheduler_FreeMem s))%Z = false ↔
     (podsRequest "memory" pods <= sumQ (freeQ "memory") (Nodes s))%Q).
Proof.
  intros Hn Hp.
  destruct (add_pod_requests_spec "cpu" zeroQuantity pods wf_zero Hp) as [[Hc _] Ec].
  destruct (add_pod_requests_spec "memory" zeroQuantity pods wf_zero Hp) as [[Hm _] Em].
  destruct (sum_free_spec FreeCPU "cpu" (Nodes s) zeroQuantity) as [Hfc Efc];
    [apply FreeCPU_spec|apply wf_zero|done|].
  destruct (sum_free_spec FreeMem "memory" (Nodes s) zeroQuantity) as [Hfm Efm];
    [apply FreeMem_spec|apply wf_zero|done|].
  fold (totalCPURequests pods) in Hc, Ec. fold (totalMemRequests pods) in Hm, Em.
  fold (scheduler_FreeCPU s) in Hfc, Efc. fold (scheduler_FreeMem s) in Hfm, Efm.
  rewrite qval_zero, Qplus_0_l in Ec, Em, Efc, Efm.
  rewrite <- Ec, <- Em, <- Efc, <- Efm, <- !Quantity_Cmp_gt by done. done.
Qed.


Lemma VerifySchedulingViable_Some s pods e :
  Forall wf_node (Nodes s) → Forall wf_pod pods →
  VerifySchedulingViable s pods = Some e →
  ∃ r, e = ClusterCapacityError r ∧
    (Res_Type r = "cpu" ∧ (sumQ (freeQ "cpu") (Nodes s) < podsRequest "cpu" pods)%Q ∨
     Res_Type r = "memory" ∧ (sumQ (freeQ "memory") (Nodes s) < podsRequest "memory" pods)%Q).
Proof.
  intros Hn Hp. destruct (viability_comparisons s pods Hn Hp) as [Hc Hm]. unfold VerifySchedulingViable.
  destruct (0 <? Quantity_Cmp (totalCPURequests pods) _)%Z.
  { intros [= <-]. eexists. split; [done|]. left. split; [done|]. apply Qnot_le_lt. by intros ?%Hc. }
  destruct (0 <? Quantity_Cmp (totalMemRequests pods) _)%Z; [|done].
  intros [= <-]. eexists. split; [done|]. right. split; [done|]. apply Qnot_le_lt. by intros ?%Hm.
Qed.


End SchedulerFacts.

(** Copying the nodes keeps their contents. *)
Lemma NewQuasiScheduler_Nodes nodes f : Nodes (NewQuasiScheduler nodes f) = nodes.
Proof.
  unfold NewQuasiScheduler. simpl. induction nodes as [|[n ps] ns IH]; simpl; [done|].
  by rewrite IH, map_id.
Qed.

(** ** The default load of a node without CPU capacity *)

Lemma float64_add_nan_l x : float64_add S754_nan x = S754_nan.
Proof. done. Qed.

Lemma zero_capacity_load n :
  Quantity_MilliValue (AllocatableCPU n) = 0%Z → Quantity_MilliValue (FreeCPU n) = 0%Z →
  SumOfAllocatedMemAndCPUFractions n = S754_nan.
Proof. intros Ha Hf. unfold SumOfAllocatedMemAndCPUFractions. by rewrite Ha, Hf. Qed.

(** ** The scheduler's state *)

(** A node whose quantities are well-formed and whose pods fit it. *)
Definition node_ok (n : NodeInfo) : Prop :=
  wf_node n ∧ (0 <= freeQ "cpu" n)%Q ∧ (0 <= freeQ "memory" n)%Q.

Definition scheduler_ok (s : QuasiPodScheduler) : Prop := Forall node_ok (Nodes s).

(** The same node, with the pods it had, in order, and perhaps more. *)
Definition grown (n n' : NodeInfo) : Prop := NodeOf n' = NodeOf n ∧ Pods n `prefix_of` Pods n'.

#[export] Instance grown_preorder : PreOrder grown.
Proof.
  split; [by intros n|]. intros n1 n2 n3 [H1 P1] [H2 P2]. split; [congruence|by etrans].
Qed.

Section SchedulerState.
Context `{sorter : !SliceSort, ranger : !MapRange, lib : !GoLib}.

(** One call of [Schedule] that returned, and a sequence of them with the pods
    they placed. *)
Inductive schedules : QuasiPodScheduler → list Pod → QuasiPodScheduler → Prop :=
| schedules_none s : schedules s [] s
| schedules_placed s1 s2 s3 pod pl placed :
    wf_pod pod → Schedule s1 pod = Done (Ok pl, s2) → schedules s2 placed s3 → schedules s1 (pod :: placed) s3
| schedules_refused s1 s2 s3 pod e placed :
    wf_pod pod → Schedule s1 pod = Done (Err e, s2) → schedules s2 placed s3 → schedules s1 placed s3.

(** What one call does to the state. *)
Lemma Schedule_state s pod r s' :
  Schedule s pod = Done (r, s') →
  match r with
  | Err _ => s' = s
  | Ok _ => ∃ i n, Nodes s !! i = Some n ∧ first_rejection pod n nodePredicates = None ∧
      s' = set_nodes s (<[i := append_pod n pod]> (Nodes s))
  end.
Proof.
  destruct (Schedule_meets_spec s pod) as [| |i n Hi Hf Hmin Hlt|]; try done; intros [= <- <-]; try done.
  by exists i, n.
Qed.

Lemma node_ok_append n pod :
  node_ok n → wf_pod pod → first_rejection pod n nodePredicates = None → node_ok (append_pod n pod).
Proof.
  intros (Hw & _ & _) Hp Hf. apply first_rejection_spec in Hf as [Hfit Hadm]; [|done..].
  split; [by apply wf_append_pod|].
  destruct (placeable_one n pod Hfit Hadm) as [|(Hc & Hm & _)]; [done|].
  unfold freeQ, allocatable in *. simpl. split; lra.
Qed.

(** Placing a pod on one node. *)
Lemma grown_insert (nodes : list NodeInfo) i n pod :
  nodes !! i = Some n → Forall2 grown nodes (<[i := append_pod n pod]> nodes).
Proof.
  revert i. induction nodes as [|m nodes IH]; intros [|i] H; simplify_eq/=.
  - constructor; [|by apply Forall_Forall2_diag, Forall_true]. split; [done|]. by apply prefix_app_r.
  - constructor; [done|by apply IH].
Qed.

Lemma insert_pods_perm (nodes : list NodeInfo) i n pod :
  nodes !! i = Some n →
  concat (map Pods (<[i := append_pod n pod]> nodes)) ≡ₚ concat (map Pods nodes) ++ [pod].
Proof.
  revert i. induction nodes as [|m nodes IH]; intros [|i] H; simplify_eq/=.
  - rewrite <- !app_assoc. apply Permutation_app_head, Permutation_app_comm.
  - rewrite (IH i H). by rewrite app_assoc.
Qed.
End SchedulerState.

(** ** The documented meaning of selectors and affinity *)

Section Documented.
Context `{sorter : !SliceSort, ranger : !MapRange, lib : !GoLib}.

(** The node has every label the pod's nodeSelector asks for. *)
Definition api_selected (p : Pod) (n : NodeInfo) : Prop := Spec_NodeSelector (Pod_Spec p) ⊆ Labels (Node_Meta (NodeOf n)).

(** The required node affinity, if there is one, has a term that holds: the
    terms are alternatives. *)
Definition hard_affinity (p : Pod) : option NodeSelector :=
  match Spec_Affinity (Pod_Spec p) with Some (MkAffinity (Some (MkNodeAffinity s))) => s | _ => None end.
Definition api_affine (p : Pod) (n : NodeInfo) : Prop :=
  match hard_affinity p with
  | Some s => Exists (term_holds (Labels (Node_Meta (NodeOf n)))) (NodeSelectorTerms s)
  | None => True
  end.

(** What the API server has checked: labels are valid, and there is a term. *)
Definition api_valid (p : Pod) : Prop :=
  map_Forall (λ k v, valid_label k v = true) (Spec_NodeSelector (Pod_Spec p)) ∧
  match hard_affinity p with Some s => NodeSelectorTerms s ≠ [] | None => True end.

Lemma affinity_terms_hard p : affinity_terms p = match hard_affinity p with Some s => NodeSelectorTerms s | None => [] end.
Proof. unfold affinity_terms, hard_affinity. by destruct (Spec_Affinity (Pod_Spec p)) as [[[[[s|]]|]]|]. Qed.

Lemma selected_api p n : api_valid p → selected p n ↔ api_selected p n.
Proof. intros [Hv _]. unfold selected, api_selected. naive_solver. Qed.

Lemma affine_api p n : api_valid p → affine p n → api_affine p n.
Proof.
  intros [_ Hne]. unfold affine, api_affine. rewrite affinity_terms_hard. destruct (hard_affinity p) as [[terms]|]; [|done].
  simpl in *. destruct terms; [done|]. intros [? _]%Forall_cons. by apply Exists_cons_hd.
Qed.

Lemma api_affine_single p n : (length (affinity_terms p) ≤ 1)%nat → api_affine p n → affine p n.
Proof.
  unfold affine, api_affine. rewrite affinity_terms_hard. destruct (hard_affinity p) as [[terms]|]; [|by constructor].
  simpl. destruct terms as [|t [|]]; simpl; [by intros|intros _|lia].
  intros [H|H]%Exists_cons; [by constructor|by inversion H].
Qed.
End Documented.

(** ** Claims *)

Section SchedulerClaims.
Context `{sorter : !SliceSort, ranger : !MapRange, lib : !GoLib}.

(** C12. For a pod and a node that pass the validation of the API (well-formed
    quantities, valid labels in the nodeSelector, at least one term in a
    required node affinity): a node that passes the predicates of the simulated
    scheduler is one where Kubernetes may put the pod, which is that the pod's
    requests fit into its free CPU and memory (as exact numbers), all its
    NoSchedule and NoExecute taints are tolerated, it carries the labels of the
    nodeSelector, and some term of the required node affinity, if there is one,
    holds; and if that affinity has at most one term, every such node passes. *)
Theorem predicates_agree_with_api (pod : Pod) (node : NodeInfo) :
  wf_pod pod → wf_node node → api_valid pod →
  (first_rejection pod node nodePredicates = None →
   fits pod node ∧ tolerates pod node ∧ api_selected pod node ∧ api_affine pod node) ∧
  ((length (affinity_terms pod) ≤ 1)%nat →
   fits pod node → tolerates pod node → api_selected pod node → api_affine pod node →
   first_rejection pod node nodePredicates = None).
Proof.
  intros Hp Hn Hv. rewrite first_rejection_spec by done. unfold admissible. rewrite (selected_api pod node Hv). split.
  - intros (Hf & Ht & Hs & Ha). split_and!; [done..|by apply affine_api].
  - intros Hl Hf Ht Hs Ha. split_and!; [done..|by apply api_affine_single].
Qed.

(** C11. A pod that [Schedule] places goes onto a node that has room for it and
    accepts it, none of the nodes that could have taken it is less loaded, only
    that node changes (it gains the pod), and it is not over-committed
    afterwards; the scheduler's nodes stay well-formed. *)
Theorem schedule_places_on_least_loaded (s s' : QuasiPodScheduler) (pod : Pod) (pl : PodPlacement) :
  Forall wf_node (Nodes s) → wf_pod pod →
  Schedule s pod = Done (Ok pl, s') →
  ∃ i n, Nodes s !! i = Some n ∧
    pl = MkPodPlacement (podName pod) (nodeName n) ∧
    fits pod n ∧ admissible pod n ∧
    (∀ m, m ∈ Nodes s → fits pod m → admissible pod m →
       float64_lt (NodeLoadFunc s m) (NodeLoadFunc s n) = false) ∧
    s' = set_nodes s (<[i := append_pod n pod]> (Nodes s)) ∧
    (0 <= freeQ "cpu" (append_pod n pod))%Q ∧ (0 <= freeQ "memory" (append_pod n pod))%Q ∧
    Forall wf_node (Nodes s').
Proof.
  intros Hn Hp. destruct (Schedule_meets_spec s pod) as [| |i n Hi Hf Hmin Hlt|]; try done.
  intros [= <- <-]. rewrite Forall_forall in Hn.
  assert (wf_node n) as Hwn by eapply Hn, list_elem_of_lookup_2, Hi.
  apply first_rejection_spec in Hf as [Hfit Hadm]; [|done..].
  exists i, n. split_and!; try done.
  - intros m Hm Hfm Ham. pose proof (Hn m Hm). apply list_elem_of_lookup in Hm as [j Hj].
    apply (Hmin j m Hj). by apply first_rejection_spec.
  - destruct (placeable_one n pod Hfit Hadm) as [|(H & _)]; [done|]. unfold freeQ, allocatable in *. simpl. lra.
  - destruct (placeable_one n pod Hfit Hadm) as [|(_ & H & _)]; [done|]. unfold freeQ, allocatable in *. simpl. lra.
  - apply Forall_insert; [by rewrite Forall_forall|by apply wf_append_pod].
Qed.

(** C20. The scheduler's state stays well-typed: over any sequence of calls that
    return, every node keeps well-formed quantities and pods that fit it; the
    nodes are the same ones in the same order, each with the pods it had and
    those it gained; and the pods on all nodes are those there were and those
    that were placed. *)
Theorem scheduler_state_is_preserved (s s' : QuasiPodScheduler) (placed : list Pod) :
  schedules s placed s' → scheduler_ok s →
  scheduler_ok s' ∧ Forall2 grown (Nodes s) (Nodes s') ∧
  concat (map Pods (Nodes s')) ≡ₚ concat (map Pods (Nodes s)) ++ placed.
Proof.
  induction 1 as [s|s1 s2 s3 pod pl placed Hp Hs _ IH|s1 s2 s3 pod e placed Hp Hs _ IH]; intros Hok.
  - split_and!; [done|by apply Forall_Forall2_diag, Forall_true|by rewrite app_nil_r].
  - apply Schedule_state in Hs as (i & n & Hi & Hf & ->). unfold scheduler_ok in *. simpl in IH.
    assert (Hn : node_ok n) by by eapply Forall_lookup_1.
    destruct IH as (Hok' & Hg & Hperm); [by apply Forall_insert; [|apply node_ok_append]|].
    split_and!; [done| |].
    + etrans; [by apply grown_insert|exact Hg].
    + rewrite Hperm. rewrite (insert_pods_perm (Nodes s1) i n pod Hi). by rewrite <- app_assoc.
  - apply Schedule_state in Hs as ->. by apply IH.
Qed.

(** C26. When [Schedule] fails the scheduler is unchanged and no node could have
    taken the pod; the error names exactly the scheduler's nodes, each with the
    reason of the first predicate that rejected it. *)
Theorem schedule_failure_is_justified (s s' : QuasiPodScheduler) (pod : Pod) (e : error) :
  Forall wf_node (Nodes s) → wf_pod pod →
  Schedule s pod = Done (Err e, s') →
  s' = s ∧
  (∀ n, n ∈ Nodes s → ¬ (fits pod n ∧ admissible pod n)) ∧
  ((Nodes s = [] ∧ e = NoSchedulableNodesError) ∨
   ∃ ms, e = PodSchedulingError (podName pod) ms ∧
     (∀ x, x ∈ ms.*1 ↔ ∃ n, n ∈ Nodes s ∧ nodeName n = x) ∧
     (∀ x m, (x, m) ∈ ms → ∃ n err, n ∈ Nodes s ∧ nodeName n = x ∧
        first_rejection pod n nodePredicates = Some err ∧ m = NodeMismatchError (podName pod) x err)).
Proof.
  intros Hn Hp. destruct (Schedule_meets_spec s pod) as [He|ms Hne Hall Hk Hr| |]; try done; intros [= <- <-].
  - split; [done|]. rewrite He. split; [set_solver|]. by left.
  - split; [done|]. split; [|right; by exists ms].
    intros n Hin Hok. apply (Hall n Hin). rewrite Forall_forall in Hn.
    apply first_rejection_spec; [done|by apply Hn|done].
Qed.

(** C27. [Schedule] returns, rather than dereferencing the nil node of
    [leastLoadedNode], exactly when there is no acceptable node or some
    acceptable node has a load below the largest float; in particular it
    returns whenever every load is such a number. *)
Theorem schedule_returns_iff (s : QuasiPodScheduler) (pod : Pod) :
  Forall wf_node (Nodes s) → wf_pod pod →
  (∃ r, Schedule s pod = Done r) ↔
  (∀ n, n ∈ Nodes s → ¬ (fits pod n ∧ admissible pod n)) ∨
  (∃ n, n ∈ Nodes s ∧ fits pod n ∧ admissible pod n ∧ float64_lt (NodeLoadFunc s n) MaxFloat64 = true).
Proof.
  intros Hn Hp. rewrite Forall_forall in Hn.
  assert (Hspec : ∀ n, n ∈ Nodes s → first_rejection pod n nodePredicates = None ↔ fits pod n ∧ admissible pod n).
  { intros n Hin. by apply first_rejection_spec; [|apply Hn]. }
  destruct (Schedule_meets_spec s pod) as [He|ms Hne Hall Hk Hr|i n Hi Hf Hmin Hlt|msg n Hin Hf Hmax].
  - rewrite He. split; [left; set_solver|eauto].
  - split; [|eauto]. intros _. left. intros n Hin Hok. by apply (Hall n Hin), Hspec.
  - split; [|eauto]. intros _. right.
    apply list_elem_of_lookup_2 in Hi. exists n. by apply Hspec in Hf as [].
  - split; [by intros [r ?]|]. intros [Hno|(m & Hm & Hfm & Ham & Hlt)].
    + exfalso. by apply (Hno n Hin), Hspec.
    + exfalso. rewrite (Hmax m Hm) in Hlt; [done|]. by apply Hspec.
Qed.

(** On nodes without CPU capacity (every acceptable node has allocatable
    and free CPU zero, as before the kubelet has reported its resources) the
    default load is 0/0, and scheduling any pod they accept panics. *)
Theorem schedule_panics_without_capacity (nodes : list NodeInfo) (pod : Pod) (n : NodeInfo) :
  n ∈ nodes → first_rejection pod n nodePredicates = None →
  (∀ m, m ∈ nodes → Quantity_MilliValue (AllocatableCPU m) = 0%Z ∧ Quantity_MilliValue (FreeCPU m) = 0%Z) →
  ∃ msg, Schedule (NewQuasiScheduler nodes None) pod = Panicked msg.
Proof.
  intros Hn Hf Hz.
  destruct (Schedule_meets_spec (NewQuasiScheduler nodes None) pod)
    as [He|ms Hne Hall Hk Hr|i m Hi Hfm Hmin Hlt|msg m Hin Hfm Hmax]; [| | |by exists msg].
  - rewrite NewQuasiScheduler_Nodes in He. by rewrite He in Hn; apply not_elem_of_nil in Hn.
  - rewrite NewQuasiScheduler_Nodes in Hall. by apply Hall in Hn.
  - rewrite NewQuasiScheduler_Nodes in Hi. apply list_elem_of_lookup_2, Hz in Hi as [Ha Hfr].
    simpl in Hlt. by rewrite zero_capacity_load in Hlt.
Qed.


(** The terms of a required node affinity are treated as a conjunction: a
    node that satisfies one of two terms is rejected.  The API type documents
    the terms as alternatives (they are ORed). *)
Theorem affinity_terms_are_conjoined (pod : Pod) (node : NodeInfo) (t1 t2 : NodeSelectorTerm) :
  affinity_terms pod = [t1; t2] →
  term_holds (Labels (Node_Meta (NodeOf node))) t1 →
  ¬ term_holds (Labels (Node_Meta (NodeOf node))) t2 →
  podNodeAffinityPermitsNode pod node ≠ None.
Proof.
  intros Ht H1 H2 Hnone. apply podNodeAffinityPermitsNode_spec in Hnone. unfold affine in Hnone.
  rewrite Ht, !Forall_cons in Hnone. naive_solver.
Qed.
End SchedulerClaims.

(** ** Witnesses *)

#[local] Existing Instance map_to_list_range.
#[local] Existing Instance insertion_sort.

(** Two nodes, the second one more loaded. *)
Definition sample_nodes : list NodeInfo :=
  [sample_node "n1" "i-1" 2000 4000 [sample_pod "a" 1500 1000];
   sample_node "n2" "i-2" 2000 4000 [sample_pod "b" 500 1000];
   sample_node "n3" "i-3" 100 4000 []].
Definition sample_scheduler : QuasiPodScheduler := NewQuasiScheduler sample_nodes None.

Lemma sample_nodes_wf : Forall wf_node sample_nodes.
Proof.
  assert (∀ name c m, (0 ≤ c ≤ MaxInt64)%Z → (0 ≤ m ≤ MaxInt64)%Z → Forall wf_pod [sample_pod name c m]) as Hp.
  { intros. constructor; [by apply sample_pod_wf|constructor]. }
  unfold sample_nodes, MaxInt64 in *.
  repeat (apply Forall_cons_2; [apply sample_node_wf; unfold MaxInt64; try lia; try (apply Hp; lia); constructor|]).
  constructor.
Qed.

(** The sample nodes without any CPU, as an unreported capacity. *)
Definition blank_node : NodeInfo := sample_node "n0" "i-0" 0 0 [].
Definition blank_pod : Pod := sample_pod "p" 0 0.

Lemma schedule_places_on_least_loaded_witness :
  ∃ i n, Nodes sample_scheduler !! i = Some n ∧ nodeName n = "n2" ∧ fits (sample_pod "p" 400 100) n.
Proof.
  assert (match Schedule (lib := plain_lib) sample_scheduler (sample_pod "p" 400 100) with
          | Done (Ok pl, _) => pl = MkPodPlacement "p" "n2" | _ => False end) as H by (vm_compute; reflexivity).
  destruct (Schedule sample_scheduler (sample_pod "p" 400 100)) as [[[pl|] s']|] eqn:E; [|destruct H..].
  destruct (schedule_places_on_least_loaded (lib := plain_lib) sample_scheduler s' (sample_pod "p" 400 100) pl)
    as (i & n & Hi & Hpl & Hfit & _);
    [exact sample_nodes_wf|apply sample_pod_wf; unfold MaxInt64; lia|exact E|].
  exists i, n. split; [exact Hi|]. split; [|exact Hfit].
  rewrite H in Hpl. injection Hpl as Hpl. symmetry. exact Hpl.
Defined.

Lemma schedule_failure_is_justified_witness :
  Forall wf_node sample_nodes ∧
  (∀ n, n ∈ sample_nodes → ¬ (fits (sample_pod "p" 4000 100) n ∧ admissible (sample_pod "p" 4000 100) n)).
Proof.
  assert (match Schedule (lib := plain_lib) sample_scheduler (sample_pod "p" 4000 100) with
          | Done (Err _, _) => True | _ => False end) as H by (vm_compute; exact I).
  destruct (Schedule sample_scheduler (sample_pod "p" 4000 100)) as [[[pl|e] s']|] eqn:E; [destruct H| |destruct H].
  split; [exact sample_nodes_wf|].
  apply (schedule_failure_is_justified (lib := plain_lib) sample_scheduler s' (sample_pod "p" 4000 100) e);
    [exact sample_nodes_wf|apply sample_pod_wf; unfold MaxInt64; lia|exact E].
Defined.

Lemma schedule_returns_iff_witness :
  (∀ n, n ∈ sample_nodes → ¬ (fits (sample_pod "p" 400 100) n ∧ admissible (sample_pod "p" 400 100) n)) ∨
  (∃ n, n ∈ sample_nodes ∧ fits (sample_pod "p" 400 100) n ∧ admissible (sample_pod "p" 400 100) n ∧
     float64_lt (SumOfAllocatedMemAndCPUFractions n) MaxFloat64 = true).
Proof.
  apply (schedule_returns_iff (lib := plain_lib) sample_scheduler (sample_pod "p" 400 100));
    [exact sample_nodes_wf|apply sample_pod_wf; unfold MaxInt64; lia|].
  assert (match Schedule (lib := plain_lib) sample_scheduler (sample_pod "p" 400 100) with
          | Done _ => True | _ => False end) as H by (vm_compute; exact I).
  destruct (Schedule sample_scheduler (sample_pod "p" 400 100)); [eauto|destruct H].
Defined.

Lemma schedule_panics_without_capacity_witness :
  ∃ msg, Schedule (lib := plain_lib) (NewQuasiScheduler [blank_node] None) blank_pod = Panicked msg.
Proof.
  apply (schedule_panics_without_capacity (lib := plain_lib) [blank_node] blank_pod blank_node).
  - by left.
  - vm_compute. reflexivity.
  - intros m ->%list_elem_of_singleton. split; vm_compute; reflexivity.
Defined.


(** A pod that may run in zone a or in zone b, and a node in zone a. *)
Definition zone_term (z : string) : NodeSelectorTerm :=
  MkNodeSelectorTerm [MkNodeSelectorRequirement "zone" "In" [z]].
Definition two_zone_pod : Pod :=
  MkPod (sample_meta "p" "default" ∅ true)
    (MkPodSpec [] [] ∅ []
       (Some (MkAffinity (Some (MkNodeAffinity (Some (MkNodeSelector [zone_term "a"; zone_term "b"]))))))) "Running".
Definition zone_a_node : NodeInfo :=
  MkNodeInfo (MkNode (sample_meta "n" "" {[ "zone" := "a" ]} false)
    (MkNodeSpec "" "i" "" false []) (MkNodeStatus (cpu_mem 1000 1000) [])) [].

Lemma affinity_terms_are_conjoined_witness :
  podNodeAffinityPermitsNode (lib := plain_lib) two_zone_pod zone_a_node ≠ None.
Proof.
  apply (affinity_terms_are_conjoined (lib := plain_lib) two_zone_pod zone_a_node (zone_term "a") (zone_term "b"));
    [reflexivity| |].
  - apply term_selector_spec. eexists. split; [vm_compute; reflexivity|vm_compute; reflexivity].
  - intros H. apply term_selector_spec in H as (sel & Hs & Hm). vm_compute in Hs. injection Hs as <-.
    vm_compute in Hm. discriminate Hm.
Defined.

(** A pod with one affinity term and a nodeSelector, on a node that satisfies
    both. *)
Definition zoned_pod : Pod :=
  MkPod (sample_meta "p" "default" ∅ true)
    (MkPodSpec [] [MkContainer "c" (cpu_mem 400 100)] {[ "zone" := "a" ]} []
       (Some (MkAffinity (Some (MkNodeAffinity (Some (MkNodeSelector [zone_term "a"]))))))) "Running".

Lemma predicates_agree_with_api_witness :
  first_rejection zoned_pod zone_a_node (nodePredicates (lib := plain_lib)) = None ∧
  fits zoned_pod zone_a_node ∧ api_selected zoned_pod zone_a_node ∧ api_affine zoned_pod zone_a_node.
Proof.
  assert (first_rejection zoned_pod zone_a_node (nodePredicates (lib := plain_lib)) = None) as E by (vm_compute; reflexivity).
  split; [exact E|].
  assert (wf_pod zoned_pod ∧ wf_node zone_a_node) as [Hp Hn].
  { split; [|split; [|constructor]].
    - intros k res q Hk Hq. apply list_elem_of_singleton in Hk as ->. eapply cpu_mem_wf; [| |exact Hq]; unfold MaxInt64; lia.
    - intros res q Hq. eapply cpu_mem_wf; [| |exact Hq]; unfold MaxInt64; lia. }
  assert (api_valid zoned_pod) as Hv.
  { split; [|discriminate]. intros k v Hkv. apply (lookup_singleton_Some "zone" k "a" v) in Hkv as [<- <-]. vm_compute. reflexivity. }
  destruct (predicates_agree_with_api (lib := plain_lib) zoned_pod zone_a_node Hp Hn Hv) as [H _].
  destruct (H E) as (Hf & _ & Hs & Ha). split; [exact Hf|]. split; [exact Hs|exact Ha].
Defined.

Lemma scheduler_state_is_preserved_witness :
  ∃ s' (placed : list Pod), scheduler_ok s' ∧ length placed = 1%nat ∧ length (concat (map Pods (Nodes s'))) = 3%nat.
Proof.
  assert (Hp : wf_pod (sample_pod "p" 400 100)) by (apply sample_pod_wf; unfold MaxInt64; lia).
  assert (match Schedule (lib := plain_lib) sample_scheduler (sample_pod "p" 400 100) with
          | Done (Ok pl, _) => True | _ => False end) as H by (vm_compute; exact I).
  destruct (Schedule sample_scheduler (sample_pod "p" 400 100)) as [[[pl|] s']|] eqn:E; [|destruct H..].
  destruct (scheduler_state_is_preserved (lib := plain_lib) sample_scheduler s' [sample_pod "p" 400 100])
    as (Hok & _ & Hperm).
  - eapply schedules_placed; [exact Hp|exact E|apply schedules_none].
  - unfold scheduler_ok. apply Forall_forall. intros n Hn. split; [exact (proj1 (Forall_forall _ _) sample_nodes_wf n Hn)|].
    unfold sample_scheduler, sample_nodes in Hn. simpl in Hn. rewrite !elem_of_cons, elem_of_nil in Hn.
    destruct Hn as [->|[->|[->|[]]]]; split; vm_compute; discriminate.
  - exists s', [sample_pod "p" 400 100]. split; [exact Hok|]. split; [reflexivity|].
    rewrite Hperm. reflexivity.
Defined.
