(* ===== verification/NodeScaler.v ===== *)
(** * pkg/kube/nodescaler.go and the KubeClient interface of pkg/kube/client.go

    [DefaultNodeScaler] decides whether a node may be scaled down, drains nodes
    and deletes them.  Its calls to the Kubernetes API server go through the
    [KubeClient] interface, which is here the interface [KubeClient] of the
    programs: every reply is possible, so the theorems hold for any API server.
    [time.Now] is a call too.  Logging is left out.

    [IsScaleDownCandidate], [DrainNode] and the others are the whole handlers;
    pod and node predicates that cannot fail are boolean functions, and
    [hasController], which dereferences an optional pointer, may panic. *)
From stdpp Require Import base tactics list strings gmap.
From Stdlib Require Import ZArith QArith Lia Ascii.
From S2P Require Import Prelude Strconv GoStd Quantity KubeTypes Labels NodeInfo Samples QuasiScheduler.

Local Open Scope go_scope.

Definition KubeSystemNS : string := "kube-system".
Definition ComponentLabelKey : string := "component".
Definition APIServerLabelValue : string := "kube-apiserver".
Definition NoScaleDownNodeAnnotation : string := "cluster-autoscaler.kubernetes.io/scale-down-disabled".
Definition NodeAboutToBeDrainedTaint : string := "node-about-to-be-drained".
Definition NamespaceAll : string := EmptyString.

(** ** The KubeClient interface (client.go) *)

Inductive kube_call : Type :=
| KListNodes
| KGetNode (name : string)
| KUpdateNode (node : Node)
| KDeleteNode (node : Node)
| KListPods (namespace : string) (options : ListOptions)
| KEvictPod (eviction : Eviction)
| KPodDisruptionBudgets (namespace : string)
| KTimeNow.

Definition kube_reply (c : kube_call) : Type :=
  match c with
  | KListNodes => result error (list Node)
  | KGetNode _ => result error Node
  | KUpdateNode _ | KDeleteNode _ | KEvictPod _ => option error
  | KListPods _ _ => result error (list Pod)
  | KPodDisruptionBudgets _ => result error (list PodDisruptionBudget)
  | KTimeNow => Z
  end.

Definition KubeClient : Iface := mkIface kube_call kube_reply.

(** The calls that change the cluster. *)
Definition kube_mutates (c : kube_call) : bool :=
  match c with
  | KUpdateNode _ | KDeleteNode _ | KEvictPod _ => true
  | _ => false
  end.

(** ** Predicates on nodes and pods *)

Definition nodePredicate : Type := NodeInfo → bool.

Definition pnot (predicate : nodePredicate) : nodePredicate := λ node, negb (predicate node).

Fixpoint is_master_loop (name : string) (pods : list Pod) : bool :=
  match pods with
  | [] => false
  | pod :: rest =>
      if negb (String.eqb (podNamespace pod) KubeSystemNS) then is_master_loop name rest
      else if match Labels (Pod_Meta pod) !! ComponentLabelKey with
              | Some val => String.eqb val APIServerLabelValue
              | None => false
              end then true
      else if String.eqb (podName pod) ("kube-apiserver-" +:+ name) then true
      else is_master_loop name rest
  end.

Definition isMasterNode : nodePredicate := λ node, is_master_loop (nodeName node) (Pods node).

Definition hasNodeName (name : string) : nodePredicate := λ node, String.eqb (nodeName node) name.

Definition isNodeReady : nodePredicate := λ node,
  existsb (λ condition, String.eqb (Condition_Type condition) NodeReady &&
                        String.eqb (Condition_Status condition) ConditionTrue)
    (Conditions (Node_Status (NodeOf node))).

Definition isNodeSchedulable : nodePredicate := λ node,
  negb (Unschedulable (Node_Spec (NodeOf node))).

(** The loops of [filterNodes] and [filterPods]. *)
Fixpoint satisfies_all {A} (x : A) (predicates : list (A → bool)) : bool :=
  match predicates with
  | [] => true
  | predicate :: rest => if negb (predicate x) then false else satisfies_all x rest
  end.

Fixpoint filter_loop {A} (predicates : list (A → bool)) (l : list A) : list A :=
  match l with
  | [] => []
  | x :: rest =>
      if satisfies_all x predicates then x :: filter_loop predicates rest
      else filter_loop predicates rest
  end.

Definition filterNodes (nodes : list NodeInfo) (predicates : list nodePredicate) : list NodeInfo :=
  filter_loop predicates nodes.

Definition podPredicate : Type := Pod → bool.

Definition isNonSystemPod : podPredicate := λ pod, negb (String.eqb (podNamespace pod) KubeSystemNS).

Definition isActivePod : podPredicate := λ pod,
  String.eqb (Phase pod) PodPending || String.eqb (Phase pod) PodRunning.

Definition filterPods (pods : list Pod) (predicates : list podPredicate) : list Pod :=
  filter_loop predicates pods.

Definition hasNodeLocalStorage (pod : Pod) : bool :=
  existsb (λ vol, bool_decide (is_Some (HostPath vol)) || bool_decide (is_Some (EmptyDir vol)))
    (Volumes (Pod_Spec pod)).

Fixpoint controller_loop (refs : list OwnerReference) : outcome bool :=
  match refs with
  | [] => Done false
  | ownerRef :: rest =>
      match Controller ownerRef with
      | None => Panicked "nil pointer dereference: *ownerRef.Controller"
      | Some true => Done true
      | Some false => controller_loop rest
      end
  end.

Definition hasController (pod : Pod) : outcome bool := controller_loop (OwnerReferences (Pod_Meta pod)).

(** ** Reading the cluster *)

(** [fields.SelectorFromSet(...).String()] for one field. *)
Fixpoint EscapeValue (s : string) : string :=
  match s with
  | EmptyString => EmptyString
  | String c s' =>
      if Ascii.eqb c "\"%char then String "\" (String "\" (EscapeValue s'))
      else if Ascii.eqb c ","%char then String "\" (String "," (EscapeValue s'))
      else if Ascii.eqb c "="%char then String "\" (String "=" (EscapeValue s'))
      else String c (EscapeValue s')
  end.

Definition node_name_selector (name : string) : ListOptions :=
  MkListOptions ("spec.nodeName=" +:+ EscapeValue name).

Definition getPodsOnNode (node : Node) : Prog KubeClient (result error (list Pod)) :=
  invoke (I := KubeClient) (KListPods NamespaceAll (node_name_selector (Name (Node_Meta node)))).

Definition getNodeInfo (name : string) : Prog KubeClient (result error NodeInfo) :=
  let! r := invoke (I := KubeClient) (KGetNode name) in
  match r with
  | Err err => Ret (Err err)
  | Ok node =>
      let! r := getPodsOnNode node in
      match r with
      | Err err => Ret (Err err)
      | Ok pods => Ret (Ok (MkNodeInfo node pods))
      end
  end.

Fixpoint node_infos_loop (nodes : list Node) : Prog KubeClient (result error (list NodeInfo)) :=
  match nodes with
  | [] => Ret (Ok [])
  | node :: rest =>
      let! r := getNodeInfo (Name (Node_Meta node)) in
      match r with
      | Err err => Ret (Err err)
      | Ok info =>
          let! rs := node_infos_loop rest in
          match rs with
          | Err err => Ret (Err err)
          | Ok infos => Ret (Ok (info :: infos))
          end
      end
  end.

Definition getNodeInfos : Prog KubeClient (result error (list NodeInfo)) :=
  let! r := invoke (I := KubeClient) KListNodes in
  match r with
  | Err err => Ret (Err err)
  | Ok items => node_infos_loop items
  end.

Definition GetNode (name : string) : Prog KubeClient (result error NodeInfo) := getNodeInfo name.

Section NodeScaler.
Context `{sorter : !SliceSort, ranger : !MapRange, lib : !GoLib}.
Local Open Scope string_scope.

Definition ListNodes : Prog KubeClient (result error (list NodeInfo)) :=
  let! r := getNodeInfos in
  match r with
  | Err err => Ret (Err (ErrorString ("failed to retrieve nodes from kubernetes: " +:+ Error err)))
  | Ok nodes => Ret (Ok nodes)
  end.

Definition ListWorkerNodes : Prog KubeClient (result error (list NodeInfo)) :=
  let! r := ListNodes in
  match r with
  | Err err => Ret (Err err)
  | Ok nodes => Ret (Ok (filterNodes nodes [pnot isMasterNode]))
  end.

(** ** Scale-down decision *)

(** The first pod that cannot be moved, in the order of the checks. *)
Fixpoint movable_loop (name : string) (pods : list Pod) : outcome (option error) :=
  match pods with
  | [] => Done None
  | pod :: rest =>
      if hasNodeLocalStorage pod then Done (Some (PodLocalStorageError name (podName pod)))
      else let? controlled := hasController pod in
           if negb controlled then Done (Some (PodWithoutControllerError name (podName pod)))
           else movable_loop name rest
  end.

(** [numPDBMatchingPods], an int32. *)
Fixpoint count_matching (sel : Selector) (pods : list Pod) (n : Z) : Z :=
  match pods with
  | [] => n
  | pod :: rest =>
      count_matching sel rest
        (if Selector_Matches sel (Labels (Pod_Meta pod)) then wrap32 (n + 1) else n)
  end.

Fixpoint podDisruptionBudgetsAllowEvacuation (PDBs : list PodDisruptionBudget) (nodePods : list Pod)
    : option error :=
  match PDBs with
  | [] => None
  | PDB :: rest =>
      match LabelSelectorAsSelector (PDB_Selector PDB) with
      | Err err =>
          Some (ErrorString ("cannot parse label selector on PDB " +:+ Name (PDB_Meta PDB) +:+
                             ": " +:+ labelsErrorString err))
      | Ok pdbLabelSelector =>
          let numPDBMatchingPods := count_matching pdbLabelSelector nodePods 0 in
          if (PodDisruptionsAllowed PDB <? numPDBMatchingPods)%Z then
            Some (PodDisruptionViolationError (Name (PDB_Meta PDB)) numPDBMatchingPods
                    (PodDisruptionsAllowed PDB))
          else podDisruptionBudgetsAllowEvacuation rest nodePods
      end
  end.

(** The loop of [verifyEvacuationFeasibility]. *)
Fixpoint schedule_loop (s : QuasiPodScheduler) (pods : list Pod) : outcome (option error) :=
  match pods with
  | [] => Done None
  | pod :: rest =>
      let? (r, s') := Schedule s pod in
      match r with
      | Err err => Done (Some err)
      | Ok _ => schedule_loop s' rest
      end
  end.

Definition verifyEvacuationFeasibility (podsToEvacuate : list Pod) (schedulableNodes : list NodeInfo)
    : outcome (option error) :=
  let scheduler := NewQuasiScheduler schedulableNodes None in
  match VerifySchedulingViable scheduler podsToEvacuate with
  | Some err => Done (Some err)
  | None => schedule_loop scheduler podsToEvacuate
  end.

Definition remaining_workers (nodes : list NodeInfo) (name : string) : list NodeInfo :=
  filterNodes nodes [pnot isMasterNode; pnot (hasNodeName name); isNodeReady; isNodeSchedulable].

Definition pods_to_evacuate (node : NodeInfo) : list Pod :=
  filterPods (Pods node) [isNonSystemPod; isActivePod].

Definition IsScaleDownCandidate (node : NodeInfo) : Prog KubeClient (bool * option error) :=
  let name := nodeName node in
  if String.eqb (default "" (Annotations (Node_Meta (NodeOf node)) !! NoScaleDownNodeAnnotation)) "true"
  then Ret (false, Some (NodeScaleDownProtectedError name))
  else
  let! r := getNodeInfos in
  match r with
  | Err err => Ret (false, Some err)
  | Ok nodes =>
      let remainingWorkerNodes := remaining_workers nodes name in
      if (length remainingWorkerNodes =? 0)%nat
      then Ret (false, Some (NodeEvacuationInfeasibleError name NoEvacuationNodesAvailableError))
      else
      let podsToEvacuate := pods_to_evacuate node in
      let! unmovable := pure (movable_loop name podsToEvacuate) in
      match unmovable with
      | Some err => Ret (false, Some err)
      | None =>
          let! r := invoke (I := KubeClient) (KPodDisruptionBudgets "") in
          match r with
          | Err err =>
              Ret (false, Some (ErrorString ("failed to list pod disruption budgets: " +:+ Error err)))
          | Ok PDBs =>
              match podDisruptionBudgetsAllowEvacuation PDBs podsToEvacuate with
              | Some err => Ret (false, Some (NodeEvacuationInfeasibleError name err))
              | None =>
                  let! infeasible := pure (verifyEvacuationFeasibility podsToEvacuate remainingWorkerNodes) in
                  match infeasible with
                  | Some err => Ret (false, Some (NodeEvacuationInfeasibleError name err))
                  | None => Ret (true, None)
                  end
              end
          end
      end
  end.

Definition NodeLoad (node : NodeInfo) : float64 :=
  scheduler_NodeLoad (NewQuasiScheduler [] None) node.

(** ** Changing the cluster *)

Definition DeleteNode (node : NodeInfo) : Prog KubeClient (option error) :=
  let! r := invoke (I := KubeClient) (KDeleteNode (NodeOf node)) in
  match r with
  | Some err => Ret (Some (ErrorString ("failed to delete node: " +:+ Error err)))
  | None => Ret None
  end.

Definition is_drain_taint (t : Taint) : bool := String.eqb (Taint_Key t) NodeAboutToBeDrainedTaint.

Definition markUnschedulable (node : NodeInfo) : Prog KubeClient (option error) :=
  let! r := invoke (I := KubeClient) (KGetNode (nodeName node)) in
  match r with
  | Err err => Ret (Some (ErrorString ("failed to refresh node metadata: " +:+ Error err)))
  | Ok freshNode =>
      if existsb is_drain_taint (Taints (Node_Spec freshNode)) then Ret None
      else
      let! now := invoke (I := KubeClient) KTimeNow in
      let unschedulableTaint :=
        MkTaint NodeAboutToBeDrainedTaint "true" TaintEffectNoSchedule now in
      let freshNode := set_taints freshNode (Taints (Node_Spec freshNode) ++ [unschedulableTaint]) in
      let! r := invoke (I := KubeClient) (KUpdateNode freshNode) in
      match r with
      | Some err => Ret (Some err)
      | None => Ret None
      end
  end.

Definition markSchedulable (node : NodeInfo) : Prog KubeClient (option error) :=
  let! r := invoke (I := KubeClient) (KGetNode (nodeName node)) in
  match r with
  | Err err => Ret (Some (ErrorString ("markSchedulable: failed to get node: " +:+ Error err)))
  | Ok freshNode =>
      let taintsToKeep := List.filter (λ t, negb (is_drain_taint t)) (Taints (Node_Spec freshNode)) in
      let! r := invoke (I := KubeClient) (KUpdateNode (set_taints freshNode taintsToKeep)) in
      match r with
      | Some err => Ret (Some (ErrorString ("markSchedulable: failed to remove " +:+
                                 NodeAboutToBeDrainedTaint +:+ " taint: " +:+ Error err)))
      | None => Ret None
      end
  end.

(** The functions deferred by the iterations so far, last deferred first:
    each holds the eviction error of its iteration. *)
Fixpoint run_deferred (nodeToDrain : NodeInfo) (deferred : list (option error)) : Prog KubeClient unit :=
  match deferred with
  | [] => Ret tt
  | Some evictionError :: rest =>
      let! _ := markSchedulable nodeToDrain in run_deferred nodeToDrain rest
  | None :: rest => run_deferred nodeToDrain rest
  end.

Definition eviction_of (pod : Pod) : Eviction :=
  MkEviction (podName pod) (podNamespace pod) (DeletionGracePeriodSeconds (Pod_Meta pod)).

Fixpoint drain_loop (nodeToDrain : NodeInfo) (pods : list Pod) (deferred : list (option error))
    : Prog KubeClient (option error) :=
  match pods with
  | [] => let! _ := run_deferred nodeToDrain deferred in Ret None
  | pod :: rest =>
      let! evictionError := invoke (I := KubeClient) (KEvictPod (eviction_of pod)) in
      let deferred := evictionError :: deferred in
      match evictionError with
      | Some err =>
          let! _ := run_deferred nodeToDrain deferred in
          Ret (Some (ErrorString ("DrainNode: failed to evacuate pod " +:+ podName pod +:+ ": " +:+ Error err)))
      | None => drain_loop nodeToDrain rest deferred
      end
  end.

Definition DrainNode (nodeToDrain : NodeInfo) : Prog KubeClient (option error) :=
  let! err := markUnschedulable nodeToDrain in
  match err with
  | Some err => Ret (Some (ErrorString ("DrainNode: failed to mark node unschedulable: " +:+ Error err)))
  | None => drain_loop nodeToDrain (pods_to_evacuate nodeToDrain) []
  end.
End NodeScaler.

(** ** Filters *)

Lemma satisfies_all_spec {A} (x : A) ps : satisfies_all x ps = true ↔ Forall (λ p : A → bool, p x = true) ps.
Proof.
  induction ps as [|p ps IH]; simpl; [by rewrite Forall_nil|]. rewrite Forall_cons.
  destruct (p x); simpl; naive_solver.
Qed.

Lemma satisfies_all_forallb {A} (x : A) ps : satisfies_all x ps = forallb (λ p, p x) ps.
Proof. induction ps as [|p ps IH]; simpl; [done|]. by destruct (p x). Qed.

Lemma filter_loop_spec {A} (ps : list (A → bool)) l :
  filter_loop ps l = List.filter (λ x, forallb (λ p, p x) ps) l.
Proof.
  induction l as [|x l IH]; simpl; [done|]. by rewrite IH, satisfies_all_forallb.
Qed.

Lemma elem_of_filter_loop {A} (ps : list (A → bool)) l x :
  x ∈ filter_loop ps l ↔ x ∈ l ∧ Forall (λ p : A → bool, p x = true) ps.
Proof.
  rewrite filter_loop_spec, list_elem_of_In, filter_In, <- list_elem_of_In, <- satisfies_all_spec.
  by rewrite satisfies_all_forallb.
Qed.

Lemma filter_loop_length {A} (ps : list (A → bool)) l : (length (filter_loop ps l) ≤ length l)%nat.
Proof. induction l as [|x l IH]; simpl; [lia|]. destruct (satisfies_all x ps); simpl; lia. Qed.

(** A master node runs an API server pod in the system namespace. *)
Definition runs_apiserver (node : NodeInfo) : Prop :=
  ∃ p, p ∈ Pods node ∧ podNamespace p = KubeSystemNS ∧
    (Labels (Pod_Meta p) !! ComponentLabelKey = Some APIServerLabelValue ∨
     podName p = "kube-apiserver-" +:+ nodeName node).

Lemma isMasterNode_spec node : isMasterNode node = true ↔ runs_apiserver node.
Proof.
  unfold isMasterNode, runs_apiserver. generalize (nodeName node). intros name.
  induction (Pods node) as [|p ps IH]; simpl; [set_solver|]. setoid_rewrite elem_of_cons.
  destruct (String.eqb_spec (podNamespace p) KubeSystemNS) as [En|En]; simpl; [|rewrite IH; naive_solver].
  destruct (Labels (Pod_Meta p) !! ComponentLabelKey) as [v|] eqn:El.
  - destruct (String.eqb_spec v APIServerLabelValue); [naive_solver|].
    destruct (String.eqb_spec (podName p) ("kube-apiserver-" +:+ name)); [naive_solver|].
    rewrite IH. naive_solver.
  - destruct (String.eqb_spec (podName p) ("kube-apiserver-" +:+ name)); [naive_solver|].
    rewrite IH. naive_solver.
Qed.

(** A node pods can be evacuated to. *)
Definition evacuation_target (victim : string) (n : NodeInfo) : Prop :=
  ¬ runs_apiserver n ∧ nodeName n ≠ victim ∧
  (∃ c, c ∈ Conditions (Node_Status (NodeOf n)) ∧ Condition_Type c = NodeReady ∧
     Condition_Status c = ConditionTrue) ∧
  Unschedulable (Node_Spec (NodeOf n)) = false.

Lemma isNodeReady_spec n :
  isNodeReady n = true ↔ ∃ c, c ∈ Conditions (Node_Status (NodeOf n)) ∧ Condition_Type c = NodeReady ∧
     Condition_Status c = ConditionTrue.
Proof.
  unfold isNodeReady. rewrite existsb_exists. setoid_rewrite <- list_elem_of_In.
  setoid_rewrite andb_true_iff. by setoid_rewrite String.eqb_eq.
Qed.

Lemma elem_of_remaining_workers nodes victim n :
  n ∈ remaining_workers nodes victim ↔ n ∈ nodes ∧ evacuation_target victim n.
Proof.
  unfold remaining_workers, filterNodes, evacuation_target. rewrite elem_of_filter_loop.
  rewrite !Forall_cons, Forall_nil. unfold pnot, hasNodeName, isNodeSchedulable.
  rewrite !negb_true_iff, isNodeReady_spec, String.eqb_neq, <- isMasterNode_spec, not_true_iff_false.
  naive_solver.
Qed.

(** The pods an evacuation moves: active, and not in the system namespace. *)
Definition evictable_pod (p : Pod) : Prop :=
  podNamespace p ≠ KubeSystemNS ∧ (Phase p = PodPending ∨ Phase p = PodRunning).

Lemma elem_of_pods_to_evacuate node p :
  p ∈ pods_to_evacuate node ↔ p ∈ Pods node ∧ evictable_pod p.
Proof.
  unfold pods_to_evacuate, filterPods, evictable_pod. rewrite elem_of_filter_loop.
  rewrite !Forall_cons, Forall_nil. unfold isNonSystemPod, isActivePod.
  rewrite negb_true_iff, String.eqb_neq, orb_true_iff, !String.eqb_eq. naive_solver.
Qed.

Section NodeScalerFacts.
Context `{sorter : !SliceSort, ranger : !MapRange, lib : !GoLib}.

(** ** The parts of the decision *)

(** The pod is recreated elsewhere when evicted, and loses no local data. *)
Definition movable (p : Pod) : Prop :=
  (∀ v, v ∈ Volumes (Pod_Spec p) → HostPath v = None ∧ EmptyDir v = None) ∧
  (∃ r, r ∈ OwnerReferences (Pod_Meta p) ∧ Controller r = Some true).

Lemma hasNodeLocalStorage_false p :
  hasNodeLocalStorage p = false ↔ ∀ v, v ∈ Volumes (Pod_Spec p) → HostPath v = None ∧ EmptyDir v = None.
Proof.
  unfold hasNodeLocalStorage. induction (Volumes _) as [|v vs IH]; simpl; [set_solver|].
  setoid_rewrite elem_of_cons. rewrite orb_false_iff, IH, orb_false_iff, !bool_decide_eq_false.
  rewrite <- !eq_None_not_Some. naive_solver.
Qed.

Lemma hasController_true p :
  hasController p = Done true → ∃ r, r ∈ OwnerReferences (Pod_Meta p) ∧ Controller r = Some true.
Proof.
  unfold hasController. induction (OwnerReferences _) as [|r rs IH]; simpl; [done|].
  destruct (Controller r) as [[]|] eqn:E; [|intros H; apply IH in H|done]; set_solver.
Qed.

Lemma movable_loop_None name pods : movable_loop name pods = Done None → Forall movable pods.
Proof.
  induction pods as [|p ps IH]; simpl; [by constructor|].
  destruct (hasNodeLocalStorage p) eqn:El; [done|].
  destruct (hasController p) as [[]|] eqn:Ec; simpl; [|done|done].
  intros H. constructor; [|by apply IH]. split; [by apply hasNodeLocalStorage_false|by apply hasController_true].
Qed.

Lemma count_matching_spec sel pods n :
  (0 ≤ n)%Z → (n + Z.of_nat (length pods) < 2^31)%Z →
  count_matching sel pods n =
    (n + Z.of_nat (length (List.filter (λ p, Selector_Matches sel (Labels (Pod_Meta p))) pods)))%Z.
Proof.
  revert n. induction pods as [|p ps IH]; intros n Hn Hl; simpl in *; [lia|].
  destruct (Selector_Matches sel _) eqn:E; simpl; rewrite ?(wrap32_small (n + 1)) by lia;
    rewrite IH by lia; simpl; lia.
Qed.

Lemma sublist_filter_length {A} (f : A → bool) (l k : list A) :
  l `sublist_of` k → Forall (λ x, f x = true) l → (length l ≤ length (List.filter f k))%nat.
Proof.
  induction 1 as [|x l k _ IH|x l k _ IH]; intros Hf; simpl; [lia| |].
  - apply Forall_cons in Hf as [Hx Hf]. rewrite Hx. simpl. specialize (IH Hf). lia.
  - specialize (IH Hf). destruct (f x); simpl; lia.
Qed.

(** No disruption budget covers more of the pods than it allows to be
    disrupted. *)
Definition within_budgets (PDBs : list PodDisruptionBudget) (pods : list Pod) : Prop :=
  ∀ b covered, b ∈ PDBs → covered `sublist_of` pods →
    Forall (λ p, selector_covers (PDB_Selector b) (Labels (Pod_Meta p))) covered →
    (Z.of_nat (length covered) ≤ PodDisruptionsAllowed b)%Z.

Lemma podDisruptionBudgets_None PDBs pods :
  (Z.of_nat (length pods) < 2^31)%Z →
  podDisruptionBudgetsAllowEvacuation PDBs pods = None → within_budgets PDBs pods.
Proof.
  intros Hl. induction PDBs as [|b bs IH]; simpl; [by intros _ b ? ?%not_elem_of_nil|].
  destruct (LabelSelectorAsSelector (PDB_Selector b)) as [sel|e] eqn:Es; [|done].
  rewrite count_matching_spec by lia.
  destruct (Z.ltb_spec (PodDisruptionsAllowed b)
    (0 + Z.of_nat (length (List.filter (λ p, Selector_Matches sel (Labels (Pod_Meta p))) pods))));
    [done|].
  intros Hrest b' covered [->|Hb]%elem_of_cons Hsub Hcov; [|by eapply (IH Hrest)].
  assert (Forall (λ p, Selector_Matches sel (Labels (Pod_Meta p)) = true) covered) as Hm.
  { eapply Forall_impl; [exact Hcov|]. intros p. by rewrite (LabelSelectorAsSelector_Matches _ _ _ Es). }
  pose proof (sublist_filter_length _ _ _ Hsub Hm). lia.
Qed.

Lemma Forall_insert_elem {A} (P : A → Prop) (l : list A) i x : Forall P l → P x → Forall P (<[i:=x]> l).
Proof. intros Hl Hx. by apply Forall_insert. Qed.

(** Placing all pods one after the other yields a feasible placement. *)
Lemma schedule_loop_feasible s pods :
  Forall wf_node (Nodes s) → Forall wf_pod pods →
  schedule_loop s pods = Done None → feasible (Nodes s) pods.
Proof.
  revert s. induction pods as [|p ps IH]; intros s Hn Hp; simpl; [intros _; apply feasible_nil|].
  apply Forall_cons in Hp as [Hp Hps]. destruct (Schedule_meets_spec s p) as [| |i n Hi Hf _ _|]; simpl; try done.
  assert (wf_node n) as Hwn by (rewrite Forall_forall in Hn; eapply Hn, list_elem_of_lookup_2, Hi).
  intros H. apply IH in H; [|apply Forall_insert_elem; [done|by apply wf_append_pod]|done].
  apply first_rejection_spec in Hf as [Hfits Hadm]; [|done..]. by eapply feasible_place.
Qed.

Lemma verifyEvacuationFeasibility_feasible pods nodes :
  Forall wf_node nodes → Forall wf_pod pods →
  verifyEvacuationFeasibility pods nodes = Done None → feasible nodes pods.
Proof.
  unfold verifyEvacuationFeasibility. intros Hn Hp.
  destruct (VerifySchedulingViable _ _); [done|]. intros H.
  rewrite <- (NewQuasiScheduler_Nodes nodes None).
  apply schedule_loop_feasible; [by rewrite NewQuasiScheduler_Nodes|done|done].
Qed.

(** ** Reading calls *)

Lemma getNodeInfo_reads name : calls_only (I := KubeClient) (λ c, kube_mutates c = false) (getNodeInfo name).
Proof. unfold getNodeInfo, getPodsOnNode. prog_walk. Qed.

Lemma node_infos_loop_reads nodes :
  calls_only (I := KubeClient) (λ c, kube_mutates c = false) (node_infos_loop nodes).
Proof. pose proof getNodeInfo_reads. induction nodes; prog_walk. Qed.

Lemma getNodeInfos_reads : calls_only (I := KubeClient) (λ c, kube_mutates c = false) getNodeInfos.
Proof. pose proof node_infos_loop_reads. unfold getNodeInfos. prog_walk. Qed.

Lemma IsScaleDownCandidate_reads node :
  calls_only (I := KubeClient) (λ c, kube_mutates c = false) (IsScaleDownCandidate node).
Proof. pose proof getNodeInfos_reads. unfold IsScaleDownCandidate. prog_walk. Qed.

(** Approval and error exclude each other, and one of them is given. *)
Lemma IsScaleDownCandidate_verdict node :
  returns (λ '(b, oe), b = true ↔ oe = None) (IsScaleDownCandidate node).
Proof.
  unfold IsScaleDownCandidate. cbv zeta. destruct (String.eqb _ _); [done|].
  apply returns_bind. intros [infos|e]; [|done]. destruct (_ =? _)%nat; [done|].
  apply returns_bind. intros [e|]; [done|]. apply returns_bind. intros [PDBs|e]; [|done].
  destruct (podDisruptionBudgetsAllowEvacuation _ _); [done|]. apply returns_bind. by intros [e|].
Qed.

Lemma ListWorkerNodes_reads : calls_only (I := KubeClient) (λ c, kube_mutates c = false) ListWorkerNodes.
Proof. pose proof getNodeInfos_reads. unfold ListWorkerNodes, ListNodes. prog_walk. Qed.
End NodeScalerFacts.

(** ** What the API server was seen to hold *)

#[local] Arguments getNodeInfo : simpl never.
#[local] Arguments getNodeInfos : simpl never.

(** The calls that read one node and its pods. *)
Definition read_node (info : NodeInfo) (name : string) : trace KubeClient :=
  [ev (I := KubeClient) (KGetNode name) (Ok (NodeOf info));
   ev (I := KubeClient) (KListPods NamespaceAll (node_name_selector (nodeName info))) (Ok (Pods info))].

(** [t] lists the nodes and then reads every one of them, which gave [infos]. *)
Definition observed (t : trace KubeClient) (infos : list NodeInfo) : Prop :=
  ∃ items : list Node, length items = length infos ∧
    t = ev (I := KubeClient) KListNodes (Ok items) ::
        concat (zip_with (λ info item, read_node info (Name (Node_Meta item))) infos items).

Lemma getNodeInfo_runs name t info :
  runs (getNodeInfo name) t (Done (Ok info)) ↔ t = read_node info name.
Proof.
  unfold getNodeInfo, getPodsOnNode. split.
  - intros H. runs_inv. repeat (case_match; runs_inv). done.
  - intros ->. simpl. eexists _, _. split; [done|]. simpl. eexists _, _. split; [done|]. simpl.
    by destruct info.
Qed.

Lemma node_infos_loop_runs nodes t infos :
  runs (node_infos_loop nodes) t (Done (Ok infos)) ↔
  length nodes = length infos ∧
  t = concat (zip_with (λ info item, read_node info (Name (Node_Meta item))) infos nodes).
Proof.
  revert t infos. induction nodes as [|n nodes IH]; intros t infos; cbn [node_infos_loop].
  { simpl. split; [intros [-> H]; by simplify_eq|]. intros [Hl ->]. by destruct infos. }
  split.
  - intros [(t1 & t2 & [info|e] & -> & Hi & H)|(? & ? & _)]%runs_bind; [|by destruct H|done].
    apply runs_bind in H as [(t3 & t4 & [infos2|e] & -> & Hr & H)|(? & ? & _)]; [|by destruct H|done].
    destruct H as [-> H]. simplify_eq. apply getNodeInfo_runs in Hi as ->. apply IH in Hr as [Hl ->].
    simpl. by rewrite Hl, app_nil_r.
  - destruct infos as [|info infos]; [by intros []|].
    cbn [length zip_with concat]. intros [[= Hl] ->].
    apply runs_bind. left. eexists _, _, (Ok info). split; [done|].
    split; [by apply getNodeInfo_runs|]. apply runs_bind. left. eexists _, [], (Ok infos).
    split; [by rewrite app_nil_r|]. split; [|done]. by apply IH.
Qed.

Lemma getNodeInfos_runs t infos :
  runs getNodeInfos t (Done (Ok infos)) ↔ observed t infos.
Proof.
  unfold getNodeInfos, observed. simpl. split.
  - intros (r & t' & -> & H). destruct r as [items|e]; runs_inv.
    apply node_infos_loop_runs in H as [Hl ->]. eauto.
  - intros (items & Hl & ->). eexists (Ok items), _. split; [done|]. by apply node_infos_loop_runs.
Qed.

Lemma ListWorkerNodes_runs `{ranger : !MapRange} t ns :
  runs ListWorkerNodes t (Done (Ok ns)) → ∃ infos, observed t infos ∧ ns = filterNodes infos [pnot isMasterNode].
Proof.
  unfold ListWorkerNodes, ListNodes. intros H.
  apply runs_bind in H as [(t1 & t2 & [infos|e] & -> & H1 & H)|(? & ? & _)]; [| |done].
  2: by destruct H.
  apply runs_bind in H1 as [(t3 & t4 & [infos'|e] & -> & Ho & H1)|(? & ? & _)]; [| |done].
  2: by destruct H1.
  destruct H1 as [-> [= ->]], H as [-> [= ->]]. rewrite !app_nil_r. apply getNodeInfos_runs in Ho. eauto.
Qed.

Lemma filterNodes_sublist nodes predicates : filterNodes nodes predicates `sublist_of` nodes.
Proof.
  unfold filterNodes. induction nodes as [|n l IH]; simpl; [constructor|]. destruct (satisfies_all n predicates); by constructor.
Qed.

(** ** Reasons for not scaling a node down *)

Section Reasons.
Context `{sorter : !SliceSort, ranger : !MapRange, lib : !GoLib}.

(** [nodes] are the [targets] after the pods [placed] have been put onto them,
    each where it was accepted. *)
Inductive filled : list NodeInfo → list Pod → list NodeInfo → Prop :=
| filled_nil nodes : filled nodes [] nodes
| filled_cons targets i n p placed nodes :
    targets !! i = Some n → fits p n → admissible p n →
    filled (<[i := append_pod n p]> targets) placed nodes → filled targets (p :: placed) nodes.

(** Why the pods of a node cannot go to the nodes [targets]. *)
Inductive infeasible (PDBs : list PodDisruptionBudget) (pods : list Pod) (targets : list NodeInfo)
    : error → Prop :=
| infeasible_unparsed b e :
    b ∈ PDBs → LabelSelectorAsSelector (PDB_Selector b) = Err e →
    infeasible PDBs pods targets
      (ErrorString ("cannot parse label selector on PDB " +:+ Name (PDB_Meta b) +:+ ": " +:+ labelsErrorString e))
| infeasible_budget b covered :
    b ∈ PDBs → covered `sublist_of` pods →
    Forall (λ p, selector_covers (PDB_Selector b) (Labels (Pod_Meta p))) covered →
    (PodDisruptionsAllowed b < Z.of_nat (length covered))%Z →
    infeasible PDBs pods targets
      (PodDisruptionViolationError (Name (PDB_Meta b)) (Z.of_nat (length covered)) (PodDisruptionsAllowed b))
| infeasible_capacity r :
    (Res_Type r = "cpu" ∧ (sumQ (freeQ "cpu") targets < podsRequest "cpu" pods)%Q ∨
     Res_Type r = "memory" ∧ (sumQ (freeQ "memory") targets < podsRequest "memory" pods)%Q) →
    infeasible PDBs pods targets (ClusterCapacityError r)
| infeasible_unplaced placed p rest nodes ms :
    pods = placed ++ p :: rest → filled targets placed nodes →
    (∀ n, n ∈ nodes → ¬ (fits p n ∧ admissible p n)) →
    (∀ x, x ∈ ms.*1 ↔ ∃ n, n ∈ targets ∧ nodeName n = x) →
    (∀ x m, (x, m) ∈ ms → ∃ n err, n ∈ nodes ∧ nodeName n = x ∧
       first_rejection p n nodePredicates = Some err ∧ m = NodeMismatchError (podName p) x err) →
    infeasible PDBs pods targets (PodSchedulingError (podName p) ms).

(** Why a node is not a scale-down candidate, after the calls [t]. *)
Inductive rejection_reason (node : NodeInfo) : trace KubeClient → error → Prop :=
| reason_protected :
    Annotations (Node_Meta (NodeOf node)) !! NoScaleDownNodeAnnotation = Some "true" →
    rejection_reason node [] (NodeScaleDownProtectedError (nodeName node))
| reason_unread t e :
    runs getNodeInfos t (Done (Err e)) → rejection_reason node t e
| reason_local t p :
    p ∈ pods_to_evacuate node →
    (∃ v, v ∈ Volumes (Pod_Spec p) ∧ (is_Some (HostPath v) ∨ is_Some (EmptyDir v))) →
    rejection_reason node t (PodLocalStorageError (nodeName node) (podName p))
| reason_uncontrolled t p :
    p ∈ pods_to_evacuate node →
    (∀ r, r ∈ OwnerReferences (Pod_Meta p) → Controller r = Some false) →
    rejection_reason node t (PodWithoutControllerError (nodeName node) (podName p))
| reason_unlisted t1 infos e :
    observed t1 infos →
    rejection_reason node (t1 ++ [ev (I := KubeClient) (KPodDisruptionBudgets "") (Err e)])
      (ErrorString ("failed to list pod disruption budgets: " +:+ Error e))
| reason_infeasible_alone t infos :
    observed t infos → (∀ n, n ∈ infos → ¬ evacuation_target (nodeName node) n) →
    rejection_reason node t (NodeEvacuationInfeasibleError (nodeName node) NoEvacuationNodesAvailableError)
| reason_infeasible t1 infos PDBs e :
    observed t1 infos →
    (Forall wf_node (remaining_workers infos (nodeName node)) → Forall wf_pod (pods_to_evacuate node) →
     infeasible PDBs (pods_to_evacuate node) (remaining_workers infos (nodeName node)) e) →
    rejection_reason node (t1 ++ [ev (I := KubeClient) (KPodDisruptionBudgets "") (Ok PDBs)])
      (NodeEvacuationInfeasibleError (nodeName node) e).

Lemma movable_loop_Some name pods e :
  movable_loop name pods = Done (Some e) →
  ∃ p, p ∈ pods ∧
    ((e = PodLocalStorageError name (podName p) ∧
      ∃ v, v ∈ Volumes (Pod_Spec p) ∧ (is_Some (HostPath v) ∨ is_Some (EmptyDir v))) ∨
     (e = PodWithoutControllerError name (podName p) ∧
      ∀ r, r ∈ OwnerReferences (Pod_Meta p) → Controller r = Some false)).
Proof.
  induction pods as [|p ps IH]; simpl; [done|].
  destruct (hasNodeLocalStorage p) eqn:El.
  - intros [= <-]. exists p. split; [by left|]. left. split; [done|].
    unfold hasNodeLocalStorage in El. apply existsb_exists in El as (v & Hv & Ho).
    exists v. rewrite list_elem_of_In. split; [done|].
    apply orb_true_iff in Ho as [?%bool_decide_eq_true|?%bool_decide_eq_true]; auto.
  - destruct (hasController p) as [[]|] eqn:Ec; simpl; [|intros [= <-]|done].
    + intros (p' & Hp' & H)%IH. exists p'. split; [by right|done].
    + exists p. split; [by left|]. right. split; [done|]. unfold hasController in Ec.
      clear El IH. induction (OwnerReferences _) as [|r rs IHr]; simpl in *; [set_solver|].
      destruct (Controller r) as [[]|] eqn:Er; simplify_eq. intros r' [->|Hr']%elem_of_cons; auto.
Qed.

Lemma podDisruptionBudgets_Some PDBs pods e targets :
  (Z.of_nat (length pods) < 2^31)%Z →
  podDisruptionBudgetsAllowEvacuation PDBs pods = Some e → infeasible PDBs pods targets e.
Proof.
  intros Hl. induction PDBs as [|b bs IH]; simpl; [done|].
  destruct (LabelSelectorAsSelector (PDB_Selector b)) as [sel|err] eqn:Es.
  2: { intros [= <-]. eapply infeasible_unparsed; [by left|done]. }
  rewrite count_matching_spec by lia. case_match eqn:Hlt.
  - intros [= <-]. rewrite Z.add_0_l in *.
    set (covered := List.filter (λ p, Selector_Matches sel (Labels (Pod_Meta p))) pods) in *.
    apply (infeasible_budget _ _ _ b covered); [by left| | |by apply Z.ltb_lt].
    + subst covered. clear. induction pods as [|p ps IH]; simpl; [constructor|].
      destruct (Selector_Matches _ _); by constructor.
    + apply Forall_forall. intros p Hp. rewrite <- (LabelSelectorAsSelector_Matches _ _ _ Es).
      apply list_elem_of_In, filter_In in Hp. apply Hp.
  - intros H. apply IH in H. destruct H; econstructor; eauto; by right.
Qed.

Lemma schedule_loop_Some s pods e :
  Nodes s ≠ [] → Forall wf_node (Nodes s) → Forall wf_pod pods →
  schedule_loop s pods = Done (Some e) →
  ∃ placed p rest nodes ms, pods = placed ++ p :: rest ∧ filled (Nodes s) placed nodes ∧
    e = PodSchedulingError (podName p) ms ∧
    (∀ n, n ∈ nodes → ¬ (fits p n ∧ admissible p n)) ∧
    (∀ x, x ∈ ms.*1 ↔ ∃ n, n ∈ Nodes s ∧ nodeName n = x) ∧
    (∀ x m, (x, m) ∈ ms → ∃ n err, n ∈ nodes ∧ nodeName n = x ∧
       first_rejection p n nodePredicates = Some err ∧ m = NodeMismatchError (podName p) x err).
Proof.
  revert s. induction pods as [|p ps IH]; intros s Hne Hn Hp; simpl; [done|].
  apply Forall_cons in Hp as [Hp Hps]. rewrite Forall_forall in Hn.
  destruct (Schedule_meets_spec s p) as [|ms _ Hall Hk Hr|i n Hi Hf _ _|]; simpl; try done.
  - intros [= <-]. exists [], p, ps, (Nodes s), ms. split_and!; [done|constructor|done| |done|done].
    intros n Hin Hok. apply (Hall n Hin). by apply first_rejection_spec; [|apply Hn|].
  - assert (wf_node n) as Hwn by (eapply Hn, list_elem_of_lookup_2, Hi).
    assert (Hnames : nodeName <$> <[i:=append_pod n p]> (Nodes s) = nodeName <$> Nodes s).
    { rewrite list_fmap_insert. apply list_insert_id. by rewrite list_lookup_fmap, Hi. }
    intros H. apply IH in H as (placed & p' & rest & nodes & ms & -> & Hf' & -> & Hno & Hk & Hr); simpl in *.
    + apply first_rejection_spec in Hf as [Hfits Hadm]; [|done..].
      exists (p :: placed), p', rest, nodes, ms. split_and!; [done|by eapply filled_cons|done|done| |done].
      intros x. rewrite Hk. set (l := <[i:=append_pod n p]> (Nodes s)) in *.
      assert (x ∈ nodeName <$> l ↔ x ∈ nodeName <$> Nodes s) as Hx by by rewrite Hnames.
      rewrite !list_elem_of_fmap in Hx. naive_solver.
    + intros Hnil. apply Hne, length_zero_iff_nil. by rewrite <- (length_insert _ i (append_pod n p)), Hnil.
    + apply Forall_insert_elem; [by apply Forall_forall|by apply wf_append_pod].
    + done.
Qed.

Lemma verifyEvacuationFeasibility_Some PDBs pods targets e :
  targets ≠ [] → Forall wf_node targets → Forall wf_pod pods →
  verifyEvacuationFeasibility pods targets = Done (Some e) → infeasible PDBs pods targets e.
Proof.
  intros Hne Hn Hp. unfold verifyEvacuationFeasibility.
  pose proof (NewQuasiScheduler_Nodes targets None) as HN.
  destruct (VerifySchedulingViable _ pods) as [err|] eqn:Ev.
  - intros [= <-]. apply VerifySchedulingViable_Some in Ev as (r & -> & Hr); [|by rewrite HN|done].
    rewrite HN in Hr. by constructor.
  - intros H. apply schedule_loop_Some in H as (placed & p & rest & nodes & ms & -> & Hf & -> & Hno & Hk & Hr);
      rewrite ?HN in *; [by econstructor|done..].
Qed.

(** Every way a run can end, with the calls that led there. *)
Lemma IsScaleDownCandidate_inv node t b oe :
  (Z.of_nat (length (Pods node)) < 2^31)%Z →
  runs (IsScaleDownCandidate node) t (Done (b, oe)) →
  (b = false ∧ ∃ e, oe = Some e ∧ rejection_reason node t e) ∨
  (b = true ∧ oe = None ∧ ∃ t1 infos PDBs,
     t = t1 ++ [ev (I := KubeClient) (KPodDisruptionBudgets "") (Ok PDBs)] ∧ observed t1 infos ∧
     Annotations (Node_Meta (NodeOf node)) !! NoScaleDownNodeAnnotation ≠ Some "true" ∧
     remaining_workers infos (nodeName node) ≠ [] ∧
     movable_loop (nodeName node) (pods_to_evacuate node) = Done None ∧
     podDisruptionBudgetsAllowEvacuation PDBs (pods_to_evacuate node) = None ∧
     verifyEvacuationFeasibility (pods_to_evacuate node) (remaining_workers infos (nodeName node)) = Done None).
Proof.
  intros Hlen H. assert (Hl : (Z.of_nat (length (pods_to_evacuate node)) < 2^31)%Z).
  { pose proof (filter_loop_length [isNonSystemPod; isActivePod] (Pods node)).
    unfold pods_to_evacuate, filterPods. lia. }
  unfold IsScaleDownCandidate in H.
  destruct (String.eqb_spec (default "" (Annotations (Node_Meta (NodeOf node)) !! NoScaleDownNodeAnnotation)) "true")
    as [Ea|Ea].
  { destruct H as [-> [= -> ->]]. left. split; [done|]. eexists. split; [done|]. constructor.
    destruct (_ !! _); simplify_eq/=; done. }
  apply runs_bind in H as [(t1 & t2 & [infos|e] & -> & Ho & H)|(? & ? & _)]; [| |done].
  2: { destruct H as [-> [= -> ->]]. left. rewrite app_nil_r. split; [done|]. eexists. split; [done|].
       by apply reason_unread. }
  apply getNodeInfos_runs in Ho.
  destruct (Nat.eqb_spec (length (remaining_workers infos (nodeName node))) 0) as [E0|E0].
  { destruct H as [-> [= -> ->]]. left. rewrite app_nil_r. split; [done|]. eexists. split; [done|].
    apply (reason_infeasible_alone _ _ infos); [done|]. intros n Hn Ht.
    apply length_zero_iff_nil in E0. assert (n ∈ @nil NodeInfo) as Hx; [|by apply not_elem_of_nil in Hx].
    rewrite <- E0. by apply elem_of_remaining_workers. }
  assert (Hne : remaining_workers infos (nodeName node) ≠ []) by (intros Hx; by rewrite Hx in E0).
  apply runs_bind in H as [(t3 & t4 & oe1 & -> & Hm & H)|(? & ? & _)]; [|done].
  apply runs_pure in Hm as [-> Hm]. destruct oe1 as [e1|].
  { destruct H as [-> [= -> ->]]. left. split; [done|]. exists e1. split; [done|].
    symmetry in Hm. apply movable_loop_Some in Hm as (p & Hp & [[-> Hv]|[-> Hr]]);
      [by apply reason_local|by apply reason_uncontrolled]. }
  simpl in H. destruct H as (r & t5 & -> & H). destruct r as [PDBs|e1].
  2: { destruct H as [-> [= -> ->]]. left. split; [done|]. eexists. split; [done|]. by eapply reason_unlisted. }
  destruct (podDisruptionBudgetsAllowEvacuation PDBs (pods_to_evacuate node)) as [e1|] eqn:Eb.
  { destruct H as [-> [= -> ->]]. left. split; [done|]. eexists. split; [done|].
    apply (reason_infeasible _ _ infos); [done|]. intros _ _. by apply podDisruptionBudgets_Some. }
  apply runs_bind in H as [(t6 & t7 & oe1 & -> & Hv & H)|(? & ? & _)]; [|done].
  apply runs_pure in Hv as [-> Hv]. destruct oe1 as [e1|].
  { destruct H as [-> [= -> ->]]. left. split; [done|]. eexists. split; [done|].
    apply (reason_infeasible _ _ infos); [done|]. intros. by apply verifyEvacuationFeasibility_Some. }
  destruct H as [-> [= -> ->]]. right. split; [done|]. split; [done|]. exists t1, infos, PDBs.
  split_and!; try done. intros Hx. by rewrite Hx in Ea.
Qed.

(** [node] was safe to scale down with respect to the cluster read by [t]: it
    is not protected by the annotation; there is a ready, schedulable non-master
    node other than it; every active non-system pod on it has a controller and
    no node-local storage; no pod disruption budget covers more of these pods
    than it allows to be disrupted; and all of them can be distributed over
    those other nodes without over-committing any node that receives pods and
    respecting taints, node selectors and node affinity. *)
Definition safe_to_remove (node : NodeInfo) (t : trace KubeClient) : Prop :=
  ∃ t1 infos PDBs targets,
    t = t1 ++ [ev (I := KubeClient) (KPodDisruptionBudgets "") (Ok PDBs)] ∧
    observed t1 infos ∧
    (∀ n, n ∈ targets ↔ n ∈ infos ∧ evacuation_target (nodeName node) n) ∧ targets ≠ [] ∧
    Annotations (Node_Meta (NodeOf node)) !! NoScaleDownNodeAnnotation ≠ Some "true" ∧
    (∀ p, p ∈ pods_to_evacuate node ↔ p ∈ Pods node ∧ evictable_pod p) ∧
    Forall movable (pods_to_evacuate node) ∧
    within_budgets PDBs (pods_to_evacuate node) ∧
    (Forall wf_node targets → feasible targets (pods_to_evacuate node)).

Lemma approved_is_safe node t oe :
  (Z.of_nat (length (Pods node)) < 2^31)%Z → Forall wf_pod (Pods node) →
  runs (IsScaleDownCandidate node) t (Done (true, oe)) → safe_to_remove node t.
Proof.
  intros Hlen Hwf H. apply IsScaleDownCandidate_inv in H as [(? & _)|H]; [done| |done].
  destruct H as (_ & _ & t1 & infos & PDBs & -> & Ho & Ha & Hne & Hm & Hb & Hv).
  exists t1, infos, PDBs, (remaining_workers infos (nodeName node)). split_and!; try done.
  - intros n. apply elem_of_remaining_workers.
  - intros p. apply elem_of_pods_to_evacuate.
  - by eapply movable_loop_None.
  - apply podDisruptionBudgets_None; [|done].
    pose proof (filter_loop_length [isNonSystemPod; isActivePod] (Pods node)).
    unfold pods_to_evacuate, filterPods. lia.
  - intros Hn. apply verifyEvacuationFeasibility_feasible; [done| |done].
    rewrite Forall_forall in Hwf |- *. intros p [Hp _]%elem_of_pods_to_evacuate. by apply Hwf.
Qed.
End Reasons.

(** ** Draining *)

Definition has_drain_taint (n : Node) : Prop :=
  ∃ t, t ∈ Taints (Node_Spec n) ∧ Taint_Key t = NodeAboutToBeDrainedTaint.

(** The taint that keeps new pods away. *)
Definition drain_taint (now : Z) : Taint :=
  MkTaint NodeAboutToBeDrainedTaint "true" TaintEffectNoSchedule now.

Definition without_drain_taints (ts : list Taint) : list Taint :=
  List.filter (λ t, negb (is_drain_taint t)) ts.

Definition evicted (p : Pod) : event KubeClient := ev (I := KubeClient) (KEvictPod (eviction_of p)) None.

(** Calls after which the node carries the drain taint: it was found tainted,
    or an update adding the taint to a fresh copy of the node was accepted. *)
Inductive tainting (name : string) : trace KubeClient → Prop :=
| already_tainted fresh :
    has_drain_taint fresh →
    tainting name [ev (I := KubeClient) (KGetNode name) (Ok fresh)]
| now_tainted fresh now :
    ¬ has_drain_taint fresh →
    tainting name
      [ev (I := KubeClient) (KGetNode name) (Ok fresh); ev (I := KubeClient) KTimeNow now;
       ev (I := KubeClient) (KUpdateNode (set_taints fresh (Taints (Node_Spec fresh) ++ [drain_taint now]))) None].

(** Calls that failed to taint the node. *)
Inductive tainting_failed (name : string) : trace KubeClient → Prop :=
| taint_no_node e : tainting_failed name [ev (I := KubeClient) (KGetNode name) (Err e)]
| taint_refused fresh now e :
    ¬ has_drain_taint fresh →
    tainting_failed name
      [ev (I := KubeClient) (KGetNode name) (Ok fresh); ev (I := KubeClient) KTimeNow now;
       ev (I := KubeClient) (KUpdateNode (set_taints fresh (Taints (Node_Spec fresh) ++ [drain_taint now]))) (Some e)].

(** Calls that take the drain taints off a fresh copy of the node, keeping the
    others in order ([r] is the answer to the update). *)
Inductive untainting (name : string) : trace KubeClient → Prop :=
| untaint_no_node e : untainting name [ev (I := KubeClient) (KGetNode name) (Err e)]
| untaint fresh r :
    untainting name
      [ev (I := KubeClient) (KGetNode name) (Ok fresh);
       ev (I := KubeClient) (KUpdateNode (set_taints fresh (without_drain_taints (Taints (Node_Spec fresh))))) r].

(** The runs of a drain. *)
Inductive drain_spec (node : NodeInfo) : trace KubeClient → option error → Prop :=
| drain_untainted t e :
    tainting_failed (nodeName node) t → drain_spec node t (Some e)
| drained t :
    tainting (nodeName node) t →
    drain_spec node (t ++ map evicted (pods_to_evacuate node)) None
| drain_rolled_back t done p rest err t' e :
    tainting (nodeName node) t →
    pods_to_evacuate node = done ++ p :: rest →
    untainting (nodeName node) t' →
    drain_spec node
      (t ++ map evicted done ++ [ev (I := KubeClient) (KEvictPod (eviction_of p)) (Some err)] ++ t') (Some e).

Section DrainFacts.
Context `{sorter : !SliceSort, ranger : !MapRange, lib : !GoLib}.

Lemma existsb_drain_taint n : existsb is_drain_taint (Taints (Node_Spec n)) = true ↔ has_drain_taint n.
Proof.
  rewrite existsb_exists. unfold has_drain_taint, is_drain_taint.
  setoid_rewrite String.eqb_eq. by setoid_rewrite list_elem_of_In.
Qed.

Lemma markUnschedulable_runs node t r :
  runs (markUnschedulable node) t (Done r) →
  (r = None ∧ tainting (nodeName node) t) ∨ (∃ e, r = Some e ∧ tainting_failed (nodeName node) t).
Proof.
  unfold markUnschedulable. intros H. simpl in H. destruct H as ([fresh|e] & t' & -> & H).
  2: { destruct H as [-> [= ->]]. right. eexists. split; [done|]. constructor. }
  pose proof (existsb_drain_taint fresh) as Hd. destruct (existsb _ _).
  { destruct H as [-> [= ->]]. left. split; [done|]. constructor. by apply Hd. }
  assert (¬ has_drain_taint fresh) by (rewrite <- Hd; done).
  simpl in H. destruct H as (now & t1 & -> & [e|] & t2 & -> & H); destruct H as [-> [= ->]].
  - right. eexists. split; [done|]. by constructor.
  - left. split; [done|]. by constructor.
Qed.

Lemma markSchedulable_runs node t r : runs (markSchedulable node) t (Done r) → untainting (nodeName node) t.
Proof.
  unfold markSchedulable. intros H. simpl in H. destruct H as ([fresh|e] & t' & -> & H).
  - simpl in H. destruct H as ([e|] & t1 & -> & H); destruct H as [-> _]; constructor.
  - destruct H as [-> _]. constructor.
Qed.

Lemma run_deferred_quiet node deferred t r :
  Forall (λ e, e = None) deferred → runs (run_deferred node deferred) t (Done r) → t = [].
Proof. induction 1 as [|e l -> _ IH]; simpl; [by intros []|done]. Qed.

Lemma no_panic_markSchedulable node : no_panic (markSchedulable node).
Proof. unfold markSchedulable. prog_walk. Qed.

Lemma no_panic_run_deferred node deferred : no_panic (run_deferred node deferred).
Proof.
  pose proof no_panic_markSchedulable. induction deferred as [|[e|] l IH]; cbn [run_deferred]; prog_walk.
Qed.

(** The eviction loop: all pods in order, or up to the first refusal and then
    one rollback. *)
Lemma drain_loop_runs node pods deferred t r :
  Forall (λ e, e = None) deferred →
  runs (drain_loop node pods deferred) t (Done r) →
  (r = None ∧ t = map evicted pods) ∨
  (∃ done p rest err t' e, r = Some e ∧ pods = done ++ p :: rest ∧
     untainting (nodeName node) t' ∧
     t = map evicted done ++ [ev (I := KubeClient) (KEvictPod (eviction_of p)) (Some err)] ++ t').
Proof.
  revert deferred t. induction pods as [|p ps IH]; intros deferred t Hd H; cbn [drain_loop] in H.
  { apply runs_bind in H as [(t1 & t2 & [] & -> & H1 & [-> [= ->]])|(? & ? & _)]; [|done].
    left. apply run_deferred_quiet in H1 as ->; done. }
  apply runs_bind in H as [(t0 & t' & r0 & -> & (r1 & -> & [= ->])%runs_invoke & H)|(? & ? & _)]; [|done].
  destruct r1 as [err|]; simpl app.
  - right. cbn [run_deferred] in H.
    apply runs_bind in H as [(t1 & t2 & [] & -> & H1 & [-> [= ->]])|(? & ? & _)]; [|done].
    apply runs_bind in H1 as [(t3 & t4 & r' & -> & Hm & H1)|(? & ? & _)]; [|done].
    apply run_deferred_quiet in H1 as ->; [|done]. apply markSchedulable_runs in Hm.
    exists [], p, ps, err, t3. eexists. rewrite !app_nil_r. by split_and!.
  - apply IH in H as [[-> ->]|(done & p' & rest & err & t1 & e & -> & -> & Hu & ->)]; [by left| |by constructor].
    right. exists (p :: done), p', rest, err, t1, e. by split_and!.
Qed.

Lemma DrainNode_runs node t r : runs (DrainNode node) t (Done r) → drain_spec node t r.
Proof.
  unfold DrainNode. intros H.
  apply runs_bind in H as [(t1 & t2 & r1 & -> & Hm & H)|(? & ? & _)]; [|done].
  apply markUnschedulable_runs in Hm as [[-> Ht]|(e & -> & Hf)].
  - apply drain_loop_runs in H as [[-> ->]|(done & p & rest & err & t' & e & -> & Hp & Hu & ->)]; [| |constructor].
    + by constructor.
    + by eapply drain_rolled_back.
  - destruct H as [-> [= ->]]. rewrite app_nil_r. by constructor.
Qed.

Lemma no_panic_DrainNode node : no_panic (DrainNode node).
Proof.
  pose proof no_panic_run_deferred.
  assert (∀ pods deferred, no_panic (drain_loop node pods deferred)).
  { induction pods as [|p ps IH]; intros deferred; cbn [drain_loop]; prog_walk. }
  unfold DrainNode, markUnschedulable. prog_walk.
Qed.

(** Draining deletes no node and evicts no pod of the system namespace. *)
Definition drain_call (c : kube_call) : Prop :=
  match c with KDeleteNode _ => False | KEvictPod e => Evict_Namespace e ≠ KubeSystemNS | _ => True end.

Lemma DrainNode_calls node : calls_only (I := KubeClient) drain_call (DrainNode node).
Proof.
  assert (∀ ds, calls_only (I := KubeClient) drain_call (run_deferred node ds)) as Hd.
  { induction ds as [|[e|] ds IH]; cbn [run_deferred]; unfold markSchedulable; prog_walk. }
  assert (∀ pods deferred, Forall (λ p, podNamespace p ≠ KubeSystemNS) pods →
    calls_only (I := KubeClient) drain_call (drain_loop node pods deferred)) as Hl.
  { induction pods as [|p ps IH]; intros deferred Hp; cbn [drain_loop]; [prog_walk|]. apply Forall_cons in Hp as [Hp Hps].
    split; [exact Hp|]. intros [e|]; [|by apply IH]. prog_walk. }
  unfold DrainNode. apply calls_only_bind; [unfold markUnschedulable; prog_walk|]. intros [e|]; [done|]. apply Hl.
  apply Forall_forall. intros p Hp. unfold pods_to_evacuate, filterPods in Hp.
  apply elem_of_filter_loop in Hp as [_ [Hn _]%Forall_cons]. unfold isNonSystemPod in Hn.
  by apply negb_true_iff, String.eqb_neq in Hn.
Qed.
End DrainFacts.

(** ** An API server that stores nodes *)

(** What the drain relies on: a stored node is returned, an accepted update is
    stored under the node's name and touches no other node, and reading the
    clock changes nothing. *)
Class NodeStore (S : Type) : Type := {
  answer : ∀ c : kube_call, S → kube_reply c * S;
  stored : S → string → option Node;
  get_stored : ∀ s name n, stored s name = Some n → answer (KGetNode name) s = (Ok n, s);
  update_stored : ∀ s n s', answer (KUpdateNode n) s = (None, s') →
    ∀ name, stored s' name = if String.eqb name (Name (Node_Meta n)) then Some n else stored s name;
  clock_keeps : ∀ s name, stored (answer KTimeNow s).2 name = stored s name }.

(** A store in memory that accepts every update and has a constant clock. *)
#[export] Instance memory_store : NodeStore (gmap string Node).
Proof.
  refine {| answer := λ c s,
              match c with
              | KListNodes => (Ok (map_to_list s).*2, s)
              | KGetNode name => (match s !! name with Some n => Ok n | None => Err (ErrorString "not found") end, s)
              | KUpdateNode n => (None, <[Name (Node_Meta n) := n]> s)
              | KDeleteNode n => (None, delete (Name (Node_Meta n)) s)
              | KListPods _ _ => (Ok [], s)
              | KEvictPod _ => (None, s)
              | KPodDisruptionBudgets _ => (Ok [], s)
              | KTimeNow => (0%Z, s)
              end;
            stored := λ s name, s !! name |}.
  - intros s name n Hn. by rewrite Hn.
  - intros s n s' [= <-] name. destruct (String.eqb_spec name (Name (Node_Meta n))) as [->|Hne].
    + by rewrite lookup_insert_eq.
    + by rewrite lookup_insert_ne.
  - done.
Defined.

Lemma without_drain_taints_id n :
  ¬ has_drain_taint n → without_drain_taints (Taints (Node_Spec n)) = Taints (Node_Spec n).
Proof.
  intros Hn. unfold without_drain_taints, has_drain_taint in *.
  induction (Taints _) as [|t ts IH]; simpl; [done|].
  unfold is_drain_taint at 1. destruct (String.eqb_spec (Taint_Key t) NodeAboutToBeDrainedTaint); simpl.
  - exfalso. apply Hn. exists t. split; [by left|done].
  - rewrite IH; [done|]. intros (t' & ? & ?). apply Hn. exists t'. split; [by right|done].
Qed.

Lemma set_taints_twice n ts1 ts2 : set_taints (set_taints n ts1) ts2 = set_taints n ts2.
Proof. done. Qed.

Lemma set_taints_id n : set_taints n (Taints (Node_Spec n)) = n.
Proof. by destruct n as [? [] ?]. Qed.

(** ** Claims *)

Section NodeScalerClaims.
Context `{sorter : !SliceSort, ranger : !MapRange, lib : !GoLib}.

(** C5. A node that [IsScaleDownCandidate] approves is safe to scale down with
    respect to the cluster it read: the node is not protected by the
    annotation; there is a ready, schedulable non-master node other than it;
    every active non-system pod on it has a controller and no node-local
    storage; no pod disruption budget covers more of these pods than it allows
    to be disrupted; and all of them can be distributed over those other nodes
    without over-committing any node that receives pods and respecting taints,
    node selectors and node affinity ([safe_to_remove]). *)
Theorem scale_down_candidate_is_safe (node : NodeInfo) (t : trace KubeClient) (oe : option error) :
  (Z.of_nat (length (Pods node)) < 2^31)%Z → Forall wf_pod (Pods node) →
  runs (IsScaleDownCandidate node) t (Done (true, oe)) → safe_to_remove node t.
Proof. apply approved_is_safe. Qed.

(** C6. For a node with fewer than 2^31 pods, a rejection carries an error, and
    the error is true of what was read: the annotation is set; the nodes or the
    disruption budgets could not be read, and the error says with what; no
    other node is available; the named pod has a local volume or no
    controller; the selector of the named budget does not parse; the named
    budget covers more pods of the node than it allows; or, when the quantities
    read are well-formed, the free CPU or memory of the other nodes is smaller
    than what the pods request, or the named pod has a place on none of them:
    after the pods before it were put onto nodes that accept them, every node
    lacks the room for it or is refused by the scheduler's other tests, and the
    error names exactly these nodes, each with the first test that failed there.
    Approval carries no error. *)
Theorem candidate_verdict_is_justified (node : NodeInfo) (t : trace KubeClient) (b : bool) (oe : option error) :
  (Z.of_nat (length (Pods node)) < 2^31)%Z →
  runs (IsScaleDownCandidate node) t (Done (b, oe)) →
  if b then oe = None else ∃ e, oe = Some e ∧ rejection_reason node t e.
Proof. intros Hl H. apply IsScaleDownCandidate_inv in H as [(-> & H)|(-> & -> & _)]; done. Qed.

(** Deciding on a node and listing the worker nodes change nothing: in
    every run, also one that fails or panics, no call updates or deletes a node
    or evicts a pod. *)
Theorem decisions_are_read_only (node : NodeInfo) (t : trace KubeClient) :
  (∃ o, runs (IsScaleDownCandidate node) t o) ∨ (∃ o, runs ListWorkerNodes t o) →
  Forall (λ e : event KubeClient, kube_mutates (projT1 e) = false) t.
Proof.
  intros [[o H]|[o H]]; (eapply calls_only_runs in H; [exact H|]);
    [apply IsScaleDownCandidate_reads|apply ListWorkerNodes_reads].
Qed.

(** C8. Every run of [DrainNode] returns (it cannot panic) and is one of three:
    the drain taint could not be set and nothing was evicted; the node carries
    the taint and then every active non-system pod was evicted, in order; or
    the evictions up to a refused one were made and then, once, the drain
    taints were taken off a fresh copy of the node.  It succeeds only in the
    second case, and it never deletes a node. *)
Theorem drain_taints_evicts_or_rolls_back (node : NodeInfo) (t : trace KubeClient) (o : outcome (option error)) :
  runs (DrainNode node) t o → ∃ r, o = Done r ∧ drain_spec node t r.
Proof.
  intros H. destruct o as [r|m]; [|by apply no_panic_runs in H; [|apply no_panic_DrainNode]].
  exists r. split; [done|]. by apply DrainNode_runs.
Qed.

(** [ListWorkerNodes] returns, in the order of the API server, the nodes it
    read except the masters, i.e. those that run an API server pod in the
    system namespace. *)
Theorem worker_nodes_are_non_masters (t : trace KubeClient) (ns : list NodeInfo) :
  runs ListWorkerNodes t (Done (Ok ns)) →
  ∃ infos, observed t infos ∧ ns `sublist_of` infos ∧
    ∀ n, n ∈ ns ↔ n ∈ infos ∧ ¬ runs_apiserver n.
Proof.
  intros (infos & Ho & ->)%ListWorkerNodes_runs. exists infos. split; [done|]. split; [apply filterNodes_sublist|].
  intros n. unfold filterNodes. rewrite elem_of_filter_loop, Forall_cons, Forall_nil.
  unfold pnot. rewrite negb_true_iff, <- isMasterNode_spec, not_true_iff_false. naive_solver.
Qed.

(** C29. Tainting and then untainting a node that did not carry the drain taint
    leaves every stored node as it was, for any API server that stores nodes
    and accepts the two updates. *)
Theorem taint_roundtrip {S} `{!NodeStore S} (s s1 s2 : S) (node : NodeInfo) (n : Node) t1 t2 :
  stored s (nodeName node) = Some n → Name (Node_Meta n) = nodeName node → ¬ has_drain_taint n →
  serve (I := KubeClient) answer s (markUnschedulable node) = (t1, Done None, s1) →
  serve (I := KubeClient) answer s1 (markSchedulable node) = (t2, Done None, s2) →
  ∀ name, stored s2 name = stored s name.
Proof.
  intros Hs Hname Hno H1 H2 name. unfold markUnschedulable, markSchedulable in *. simpl in H1, H2.
  rewrite (get_stored s _ n Hs) in H1.
  destruct (existsb is_drain_taint (Taints (Node_Spec n))) eqn:Ed; [by apply existsb_drain_taint in Ed|].
  simpl in H1. pose proof (clock_keeps s) as Hc. destruct (answer KTimeNow s) as [now s0]. simpl in Hc.
  set (m := set_taints n (Taints (Node_Spec n) ++ [MkTaint NodeAboutToBeDrainedTaint "true" TaintEffectNoSchedule now])) in *.
  destruct (answer (KUpdateNode m) s0) as [[e|] s0'] eqn:Eu; simpl in H1; simplify_eq.
  pose proof (update_stored _ _ _ Eu) as Hu. simpl in Hu. rewrite Hname in Hu.
  assert (Hm : stored s1 (nodeName node) = Some m) by by rewrite Hu, String.eqb_refl.
  rewrite (get_stored s1 _ m Hm) in H2.
  assert (Hn : set_taints m (List.filter (λ t, negb (is_drain_taint t)) (Taints (Node_Spec m))) = n).
  { pose proof (without_drain_taints_id n Hno) as Hid. unfold without_drain_taints in Hid.
    subst m. simpl. rewrite List.filter_app, Hid. simpl. rewrite app_nil_r, set_taints_twice. apply set_taints_id. }
  rewrite Hn in H2. simpl in H2.
  destruct (answer (KUpdateNode n) s1) as [[e|] s1'] eqn:Eu'; simpl in H2; simplify_eq.
  rewrite (update_stored _ _ _ Eu'), Hu, Hname, Hc.
  destruct (String.eqb_spec name (nodeName node)) as [->|]; done.
Qed.

(** A pod with an owner reference whose optional [controller] field is
    absent makes [IsScaleDownCandidate] panic: if such a pod comes first among
    the pods to evacuate of an unprotected node, every run that finds another
    node to evacuate to ends in a nil dereference. *)
Theorem absent_controller_field_panics (node : NodeInfo) (t : trace KubeClient) (infos : list NodeInfo)
    (p : Pod) (rest : list Pod) (r : OwnerReference) (refs : list OwnerReference) :
  Annotations (Node_Meta (NodeOf node)) !! NoScaleDownNodeAnnotation ≠ Some "true" →
  pods_to_evacuate node = p :: rest → hasNodeLocalStorage p = false →
  OwnerReferences (Pod_Meta p) = r :: refs → Controller r = None →
  observed t infos → remaining_workers infos (nodeName node) ≠ [] →
  ∃ msg, runs (IsScaleDownCandidate node) t (Panicked msg).
Proof.
  intros Ha Hp Hl Hr Hc Ho Hne. eexists. unfold IsScaleDownCandidate.
  destruct (String.eqb_spec (default "" (Annotations (Node_Meta (NodeOf node)) !! NoScaleDownNodeAnnotation)) "true")
    as [Ea|_].
  { destruct (_ !! _); simplify_eq/=; done. }
  apply runs_bind. left. exists t, [], (Ok infos). rewrite app_nil_r. split; [done|].
  split; [by apply getNodeInfos_runs|]. destruct (remaining_workers _ _) as [|n ns]; [done|]. simpl.
  rewrite Hp. simpl. rewrite Hl. unfold hasController. rewrite Hr. simpl. rewrite Hc. done.
Qed.
End NodeScalerClaims.

(** ** Witnesses *)

#[local] Existing Instance map_to_list_range.
#[local] Existing Instance insertion_sort.

(** A cluster that holds the given nodes and budgets and accepts every change. *)
Definition cluster_answer (infos : list NodeInfo) (PDBs : list PodDisruptionBudget) (c : kube_call) : kube_reply c :=
  match c with
  | KListNodes => Ok (map NodeOf infos)
  | KGetNode name =>
      match List.find (hasNodeName name) infos with Some i => Ok (NodeOf i) | None => Err (ErrorString "not found") end
  | KUpdateNode _ => None
  | KDeleteNode _ => None
  | KListPods _ sel =>
      Ok (concat (map (λ i, if String.eqb (FieldSelector sel) (FieldSelector (node_name_selector (nodeName i)))
                            then Pods i else []) infos))
  | KEvictPod _ => None
  | KPodDisruptionBudgets _ => Ok PDBs
  | KTimeNow => 0%Z
  end.

Definition cluster_env (infos : list NodeInfo) (PDBs : list PodDisruptionBudget) : env KubeClient :=
  λ _ c, cluster_answer infos PDBs c.

(** The nodes of the scheduler's sample, with a budget for their pods. *)
Definition sample_budget (allowed : Z) : PodDisruptionBudget :=
  MkPodDisruptionBudget (sample_meta "budget" "default" ∅ false)
    (Some (MkLabelSelector {[ "app" := "web" ]} [])) allowed.
Definition sample_victim : NodeInfo := sample_node "n2" "i-2" 2000 4000 [sample_pod "b" 500 1000].
Definition sample_cluster : env KubeClient := cluster_env sample_nodes [sample_budget 1].

Lemma sample_victim_pods_wf : Forall wf_pod (Pods sample_victim).
Proof. constructor; [apply sample_pod_wf; unfold MaxInt64; lia|constructor]. Qed.

Lemma scale_down_candidate_is_safe_witness :
  ∃ targets, targets ≠ [] ∧ Forall movable (pods_to_evacuate sample_victim) ∧
    (Forall wf_node targets → feasible targets (pods_to_evacuate sample_victim)).
Proof.
  assert (E : (exec sample_cluster [] (IsScaleDownCandidate (lib := plain_lib) sample_victim)).2 = Done (true, None))
    by (vm_compute; reflexivity).
  pose proof (exec_runs sample_cluster (IsScaleDownCandidate (lib := plain_lib) sample_victim) []) as H.
  rewrite E in H.
  destruct (scale_down_candidate_is_safe (lib := plain_lib) sample_victim _ _ ltac:(simpl; lia) sample_victim_pods_wf H)
    as (t1 & infos & PDBs & targets & _ & _ & _ & Hne & _ & _ & Hm & _ & Hf).
  exists targets. split; [exact Hne|]. split; [exact Hm|exact Hf].
Defined.

Lemma candidate_verdict_is_justified_witness :
  ∃ t e, rejection_reason (lib := plain_lib) sample_victim t (NodeEvacuationInfeasibleError "n2" e).
Proof.
  assert (E : match (exec (cluster_env sample_nodes [sample_budget 0]) []
                 (IsScaleDownCandidate (lib := plain_lib) sample_victim)).2 with
              | Done (false, Some (NodeEvacuationInfeasibleError n _)) => n = "n2" | _ => False end)
    by (vm_compute; reflexivity).
  pose proof (exec_runs (cluster_env sample_nodes [sample_budget 0])
    (IsScaleDownCandidate (lib := plain_lib) sample_victim) []) as H.
  destruct ((exec (cluster_env sample_nodes [sample_budget 0]) []
                 (IsScaleDownCandidate (lib := plain_lib) sample_victim)).2) as [[b oe]|m]; [|destruct E].
  pose proof (candidate_verdict_is_justified (lib := plain_lib) sample_victim _ b oe ltac:(simpl; lia) H) as Hj.
  destruct b; [destruct E|]. destruct Hj as (e & -> & Hr).
  destruct e; try contradiction. rewrite E in Hr. eauto.
Defined.

Lemma decisions_are_read_only_witness :
  Forall (λ e : event KubeClient, kube_mutates (projT1 e) = false)
    (exec sample_cluster [] (IsScaleDownCandidate (lib := plain_lib) sample_victim)).1.
Proof.
  apply (decisions_are_read_only (lib := plain_lib) sample_victim). left. eexists. apply exec_runs.
Defined.

Lemma drain_taints_evicts_or_rolls_back_witness :
  drain_spec sample_victim (exec sample_cluster [] (DrainNode sample_victim)).1 None.
Proof.
  destruct (drain_taints_evicts_or_rolls_back sample_victim _ _
    (exec_runs sample_cluster (DrainNode sample_victim) [])) as (r & Hr & Hd).
  assert ((exec sample_cluster [] (DrainNode sample_victim)).2 = Done None) as E
    by (vm_compute; reflexivity).
  rewrite E in Hr. injection Hr as <-. exact Hd.
Defined.

Lemma worker_nodes_are_non_masters_witness : ∃ infos ns : list NodeInfo, ns `sublist_of` infos ∧ length ns = 3%nat.
Proof.
  pose proof (exec_runs sample_cluster (ListWorkerNodes) []) as H.
  assert (match (exec sample_cluster [] (ListWorkerNodes)).2 with
          | Done (Ok ns) => length ns = 3%nat | _ => False end) as E by (vm_compute; reflexivity).
  destruct ((exec sample_cluster [] (ListWorkerNodes)).2) as [[ns|]|]; [|destruct E..].
  destruct (worker_nodes_are_non_masters _ ns H) as (infos & _ & Hs & _).
  exists infos, ns. split; [exact Hs|exact E].
Defined.

Lemma taint_roundtrip_witness :
  ∃ s2 : gmap string Node,
    ∀ name, stored s2 name = stored ({[ "n2" := NodeOf sample_victim ]} : gmap string Node) name.
Proof.
  pose (s := ({[ "n2" := NodeOf sample_victim ]} : gmap string Node)).
  pose (x := serve (I := KubeClient) answer s (markUnschedulable sample_victim)).
  pose (y := serve (I := KubeClient) answer x.2 (markSchedulable sample_victim)).
  exists y.2.
  apply (taint_roundtrip s x.2 y.2 sample_victim (NodeOf sample_victim) x.1.1 y.1.1).
  - reflexivity.
  - reflexivity.
  - intros (t & Ht & _). exact (not_elem_of_nil _ Ht).
  - vm_compute. reflexivity.
  - vm_compute. reflexivity.
Defined.

(** A node whose pod has an owner reference without the optional field. *)
Definition unset_controller_pod : Pod :=
  MkPod (MkObjectMeta "p" "default" ∅ ∅ [MkOwnerReference "Custom" "owner" None] None)
    (MkPodSpec [] [] ∅ [] None) "Running".
Definition unset_controller_node : NodeInfo := sample_node "n9" "i-9" 2000 4000 [unset_controller_pod].

Lemma absent_controller_field_panics_witness :
  ∃ t msg, runs (IsScaleDownCandidate (lib := plain_lib) unset_controller_node) t (Panicked msg).
Proof.
  assert (runs getNodeInfos (exec sample_cluster [] getNodeInfos).1 (Done (Ok sample_nodes))) as H.
  { assert ((exec sample_cluster [] getNodeInfos).2 = Done (Ok sample_nodes)) as E by (vm_compute; reflexivity).
    rewrite <- E. apply exec_runs. }
  eexists. eapply (absent_controller_field_panics (lib := plain_lib) unset_controller_node _ sample_nodes
    unset_controller_pod [] (MkOwnerReference "Custom" "owner" None) []); try reflexivity.
  - vm_compute. discriminate.
  - apply getNodeInfos_runs. exact H.
  - vm_compute. discriminate.
Defined.
