(* ===== verification/CloudPool.v ===== *)
(** * pkg/cloudpool/types.go and functions.go: messages and machine predicates

    The machines and messages of the cloudpool REST API, the validation of the
    two messages the proxy accepts, their JSON encodings with the [String]
    methods that print them, and the predicates on machines.  A slice is [None]
    when it is nil, which is printed as null. *)
From stdpp Require Import base tactics list strings gmap pretty.
From Stdlib Require Import ZArith Lia Ascii.
From S2P Require Import Prelude Strconv KubeTypes Json JsonIndent Time NodeScaler.

Local Open Scope string_scope.

Definition MachineStateRequested : string := "REQUESTED".
Definition MachineStateRejected : string := "REJECTED".
Definition MachineStatePending : string := "PENDING".
Definition MachineStateRunning : string := "RUNNING".
Definition MachineStateTerminating : string := "TERMINATING".
Definition MachineStateTerminated : string := "TERMINATED".

Record MembershipStatus : Type := MkMembershipStatus { Active : bool; Evictable : bool }.

Record Machine : Type := MkMachine {
  ID : string;
  MachineState : string;
  Membership : MembershipStatus;
  ServiceState : string;
  CloudProvider : string;
  Region : string;
  MachineSize : string;
  RequestTime : option Time;
  LaunchTime : option Time;
  PublicIPs : option (list string);
  PrivateIPs : option (list string);
  Metadata : option json }.

Record MachinePoolMessage : Type := MkMachinePoolMessage {
  MachinesSlice : option (list Machine);
  Pool_Timestamp : Time }.

(** The machines a loop over the slice sees. *)
Definition Machines (p : MachinePoolMessage) : list Machine := default [] (MachinesSlice p).

Record PoolSizeMessage : Type := MkPoolSizeMessage {
  Size_Timestamp : Time;
  Size_DesiredSize : Z;
  Size_Allocated : Z;
  Size_Active : Z }.

Record SetDesiredSizeMessage : Type := MkSetDesiredSizeMessage { DesiredSize : option Z }.

Record TerminateMachineMessage : Type := MkTerminateMachineMessage {
  MachineID : string;
  DecrementDesiredSize : bool }.

Definition SetDesiredSizeMessage_Validate (s : SetDesiredSizeMessage) : option error :=
  match DesiredSize s with
  | None => Some (ErrorString "setDesiredSize message did not specify a desiredSize")
  | Some n =>
      if (n <? 0)%Z then Some (ErrorString "setDesiredSize message: desiredSize must be non-negative")
      else None
  end.

Definition TerminateMachineMessage_Validate (t : TerminateMachineMessage) : option error :=
  if String.eqb (MachineID t) "" then Some (ErrorString "terminateMachine message did not specify a machineId")
  else None.

(** ** Encodings *)

Definition SetDesiredSizeMessage_json (s : SetDesiredSizeMessage) : json :=
  JObj [("desiredSize", match DesiredSize s with Some n => JNum (pretty n) | None => JNull end)].
Definition TerminateMachineMessage_json (t : TerminateMachineMessage) : json :=
  JObj [("machineId", jstr (MachineID t)); ("decrementDesiredSize", JBool (DecrementDesiredSize t))].
Definition MembershipStatus_json (m : MembershipStatus) : json :=
  JObj [("active", JBool (Active m)); ("evictable", JBool (Evictable m))].
Definition ErrorMessage_json (message detail : string) : json :=
  JObj [("message", jstr message); ("detail", jstr detail)].

Definition PoolSizeMessage_json (p : PoolSizeMessage) : json :=
  JObj [("timestamp", time_json (Size_Timestamp p)); ("desiredSize", JNum (pretty (Size_DesiredSize p)));
        ("allocated", JNum (pretty (Size_Allocated p))); ("active", JNum (pretty (Size_Active p)))].

Definition slice_json {A} (f : A → json) (s : option (list A)) : json :=
  match s with Some xs => JArr (map f xs) | None => JNull end.
Definition pointer_json {A} (f : A → json) (p : option A) : json :=
  match p with Some x => f x | None => JNull end.

(** A raw message is copied, with the characters that are special in HTML
    escaped. *)
Fixpoint escape_html (s : string) : string :=
  match s with
  | "" => ""
  | String c s' =>
      if Ascii.eqb c "<" then "\u003c" +:+ escape_html s'
      else if Ascii.eqb c ">" then "\u003e" +:+ escape_html s'
      else if Ascii.eqb c "&" then "\u0026" +:+ escape_html s'
      else match s' with
           | String a (String b s2) =>
               if String.eqb (String c (String a (String b ""))) (encode_rune 8232) then "\u2028" +:+ escape_html s2
               else if String.eqb (String c (String a (String b ""))) (encode_rune 8233) then "\u2029" +:+ escape_html s2
               else String c (escape_html s')
           | _ => String c (escape_html s')
           end
  end.

(** [json.RawMessage] inside a message; the keys of objects are requoted. *)
Fixpoint raw_json (v : json) : json :=
  match v with
  | JStr s raw => JStr s (escape_html raw)
  | JArr vs => JArr (map raw_json vs)
  | JObj fs => JObj (map (λ '(k, v), (k, raw_json v)) fs)
  | _ => v
  end.

Definition Machine_json (m : Machine) : json :=
  JObj [("id", jstr (ID m)); ("machineState", jstr (MachineState m)); ("membershipStatus", MembershipStatus_json (Membership m));
        ("serviceState", jstr (ServiceState m)); ("cloudProvider", jstr (CloudProvider m)); ("region", jstr (Region m));
        ("machineSize", jstr (MachineSize m)); ("requestTime", pointer_json time_json (RequestTime m));
        ("launchTime", pointer_json time_json (LaunchTime m)); ("publicIps", slice_json jstr (PublicIPs m));
        ("privateIps", slice_json jstr (PrivateIPs m)); ("metadata", pointer_json raw_json (Metadata m))].

Definition MachinePoolMessage_json (p : MachinePoolMessage) : json :=
  JObj [("machines", slice_json Machine_json (MachinesSlice p)); ("timestamp", time_json (Pool_Timestamp p))].

(** The times that occur; encoding fails if one cannot be printed, and the
    [String] methods then give the empty string. *)
Definition machine_times (m : Machine) : list Time := (option_list (RequestTime m) ++ option_list (LaunchTime m))%list.
Definition pool_times (p : MachinePoolMessage) : list Time :=
  (concat (map machine_times (Machines p)) ++ [Pool_Timestamp p])%list.

Definition print_message (times : list Time) (v : json) : string :=
  if forallb time_printable times then MarshalIndent v else "".

Definition PoolSizeMessage_String (p : PoolSizeMessage) : string := print_message [Size_Timestamp p] (PoolSizeMessage_json p).
Definition MachinePoolMessage_String (p : MachinePoolMessage) : string := print_message (pool_times p) (MachinePoolMessage_json p).
Definition Machine_String (m : Machine) : string := print_message (machine_times m) (Machine_json m).

Definition SetDesiredSizeMessage_String (s : SetDesiredSizeMessage) : string := MarshalIndent (SetDesiredSizeMessage_json s).
Definition TerminateMachineMessage_String (t : TerminateMachineMessage) : string :=
  MarshalIndent (TerminateMachineMessage_json t).
Definition MembershipStatus_String (m : MembershipStatus) : string := MarshalIndent (MembershipStatus_json m).

(** ** Predicates *)

Definition MachinePredicate : Type := Machine → bool.

Definition Not (predicate : MachinePredicate) : MachinePredicate := λ machine, negb (predicate machine).

Definition IsMachineAllocated : MachinePredicate := λ machine,
  String.eqb (MachineState machine) MachineStateRequested ||
  String.eqb (MachineState machine) MachineStatePending ||
  String.eqb (MachineState machine) MachineStateRunning.

Definition IsMachineActive : MachinePredicate := λ machine,
  IsMachineAllocated machine && Active (Membership machine).

(** The loop is the one of [filterNodes] and [filterPods]. *)
Definition FilterMachines (machines : list Machine) (predicates : list MachinePredicate) : list Machine :=
  filter_loop predicates machines.

(** ** What they decide *)

(** A working member of the pool: allocated and marked active. *)
Definition active_member (m : Machine) : Prop :=
  MachineState m ∈ [MachineStateRequested; MachineStatePending; MachineStateRunning] ∧
  Active (Membership m) = true.

Lemma IsMachineActive_spec m : IsMachineActive m = true ↔ active_member m.
Proof.
  unfold IsMachineActive, IsMachineAllocated, active_member.
  rewrite andb_true_iff, !orb_true_iff, !String.eqb_eq, !elem_of_cons, elem_of_nil. naive_solver.
Qed.

Lemma elem_of_active_machines ms m :
  m ∈ FilterMachines ms [IsMachineActive] ↔ m ∈ ms ∧ active_member m.
Proof.
  unfold FilterMachines. rewrite elem_of_filter_loop, Forall_cons, Forall_nil, IsMachineActive_spec. naive_solver.
Qed.

Lemma SetDesiredSizeMessage_Validate_spec s :
  SetDesiredSizeMessage_Validate s = None ↔ ∃ n, DesiredSize s = Some n ∧ (0 ≤ n)%Z.
Proof.
  unfold SetDesiredSizeMessage_Validate. destruct (DesiredSize s) as [n|]; [|naive_solver].
  destruct (Z.ltb_spec n 0); split; [done|naive_solver lia|naive_solver lia|done].
Qed.
