(* ===== verification/PoolClient.v ===== *)
(** * pkg/cloudpool/client.go: the cloudpool REST client

    [DefaultCloudPoolClient] sends requests to the backend cloudpool and decodes
    its answers.  Its programs are over the interface [HTTPBackend], whose only
    call is [client.Do]; what the backend answers (transport error, status,
    headers, body, error while reading the body) is unconstrained.

    [http.NewRequest] fails on the URLs and methods Go rejects ([Url]).  Of
    [fmt.Sprintf] the verbs %s, %d and %% and the missing-argument text are
    modelled; explicit argument indexes and starred
    widths, which no format of the program has, are not.  The log output is
    left out. *)
From stdpp Require Import base tactics list strings gmap pretty.
From Stdlib Require Import ZArith Lia Ascii.
From S2P Require Import Prelude Strconv GoStd KubeTypes Labels Json Url Time Samples NodeScaler CloudPool.

Local Open Scope go_scope.
Local Open Scope string_scope.

(** ** fmt.Sprintf *)

Inductive fmt_arg : Type :=
| ArgString (s : string)
| ArgInt (n : Z).

Definition print_arg (verb : ascii) (a : fmt_arg) : string :=
  match a with
  | ArgString s =>
      if Ascii.eqb verb "s" then s else "%!" +:+ String verb "" +:+ "(string=" +:+ s +:+ ")"
  | ArgInt n =>
      if Ascii.eqb verb "d" then pretty n else "%!" +:+ String verb "" +:+ "(int=" +:+ pretty n +:+ ")"
  end.

Definition extra_arg (a : fmt_arg) : string :=
  match a with ArgString s => "string=" +:+ s | ArgInt n => "int=" +:+ pretty n end.

Definition is_flag (c : ascii) : bool :=
  Ascii.eqb c "#" || Ascii.eqb c "+" || Ascii.eqb c "-" || Ascii.eqb c " " || Ascii.eqb c "." || is_digit c.

(** [dir]: inside a directive, after the percent sign. *)
Fixpoint format_loop (dir : bool) (s : string) (args : list fmt_arg) : string :=
  match s with
  | "" =>
      (if dir then "%!(NOVERB)" else "") +:+
      match args with [] => "" | _ => "%!(EXTRA " +:+ String.concat ", " (map extra_arg args) +:+ ")" end
  | String c rest =>
      if negb dir then
        if Ascii.eqb c "%" then format_loop true rest args else String c (format_loop false rest args)
      else if is_flag c then format_loop true rest args
      else if Ascii.eqb c "%" then String "%" (format_loop false rest args)
      else
        match args with
        | [] => "%!" +:+ String c "" +:+ "(MISSING)" +:+ format_loop false rest []
        | a :: args => print_arg c a +:+ format_loop false rest args
        end
  end.

Definition Sprintf (format : string) (args : list fmt_arg) : string := format_loop false format args.

(** ** Paths and URLs *)

(** [path.Clean] of a rooted path: the elements, with empty ones and dots
    dropped and dot-dots applied (at the root they have no effect). *)
Fixpoint clean_elements (stack : list string) (elems : list string) : list string :=
  match elems with
  | [] => rev stack
  | e :: rest =>
      if String.eqb e "" || String.eqb e "." then clean_elements stack rest
      else if String.eqb e ".." then clean_elements (tail stack) rest
      else clean_elements (e :: stack) rest
  end.

Definition join_rooted (elems : list string) : string := "/" +:+ String.concat "/" elems.

Definition Clean (rooted : string) : string := join_rooted (clean_elements [] (Split "/" rooted)).

Record DefaultCloudPoolClient : Type := MkCloudPoolClient {
  CloudPoolURL : string;
  Timeout : Z }.

(** config.DefaultBackendTimeout, in nanoseconds. *)
Definition DefaultBackendTimeout : Z := (300 * 1000000000)%Z.

Definition NewClient (cloudPoolURL : string) (timeout : Z) : DefaultCloudPoolClient :=
  MkCloudPoolClient cloudPoolURL (if (timeout <=? 0)%Z then DefaultBackendTimeout else timeout).

Definition poolURL (c : DefaultCloudPoolClient) (resourcePath : string) : string :=
  CloudPoolURL c +:+ Clean ("/" +:+ resourcePath).

(** ** HTTP *)

Abbreviation Header := (gmap string (list string)).

Definition Header_Add (h : Header) (k v : string) : Header := <[k := (default [] (h !! k) ++ [v])%list]> h.

(** A request as the client or the server sees it, with the address it came
    from (empty for requests the client makes itself). *)
Record Request : Type := MkRequest {
  Method : string;
  ReqURL : URL;
  ReqHeader : Header;
  RemoteAddr : string;
  ReqBody : string }.

Definition URLPath (req : Request) : string := URL_Path (ReqURL req).

(** A response; reading its body may fail part-way. *)
Record Response : Type := MkResponse {
  StatusCode : Z;
  Status : string;
  RespHeader : Header;
  RespBody : string;
  BodyError : option error }.

Record OutRequest : Type := MkOutRequest {
  Out_Method : string;
  Out_URL : string;
  Out_Header : Header;
  Out_Body : string;
  Out_Timeout : Z }.

Inductive http_call : Type := ClientDo (request : OutRequest).
Definition HTTPBackend : Iface := mkIface http_call (λ _, result error Response).

Definition StatusOK : Z := 200.

(** ** Messages *)

Definition zero_membership : MembershipStatus := MkMembershipStatus false false.
Definition zero_machine : Machine :=
  MkMachine "" "" zero_membership "" "" "" "" None None None None None.

Definition dec_membership : decoder MembershipStatus := dec_struct "MembershipStatus" [
  at_field "active" Active (λ m b, MkMembershipStatus b (Evictable m)) dec_bool;
  at_field "evictable" Evictable (λ m b, MkMembershipStatus (Active m) b) dec_bool].

(** A raw message keeps any value. *)
Definition dec_raw : decoder (option json) := λ cur v,
  match v with JNull => Filled None None | _ => Filled (Some v) None end.

Section Client.
Context `{ranger : !MapRange, lib : !GoLib}.

Definition dec_machine : decoder Machine := dec_struct "Machine" [
  at_field "id" ID (λ m x, MkMachine x (MachineState m) (Membership m) (ServiceState m) (CloudProvider m) (Region m)
    (MachineSize m) (RequestTime m) (LaunchTime m) (PublicIPs m) (PrivateIPs m) (Metadata m)) dec_string;
  at_field "machineState" MachineState (λ m x, MkMachine (ID m) x (Membership m) (ServiceState m) (CloudProvider m)
    (Region m) (MachineSize m) (RequestTime m) (LaunchTime m) (PublicIPs m) (PrivateIPs m) (Metadata m)) dec_string;
  at_field "membershipStatus" Membership (λ m x, MkMachine (ID m) (MachineState m) x (ServiceState m) (CloudProvider m)
    (Region m) (MachineSize m) (RequestTime m) (LaunchTime m) (PublicIPs m) (PrivateIPs m) (Metadata m)) dec_membership;
  at_field "serviceState" ServiceState (λ m x, MkMachine (ID m) (MachineState m) (Membership m) x (CloudProvider m)
    (Region m) (MachineSize m) (RequestTime m) (LaunchTime m) (PublicIPs m) (PrivateIPs m) (Metadata m)) dec_string;
  at_field "cloudProvider" CloudProvider (λ m x, MkMachine (ID m) (MachineState m) (Membership m) (ServiceState m) x
    (Region m) (MachineSize m) (RequestTime m) (LaunchTime m) (PublicIPs m) (PrivateIPs m) (Metadata m)) dec_string;
  at_field "region" Region (λ m x, MkMachine (ID m) (MachineState m) (Membership m) (ServiceState m) (CloudProvider m) x
    (MachineSize m) (RequestTime m) (LaunchTime m) (PublicIPs m) (PrivateIPs m) (Metadata m)) dec_string;
  at_field "machineSize" MachineSize (λ m x, MkMachine (ID m) (MachineState m) (Membership m) (ServiceState m)
    (CloudProvider m) (Region m) x (RequestTime m) (LaunchTime m) (PublicIPs m) (PrivateIPs m) (Metadata m)) dec_string;
  at_field "requestTime" RequestTime (λ m x, MkMachine (ID m) (MachineState m) (Membership m) (ServiceState m)
    (CloudProvider m) (Region m) (MachineSize m) x (LaunchTime m) (PublicIPs m) (PrivateIPs m) (Metadata m))
    (dec_ptr zero_time dec_time);
  at_field "launchTime" LaunchTime (λ m x, MkMachine (ID m) (MachineState m) (Membership m) (ServiceState m)
    (CloudProvider m) (Region m) (MachineSize m) (RequestTime m) x (PublicIPs m) (PrivateIPs m) (Metadata m))
    (dec_ptr zero_time dec_time);
  at_field "publicIps" PublicIPs (λ m x, MkMachine (ID m) (MachineState m) (Membership m) (ServiceState m)
    (CloudProvider m) (Region m) (MachineSize m) (RequestTime m) (LaunchTime m) x (PrivateIPs m) (Metadata m))
    (dec_slice "" dec_string);
  at_field "privateIps" PrivateIPs (λ m x, MkMachine (ID m) (MachineState m) (Membership m) (ServiceState m)
    (CloudProvider m) (Region m) (MachineSize m) (RequestTime m) (LaunchTime m) (PublicIPs m) x (Metadata m))
    (dec_slice "" dec_string);
  at_field "metadata" Metadata (λ m x, MkMachine (ID m) (MachineState m) (Membership m) (ServiceState m)
    (CloudProvider m) (Region m) (MachineSize m) (RequestTime m) (LaunchTime m) (PublicIPs m) (PrivateIPs m) x) dec_raw].

Definition dec_pool : decoder MachinePoolMessage := dec_struct "MachinePoolMessage" [
  at_field "machines" MachinesSlice (λ p x, MkMachinePoolMessage x (Pool_Timestamp p)) (dec_slice zero_machine dec_machine);
  at_field "timestamp" Pool_Timestamp (λ p x, MkMachinePoolMessage (MachinesSlice p) x) dec_time].

Definition dec_pool_size : decoder PoolSizeMessage := dec_struct "PoolSizeMessage" [
  at_field "timestamp" Size_Timestamp
    (λ p x, MkPoolSizeMessage x (Size_DesiredSize p) (Size_Allocated p) (Size_Active p)) dec_time;
  at_field "desiredSize" Size_DesiredSize
    (λ p x, MkPoolSizeMessage (Size_Timestamp p) x (Size_Allocated p) (Size_Active p)) dec_int;
  at_field "allocated" Size_Allocated
    (λ p x, MkPoolSizeMessage (Size_Timestamp p) (Size_DesiredSize p) x (Size_Active p)) dec_int;
  at_field "active" Size_Active
    (λ p x, MkPoolSizeMessage (Size_Timestamp p) (Size_DesiredSize p) (Size_Allocated p) x) dec_int].

(** [ErrorMessage] as a pair of its two fields. *)
Definition dec_error_message : decoder (string * string) := dec_struct "ErrorMessage" [
  at_field "message" fst (λ m x, (x, m.2)) dec_string;
  at_field "detail" snd (λ m x, (m.1, x)) dec_string].

Definition dec_set_size : decoder SetDesiredSizeMessage := dec_struct "SetDesiredSizeMessage" [
  at_field "desiredSize" DesiredSize (λ _ x, MkSetDesiredSizeMessage x) (dec_ptr 0%Z dec_int)].

Definition dec_terminate : decoder TerminateMachineMessage := dec_struct "TerminateMachineMessage" [
  at_field "machineId" MachineID (λ m x, MkTerminateMachineMessage x (DecrementDesiredSize m)) dec_string;
  at_field "decrementDesiredSize" DecrementDesiredSize (λ m x, MkTerminateMachineMessage (MachineID m) x) dec_bool].

Definition enc_set_size (n : Z) : string := write_json (SetDesiredSizeMessage_json (MkSetDesiredSizeMessage (Some n))).
Definition enc_terminate (id : string) (dec : bool) : string :=
  write_json (TerminateMachineMessage_json (MkTerminateMachineMessage id dec)).

(** ** The client *)

(** The message of the cause is prepended if it is an [ErrorMessage]; note that
    it becomes part of the format. *)
Definition ErrorWithCause (cause : error) (message : string) (fmtArgs : list fmt_arg) : error :=
  match cause with
  | ErrorMessage m d => ErrorMessage (Sprintf (message +:+ ": " +:+ m) fmtArgs) d
  | _ => ErrorMessage message (Error cause)
  end.

Variable c : DefaultCloudPoolClient.

Definition Forward (req : Request) : Prog HTTPBackend (result error Response) :=
  let url := poolURL c (URLPath req) in
  match newRequestError (Method req) url with
  | Some err => Ret (Err (ErrorMessage "failed to create request to forward" (Error err)))
  | None =>
      let header := Header_Add (ReqHeader req) "X-Forwarded-For" (hd "" (Split ":" (RemoteAddr req))) in
      let! r := invoke (I := HTTPBackend) (ClientDo (MkOutRequest (request_method (Method req)) url header (ReqBody req) (Timeout c))) in
      match r with
      | Err err => Ret (Err (ErrorMessage "failed to complete backend cloudpool request" (Error err)))
      | Ok response => Ret (Ok response)
      end
  end.

Definition doRequest (request : Request) : Prog HTTPBackend (result error string) :=
  let! r := Forward request in
  match r with
  | Err err => Ret (Err (ErrorWithCause err "backend cloudpool request failed" []))
  | Ok resp =>
      match BodyError resp with
      | Some e => Ret (Err (ErrorMessage "failed to read response body" (Error e)))
      | None =>
          if negb (StatusCode resp =? StatusOK)%Z then
            let! r := pure (Unmarshal ("", "") dec_error_message (RespBody resp)) in
            match r with
            | Err _ =>
                Ret (Err (ErrorMessage ("backend cloudpool responded with HTTP status: " +:+ Status resp) (RespBody resp)))
            | Ok (m, d) => Ret (Err (ErrorMessage m d))
            end
          else Ret (Ok (RespBody resp))
      end
  end.

(** A request made by the client itself; the path given to [http.NewRequest] is
    already the full URL, of which [Forward] uses the path again. *)
Definition own_request (method path : string) (header : Header) (body : string) : Request :=
  MkRequest method (parsedURL (poolURL c path)) header "" body.

Definition json_header : Header := Header_Add ∅ "Content-Type" "application/json".

Definition GetPoolSize : Prog HTTPBackend (result error PoolSizeMessage) :=
  match newRequestError "GET" (poolURL c "/pool/size") with
  | Some e => Ret (Err (ErrorMessage "GetPoolSize: failed to create request message" (Error e)))
  | None =>
      let! r := doRequest (own_request "GET" "/pool/size" ∅ "") in
      match r with
      | Err err => Ret (Err (ErrorWithCause err "getPoolSize" []))
      | Ok bodyBytes =>
          let! r := pure (Unmarshal (MkPoolSizeMessage zero_time 0 0 0) dec_pool_size bodyBytes) in
          match r with
          | Err e => Ret (Err (ErrorMessage "GetPoolSize: failed to unmarshal json response" (jsonErrorText e)))
          | Ok poolSize => Ret (Ok poolSize)
          end
      end
  end.

Definition GetMachinePool : Prog HTTPBackend (result error MachinePoolMessage) :=
  match newRequestError "GET" (poolURL c "/pool") with
  | Some e => Ret (Err (ErrorMessage "GetMachinePool: failed to create request message" (Error e)))
  | None =>
      let! r := doRequest (own_request "GET" "/pool" ∅ "") in
      match r with
      | Err err => Ret (Err (ErrorWithCause err "getMachinePool" []))
      | Ok bodyBytes =>
          let! r := pure (Unmarshal (MkMachinePoolMessage None zero_time) dec_pool bodyBytes) in
          match r with
          | Err e => Ret (Err (ErrorMessage "GetMachinePool: failed to unmarshal json response" (jsonErrorText e)))
          | Ok pool => Ret (Ok pool)
          end
      end
  end.

Fixpoint machine_by_id (machineID : string) (machines : list Machine) : option Machine :=
  match machines with
  | [] => None
  | machine :: rest => if String.eqb (ID machine) machineID then Some machine else machine_by_id machineID rest
  end.

Definition GetMachine (machineID : string) : Prog HTTPBackend (result error Machine) :=
  let! r := GetMachinePool in
  match r with
  | Err err => Ret (Err (ErrorWithCause err "getMachine %s: failed to get machine" [ArgString machineID]))
  | Ok pool =>
      match machine_by_id machineID (Machines pool) with
      | Some machine => Ret (Ok machine)
      | None => Ret (Err (ErrorMessage ("getMachine " +:+ machineID +:+ ": machine not found") ""))
      end
  end.

Definition client_SetDesiredSize (desiredSize : Z) : Prog HTTPBackend (option error) :=
  match newRequestError "POST" (poolURL c "/pool/size") with
  | Some e => Ret (Some (ErrorMessage "setDesiredSize: failed to create request" (Error e)))
  | None =>
      let! r := doRequest (own_request "POST" "/pool/size" json_header (enc_set_size desiredSize)) in
      match r with
      | Err err => Ret (Some (ErrorWithCause err "setDesiredSize %d" [ArgInt desiredSize]))
      | Ok _ => Ret None
      end
  end.

Definition client_TerminateMachine (machineID : string) (decrementDesiredSize : bool) : Prog HTTPBackend (option error) :=
  match newRequestError "POST" (poolURL c "/pool/terminate") with
  | Some e => Ret (Some (ErrorMessage "terminateMachine: failed to create request" (Error e)))
  | None =>
      let! r := doRequest (own_request "POST" "/pool/terminate" json_header
                             (enc_terminate machineID decrementDesiredSize)) in
      match r with
      | Err err => Ret (Some (ErrorWithCause err "terminateMachine %s" [ArgString machineID]))
      | Ok _ => Ret None
      end
  end.
End Client.

(** ** Paths *)

(** An element that stays in a cleaned path. *)
Definition proper_element (e : string) : Prop :=
  e ≠ "" ∧ e ≠ "." ∧ e ≠ ".." ∧ all_chars (λ c, negb (Ascii.eqb c "/")) e = true.

Lemma Split_elements sep s : Forall (λ e, all_chars (λ c, negb (Ascii.eqb c sep)) e = true) (Split sep s).
Proof.
  induction s as [|c s IH]; simpl; [by repeat constructor|].
  destruct (Ascii.eqb c sep) eqn:E; [by constructor|].
  destruct (Split sep s) as [|w ws]; [constructor; [simpl; by rewrite E|done]|].
  apply Forall_cons in IH as [Hw Hws]. constructor; [simpl; by rewrite E|done].
Qed.

Lemma clean_elements_proper stack elems :
  Forall proper_element stack → Forall (λ e, all_chars (λ c, negb (Ascii.eqb c "/")) e = true) elems →
  Forall proper_element (clean_elements stack elems).
Proof.
  revert stack. induction elems as [|e elems IH]; intros stack Hs He; simpl; [by apply Forall_rev|].
  apply Forall_cons in He as [He Hes].
  destruct (String.eqb_spec e ""); [by apply IH|]. destruct (String.eqb_spec e "."); [by apply IH|]. simpl.
  destruct (String.eqb_spec e ".."); [apply IH; [by destruct Hs|done]|].
  apply IH; [|done]. by constructor.
Qed.

Lemma clean_elements_id stack elems :
  Forall proper_element elems → clean_elements stack elems = (rev stack ++ elems)%list.
Proof.
  revert stack. induction elems as [|e elems IH]; intros stack He; simpl; [by rewrite app_nil_r|].
  apply Forall_cons in He as [(H1 & H2 & H3 & _) Hes].
  destruct (String.eqb_spec e ""); [done|]. destruct (String.eqb_spec e "."); [done|]. simpl.
  destruct (String.eqb_spec e ".."); [done|]. rewrite IH by done. simpl. by rewrite <- app_assoc.
Qed.

#[local] Arguments String.append : simpl nomatch.

Lemma Split_no_sep sep e : all_chars (λ c, negb (Ascii.eqb c sep)) e = true → Split sep e = [e].
Proof.
  induction e as [|c e IH]; simpl; [done|]. intros [Hc He]%andb_true_iff. apply negb_true_iff in Hc.
  by rewrite Hc, (IH He).
Qed.

Lemma Split_app_sep sep e s :
  all_chars (λ c, negb (Ascii.eqb c sep)) e = true → Split sep (e +:+ String sep s) = e :: Split sep s.
Proof.
  induction e as [|c e IH]; simpl.
  - by rewrite Ascii.eqb_refl.
  - intros [Hc He]%andb_true_iff. apply negb_true_iff in Hc. by rewrite Hc, (IH He).
Qed.

Lemma Split_join elems :
  Forall proper_element elems → Split "/" (join_rooted elems) = match elems with [] => [""; ""] | _ => "" :: elems end.
Proof.
  unfold join_rooted. intros H. change ("/" +:+ ?x) with (String "/" x). cbn [Split]. rewrite Ascii.eqb_refl.
  destruct H as [|e elems (_ & _ & _ & He) Hes]; [done|]. f_equal. revert e He.
  induction Hes as [|e' elems (_ & _ & _ & He') Hes IH]; intros e He; [by apply Split_no_sep|].
  rewrite concat_cons by done. change ("/" +:+ ?x) with (String "/" x).
  rewrite Split_app_sep by done. by rewrite IH.
Qed.

(** A cleaned path is a sequence of proper elements and is not changed again. *)
Lemma Clean_join elems : Forall proper_element elems → Clean (join_rooted elems) = join_rooted elems.
Proof.
  intros H. unfold Clean. rewrite Split_join by done. f_equal.
  destruct elems as [|e elems]; [done|].
  change (clean_elements [] ("" :: e :: elems)) with (clean_elements [] (e :: elems)). by rewrite clean_elements_id.
Qed.

Lemma Clean_slash_join elems :
  elems ≠ [] → Forall proper_element elems → Clean ("/" +:+ join_rooted elems) = join_rooted elems.
Proof.
  intros Hne H. unfold Clean. change ("/" +:+ ?x) with (String "/" x). cbn [Split].
  rewrite Ascii.eqb_refl, Split_join by done. destruct elems as [|e elems]; [done|].
  change (clean_elements [] ("" :: "" :: ?x)) with (clean_elements [] x). by rewrite clean_elements_id.
Qed.

Lemma Clean_shape p : ∃ elems, Forall proper_element elems ∧ Clean p = join_rooted elems.
Proof.
  eexists. split; [|done]. apply clean_elements_proper; [constructor|apply Split_elements].
Qed.

(** ** Formats *)

(** Without a percent sign nothing is formatted. *)
Lemma format_plain s rest args :
  all_chars (λ c, negb (Ascii.eqb c "%")) s = true →
  format_loop false (s +:+ rest) args = s +:+ format_loop false rest args.
Proof.
  induction s as [|c s IH]; simpl; [done|]. intros [Hc Hs]%andb_true_iff. apply negb_true_iff in Hc.
  by rewrite Hc, IH.
Qed.

Lemma Sprintf_plain s : all_chars (λ c, negb (Ascii.eqb c "%")) s = true → Sprintf s [] = s.
Proof. intros H. unfold Sprintf. rewrite <- (app_nil_s s) at 1. rewrite format_plain by done. apply app_nil_s. Qed.

(** A message without verbs is put before the message of the cause. *)
Lemma ErrorWithCause_plain `{!MapRange} m d msg :
  all_chars (λ c, negb (Ascii.eqb c "%")) m = true → all_chars (λ c, negb (Ascii.eqb c "%")) msg = true →
  ErrorWithCause (ErrorMessage m d) msg [] = ErrorMessage (msg +:+ ": " +:+ m) d.
Proof. intros Hm Hmsg. unfold ErrorWithCause. rewrite Sprintf_plain; [done|]. by rewrite !all_chars_app, Hm, Hmsg. Qed.

(** A message with one verb is put before the message of the cause. *)
Lemma ErrorWithCause_arg `{!MapRange} m d pre verb mid a :
  all_chars (λ c, negb (Ascii.eqb c "%")) m = true → all_chars (λ c, negb (Ascii.eqb c "%")) pre = true →
  all_chars (λ c, negb (Ascii.eqb c "%")) mid = true → is_flag verb = false → Ascii.eqb verb "%" = false →
  ErrorWithCause (ErrorMessage m d) (pre +:+ String "%" (String verb mid)) [a] =
  ErrorMessage (pre +:+ print_arg verb a +:+ mid +:+ ": " +:+ m) d.
Proof.
  intros Hm Hpre Hmid Hf Hv. unfold ErrorWithCause, Sprintf. rewrite app_assoc_s, format_plain by done. do 2 f_equal.
  cbn [String.append format_loop negb]. rewrite Ascii.eqb_refl, Hf, Hv. f_equal.
  change (Sprintf (mid +:+ ": " +:+ m) [] = mid +:+ ": " +:+ m).
  apply Sprintf_plain. by rewrite !all_chars_app, Hm, Hmid.
Qed.

(** ** Numbers *)

Lemma digits_num_chars ds : all_chars is_digit ds = true → all_chars is_num_char ds = true.
Proof.
  induction ds as [|c ds IH]; simpl; [done|]. intros [Hc Hds]%andb_true_iff. assert (is_num_char c = true) as -> by (unfold is_num_char; by rewrite Hc). by apply IH.
Qed.

Lemma valid_digits d ds :
  is_digit d = true → Ascii.eqb d "0" = false → all_chars is_digit ds = true → valid_number (String d ds) = true.
Proof.
  intros Hd H0 Hds. unfold valid_number.
  assert (Ascii.eqb d "-" = false) as -> by (destruct d as [[] [] [] [] [] [] [] []]; try discriminate Hd; done).
  rewrite H0, Hd. rewrite <- (app_nil_s ds). by rewrite span_all.
Qed.

(** Integers are written as valid literals that read back. *)
Lemma pretty_int_roundtrip n :
  int64_range n → valid_number (pretty n) = true ∧ all_chars is_num_char (pretty n) = true ∧ ParseInt (pretty n) = Some n.
Proof.
  intros Hn. apply and_assoc. split; [|by apply ParseInt_pretty]. destruct n as [|p|p]; [done|..].
  - change (pretty (Z.pos p)) with (pretty (N.pos p)). rewrite pretty_N_pos by lia.
    destruct (pretty_digits (N.pos p) "") as (d & ds & k & Hgo & Hd & H0 & Hds & _); [lia|].
    rewrite app_nil_s in Hgo. rewrite Hgo.
    split; [by apply valid_digits|apply digits_num_chars; simpl; by rewrite Hd].
  - change (pretty (Z.neg p)) with ("-" +:+ pretty (N.pos p)). rewrite pretty_N_pos by lia.
    destruct (pretty_digits (N.pos p) "") as (d & ds & k & Hgo & Hd & H0 & Hds & _); [lia|].
    rewrite app_nil_s in Hgo. rewrite Hgo. change ("-" +:+ ?x) with (String "-" x). split.
    + pose proof (valid_digits _ _ Hd H0 Hds) as Hv. unfold valid_number in *.
      assert (Ascii.eqb d "-" = false) as Hne by (destruct d as [[] [] [] [] [] [] [] []]; try discriminate Hd; done).
      rewrite Hne in Hv. done.
    + change (is_num_char "-" && all_chars is_num_char (String d ds) = true).
      rewrite digits_num_chars; [done|]. simpl. by rewrite Hd.
Qed.

(** ** Decoders that cannot panic *)

Definition never_panics {T} (d : decoder T) : Prop := ∀ cur v m, d cur v ≠ DecodePanic m.

Lemma at_field_never {T F} name (get : T → F) set d : never_panics d → never_panics (at_field name get set d).2.
Proof.
  intros Hd cur v m. simpl. destruct (d (get cur) v) eqn:E; [done|done|]. by apply Hd in E.
Qed.

Lemma find_field_never {T} (fields : list (field T)) k d :
  Forall (λ f, never_panics f.2) fields → find_field fields k = Some d → never_panics d.
Proof.
  intros Hf. rewrite Forall_forall in Hf. unfold find_field.
  destruct (List.find (λ f : field T, String.eqb f.1 k) fields) as [f|] eqn:E.
  - intros [= <-]. apply find_some in E as [E _]. by apply Hf, list_elem_of_In.
  - destruct (List.find (λ f : field T, equal_fold f.1 k) fields) as [f|] eqn:E'; [|done].
    intros [= <-]. apply find_some in E' as [E' _]. by apply Hf, list_elem_of_In.
Qed.

Lemma dec_struct_never {T} type (fields : list (field T)) :
  Forall (λ f, never_panics f.2) fields → never_panics (dec_struct type fields).
Proof.
  intros Hf cur v m. destruct v as [| | | | |ms]; try done. simpl. revert cur m.
  induction ms as [|[k v] ms IH]; intros cur m; simpl; [done|].
  destruct (find_field fields k) as [d|] eqn:E; [|apply IH].
  destruct (d cur v) as [x e| |] eqn:Ed; [|done|by apply (find_field_never _ _ _ Hf E) in Ed].
  destruct (dec_members fields x ms) eqn:Em; [done|done|by apply IH in Em].
Qed.

Lemma dec_string_never : never_panics dec_string.
Proof. by intros cur [] m. Qed.
Lemma dec_bool_never : never_panics dec_bool.
Proof. by intros cur [] m. Qed.
Lemma dec_int_never : never_panics dec_int.
Proof. intros cur [| |lit| | |] m; simpl; try done. by destruct (ParseInt lit). Qed.
Lemma dec_ptr_never {T} (zero : T) d : never_panics d → never_panics (dec_ptr zero d).
Proof.
  intros Hd cur v m. destruct v; simpl; try done;
    match goal with |- context [d ?a ?b] => destruct (d a b) eqn:E end; try done; by apply Hd in E.
Qed.

Lemma Unmarshal_never {T} (zero : T) d text m : never_panics d → Unmarshal zero d text ≠ Panicked m.
Proof.
  intros Hd. unfold Unmarshal. destruct (parse_json text) as [v|]; [|done].
  destruct (d zero v) as [x [e|]| |] eqn:E; try done. by apply Hd in E.
Qed.

Create HintDb decode discriminated.
#[export] Hint Resolve at_field_never dec_struct_never dec_string_never dec_bool_never dec_int_never dec_ptr_never : decode.
#[export] Hint Constructors Forall : decode.

Lemma dec_error_message_never : never_panics dec_error_message.
Proof. unfold dec_error_message. auto 10 with decode. Qed.
Lemma dec_set_size_never : never_panics dec_set_size.
Proof. unfold dec_set_size. auto 10 with decode. Qed.
Lemma dec_terminate_never : never_panics dec_terminate.
Proof. unfold dec_terminate. auto 10 with decode. Qed.

Section ClientFacts.
Context `{ranger : !MapRange, lib : !GoLib}.
Variable c : DefaultCloudPoolClient.

(** The request [Forward] sends. *)
Definition forwarded (req : Request) : OutRequest :=
  MkOutRequest (request_method (Method req)) (poolURL c (URLPath req))
    (Header_Add (ReqHeader req) "X-Forwarded-For" (hd "" (Split ":" (RemoteAddr req)))) (ReqBody req) (Timeout c).

Lemma Forward_runs req t o :
  runs (Forward c req) t o →
  (newRequestError (Method req) (poolURL c (URLPath req)) ≠ None ∧ t = [] ∧ ∃ m d, o = Done (Err (ErrorMessage m d))) ∨
  (newRequestError (Method req) (poolURL c (URLPath req)) = None ∧
   ∃ r, t = [ev (I := HTTPBackend) (ClientDo (forwarded req)) r] ∧
     match r with Ok resp => o = Done (Ok resp) | Err _ => ∃ m d, o = Done (Err (ErrorMessage m d)) end).
Proof.
  unfold Forward. destruct (newRequestError _ _) as [e|].
  - intros [-> ->]. left. split; [done|]. eauto.
  - intros H. right. split; [done|]. simpl in H. destruct H as ([resp|e] & t' & -> & H); destruct H as [-> ->].
    + exists (Ok resp). done.
    + exists (Err e). split; [done|]. eauto.
Qed.

(** The answer was complete and OK. *)
Definition ok_response (r : result error Response) : Prop :=
  ∃ resp, r = Ok resp ∧ StatusCode resp = StatusOK ∧ BodyError resp = None.

Lemma doRequest_runs req t o :
  runs (doRequest c req) t o →
  (newRequestError (Method req) (poolURL c (URLPath req)) ≠ None ∧ t = [] ∧ ∃ m d, o = Done (Err (ErrorMessage m d))) ∨
  (newRequestError (Method req) (poolURL c (URLPath req)) = None ∧
   ∃ r, t = [ev (I := HTTPBackend) (ClientDo (forwarded req)) r] ∧
     ((ok_response r ∧ ∃ resp, r = Ok resp ∧ o = Done (Ok (RespBody resp))) ∨
      (¬ ok_response r ∧ ∃ m d, o = Done (Err (ErrorMessage m d))))).
Proof.
  unfold doRequest. intros H. apply runs_bind in H as [(t1 & t2 & r & -> & Hf & H)|(m & -> & Hf)].
  2: { apply Forward_runs in Hf as [(_ & _ & ? & ? & ?)|(_ & [r|e] & _ & Hx)]; [done|done|by destruct Hx as (? & ? & ?)]. }
  apply Forward_runs in Hf as [(Hn & -> & m & d & [= ->])|(Hn & r' & -> & Hr)].
  { destruct H as [-> ->]. left. split; [done|]. split; [done|]. simpl. eauto. }
  right. split; [done|]. exists r'. destruct r' as [resp|e].
  2: { destruct Hr as (m & d & [= ->]). destruct H as [-> ->]. split; [done|]. right.
       split; [by intros (? & ? & _)|]. simpl. eauto. }
  injection Hr as ->. destruct (BodyError resp) as [e|] eqn:Eb.
  { destruct H as [-> ->]. split; [done|]. right. split; [intros (? & [= <-] & _ & ?); congruence|]. eauto. }
  destruct (Z.eqb_spec (StatusCode resp) StatusOK) as [Es|Es]; simpl negb in H; cbv iota in H.
  { destruct H as [-> ->]. split; [done|]. left. split; [by exists resp|]. eauto. }
  assert (¬ ok_response (Ok resp)) as Hno by (intros (? & [= <-] & ? & _); done).
  apply runs_bind in H as [(t3 & t4 & u & -> & [-> Hu]%runs_pure & H)|(m & -> & [_ Hu]%runs_pure)].
  - destruct u as [[m d]|e]; destruct H as [-> ->]; (split; [done|]); right; eauto.
  - exfalso. symmetry in Hu. by apply Unmarshal_never in Hu; [|apply dec_error_message_never].
Qed.

(** A POST of [body] to the operation at [path] was made, if it could be built,
    and the result tells whether the backend accepted it.  [poolURL] is applied
    twice, so that a path of the base is repeated. *)
Definition posts (path body : string) (t : trace HTTPBackend) (o : outcome (option error)) : Prop :=
  (t = [] ∧ ∃ e, o = Done (Some e)) ∨
  (∃ out r, t = [ev (I := HTTPBackend) (ClientDo out) r] ∧
     Out_Method out = "POST" ∧ Out_URL out = poolURL c (urlPath (poolURL c path)) ∧ Out_Body out = body ∧
     Out_Header out !! "Content-Type" = Some ["application/json"] ∧
     ((ok_response r ∧ o = Done None) ∨ (¬ ok_response r ∧ ∃ e, o = Done (Some e)))).

Lemma post_runs path body (invalid : error → error) (failed : error → error) t o :
  runs (match newRequestError "POST" (poolURL c path) with
        | Some e => Ret (Some (invalid e))
        | None =>
            bind (doRequest c (own_request c "POST" path json_header body))
              (λ r, match r with Err err => Ret (Some (failed err)) | Ok _ => Ret None end)
        end) t o → posts path body t o.
Proof.
  destruct (newRequestError _ _) as [e|]; [intros [-> ->]; left; eauto|].
  intros H. apply runs_bind in H as [(t1 & t2 & r & -> & Hd & H)|(m & -> & Hd)];
    apply doRequest_runs in Hd as [(_ & -> & m' & d & Ho)|(_ & r' & -> & [(Hk & resp & -> & Ho)|(Hk & m' & d & Ho)])];
    try discriminate Ho; injection Ho as ->; destruct H as [-> ->].
  - left. eauto.
  - right. eexists _, _. split_and!; [done..|]. by left.
  - right. eexists _, _. split_and!; [done..|]. right. eauto.
Qed.

Lemma machine_by_id_Some id ms m : machine_by_id id ms = Some m → m ∈ ms ∧ ID m = id.
Proof.
  induction ms as [|m' ms IH]; simpl; [done|].
  destruct (String.eqb_spec (ID m') id); [intros [= ->]; set_solver|set_solver].
Qed.

(** *** Ordinary base URLs *)

(** The base URL is an http or https URL of a host (and port) with the path
    elements [base]. *)
Definition plain_base (base : list string) : Prop :=
  ∃ scheme host, (scheme = "http" ∨ scheme = "https") ∧ all_chars host_char host = true ∧
    Forall (λ e, proper_element e ∧ all_chars path_char e = true) base ∧
    CloudPoolURL c = scheme +:+ "://" +:+ host +:+ match base with [] => "" | _ => join_rooted base end.

Lemma path_chars_join elems :
  Forall (λ e, all_chars path_char e = true) elems → all_chars path_char (String.concat "/" elems) = true.
Proof.
  induction 1 as [|e elems He Hes IH]; [done|]. destruct elems as [|e' elems]; [done|].
  rewrite concat_cons by done. change ("/" +:+ ?x) with (String "/" x). rewrite all_chars_app, He. exact IH.
Qed.

Lemma join_rooted_app base elems :
  base ≠ [] → elems ≠ [] → join_rooted base +:+ join_rooted elems = join_rooted (base ++ elems)%list.
Proof.
  unfold join_rooted. intros Hb He. destruct base as [|b base]; [done|]. clear Hb. revert b.
  induction base as [|b' base IH]; intros b.
  - cbn [app]. rewrite (concat_cons _ b elems) by done. done.
  - cbn [app]. rewrite (concat_cons _ b (b' :: base)), (concat_cons _ b (b' :: (base ++ elems)%list)) by done.
    rewrite !app_assoc_s. do 2 f_equal. exact (IH b').
Qed.

(** The URL of an operation parses, and its path has the path of the base. *)
Lemma plain_base_path base elems :
  plain_base base → elems ≠ [] → Forall (λ e, proper_element e ∧ all_chars path_char e = true) elems →
  ∃ u, Parse (poolURL c (String.concat "/" elems)) = Ok u ∧ URL_Path u = join_rooted (base ++ elems)%list ∧
    URL_RawQuery u = "".
Proof.
  intros (scheme & host & Hs & Hh & Hb & Hu) Hne He. unfold poolURL.
  change (Clean ("/" +:+ String.concat "/" elems)) with (Clean (join_rooted elems)).
  rewrite Clean_join by (by eapply Forall_impl; [exact He|intros ? []]). rewrite Hu, !app_assoc_s.
  assert (match base with [] => "" | _ => join_rooted base end +:+ join_rooted elems = join_rooted (base ++ elems)%list) as ->.
  { destruct base as [|b base]; [done|]. by apply join_rooted_app. }
  unfold join_rooted. change ("/" +:+ ?x) with (String "/" x). eexists. split; [apply Parse_ordinary; [done|done|]|done].
  apply path_chars_join, Forall_app_2; (eapply Forall_impl; [eassumption|intros ? []; done]).
Qed.

(** Requests of the client's own for such a base are made, and repeat the path
    of the base. *)
Lemma plain_base_accepts base elems method :
  plain_base base → elems ≠ [] → Forall (λ e, proper_element e ∧ all_chars path_char e = true) elems →
  validMethod (request_method method) = true →
  let url := poolURL c (join_rooted elems) in
  newRequestError method url = None ∧ newRequestError method (poolURL c (urlPath url)) = None ∧
  poolURL c (urlPath url) = CloudPoolURL c +:+ join_rooted (base ++ elems)%list.
Proof.
  intros Hbase Hne Hel Hm. cbv zeta.
  assert (Hb : Forall (λ e, proper_element e ∧ all_chars path_char e = true) base) by by destruct Hbase as (? & ? & _ & _ & ? & _).
  assert (Hall : Forall (λ e, proper_element e ∧ all_chars path_char e = true) (base ++ elems)%list) by by apply Forall_app_2.
  assert (Hpr : ∀ l, Forall (λ e, proper_element e ∧ all_chars path_char e = true) l → Forall proper_element l).
  { intros l H. eapply Forall_impl; [exact H|]. by intros ? []. }
  assert (Hnew : ∀ u p, Parse u = Ok p → newRequestError method u = None).
  { intros u p Hp. unfold newRequestError, urlParseError. by rewrite Hm, Hp. }
  assert (Hc : ∀ l, poolURL c (join_rooted l) = poolURL c (String.concat "/" l)) by reflexivity.
  assert (Hne' : (base ++ elems)%list ≠ []) by by destruct base.
  destruct (plain_base_path base elems Hbase Hne Hel) as (url & Hpath & Hurl & _). rewrite <- Hc in Hpath.
  assert (urlPath (poolURL c (join_rooted elems)) = join_rooted (base ++ elems)%list) as ->.
  { unfold urlPath, parsedURL. by rewrite Hpath. }
  split_and!; [by eapply Hnew| |unfold poolURL; f_equal; apply Clean_slash_join; [done|by apply Hpr]].
  destruct (plain_base_path base (base ++ elems) Hbase Hne' Hall) as (u & Hu & _).
  rewrite Hc. by eapply Hnew.
Qed.

Lemma plain_base_post base op path body (invalid failed : error → error) t o :
  plain_base base → proper_element op → all_chars path_char op = true → path = "/pool/" +:+ op →
  runs (match newRequestError "POST" (poolURL c path) with
        | Some e => Ret (Some (invalid e))
        | None =>
            bind (doRequest c (own_request c "POST" path json_header body))
              (λ r, match r with Err err => Ret (Some (failed err)) | Ok _ => Ret None end)
        end) t o →
  ∃ out r, t = [ev (I := HTTPBackend) (ClientDo out) r] ∧
    Out_URL out = CloudPoolURL c +:+ join_rooted (base ++ ["pool"; op])%list.
Proof.
  intros Hbase Hop Hopc -> H.
  destruct (plain_base_accepts base ["pool"; op] "POST" Hbase) as (Hnew & Hagain & Hsent); [done| |done|].
  { constructor; [split; [by split_and!|done]|]. by constructor. }
  change (join_rooted ["pool"; op]) with ("/pool/" +:+ op) in *. rewrite Hnew in H.
  assert (Hd : ∀ t1 o1, runs (doRequest c (own_request c "POST" ("/pool/" +:+ op) json_header body)) t1 o1 →
    ∃ out r, t1 = [ev (I := HTTPBackend) (ClientDo out) r] ∧ Out_URL out = CloudPoolURL c +:+ join_rooted (base ++ ["pool"; op])%list).
  { intros t1 o1 [(Hn & _)|(_ & r & -> & _)]%doRequest_runs; [by destruct Hn|eexists _, r; split; [done|exact Hsent]]. }
  apply runs_bind in H as [(t1 & t2 & r1 & -> & H1 & H)|(m & -> & H1)];
    destruct (Hd _ _ H1) as (out & r & -> & Hout); [destruct r1; destruct H as [-> _]|]; by exists out, r.
Qed.
End ClientFacts.

(** ** Claims *)

Section ClientClaims.
Context `{ranger : !MapRange, lib : !GoLib}.
Variable c : DefaultCloudPoolClient.

(** The URL a request is sent to is the configured base URL followed by a
    normalised path: a slash-separated sequence of non-empty elements, none of
    which is a dot or a dot-dot, so a client cannot address anything above the
    base; a path that is already normalised is kept as it is. *)
Theorem pool_url_is_normalised (p : string) :
  (∃ elems, Forall proper_element elems ∧ poolURL c p = CloudPoolURL c +:+ join_rooted elems) ∧
  (∀ elems, Forall proper_element elems → elems ≠ [] →
     poolURL c (String.concat "/" elems) = CloudPoolURL c +:+ join_rooted elems).
Proof.
  split.
  - destruct (Clean_shape ("/" +:+ p)) as (elems & He & Hc). exists elems. unfold poolURL. by rewrite Hc.
  - intros elems He _. unfold poolURL. f_equal. by apply Clean_join.
Qed.

(** C34. [Forward] makes at most one request, and it is the client's request:
    the same method (GET if it has none), body and headers, with the sender's host appended to
    X-Forwarded-For, to the base URL and the cleaned path, under the configured
    timeout; the answer of the backend is returned unchanged.  For an ordinary
    base URL and path the request is made, and the backend reads the path of
    the request below that of the base, without the query of the request. *)
Theorem forward_preserves_request (req : Request) (t : trace HTTPBackend) (o : outcome (result error Response)) :
  runs (Forward c req) t o →
  ((t = [] ∧ ∃ m d, o = Done (Err (ErrorMessage m d))) ∨
   (∃ out r, t = [ev (I := HTTPBackend) (ClientDo out) r] ∧
      Out_Method out = request_method (Method req) ∧ Out_Body out = ReqBody req ∧ Out_Timeout out = Timeout c ∧
      Out_URL out = CloudPoolURL c +:+ Clean ("/" +:+ URLPath req) ∧
      (∀ k, k ≠ "X-Forwarded-For" → Out_Header out !! k = ReqHeader req !! k) ∧
      Out_Header out !! "X-Forwarded-For" =
        Some (default [] (ReqHeader req !! "X-Forwarded-For") ++ [hd "" (Split ":" (RemoteAddr req))])%list ∧
      match r with Ok resp => o = Done (Ok resp) | Err _ => ∃ m d, o = Done (Err (ErrorMessage m d)) end)) ∧
  (∀ base elems, plain_base c base → elems ≠ [] → Forall (λ e, proper_element e ∧ all_chars path_char e = true) elems →
     validMethod (request_method (Method req)) = true → URLPath req = join_rooted elems →
     ∃ out r u, t = [ev (I := HTTPBackend) (ClientDo out) r] ∧ Parse (Out_URL out) = Ok u ∧
       URL_Path u = join_rooted (base ++ elems) ∧ URL_RawQuery u = "").
Proof.
  intros H%Forward_runs. split.
  - destruct H as [(_ & -> & m & d & ->)|(_ & r & -> & Hr)]; [left; eauto|].
    right. exists (forwarded c req), r. split_and!; try done.
    + intros k Hk. simpl. unfold Header_Add. by rewrite lookup_insert_ne.
    + simpl. unfold Header_Add. by rewrite lookup_insert_eq.
  - intros base elems Hb Hne He Hm Hp.
    destruct (plain_base_path c base elems Hb Hne He) as (u & Hu & Hpath & Hq).
    assert (poolURL c (URLPath req) = poolURL c (String.concat "/" elems)) as Hsame.
    { assert (Forall proper_element elems) by (eapply Forall_impl; [exact He|]; by intros ? []).
      unfold poolURL. f_equal. rewrite Hp, Clean_slash_join by done. symmetry. by apply Clean_join. }
    destruct H as [(Hn & _)|(_ & r & -> & _)].
    + exfalso. apply Hn. unfold newRequestError, urlParseError. by rewrite Hm, Hsame, Hu.
    + exists (forwarded c req), r, u. cbn [forwarded Out_URL]. by rewrite Hsame.
Qed.

(** C33. Asking for a new size or a termination makes at most one POST, carrying
    the encoded message as JSON, and succeeds exactly when the backend answered
    200 with a readable body.  The POST goes to the URL that [poolURL] makes of
    the path of the URL that it makes of /pool/size or of /pool/terminate, the
    two paths at which the server of this program handles these requests (the
    comment of the interface has /pool/<machineID>/terminate for the second);
    for an http or https base URL of ordinary characters the request is made,
    and that is the base, followed by the path of the base, which is thus
    repeated if there is one, and by the path of the operation. *)
Theorem client_succeeds_iff_ok (n : Z) (id : string) (dec : bool) (base : list string) (t : trace HTTPBackend)
    (o : outcome (option error)) :
  (runs (client_SetDesiredSize c n) t o →
   posts c "/pool/size" (enc_set_size n) t o ∧
   (plain_base c base → ∃ out r, t = [ev (I := HTTPBackend) (ClientDo out) r] ∧
      Out_URL out = CloudPoolURL c +:+ join_rooted (base ++ ["pool"; "size"]))) ∧
  (runs (client_TerminateMachine c id dec) t o →
   posts c "/pool/terminate" (enc_terminate id dec) t o ∧
   (plain_base c base → ∃ out r, t = [ev (I := HTTPBackend) (ClientDo out) r] ∧
      Out_URL out = CloudPoolURL c +:+ join_rooted (base ++ ["pool"; "terminate"]))).
Proof.
  split; intros H; (split; [exact (post_runs c _ _ _ _ _ _ H)|]); intros Hb.
  - by apply (plain_base_post c base "size") in H; [|done|by split_and!|..].
  - by apply (plain_base_post c base "terminate") in H; [|done|by split_and!|..].
Qed.

(** A machine that [GetMachine] returns has the requested ID. *)
Theorem get_machine_returns_requested (id : string) (t : trace HTTPBackend) (m : Machine) :
  runs (GetMachine c id) t (Done (Ok m)) → ID m = id.
Proof.
  unfold GetMachine. intros H.
  apply runs_bind in H as [(t1 & t2 & [pool|e] & -> & _ & H)|(? & ? & _)]; [|by destruct H|done].
  destruct (machine_by_id id (Machines pool)) as [m'|] eqn:E; destruct H as [-> H]; simplify_eq.
  by apply machine_by_id_Some in E as [_ ?].
Qed.

(** [ErrorWithCause] prepends the formatted message to the message of an
    [ErrorMessage] cause and keeps its detail, as documented, when neither text
    has a percent sign; for another kind of cause the arguments are ignored. *)
Theorem error_with_cause_prepends (m d msg s : string) :
  all_chars (λ ch, negb (Ascii.eqb ch "%")) m = true → all_chars (λ ch, negb (Ascii.eqb ch "%")) msg = true →
  ErrorWithCause (ErrorMessage m d) msg [] = ErrorMessage (msg +:+ ": " +:+ m) d ∧
  ErrorWithCause (ErrorMessage m d) (msg +:+ "%s") [ArgString s] = ErrorMessage (msg +:+ s +:+ ": " +:+ m) d ∧
  ErrorWithCause (ErrorString m) msg [ArgString s] = ErrorMessage msg m.
Proof.
  intros Hm Hmsg. split_and!; [by apply ErrorWithCause_plain| |done].
  by apply (ErrorWithCause_arg m d msg "s" "" (ArgString s)).
Qed.

(** The message of a cause is used as a format: a percent sign in it is
    taken for a verb without argument and the text is altered. *)
Theorem error_with_cause_alters_percent (m d msg : string) :
  all_chars (λ ch, negb (Ascii.eqb ch "%")) m = true → all_chars (λ ch, negb (Ascii.eqb ch "%")) msg = true →
  ErrorWithCause (ErrorMessage (m +:+ "% full") d) msg [] =
  ErrorMessage (msg +:+ ": " +:+ m +:+ "%!f(MISSING)ull") d.
Proof.
  intros Hm Hmsg. unfold ErrorWithCause, Sprintf. rewrite format_plain by done. do 2 f_equal.
  rewrite format_plain by done. f_equal. by rewrite format_plain.
Qed.

(** The requests the client makes itself carry the path of the base URL
    twice: for a base URL with a path, what is sent is the base followed by
    that path and the resource. *)
Theorem own_requests_repeat_base_path (base : list string) (id : string) (dec : bool) (t : trace HTTPBackend) o :
  plain_base c base → runs (client_TerminateMachine c id dec) t o →
  ∃ out r, t = [ev (I := HTTPBackend) (ClientDo out) r] ∧
    Out_URL out = CloudPoolURL c +:+ join_rooted (base ++ ["pool"; "terminate"]).
Proof. intros Hb H. by apply (plain_base_post c base "terminate") in H; [|done|by split_and!|..]. Qed.
End ClientClaims.

(** ** Witnesses *)

#[local] Existing Instance map_to_list_range.
#[local] Existing Instance insertion_sort.

Definition sample_client : DefaultCloudPoolClient := NewClient "http://pool:9010" 0.
Definition prefixed_client : DefaultCloudPoolClient := NewClient "http://pool:9010/api" 0.
Definition ok_backend (body : string) : env HTTPBackend := λ _ _, Ok (MkResponse 200 "200 OK" ∅ body None).

Lemma sample_base : plain_base sample_client [].
Proof. exists "http", "pool:9010". split_and!; [by left|reflexivity|constructor|reflexivity]. Qed.

Definition sample_target : URL := MkURL "" "" None "" "/pool/size" "" false "verbose=1" "".

Lemma forward_preserves_request_witness :
  ∃ out r u, (exec (ok_backend "") [] (Forward (lib := plain_lib) sample_client
     (MkRequest "GET" sample_target ∅ "10.0.0.1:4711" "x"))).1 = [ev (I := HTTPBackend) (ClientDo out) r] ∧
    Parse (lib := plain_lib) (Out_URL out) = Ok u ∧ URL_Path u = "/pool/size" ∧ URL_RawQuery u = "".
Proof.
  destruct (forward_preserves_request (lib := plain_lib) sample_client
    (MkRequest "GET" sample_target ∅ "10.0.0.1:4711" "x") _ _ (exec_runs (ok_backend "") _ [])) as [_ H].
  apply (H [] ["pool"; "size"] sample_base ltac:(discriminate)).
  - repeat constructor; discriminate.
  - reflexivity.
  - reflexivity.
Defined.

Definition sample_post : Prog HTTPBackend (option error) :=
  client_TerminateMachine (lib := plain_lib) sample_client "i-1" true.

Lemma client_succeeds_iff_ok_witness :
  ∃ out r, (exec (ok_backend "") [] sample_post).1 = [ev (I := HTTPBackend) (ClientDo out) r] ∧
    Out_URL out = "http://pool:9010/pool/terminate" ∧ (exec (ok_backend "") [] sample_post).2 = Done None.
Proof.
  pose proof (exec_runs (ok_backend "") sample_post []) as H.
  destruct (proj2 (client_succeeds_iff_ok (lib := plain_lib) sample_client 3 "i-1" true [] _ _) H) as [Hp Hr].
  destruct (Hr sample_base) as (out & r & Ht & Hu). exists out, r. split; [exact Ht|]. split; [exact Hu|].
  destruct Hp as [(Ht' & _)|(out' & r' & _ & _ & _ & _ & _ & [[_ Ho]|(_ & e & Ho)])];
    [rewrite Ht in Ht'; discriminate Ht'|exact Ho|vm_compute in Ho; discriminate Ho].
Defined.

Definition sample_pool_text : string :=
  write_json (JObj [("machines", JArr [JObj [("id", jstr "i-1"); ("machineState", jstr "RUNNING")]])]).

Lemma get_machine_returns_requested_witness :
  ∃ t m, runs (GetMachine (lib := plain_lib) sample_client "i-1") t (Done (Ok m)) ∧ ID m = "i-1".
Proof.
  assert (match (exec (ok_backend sample_pool_text) [] (GetMachine (lib := plain_lib) sample_client "i-1")).2 with
          | Done (Ok m) => True | _ => False end) as E by (vm_compute; exact I).
  pose proof (exec_runs (ok_backend sample_pool_text) (GetMachine (lib := plain_lib) sample_client "i-1") []) as H.
  destruct ((exec (ok_backend sample_pool_text) [] (GetMachine (lib := plain_lib) sample_client "i-1")).2)
    as [[m|]|]; [|destruct E..].
  eexists _, m. split; [exact H|]. exact (get_machine_returns_requested (lib := plain_lib) _ _ _ m H).
Defined.

Lemma error_with_cause_prepends_witness :
  ErrorWithCause (ErrorMessage "x went wrong" "details") "failed to do %s" [ArgString "y"] =
  ErrorMessage "failed to do y: x went wrong" "details".
Proof.
  exact (proj1 (proj2 (error_with_cause_prepends "x went wrong" "details" "failed to do " "y"
    eq_refl eq_refl))).
Defined.

Lemma error_with_cause_alters_percent_witness :
  ErrorWithCause (ErrorMessage "disk 100% full" "d") "request failed" [] =
  ErrorMessage "request failed: disk 100%!f(MISSING)ull" "d".
Proof. exact (error_with_cause_alters_percent "disk 100" "d" "request failed" eq_refl eq_refl). Defined.

Definition prefixed_post : Prog HTTPBackend (option error) :=
  client_TerminateMachine (lib := plain_lib) prefixed_client "m" true.

Lemma own_requests_repeat_base_path_witness :
  ∃ out, Out_URL out = "http://pool:9010/api/api/pool/terminate".
Proof.
  assert (plain_base prefixed_client ["api"]) as Hb.
  { exists "http", "pool:9010". split_and!; [by left|reflexivity|by repeat constructor|reflexivity]. }
  destruct (own_requests_repeat_base_path (lib := plain_lib) prefixed_client ["api"] "m" true _ _ Hb
    (exec_runs (ok_backend "") prefixed_post [])) as (out & r & _ & Hu).
  exists out. exact Hu.
Defined.
