(* ===== verification/Messages.v ===== *)
(** * Round trips of the REST messages

    What the client sends is what the server reads, and what the server reports
    is what the client reads: a class of message types with an encoder and a
    decoder that undo each other, its instances, and the passage of an error
    from one proxy to the client of another. *)
From stdpp Require Import base tactics list strings gmap pretty.
From Stdlib Require Import ZArith Lia Ascii.
From S2P Require Import Prelude Strconv GoStd KubeTypes Labels Json JsonIndent Samples Url Time CloudPool PoolClient.

Local Open Scope string_scope.

(** ** Message types *)

(** The messages on which [msg_ok] holds survive encoding and decoding into a
    fresh value. *)
Class Message (T : Type) : Type := {
  msg_zero : T;
  msg_json : T → json;
  msg_dec : decoder T;
  msg_ok : T → Prop;
  msg_wf : ∀ x, msg_ok x → wf_json (msg_json x) = true;
  msg_decodes : ∀ x, msg_ok x → msg_dec msg_zero (msg_json x) = Filled x None }.

Definition decode {T} `{Message T} (text : string) : outcome (result json_error T) := Unmarshal msg_zero msg_dec text.

Lemma decode_parsed {T} `{Message T} text (x : T) :
  msg_ok x → parse_json text = Some (msg_json x) → decode text = Done (Ok x).
Proof. intros Hx Ht. unfold decode, Unmarshal. by rewrite Ht, msg_decodes. Qed.

Lemma decode_written {T} `{Message T} (x : T) : msg_ok x → decode (write_json (msg_json x)) = Done (Ok x).
Proof. intros Hx. apply decode_parsed; [done|]. by apply parse_write, msg_wf. Qed.

Lemma decode_indented {T} `{Message T} (x : T) : msg_ok x → decode (MarshalIndent (msg_json x)) = Done (Ok x).
Proof. intros Hx. apply decode_parsed; [done|]. by apply parse_indent, msg_wf. Qed.

Lemma wf_jstr s : is_ascii_string s = true → wf_json (jstr s) = true.
Proof. intros H. cbn [wf_json jstr]. by rewrite H, String.eqb_refl. Qed.

(** ** Instances *)

#[export] Instance set_size_message : Message SetDesiredSizeMessage.
Proof.
  refine {| msg_zero := MkSetDesiredSizeMessage None; msg_json := SetDesiredSizeMessage_json; msg_dec := dec_set_size;
            msg_ok m := match DesiredSize m with Some n => int64_range n | None => True end |}.
  - intros [[n|]] Hn; [|done]. destruct (pretty_int_roundtrip n Hn) as (Hv & Ha & _).
    cbn [wf_json forallb SetDesiredSizeMessage_json DesiredSize]. by rewrite Hv, Ha.
  - intros [[n|]] Hn; [|done]. destruct (pretty_int_roundtrip n Hn) as (_ & _ & Hp). cbn. by rewrite Hp.
Defined.

#[export] Instance terminate_message : Message TerminateMachineMessage.
Proof.
  refine {| msg_zero := MkTerminateMachineMessage "" false; msg_json := TerminateMachineMessage_json;
            msg_dec := dec_terminate; msg_ok m := is_ascii_string (MachineID m) = true |}.
  - intros m Hm. cbn [wf_json forallb TerminateMachineMessage_json]. by rewrite wf_jstr.
  - by intros [id dec] Hm.
Defined.

#[export] Instance membership_message : Message MembershipStatus.
Proof.
  refine {| msg_zero := zero_membership; msg_json := MembershipStatus_json; msg_dec := dec_membership; msg_ok _ := True |}.
  - done.
  - by intros [[] []] _.
Defined.

(** An [ErrorMessage] as the pair of its fields. *)
#[export] Instance error_message : Message (string * string).
Proof.
  refine {| msg_zero := ("", ""); msg_json := λ m, ErrorMessage_json m.1 m.2; msg_dec := dec_error_message;
            msg_ok m := is_ascii_string m.1 = true ∧ is_ascii_string m.2 = true |}.
  - intros [m d] [Hm Hd]. cbn [wf_json forallb ErrorMessage_json fst snd]. by rewrite !wf_jstr.
  - by intros [m d] _.
Defined.

(** *** Raw messages *)

(** A string without HTML characters is copied. *)
Definition html_free (c : ascii) : bool :=
  negb (Ascii.eqb c "<") && negb (Ascii.eqb c ">") && negb (Ascii.eqb c "&") && negb (Ascii.eqb c (byte 226)).

Lemma escape_html_free s : all_chars html_free s = true → escape_html s = s.
Proof.
  induction s as [|c s IH]; [done|]. cbn [all_chars]. intros [Hc Hs]%andb_true_iff. cbn [escape_html]. rewrite (IH Hs).
  unfold html_free in Hc. rewrite !andb_true_iff, !negb_true_iff in Hc. destruct Hc as [[[-> ->] ->] Hc].
  destruct s as [|a [|b s]]; [done|done|].
  assert (Hne : ∀ r, r = encode_rune 8232 ∨ r = encode_rune 8233 → String.eqb (String c (String a (String b ""))) r = false).
  { intros r Hr. apply String.eqb_neq. intros E. apply Ascii.eqb_neq in Hc. apply Hc.
    destruct Hr as [->| ->]; vm_compute in E; by injection E. }
  rewrite !Hne by auto. done.
Qed.

Lemma quote_bytes_html_free s : is_ascii_string s = true → all_chars html_free (quote_bytes s) = true.
Proof.
  intros H. unfold quote_bytes. rewrite runes_ascii by done. revert H. induction s as [|c s IH]; [done|].
  cbn [is_ascii_string String.list_ascii_of_string map foldr]. intros [Hc Hs]%andb_true_iff.
  rewrite all_chars_app, (IH Hs), andb_true_r. cbn [quote_rune].
  pose proof (ordinary_chars (λ c, implb (between 0 127 c) (all_chars html_free (quote_byte c)))
    ltac:(vm_compute; reflexivity) c) as Hq. cbn beta in Hq. by rewrite Hc in Hq.
Qed.

Lemma raw_json_wf v : wf_json v = true → raw_json v = v.
Proof.
  induction v as [| | |s raw|vs IH|fs IH] using json_nested_ind; try done; cbn [wf_json raw_json]; intros H.
  - apply andb_true_iff in H as [Hs ->%String.eqb_eq]. by rewrite escape_html_free by by apply quote_bytes_html_free.
  - f_equal. induction IH as [|v vs Hv _ IHvs]; [done|]. simpl in H |- *. apply andb_true_iff in H as [H1 H2].
    by rewrite Hv, IHvs.
  - f_equal. induction IH as [|[k v] fs Hv _ IHfs]; [done|]. simpl in H, Hv |- *. rewrite !andb_true_iff in H.
    destruct H as [[_ H1] H2]. by rewrite Hv, IHfs.
Qed.

(** *** Sizes, machines and pools *)

Definition pool_size_ok (p : PoolSizeMessage) : Prop :=
  valid_time (Size_Timestamp p) ∧ int64_range (Size_DesiredSize p) ∧ int64_range (Size_Allocated p) ∧ int64_range (Size_Active p).

#[export] Instance pool_size_message : Message PoolSizeMessage.
Proof.
  refine {| msg_zero := MkPoolSizeMessage zero_time 0 0 0; msg_json := PoolSizeMessage_json; msg_dec := dec_pool_size;
            msg_ok := pool_size_ok |}.
  - intros [t d al ac] (Ht & H1%pretty_int_roundtrip & H2%pretty_int_roundtrip & H3%pretty_int_roundtrip).
    cbn [Size_Timestamp Size_DesiredSize Size_Allocated Size_Active] in *.
    destruct H1 as (E1 & F1 & _), H2 as (E2 & F2 & _), H3 as (E3 & F3 & _).
    cbn [wf_json forallb PoolSizeMessage_json Size_Timestamp Size_DesiredSize Size_Allocated Size_Active].
    by rewrite time_json_wf, E1, F1, E2, F2, E3, F3.
  - intros [t d al ac] (Ht & H1%pretty_int_roundtrip & H2%pretty_int_roundtrip & H3%pretty_int_roundtrip).
    cbn [Size_Timestamp Size_DesiredSize Size_Allocated Size_Active] in *.
    destruct H1 as (_ & _ & H1), H2 as (_ & _ & H2), H3 as (_ & _ & H3).
    cbn -[dec_time time_json pretty ParseInt]. rewrite dec_time_json by done.
    cbn -[pretty ParseInt]. rewrite H1. cbn -[pretty ParseInt]. rewrite H2. cbn -[pretty ParseInt]. by rewrite H3.
Defined.

(** A pointer or slice whose contents survive. *)
Lemma dec_pointer {T} (zero : T) (d : decoder T) (f : T → json) (p : option T) :
  (∀ x, p = Some x → f x ≠ JNull ∧ d zero (f x) = Filled x None) → dec_ptr zero d None (pointer_json f p) = Filled p None.
Proof.
  intros H. destruct p as [x|]; [|done]. destruct (H x eq_refl) as [Hn Hd]. cbn [pointer_json].
  unfold dec_ptr. cbn [default]. rewrite Hd. by destruct (f x).
Qed.

Lemma dec_slice_map {T} (zero : T) (d : decoder T) (f : T → json) (s : option (list T)) :
  (∀ x, x ∈ default [] s → d zero (f x) = Filled x None) → dec_slice zero d None (slice_json f s) = Filled s None.
Proof.
  intros H. destruct s as [xs|]; [|done]. cbn [slice_json dec_slice default] in *.
  assert (dec_elements zero d [] (map f xs) = Filled xs None) as ->; [|done].
  induction xs as [|x xs IH]; [done|]. cbn [map dec_elements hd tl]. rewrite H by set_solver. rewrite IH by set_solver. done.
Qed.

Definition ascii_slice (s : option (list string)) : Prop := Forall (λ x, is_ascii_string x = true) (default [] s).

Definition machine_ok (m : Machine) : Prop :=
  Forall (λ s, is_ascii_string s = true)
    [ID m; MachineState m; ServiceState m; CloudProvider m; Region m; MachineSize m] ∧
  Forall valid_time (machine_times m) ∧ ascii_slice (PublicIPs m) ∧ ascii_slice (PrivateIPs m) ∧
  match Metadata m with Some v => wf_json v = true ∧ v ≠ JNull | None => True end.

Lemma wf_slice {A} (f : A → json) (s : option (list A)) :
  (∀ x, x ∈ default [] s → wf_json (f x) = true) → wf_json (slice_json f s) = true.
Proof.
  intros H. destruct s as [xs|]; [|done]. cbn [slice_json wf_json default] in *.
  induction xs as [|x xs IH]; [done|]. cbn [map forallb]. rewrite H by set_solver. apply IH. set_solver.
Qed.

Lemma wf_pointer {A} (f : A → json) (p : option A) :
  (∀ x, p = Some x → wf_json (f x) = true) → wf_json (pointer_json f p) = true.
Proof. destruct p; naive_solver. Qed.

Lemma machine_times_valid m :
  Forall valid_time (machine_times m) →
  (∀ t, RequestTime m = Some t → valid_time t) ∧ (∀ t, LaunchTime m = Some t → valid_time t).
Proof.
  unfold machine_times. rewrite Forall_app. intros [H1 H2].
  split; intros t E; rewrite E in *; by apply Forall_singleton.
Qed.

Lemma dec_string_jstr cur s : dec_string cur (jstr s) = Filled s None.
Proof. done. Qed.

Lemma dec_membership_json cur ms : dec_membership cur (MembershipStatus_json ms) = Filled ms None.
Proof. by destruct ms. Qed.

Lemma dec_raw_metadata p :
  match p with Some v => wf_json v = true ∧ v ≠ JNull | None => True end → dec_raw None (pointer_json raw_json p) = Filled p None.
Proof.
  destruct p as [v|]; [|done]. intros [Hw Hn]. cbn [pointer_json]. rewrite raw_json_wf by done. by destruct v.
Qed.

Lemma dec_machine_json m : machine_ok m → dec_machine zero_machine (Machine_json m) = Filled m None.
Proof.
  destruct m as [id state ms service provider region size req launch pub priv meta].
  intros (_ & [Hr Hl]%machine_times_valid & _ & _ & Hm).
  cbn [ID MachineState Membership ServiceState CloudProvider Region MachineSize RequestTime LaunchTime PublicIPs PrivateIPs
       Metadata] in *.
  assert (Htime : ∀ p, (∀ t, p = Some t → valid_time t) → dec_ptr zero_time dec_time None (pointer_json time_json p) = Filled p None).
  { intros p Hp. apply dec_pointer. intros t E. split; [done|]. by apply dec_time_json, Hp. }
  assert (Hips : ∀ s, dec_slice "" dec_string None (slice_json jstr s) = Filled s None).
  { intros s. apply dec_slice_map. intros x _. apply dec_string_jstr. }
  assert (Hraw : dec_raw None (pointer_json raw_json meta) = Filled meta None) by by apply dec_raw_metadata.
  unfold Machine_json, dec_machine, dec_struct.
  cbn -[dec_ptr dec_time dec_slice dec_raw dec_membership pointer_json slice_json time_json jstr raw_json MembershipStatus_json dec_string].
  repeat (first [rewrite dec_string_jstr|rewrite dec_membership_json|rewrite Htime by done|rewrite Hips|rewrite Hraw];
    cbn -[dec_ptr dec_time dec_slice dec_raw dec_membership pointer_json slice_json time_json jstr raw_json MembershipStatus_json dec_string]).
  reflexivity.
Qed.

Lemma machine_json_wf m : machine_ok m → wf_json (Machine_json m) = true.
Proof.
  intros (Hs & [Hr Hl]%machine_times_valid & Hpub & Hpriv & Hm). unfold ascii_slice in *. rewrite Forall_forall in Hpub, Hpriv.
  rewrite !Forall_cons in Hs. destruct Hs as (H1 & H2 & H3 & H4 & H5 & H6 & _).
  unfold Machine_json. cbn [wf_json forallb]. rewrite !wf_jstr by done.
  rewrite (wf_pointer _ (RequestTime m)) by (intros t E; by apply time_json_wf, Hr).
  rewrite (wf_pointer _ (LaunchTime m)) by (intros t E; by apply time_json_wf, Hl).
  rewrite (wf_pointer _ (Metadata m)) by (intros v E; rewrite E in Hm; destruct Hm; by rewrite raw_json_wf).
  by rewrite !wf_slice by auto using wf_jstr.
Qed.

#[export] Instance machine_message : Message Machine :=
  {| msg_zero := zero_machine; msg_json := Machine_json; msg_dec := dec_machine; msg_ok := machine_ok;
     msg_wf := machine_json_wf; msg_decodes := dec_machine_json |}.

Definition pool_ok (p : MachinePoolMessage) : Prop := Forall machine_ok (Machines p) ∧ valid_time (Pool_Timestamp p).

#[export] Instance pool_message : Message MachinePoolMessage.
Proof.
  refine {| msg_zero := MkMachinePoolMessage None zero_time; msg_json := MachinePoolMessage_json; msg_dec := dec_pool;
            msg_ok := pool_ok |}.
  - intros p [Hms Ht]. rewrite Forall_forall in Hms. unfold MachinePoolMessage_json. cbn [wf_json forallb].
    rewrite wf_slice, time_json_wf; [done|done|]. intros m Hm. by apply machine_json_wf, Hms.
  - intros [ms t] [Hms Ht]. rewrite Forall_forall in Hms. cbn [Pool_Timestamp] in Ht.
    unfold MachinePoolMessage_json, dec_pool, dec_struct. cbn -[dec_slice slice_json dec_machine Machine_json zero_machine dec_time time_json].
    rewrite dec_slice_map by (intros m Hm; by apply dec_machine_json, Hms).
    cbn -[dec_time time_json]. by rewrite dec_time_json.
Defined.

(** The times of a well-formed message can be printed. *)
Lemma printable_times ts v : Forall valid_time ts → print_message ts v = MarshalIndent v.
Proof.
  intros H. unfold print_message. assert (forallb time_printable ts = true) as ->; [|done].
  induction H as [|t ts Ht _ IH]; [done|]. cbn [forallb]. by rewrite valid_printable.
Qed.

Lemma pool_times_valid p : pool_ok p → Forall valid_time (pool_times p).
Proof.
  intros [Hms Ht]. unfold pool_times. apply Forall_app_2; [|by constructor].
  induction Hms as [|m ms (_ & Hm & _) _ IH]; [constructor|]. cbn [map concat]. by apply Forall_app_2.
Qed.

(** ** Claims *)

(** C30. The messages of the REST interface survive their encoding: the resize
    and terminate messages that the client sends are read back by the server as
    they were (any int, any ASCII machine ID), and so are the indented texts of
    the [String] methods and of error responses; a pool, a machine and a pool
    size survive with their times (to the nanosecond, in their zones), their
    nil and empty slices and their raw metadata. *)
Theorem messages_roundtrip (n : Z) (id message detail : string) (dec : bool) (m : MembershipStatus)
    (s : PoolSizeMessage) (p : MachinePoolMessage) (x : Machine) :
  int64_range n → is_ascii_string id = true → is_ascii_string message = true → is_ascii_string detail = true →
  pool_size_ok s → pool_ok p → machine_ok x →
  let size := MkSetDesiredSizeMessage (Some n) in
  let terminate := MkTerminateMachineMessage id dec in
  decode (enc_set_size n) = Done (Ok size) ∧ decode (SetDesiredSizeMessage_String size) = Done (Ok size) ∧
  decode (enc_terminate id dec) = Done (Ok terminate) ∧
  decode (TerminateMachineMessage_String terminate) = Done (Ok terminate) ∧
  decode (MembershipStatus_String m) = Done (Ok m) ∧
  decode (MarshalIndent (ErrorMessage_json message detail)) = Done (Ok (message, detail)) ∧
  decode (PoolSizeMessage_String s) = Done (Ok s) ∧ decode (MachinePoolMessage_String p) = Done (Ok p) ∧
  decode (Machine_String x) = Done (Ok x).
Proof.
  intros Hn Hid Hm Hd Hs Hp Hx size terminate. split_and!.
  - exact (decode_written size Hn).
  - exact (decode_indented size Hn).
  - exact (decode_written terminate Hid).
  - exact (decode_indented terminate Hid).
  - exact (decode_indented m I).
  - exact (decode_indented (message, detail) (conj Hm Hd)).
  - unfold PoolSizeMessage_String. rewrite printable_times by (constructor; [apply Hs|done]). exact (decode_indented s Hs).
  - unfold MachinePoolMessage_String. rewrite printable_times by by apply pool_times_valid. exact (decode_indented p Hp).
  - unfold Machine_String. rewrite printable_times by apply Hx. exact (decode_indented x Hx).
Qed.

Section ClientReads.
Context `{ranger : !MapRange, lib : !GoLib}.

(** The backend reports a message: a complete 200 response with its text,
    compact or indented. *)
Definition reports {T} `{Message T} (resp : Response) (x : T) : Prop :=
  StatusCode resp = StatusOK ∧ BodyError resp = None ∧ msg_ok x ∧
  (RespBody resp = write_json (msg_json x) ∨ RespBody resp = MarshalIndent (msg_json x)).

Lemma decode_reported {T} `{Message T} resp (x : T) : reports resp x → decode (RespBody resp) = Done (Ok x).
Proof. intros (_ & _ & Hx & [->| ->]); [by apply decode_written|by apply decode_indented]. Qed.

(** A backend that answers every request the same. *)
Definition answers (resp : Response) : env HTTPBackend := λ _ _, Ok resp.

(** The shape of the two read operations. *)
Lemma fetch_reads {T} `{Message T} c base elems (e1 e2 : error → error) (e3 : json_error → error) (x : T) resp past :
  plain_base c base → elems ≠ [] → Forall (λ e, proper_element e ∧ all_chars path_char e = true) elems → reports resp x →
  let path := join_rooted elems in
  exec (answers resp) past
    (match newRequestError "GET" (poolURL c path) with
     | Some e => Ret (Err (e1 e))
     | None =>
         bind (doRequest c (own_request c "GET" path ∅ "")) (λ r,
           match r with
           | Err err => Ret (Err (e2 err))
           | Ok body =>
               bind (pure (Unmarshal msg_zero msg_dec body)) (λ r,
                 match r with Err e => Ret (Err (e3 e)) | Ok y => Ret (Ok y) end)
           end)
     end) =
  ([ev (I := HTTPBackend) (ClientDo (forwarded c (own_request c "GET" path ∅ ""))) (Ok resp)], Done (Ok x)) ∧
  Out_URL (forwarded c (own_request c "GET" path ∅ "")) = CloudPoolURL c +:+ join_rooted (base ++ elems).
Proof.
  intros Hb Hne He Hx path. destruct (plain_base_accepts c base elems "GET" Hb Hne He eq_refl) as (Hnew & Hagain & Hsent).
  fold path in Hnew, Hagain, Hsent. split; [|exact Hsent]. rewrite Hnew. unfold doRequest, Forward.
  change (newRequestError (Method (own_request c "GET" path ∅ "")) (poolURL c (URLPath (own_request c "GET" path ∅ ""))))
    with (newRequestError "GET" (poolURL c (urlPath (poolURL c path)))). rewrite Hagain.
  pose proof (decode_reported _ _ Hx) as Hd. unfold decode in Hd. destruct Hx as (Hs & Hbody & _).
  cbn. unfold answers. rewrite Hbody, Hs. cbn. rewrite Hd. done.
Qed.

Lemma pool_path : Forall (λ e, proper_element e ∧ all_chars path_char e = true) ["pool"; "size"].
Proof. repeat constructor; done. Qed.

Lemma machine_by_id_None id ms : machine_by_id id ms = None → ∀ m, m ∈ ms → ID m ≠ id.
Proof.
  induction ms as [|x ms IH]; cbn [machine_by_id]; [set_solver|]. destruct (String.eqb_spec (ID x) id); [done|].
  intros H m [->|Hm]%elem_of_cons; [done|by apply IH].
Qed.

(** C31. The client reads what the backend reports.  Let the base be an http or
    https URL of ordinary characters, and let the backend answer with a
    complete 200 response whose body is a pool, or a pool size, as compact or
    indented JSON; its strings are ASCII, its times and numbers can be written,
    and its metadata is JSON and not null.  Then the client makes one GET
    without a body, to the base URL followed by the path of the base (which is
    so repeated; nothing if it has none) and /pool or /pool/size, and returns
    what was reported as it is, with every machine, time, address and piece of
    metadata; and a machine is found, by the same GET of the pool, exactly when
    the reported pool has one with that ID. *)
Theorem client_reads_what_is_reported (c : DefaultCloudPoolClient) (base : list string) (id : string)
    (p : MachinePoolMessage) (s : PoolSizeMessage) (pool_resp size_resp : Response) :
  plain_base c base → reports pool_resp p → reports size_resp s →
  ∃ pool_req size_req,
    Out_Method pool_req = "GET" ∧ Out_Body pool_req = "" ∧ Out_Method size_req = "GET" ∧ Out_Body size_req = "" ∧
    Out_URL pool_req = CloudPoolURL c +:+ join_rooted (base ++ ["pool"]) ∧
    Out_URL size_req = CloudPoolURL c +:+ join_rooted (base ++ ["pool"; "size"]) ∧
    exec (answers pool_resp) [] (GetMachinePool c) =
      ([ev (I := HTTPBackend) (ClientDo pool_req) (Ok pool_resp)], Done (Ok p)) ∧
    exec (answers size_resp) [] (GetPoolSize c) =
      ([ev (I := HTTPBackend) (ClientDo size_req) (Ok size_resp)], Done (Ok s)) ∧
    ∃ r, exec (answers pool_resp) [] (GetMachine c id) =
        ([ev (I := HTTPBackend) (ClientDo pool_req) (Ok pool_resp)], Done r) ∧
      match r with
      | Ok m => m ∈ Machines p ∧ ID m = id
      | Err e => (∀ m, m ∈ Machines p → ID m ≠ id) ∧ ∃ msg, e = ErrorMessage msg ""
      end.
Proof.
  intros Hb Hp Hs. pose proof pool_path as Hpath. destruct (fetch_reads c base ["pool"]
    (λ e, ErrorMessage "GetMachinePool: failed to create request message" (Error e)) (λ e, ErrorWithCause e "getMachinePool" [])
    (λ e, ErrorMessage "GetMachinePool: failed to unmarshal json response" (jsonErrorText e)) p pool_resp [] Hb ltac:(done)
    ltac:(by inversion Hpath; constructor) Hp) as [Ep Up].
  destruct (fetch_reads c base ["pool"; "size"]
    (λ e, ErrorMessage "GetPoolSize: failed to create request message" (Error e)) (λ e, ErrorWithCause e "getPoolSize" [])
    (λ e, ErrorMessage "GetPoolSize: failed to unmarshal json response" (jsonErrorText e)) s size_resp [] Hb ltac:(done)
    Hpath Hs) as [Es Us].
  exists (forwarded c (own_request c "GET" (join_rooted ["pool"]) ∅ "")), (forwarded c (own_request c "GET" (join_rooted ["pool"; "size"]) ∅ "")).
  do 4 (split; [reflexivity|]). split; [exact Up|]. split; [exact Us|]. split; [exact Ep|]. split; [exact Es|].
  unfold GetMachine. rewrite (exec_bind _ _ _ _ _ _ Ep).
  destruct (machine_by_id id (Machines p)) as [m|] eqn:E; cbn; eexists; (split; [done|]); simpl.
  - by apply machine_by_id_Some in E.
  - split; [by apply machine_by_id_None|]. by eexists.
Qed.
End ClientReads.

(** ** Witnesses *)

(** Ranges of numbers that are given. *)
Ltac ground_ranges := repeat split; (vm_compute; first [reflexivity|discriminate]).

Definition sample_report : Machine :=
  MkMachine "i-1" "RUNNING" (MkMembershipStatus true true) "IN_SERVICE" "cloud" "eu" "m1" (Some (MkTime 2017 6 1 9 30 0 5000 (-330)))
    None (Some []) None (Some (JObj [("a", JArr [JNum "1"; jstr "<b>"])])).
Definition sample_pool_report : MachinePoolMessage := MkMachinePoolMessage (Some [sample_report]) zero_time.

Lemma sample_report_ok : machine_ok sample_report.
Proof.
  split; [by repeat constructor|]. split.
  - constructor; [ground_ranges|constructor].
  - split; [apply List.Forall_nil|]. split; [apply List.Forall_nil|]. split; [reflexivity|discriminate].
Qed.

Lemma sample_pool_report_ok : pool_ok sample_pool_report.
Proof. split; [constructor; [exact sample_report_ok|constructor]|]. ground_ranges. Qed.

Lemma messages_roundtrip_witness :
  decode (enc_set_size (-12)) = Done (Ok (MkSetDesiredSizeMessage (Some (-12)%Z))).
Proof.
  apply (messages_roundtrip (-12)%Z "i-1" "no room" "node n1" true zero_membership (MkPoolSizeMessage zero_time 3 2 1)
    sample_pool_report sample_report); [|reflexivity..| |exact sample_pool_report_ok|exact sample_report_ok].
  - ground_ranges.
  - ground_ranges.
Defined.

#[local] Existing Instance map_to_list_range.

Definition pool_report_response : Response := MkResponse 200 "200 OK" ∅ (write_json (MachinePoolMessage_json sample_pool_report)) None.
Definition size_report_response : Response :=
  MkResponse 200 "200 OK" ∅ (MarshalIndent (PoolSizeMessage_json (MkPoolSizeMessage zero_time 3 2 1))) None.

Lemma client_reads_what_is_reported_witness :
  ∃ req, Out_Method req = "GET" ∧ Out_URL req = "http://pool:9010/pool" ∧
    exec (answers pool_report_response) [] (GetMachinePool (lib := plain_lib) sample_client) =
      ([ev (I := HTTPBackend) (ClientDo req) (Ok pool_report_response)], Done (Ok sample_pool_report)).
Proof.
  assert (reports pool_report_response sample_pool_report) as Hp.
  { split; [reflexivity|]. split; [reflexivity|]. split; [exact sample_pool_report_ok|left; reflexivity]. }
  assert (reports size_report_response (MkPoolSizeMessage zero_time 3 2 1)) as Hs.
  { split; [reflexivity|]. split; [reflexivity|]. split; [ground_ranges|right; reflexivity]. }
  destruct (client_reads_what_is_reported (lib := plain_lib) sample_client [] "i-1" sample_pool_report
    (MkPoolSizeMessage zero_time 3 2 1) pool_report_response size_report_response sample_base Hp Hs)
    as (req & ? & Hm & _ & _ & _ & Hu & _ & H & _).
  exists req. split; [exact Hm|]. split; [rewrite Hu; reflexivity|exact H].
Defined.
