(* ===== verification/Duration.v ===== *)
(** * time.ParseDuration and time.Duration.String

    The reader of textual durations that [Duration.UnmarshalJSON] of
    pkg/config/proxy_config.go calls: an optional sign and a sequence of decimal
    numbers with units, on int64 nanoseconds with the overflow checks of the
    library (Go 1.10); a fraction goes through float64.  The writer that
    [Duration.MarshalJSON] calls, and that whole seconds are read back. *)
From stdpp Require Import base tactics list strings pretty.
From Stdlib Require Import ZArith Lia Ascii SpecFloat.
From S2P Require Import Prelude Strconv GoStd Labels Json Url PoolClient.

Local Open Scope go_scope.
Local Open Scope string_scope.

Definition float64_mul (x y : float64) : float64 := SFmul 53 1024 x y.

(** Conversion truncates; a value out of range gives the least integer (amd64). *)
Definition int64_of_float64 (x : float64) : Z :=
  match x with
  | S754_zero _ => 0%Z
  | S754_finite sign m e =>
      let mag := if (0 <=? e)%Z then (Zpos m * 2 ^ e)%Z else (Zpos m / 2 ^ (- e))%Z in
      let z := if sign then (- mag)%Z else mag in
      if in_int64 z then z else MinInt64
  | _ => MinInt64
  end.

Definition digit (c : ascii) : Z := (Z.of_N (code c) - 48)%Z.

Fixpoint leadingInt (x : Z) (s : string) : option (Z * string) :=
  match s with
  | String c s' =>
      if is_digit c then
        if (MaxInt64 / 10 <? x)%Z then None
        else
          let y := wrap64 (x * 10 + digit c) in
          if (y <? 0)%Z then None else leadingInt y s'
      else Some (x, s)
  | "" => Some (x, "")
  end.

Fixpoint leadingFraction (overflow : bool) (x : Z) (scale : float64) (s : string) : Z * float64 * string :=
  match s with
  | String c s' =>
      if is_digit c then
        if overflow then leadingFraction true x scale s'
        else if (MaxInt64 / 10 <? x)%Z then leadingFraction true x scale s'
        else
          let y := wrap64 (x * 10 + digit c) in
          if (y <? 0)%Z then leadingFraction true x scale s'
          else leadingFraction false y (float64_mul scale (float64_of_int64 10)) s'
      else (x, scale, s)
  | "" => (x, scale, "")
  end.

Definition unitMap (u : string) : option Z :=
  if String.eqb u "ns" then Some 1%Z
  else if String.eqb u "us" || String.eqb u (encode_rune 181 +:+ "s") || String.eqb u (encode_rune 956 +:+ "s")
  then Some 1000%Z
  else if String.eqb u "ms" then Some 1000000%Z
  else if String.eqb u "s" then Some 1000000000%Z
  else if String.eqb u "m" then Some 60000000000%Z
  else if String.eqb u "h" then Some 3600000000000%Z
  else None.

Definition is_unit_char (c : ascii) : bool := negb (Ascii.eqb c "." || is_digit c).

(** The integer and the fraction before a unit, if they are well-formed: the
    value, the fraction and its scale, and the rest of the text. *)
Definition read_decimal (s : string) : option (Z * Z * float64 * string) :=
  match leadingInt 0 s with
  | None => None
  | Some (v, s1) =>
      let pre := negb (String.length s =? String.length s1)%nat in
      match s1 with
      | String "." s2 =>
          let '(f, scale, s3) := leadingFraction false 0 (float64_of_int64 1) s2 in
          if pre || negb (String.length s2 =? String.length s3)%nat then Some (v, f, scale, s3) else None
      | _ => if pre then Some (v, 0%Z, float64_of_int64 1, s1) else None
      end
  end.

(** [v] units and [f / scale] of one, or nothing on overflow. *)
Definition scale_value (v f : Z) (scale : float64) (unit : Z) : option Z :=
  if (MaxInt64 / unit <? v)%Z then None
  else
    let v := wrap64 (v * unit) in
    if (0 <? f)%Z then
      let v := wrap64 (v + int64_of_float64
                 (float64_mul (float64_of_int64 f) (float64_div (float64_of_int64 unit) scale))) in
      if (v <? 0)%Z then None else Some v
    else Some v.

(** The loop of [ParseDuration]; every iteration consumes a byte. *)
Fixpoint duration_loop (orig : string) (fuel : nat) (d : Z) (s : string) : result string Z :=
  match s, fuel with
  | "", _ => Ok d
  | _, 0%nat => Err "out of fuel"
  | String c _, S fuel =>
      if negb (Ascii.eqb c "." || is_digit c) then Err ("time: invalid duration " +:+ orig)
      else
        match read_decimal s with
        | None => Err ("time: invalid duration " +:+ orig)
        | Some (v, f, scale, s1) =>
            let '(u, s2) := span is_unit_char s1 in
            if String.eqb u "" then Err ("time: missing unit in duration " +:+ orig)
            else
              match unitMap u with
              | None => Err ("time: unknown unit " +:+ u +:+ " in duration " +:+ orig)
              | Some unit =>
                  match scale_value v f scale unit with
                  | None => Err ("time: invalid duration " +:+ orig)
                  | Some v =>
                      let d := wrap64 (d + v) in
                      if (d <? 0)%Z then Err ("time: invalid duration " +:+ orig)
                      else duration_loop orig fuel d s2
                  end
              end
        end
  end.

Definition split_sign (orig : string) : bool * string :=
  match orig with
  | String "-" r => (true, r)
  | String "+" r => (false, r)
  | _ => (false, orig)
  end.

Definition ParseDuration (orig : string) : result string Z :=
  let '(neg, s) := split_sign orig in
  if String.eqb s "0" then Ok 0%Z
  else if String.eqb s "" then Err ("time: invalid duration " +:+ orig)
  else
    match duration_loop orig (String.length s) 0 s with
    | Ok d => Ok (if neg then wrap64 (- d) else d)
    | Err e => Err e
    end.

Example parse_mixed : ParseDuration "1h15m30.5s" = Ok 4530500000000%Z.
Proof. vm_compute. reflexivity. Qed.
Example parse_negative : ParseDuration "-1.5h" = Ok (-5400000000000)%Z.
Proof. vm_compute. reflexivity. Qed.
Example parse_unitless : ParseDuration "10" = Err "time: missing unit in duration 10".
Proof. vm_compute. reflexivity. Qed.
Example parse_overflow : ParseDuration "2562048h" = Err "time: invalid duration 2562048h".
Proof. vm_compute. reflexivity. Qed.

(** ** The fuel is enough *)

Lemma leadingInt_shorter s : ∀ x v rest, leadingInt x s = Some (v, rest) → (String.length rest ≤ String.length s)%nat.
Proof.
  induction s as [|c s IH]; simpl; intros x v rest; [by intros [= <- <-]|].
  destruct (is_digit c); [|by intros [= <- <-]]. destruct (_ <? x)%Z; [done|]. destruct (_ <? 0)%Z; [done|].
  intros H%IH. lia.
Qed.

Lemma leadingFraction_shorter s : ∀ o x sc, (String.length (leadingFraction o x sc s).2 ≤ String.length s)%nat.
Proof.
  induction s as [|c s IH]; simpl; intros o x sc; [done|]. destruct (is_digit c); [|done].
  destruct o; [specialize (IH true x sc); lia|]. destruct (_ <? x)%Z; [specialize (IH true x sc); lia|].
  destruct (_ <? 0)%Z; [specialize (IH true x sc); lia|]. etrans; [apply IH|lia].
Qed.

Lemma read_decimal_shorter s v f sc rest :
  read_decimal s = Some (v, f, sc, rest) → (String.length rest ≤ String.length s)%nat.
Proof.
  unfold read_decimal. destruct (leadingInt 0 s) as [[v1 s1]|] eqn:E; [|done]. apply leadingInt_shorter in E.
  assert (∀ p : bool, (if p then Some (v1, 0%Z, float64_of_int64 1, s1) else None) = Some (v, f, sc, rest) → rest = s1)
    as Hp by (intros []; congruence).
  destruct s1 as [|c s2]; [intros ->%Hp; done|].
  destruct (decide (c = "."%char)) as [->|Hne].
  - pose proof (leadingFraction_shorter s2 false 0 (float64_of_int64 1)) as Hf.
    destruct (leadingFraction _ _ _ s2) as [[f1 sc1] s3]. case_match; [|done]. intros [= <- <- <- <-]. simpl in *. lia.
  - intros H. assert (rest = String c s2) as ->; [|done].
    destruct c as [[] [] [] [] [] [] [] []]; (by apply Hp in H) || done.
Qed.

Lemma span_shorter f s u rest : span f s = (u, rest) → u ≠ "" → (String.length rest < String.length s)%nat.
Proof.
  revert u rest. induction s as [|c s IH]; simpl; intros u rest; [by intros [= <- <-]|].
  destruct (f c); [|by intros [= <- <-]]. destruct (span f s) as [a b] eqn:E. intros [= <- <-] _.
  destruct (decide (a = "")) as [->|Ha]; [|specialize (IH _ _ eq_refl Ha); lia].
  enough (String.length b ≤ String.length s)%nat by lia. clear IH. revert b E.
  destruct s as [|c' s]; simpl; intros b; [by intros [= <-]|].
  destruct (f c'); [by destruct (span f s)|]. by intros [= <-].
Qed.

(** More fuel than bytes changes nothing. *)
Lemma duration_loop_fuel orig n : ∀ m d s,
  (String.length s ≤ n)%nat → (String.length s ≤ m)%nat → duration_loop orig n d s = duration_loop orig m d s.
Proof.
  induction n as [|n IH]; intros m d s Hn Hm.
  - destruct s; simpl in *; [by destruct m|lia].
  - destruct s as [|c s]; [by destruct m|]. destruct m as [|m]; [simpl in Hm; lia|]. cbn [duration_loop].
    destruct (negb _); [done|]. destruct (read_decimal _) as [[[[v f] sc] s1]|] eqn:Er; [|done].
    destruct (span is_unit_char s1) as [u s2] eqn:Es. destruct (String.eqb_spec u ""); [done|].
    destruct (unitMap u); [|done]. destruct (scale_value _ _ _ _); [|done]. destruct (_ <? 0)%Z; [done|].
    apply read_decimal_shorter in Er. apply span_shorter in Es; [|done]. apply IH; simpl in *; lia.
Qed.

(** ** Results fit an int64 *)

Lemma duration_loop_range orig n : ∀ d s r, int64_range d → duration_loop orig n d s = Ok r → int64_range r.
Proof.
  induction n as [|n IH]; intros d s r Hd; destruct s as [|c s]; cbn [duration_loop]; try congruence.
  destruct (negb _); [done|]. destruct (read_decimal _) as [[[[v f] sc] s1]|]; [|done].
  destruct (span is_unit_char s1) as [u s2]. destruct (String.eqb u ""); [done|].
  destruct (unitMap u); [|done]. destruct (scale_value _ _ _ _); [|done]. destruct (_ <? 0)%Z; [done|].
  apply IH, wrap64_range.
Qed.

Lemma ParseDuration_range s r : ParseDuration s = Ok r → int64_range r.
Proof.
  unfold ParseDuration. destruct (split_sign s) as [neg s1].
  destruct (String.eqb s1 "0"); [intros [= <-]; unfold int64_range, MinInt64, MaxInt64; lia|].
  destruct (String.eqb s1 ""); [done|]. destruct (duration_loop _ _ _ _) as [d|] eqn:E; [|done].
  apply duration_loop_range in E; [|unfold int64_range, MinInt64, MaxInt64; lia].
  intros [= <-]. destruct neg; [apply wrap64_range|done].
Qed.

(** ** Whole numbers of a unit *)

Lemma digit_of_digit c : is_digit c = true → digit_of c = Some (digit c) ∧ (0 ≤ digit c)%Z.
Proof. destruct c as [[] [] [] [] [] [] [] []]; intros H; try discriminate H; by split. Qed.

Lemma parse_digits_grow ds : ∀ acc v, all_chars is_digit ds = true → (0 ≤ acc)%Z →
  parse_digits acc ds = Some v → (acc ≤ v)%Z.
Proof.
  induction ds as [|c ds IH]; simpl; intros acc v; [intros _ _ [= ->]; lia|].
  intros [Hc Hds]%andb_true_iff Ha. destruct (digit_of_digit c Hc) as [-> Hd]. intros H%IH; [|done|]; lia.
Qed.

Lemma leadingInt_digits ds rest : ∀ acc v,
  all_chars is_digit ds = true → (0 ≤ acc)%Z → parse_digits acc ds = Some v → (v ≤ MaxInt64)%Z →
  match rest with String c _ => is_digit c = false | "" => True end →
  leadingInt acc (ds +:+ rest) = Some (v, rest).
Proof.
  induction ds as [|c ds IH]; intros acc v.
  - intros _ _ [= ->] _ Hr. destruct rest as [|c rest]; [done|]. change ("" +:+ ?r) with r. simpl. by rewrite Hr.
  - cbn [all_chars parse_digits]. intros [Hc Hds]%andb_true_iff Ha Hp Hv Hr.
    change (String c ds +:+ rest) with (String c (ds +:+ rest)). cbn [leadingInt]. rewrite Hc.
    destruct (digit_of_digit c Hc) as [E Hd]. rewrite E in Hp.
    assert (acc * 10 + digit c ≤ v)%Z as Hg by (eapply parse_digits_grow; [exact Hds|lia|exact Hp]).
    assert ((MaxInt64 / 10 <? acc)%Z = false) as ->.
    { apply Z.ltb_ge, Z.div_le_lower_bound; unfold MaxInt64 in *; lia. }
    rewrite wrap64_small by (unfold int64_range, MinInt64, MaxInt64 in *; lia).
    assert ((acc * 10 + digit c <? 0)%Z = false) as -> by (apply Z.ltb_ge; lia).
    apply IH; auto; lia.
Qed.

(** The digits of a natural number. *)
Lemma pretty_N_digits (n : N) :
  ∃ d ds, pretty n = String d ds ∧ all_chars is_digit (String d ds) = true ∧
    parse_digits 0 (pretty n) = Some (Z.of_N n) ∧ (d = "0"%char → n = 0%N).
Proof.
  destruct (decide (n = 0%N)) as [->|Hn]; [by exists "0"%char, ""|].
  rewrite pretty_N_pos by lia. destruct (pretty_digits n "") as (d & ds & k & Hgo & Hd & H0 & Hds & Hacc); [lia|].
  rewrite app_nil_s in Hgo. exists d, ds. split_and!; [done|simpl; by rewrite Hd, Hds| |by intros ->].
  rewrite Hacc. simpl. f_equal; lia.
Qed.

Lemma unit_chars u unit : unitMap u = Some unit → all_chars is_unit_char u = true ∧ u ≠ "" ∧ (0 < unit ≤ MaxInt64)%Z.
Proof.
  unfold unitMap, MaxInt64.
  repeat (match goal with |- context [String.eqb u ?x] => destruct (String.eqb_spec u x) as [->|] end;
    [cbn [orb]; intros [= <-]; split_and!; [done|done|lia..]|]). simpl. done.
Qed.

Lemma split_sign_digit d s : is_digit d = true → split_sign (String d s) = (false, String d s).
Proof. destruct d as [[] [] [] [] [] [] [] []]; intros H; try discriminate H; done. Qed.

Lemma span_all_nil f s : all_chars f s = true → span f s = (s, "").
Proof. intros H. pose proof (span_all f s "" H) as E. rewrite app_nil_s in E. apply E. done. Qed.

(** What may follow a unit: the end of the text or the next number. *)
Definition next_number (s : string) : bool := match s with "" => true | String c _ => negb (is_unit_char c) end.

(** One component of a duration: a whole number of a unit. *)
Lemma duration_step orig fuel d (n : N) u unit rest :
  unitMap u = Some unit → next_number rest = true → (0 ≤ d)%Z → (d + Z.of_N n * unit ≤ MaxInt64)%Z →
  duration_loop orig (S fuel) d (pretty n +:+ u +:+ rest) = duration_loop orig fuel (d + Z.of_N n * unit)%Z rest.
Proof.
  intros Hu Hrest Hd0 Hmax. destruct (unit_chars _ _ Hu) as (Hchars & Hne & Hpos).
  destruct (pretty_N_digits n) as (d1 & ds & Hp & Hdig & Hval & _). rewrite Hp in *.
  assert (all_chars is_digit ds = true ∧ is_digit d1 = true) as [Hds Hd] by (simpl in Hdig; by apply andb_true_iff in Hdig as []).
  destruct u as [|c u]; [done|]. assert (is_unit_char c = true) as Hc by (simpl in Hchars; by apply andb_true_iff in Hchars as []).
  assert (Hcd : is_digit c = false ∧ c ≠ "."%char).
  { unfold is_unit_char in Hc. apply negb_true_iff, orb_false_iff in Hc as [?%Ascii.eqb_neq ?]. done. }
  change (String d1 ds +:+ ?x) with (String d1 (ds +:+ x)). cbn [duration_loop]. rewrite Hd, orb_true_r. cbn [negb].
  assert (Z.of_N n ≤ MaxInt64)%Z as Hn by nia.
  assert (read_decimal (String d1 (ds +:+ String c u +:+ rest)) = Some (Z.of_N n, 0%Z, float64_of_int64 1, String c u +:+ rest)) as ->.
  { unfold read_decimal. change (String d1 (ds +:+ ?x)) with (String d1 ds +:+ x).
    change (String c u +:+ rest) with (String c (u +:+ rest)).
    rewrite (leadingInt_digits (String d1 ds) (String c (u +:+ rest)) 0 (Z.of_N n)) by (done || apply Hcd).
    rewrite length_app_s. replace (_ + _ =? _)%nat with false by (symmetry; apply Nat.eqb_neq; simpl; lia).
    destruct c as [[] [] [] [] [] [] [] []]; done || (exfalso; by apply Hcd). }
  rewrite (span_all is_unit_char (String c u) rest Hchars Hrest). cbn [String.eqb]. rewrite Hu.
  unfold scale_value. assert ((MaxInt64 / unit <? Z.of_N n)%Z = false) as ->.
  { apply Z.ltb_ge, Z.div_le_lower_bound; [lia|rewrite Z.mul_comm; nia]. }
  assert (int64_range (Z.of_N n * unit) ∧ int64_range (d + Z.of_N n * unit)) as [Hr1 Hr2]
    by (unfold int64_range, MinInt64 in *; split; split; nia).
  cbn [Z.ltb Z.compare]. rewrite (wrap64_small _ Hr1), (wrap64_small _ Hr2).
  by assert ((d + Z.of_N n * unit <? 0)%Z = false) as -> by (apply Z.ltb_ge; nia).
Qed.

Lemma duration_loop_end orig fuel d : duration_loop orig fuel d "" = Ok d.
Proof. by destruct fuel. Qed.

(** A text that starts with a number and is more than one digit is read by the
    loop, with any fuel that is enough, and its sign applied. *)
Lemma ParseDuration_loop (neg : bool) (n : N) u rest fuel :
  u ≠ "" → let s := pretty n +:+ u +:+ rest in (String.length s ≤ fuel)%nat →
  ParseDuration ((if neg then "-" else "") +:+ s) =
  match duration_loop ((if neg then "-" else "") +:+ s) fuel 0 s with
  | Ok d => Ok (if neg then wrap64 (- d) else d)
  | Err e => Err e
  end.
Proof.
  intros Hu s Hf. destruct (pretty_N_digits n) as (d1 & ds & Hp & Hdig & _).
  assert (is_digit d1 = true) as Hd by (simpl in Hdig; by apply andb_true_iff in Hdig as []).
  assert (∃ s', s = String d1 s' ∧ s' ≠ "") as (s' & Es & Hs').
  { exists (ds +:+ u +:+ rest). unfold s. rewrite Hp. split; [done|]. destruct ds, u; done. }
  clearbody s. subst s. unfold ParseDuration.
  assert (split_sign ((if neg then "-" else "") +:+ String d1 s') = (neg, String d1 s')) as ->.
  { destruct neg; [done|]. by apply split_sign_digit. }
  assert (String.eqb (String d1 s') "0" = false) as -> by (apply String.eqb_neq; intros [= _ ?]; done).
  cbn [String.eqb]. by rewrite (duration_loop_fuel _ (String.length (String d1 s')) fuel).
Qed.

(** A whole number of a unit reads as that many units. *)
Lemma ParseDuration_whole (n : N) u unit :
  unitMap u = Some unit → (Z.of_N n * unit ≤ MaxInt64)%Z → ParseDuration (pretty n +:+ u) = Ok (Z.of_N n * unit)%Z.
Proof.
  intros Hu Hmax. pose proof (ParseDuration_loop false n u "" (S (String.length (pretty n +:+ u)))) as H.
  cbv zeta in H. rewrite app_nil_s in H. change (("" : string) +:+ ?x) with x in H. rewrite H.
  - rewrite <- (app_nil_s u) at 3. rewrite (duration_step _ _ 0 n u _ "" Hu) by done. by rewrite duration_loop_end.
  - by apply unit_chars in Hu as (_ & ? & _).
  - lia.
Qed.

(** ** Writing *)

(** The last [prec] digits as a fraction in front of [acc], without trailing
    zeros, and the digits before them. *)
Fixpoint fmtFrac (prec : nat) (v : N) (print : bool) (acc : string) : string * N :=
  match prec with
  | O => (if print then String "." acc else acc, v)
  | S prec =>
      let digit := (v mod 10)%N in
      let print := print || negb (digit =? 0)%N in
      fmtFrac prec (v / 10)%N print (if print then String (byte (digit + 48)) acc else acc)
  end.

Definition Duration_String (d : Z) : string :=
  let u := Z.to_N (Z.abs d) in
  let sign := if (d <? 0)%Z then "-" else "" in
  if (u <? 1000000000)%N then
    if (u =? 0)%N then "0s"
    else
      let '(frac, u) :=
        if (u <? 1000)%N then fmtFrac 0 u false "ns"
        else if (u <? 1000000)%N then fmtFrac 3 u false (encode_rune 181 +:+ "s")
        else fmtFrac 6 u false "ms" in
      sign +:+ pretty u +:+ frac
  else
    let '(frac, u) := fmtFrac 9 u false "s" in
    let seconds := pretty (u mod 60)%N +:+ frac in
    let u := (u / 60)%N in
    if (0 <? u)%N then
      let minutes := pretty (u mod 60)%N +:+ "m" +:+ seconds in
      let u := (u / 60)%N in
      if (0 <? u)%N then sign +:+ pretty u +:+ "h" +:+ minutes else sign +:+ minutes
    else sign +:+ seconds.

Example string_mixed : Duration_String 4530500000000 = "1h15m30.5s".
Proof. vm_compute. reflexivity. Qed.
Example string_small : Duration_String (-1500) = "-1.5" +:+ encode_rune 181 +:+ "s".
Proof. vm_compute. reflexivity. Qed.

Lemma fmtFrac_whole k : ∀ n acc, fmtFrac k (n * 10 ^ N.of_nat k)%N false acc = (acc, n).
Proof.
  induction k as [|k IH]; intros n acc; [simpl; by rewrite N.mul_1_r|].
  cbn [fmtFrac]. rewrite Nat2N.inj_succ, N.pow_succ_r'.
  replace (n * (10 * 10 ^ N.of_nat k))%N with ((n * 10 ^ N.of_nat k) * 10)%N by lia.
  rewrite N.Div0.mod_mul, N.div_mul by done. cbn [orb negb N.eqb]. apply IH.
Qed.

Lemma next_number_pretty (n : N) s : next_number (pretty n +:+ s) = true.
Proof.
  destruct (pretty_N_digits n) as (d & ds & -> & Hdig & _).
  change (negb (is_unit_char d) = true). unfold is_unit_char.
  assert (is_digit d = true) as -> by (simpl in Hdig; by apply andb_true_iff in Hdig as []). by rewrite orb_true_r.
Qed.

(** The three shapes of a whole number of seconds. *)
Lemma whole_seconds_text (n : N) (neg : bool) :
  (0 < n)%N →
  let d := ((if neg then -1 else 1) * (Z.of_N n * 1000000000))%Z in
  let sign := if neg then "-" else "" in
  Duration_String d =
  sign +:+
    if (n <? 60)%N then pretty n +:+ "s"
    else if (n <? 3600)%N then pretty (n / 60)%N +:+ "m" +:+ pretty (n mod 60)%N +:+ "s"
    else pretty (n / 3600)%N +:+ "h" +:+ pretty (n / 60 mod 60)%N +:+ "m" +:+ pretty (n mod 60)%N +:+ "s".
Proof.
  intros Hn d sign. unfold Duration_String.
  assert (Z.to_N (Z.abs d) = n * 10 ^ N.of_nat 9)%N as ->.
  { change (10 ^ N.of_nat 9)%N with 1000000000%N. unfold d. destruct neg; lia. }
  rewrite (fmtFrac_whole 9 n "s").
  assert ((d <? 0)%Z = neg) as -> by (unfold d; destruct neg; [apply Z.ltb_lt|apply Z.ltb_ge]; lia).
  fold sign. change (10 ^ N.of_nat 9)%N with 1000000000%N.
  assert ((n * 1000000000 <? 1000000000)%N = false) as -> by (apply N.ltb_ge; lia).
  destruct (N.ltb_spec n 60) as [H60|H60].
  - rewrite (N.div_small n 60), (N.mod_small n 60) by lia. done.
  - assert ((0 <? n / 60)%N = true) as -> by (apply N.ltb_lt; apply N.div_str_pos; lia).
    rewrite N.Div0.div_div. change (60 * 60)%N with 3600%N. destruct (N.ltb_spec n 3600) as [H|H].
    + rewrite (N.div_small n 3600) by lia. change (0 <? 0)%N with false. cbv iota.
      rewrite (N.mod_small (n / 60) 60); [done|]. apply N.Div0.div_lt_upper_bound; lia.
    + assert ((0 <? n / 3600)%N = true) as -> by (apply N.ltb_lt; apply N.div_str_pos; lia). done.
Qed.

(** A whole number of seconds is read back. *)
Lemma Duration_roundtrip_seconds (n : Z) :
  (Z.abs n * 1000000000 ≤ MaxInt64)%Z → ParseDuration (Duration_String (n * 1000000000)) = Ok (n * 1000000000)%Z.
Proof.
  intros Hmax. destruct (decide (n = 0%Z)) as [->|Hn0]; [done|]. set (neg := (n <? 0)%Z). set (m := Z.to_N (Z.abs n)).
  assert (n * 1000000000 = (if neg then -1 else 1) * (Z.of_N m * 1000000000))%Z as ->.
  { unfold neg, m. destruct (Z.ltb_spec n 0); lia. }
  assert (0 < m)%N as Hm by (unfold m; lia). assert (Z.of_N m * 1000000000 ≤ MaxInt64)%Z as Hmm by (unfold m; lia).
  rewrite (whole_seconds_text m neg Hm). clearbody m neg. clear n Hmax Hn0.
  assert (Hfin : ∀ d, d = (Z.of_N m * 1000000000)%Z →
    Ok (E := string) (if neg then wrap64 (- d) else d) = Ok ((if neg then -1 else 1) * (Z.of_N m * 1000000000))%Z).
  { intros d ->. f_equal. destruct neg; [|lia]. rewrite wrap64_small; [lia|].
    unfold int64_range, MinInt64, MaxInt64 in *. lia. }
  pose proof (N.div_mod m 60 ltac:(done)) as Hdm. pose proof (N.div_mod (m / 60) 60 ltac:(done)) as Hdm2.
  assert (m / 3600 = m / 60 / 60)%N as E36 by by rewrite N.Div0.div_div.
  rewrite E36. set (q := (m / 60)%N) in *. set (r := (m mod 60)%N) in *. set (h := (q / 60)%N) in *.
  set (k := (q mod 60)%N) in *. clearbody q r h k. clear E36.
  destruct (m <? 60)%N; [|destruct (m <? 3600)%N].
  - pose proof (ParseDuration_loop neg m "s" "" (S (String.length (pretty m +:+ "s" +:+ ""))) ltac:(done)) as H.
    cbv zeta in H. rewrite app_nil_s in H. rewrite H by lia. rewrite <- (app_nil_s "s") at 3.
    rewrite (duration_step _ _ 0 m "s" 1000000000 "") by done. rewrite duration_loop_end. apply Hfin. lia.
  - rewrite (ParseDuration_loop neg q "m" (pretty r +:+ "s") (S (S (String.length (pretty q +:+ "m" +:+ pretty r +:+ "s")))))
      by (done || lia).
    rewrite (duration_step _ _ 0 q "m" 60000000000) by (done || apply next_number_pretty || lia).
    rewrite <- (app_nil_s "s") at 2. rewrite (duration_step _ _ _ r "s" 1000000000 "") by (done || lia).
    rewrite duration_loop_end. apply Hfin. lia.
  - rewrite (ParseDuration_loop neg h "h" (pretty k +:+ "m" +:+ pretty r +:+ "s")
      (S (S (S (String.length (pretty h +:+ "h" +:+ pretty k +:+ "m" +:+ pretty r +:+ "s")))))) by (done || lia).
    rewrite (duration_step _ _ 0 h "h" 3600000000000) by (done || apply next_number_pretty || lia).
    rewrite (duration_step _ _ _ k "m" 60000000000) by (done || apply next_number_pretty || lia).
    rewrite <- (app_nil_s "s") at 2. rewrite (duration_step _ _ _ r "s" 1000000000 "") by (done || lia).
    rewrite duration_loop_end. apply Hfin. lia.
Qed.

(** The text of whole seconds needs no escape in JSON. *)
Lemma plain_pretty (n : N) : all_chars plain_char (pretty n) = true.
Proof.
  destruct (pretty_N_digits n) as (d & ds & -> & Hdig & _). revert Hdig. generalize (String d ds) as s. clear.
  induction s as [|c s IH]; [done|]. cbn [all_chars]. intros [Hc Hs]%andb_true_iff. rewrite (IH Hs).
  by rewrite (digit_plain c Hc).
Qed.

Lemma seconds_plain (n : Z) : all_chars plain_char (Duration_String (n * 1000000000)) = true.
Proof.
  destruct (decide (n = 0%Z)) as [->|Hn]; [done|].
  assert (n * 1000000000 = (if (n <? 0)%Z then -1 else 1) * (Z.of_N (Z.to_N (Z.abs n)) * 1000000000))%Z as E.
  { destruct (Z.ltb_spec n 0); lia. }
  pose proof (whole_seconds_text (Z.to_N (Z.abs n)) (n <? 0)%Z ltac:(lia)) as H. cbv zeta in H. rewrite <- E in H.
  rewrite H. clear. rewrite all_chars_app. apply andb_true_iff. split; [by destruct (n <? 0)%Z|].
  destruct (_ <? 60)%N; [|destruct (_ <? 3600)%N]; by rewrite !all_chars_app, !plain_pretty.
Qed.
