(* ===== verification/Flags.v ===== *)
(** * The command line

    Package flag of Go 1.10 as the commands use it (a flag set with
    [ExitOnError]), [filepath.Join], and the flags the vendored glog registers in
    every command, with the settings they have.

    A flag set is a list of flags over a record of settings; parsing threads the
    settings.  The loop of [Parse] runs on fuel, the number of arguments, which
    is enough because every flag consumes one ([flag_loop_fuel]). *)
From stdpp Require Import base tactics list strings gmap pretty.
From Stdlib Require Import ZArith NArith Lia Ascii.
From S2P Require Import Prelude Strconv Labels Json Url PoolClient.

Local Open Scope go_scope.
Local Open Scope string_scope.

(** ** path/filepath *)

(** The elements of a relative path: leading dot-dots stay. *)
Fixpoint clean_relative (stack : list string) (elems : list string) : list string :=
  match elems with
  | [] => rev stack
  | e :: rest =>
      if String.eqb e "" || String.eqb e "." then clean_relative stack rest
      else if String.eqb e ".." then
        match stack with
        | [] => clean_relative [".."] rest
        | top :: below => if String.eqb top ".." then clean_relative (".." :: stack) rest else clean_relative below rest
        end
      else clean_relative (e :: stack) rest
  end.

Definition filepath_Clean (p : string) : string :=
  if starts_with "/" p then Clean p
  else match clean_relative [] (Split "/" p) with [] => "." | elems => String.concat "/" elems end.

(** Leading empty elements are ignored. *)
Fixpoint Join (elems : list string) : string :=
  match elems with
  | [] => ""
  | e :: rest => if String.eqb e "" then Join rest else filepath_Clean (String.concat "/" elems)
  end.

(** ** Flags *)

(** A flag over settings of type [S]. *)
Record Flag (S : Type) : Type := MkFlag {
  Flag_Name : string;
  IsBoolFlag : bool;
  Flag_Set : string → S → result string S }.
Arguments MkFlag {S} _ _ _.
Arguments Flag_Name {S} _.
Arguments IsBoolFlag {S} _.
Arguments Flag_Set {S} _ _ _.

Inductive flag_error : Type :=
| ErrHelp
| Failf (message : string).

(** What one call of [parseOne] finds: the end of the flags, a flag, an error. *)
Inductive found (S : Type) : Type :=
| NoFlag (args : list string)
| Seen (args : list string) (settings : S)
| FlagFailed (e : flag_error).
Arguments NoFlag {S} _.
Arguments Seen {S} _ _.
Arguments FlagFailed {S} _.

Section Flags.
Context `{lib : !GoLib} {S : Type}.
Variable formal : list (Flag S).

Definition StringVar (name : string) (set : string → S → S) : Flag S :=
  MkFlag name false (λ v s, Ok (set v s)).

Definition IntVar (name : string) (set : Z → S → S) : Flag S :=
  MkFlag name false (λ v s,
    match ParseInt_base_0 v with
    | Ok n => Ok (set n s)
    | Err e => Err (num_error_text "ParseInt" (Quote v) e)
    end).

Definition BoolVar (name : string) (set : bool → S → S) : Flag S :=
  MkFlag name true (λ v s,
    match ParseBool v with
    | Ok b => Ok (set b s)
    | Err e => Err (num_error_text "ParseBool" (Quote v) e)
    end).

Definition find_flag (name : string) : option (Flag S) :=
  List.find (λ f, String.eqb (Flag_Name f) name) formal.

(** The argument without its dashes; [None] if it is not a flag, [Some ""] for
    the terminator. *)
Definition flag_body (s : string) : option string :=
  match s with
  | String "-" (String "-" name) => Some name
  | String "-" (String c name) => Some (String c name)
  | _ => None
  end.

(** Setting a flag; [has_value]: a value was given with an equals sign. *)
Definition set_flag (f : Flag S) (name : string) (given : option string) (args : list string) (s : S) : found S :=
  if IsBoolFlag f then
    match given with
    | Some value =>
        match Flag_Set f value s with
        | Ok s' => Seen args s'
        | Err e => FlagFailed (Failf ("invalid boolean value " +:+ Quote value +:+ " for -" +:+ name +:+ ": " +:+ e))
        end
    | None =>
        match Flag_Set f "true" s with
        | Ok s' => Seen args s'
        | Err e => FlagFailed (Failf ("invalid boolean flag " +:+ name +:+ ": " +:+ e))
        end
    end
  else
    match (match given, args with
           | Some value, _ => Some (value, args)
           | None, value :: rest => Some (value, rest)
           | None, [] => None
           end) with
    | None => FlagFailed (Failf ("flag needs an argument: -" +:+ name))
    | Some (value, rest) =>
        match Flag_Set f value s with
        | Ok s' => Seen rest s'
        | Err e => FlagFailed (Failf ("invalid value " +:+ Quote value +:+ " for flag -" +:+ name +:+ ": " +:+ e))
        end
    end.

Definition parseOne (args : list string) (s : S) : found S :=
  match args with
  | [] => NoFlag []
  | arg :: rest =>
      match flag_body arg with
      | None => NoFlag args
      | Some body =>
          if String.eqb arg "--" then NoFlag rest
          else if String.eqb body "" || starts_with "-" body || starts_with "=" body then
            FlagFailed (Failf ("bad flag syntax: " +:+ arg))
          else
            let '(name, given) := cut "=" body in
            match find_flag name with
            | None =>
                if String.eqb name "help" || String.eqb name "h" then FlagFailed ErrHelp
                else FlagFailed (Failf ("flag provided but not defined: -" +:+ name))
            | Some f => set_flag f name given rest s
            end
      end
  end.

Fixpoint flag_loop (fuel : nat) (args : list string) (s : S) : result flag_error (S * list string) :=
  match parseOne args s with
  | NoFlag rest => Ok (s, rest)
  | FlagFailed e => Err e
  | Seen rest s' =>
      match fuel with
      | O => Ok (s', rest)
      | Datatypes.S fuel => flag_loop fuel rest s'
      end
  end.

(** [flag.Parse]: the settings and the positional arguments. *)
Definition flag_Parse (args : list string) (s : S) : result flag_error (S * list string) :=
  flag_loop (length args) args s.

(** *** Facts *)

Lemma parseOne_consumes args s rest s' : parseOne args s = Seen rest s' → (length rest < length args)%nat.
Proof.
  unfold parseOne. destruct args as [|arg args]; [done|]. destruct (flag_body arg) as [body|]; [|done].
  destruct (String.eqb arg "--"); [done|]. destruct (_ || _); [done|]. destruct (cut "=" body) as [name given].
  destruct (find_flag name) as [f|]; [|by destruct (_ || _)]. unfold set_flag.
  destruct (IsBoolFlag f), given as [v|]; [..|destruct args as [|v args]; [done|]];
    destruct (Flag_Set f _ s); intros [=]; subst; simpl; lia.
Qed.

(** Any fuel that covers the arguments gives the same result. *)
Lemma flag_loop_fuel fuel fuel' args s :
  (length args ≤ fuel)%nat → (length args ≤ fuel')%nat → flag_loop fuel args s = flag_loop fuel' args s.
Proof.
  revert fuel' args s. induction fuel as [|fuel IH]; intros fuel' args s H H'.
  - assert (args = []) as -> by (destruct args; [done|simpl in H; lia]). by destruct fuel'.
  - destruct fuel' as [|fuel'].
    + assert (args = []) as -> by (destruct args; [done|simpl in H'; lia]). done.
    + cbn [flag_loop]. destruct (parseOne args s) as [|rest s'|] eqn:E; [done| |done].
      apply parseOne_consumes in E. apply IH; lia.
Qed.

(** One step of [flag.Parse]. *)
Lemma flag_Parse_step args s :
  flag_Parse args s =
  match parseOne args s with
  | NoFlag rest => Ok (s, rest)
  | FlagFailed e => Err e
  | Seen rest s' => flag_Parse rest s'
  end.
Proof.
  unfold flag_Parse. destruct args as [|arg args]; [done|]. cbn [length flag_loop].
  destruct (parseOne (arg :: args) s) as [|rest s'|] eqn:E; [done| |done].
  apply parseOne_consumes in E. cbn [length] in E. apply flag_loop_fuel; lia.
Qed.

(** An assignment on the command line: with one dash or two, and with an equals
    sign, as two arguments, or as the name alone. *)
Inductive style : Type := WithEquals | Separate | Bare.
Record assignment : Type := Assign { A_name : string; A_value : string; A_double : bool; A_style : style }.

Definition spell (a : assignment) : list string :=
  let dashed := (if A_double a then "--" else "-") +:+ A_name a in
  match A_style a with
  | WithEquals => [dashed +:+ "=" +:+ A_value a]
  | Separate => [dashed; A_value a]
  | Bare => [dashed]
  end.

(** The name is one that can be written, of a flag of the set; a boolean flag
    takes no separate value, and only a boolean flag can be given alone, which
    makes it true. *)
Definition well_spelt (a : assignment) : Prop :=
  A_name a ≠ "" ∧ starts_with "-" (A_name a) = false ∧ no_char "=" (A_name a) = true ∧
  ∃ f, find_flag (A_name a) = Some f ∧
    match A_style a with
    | WithEquals => True
    | Separate => IsBoolFlag f = false
    | Bare => IsBoolFlag f = true ∧ A_value a = "true"
    end.

(** The assignments, in order. *)
Fixpoint assign_all (asgs : list assignment) (s : S) : option S :=
  match asgs with
  | [] => Some s
  | a :: rest =>
      match find_flag (A_name a) with
      | Some f => match Flag_Set f (A_value a) s with Ok s' => assign_all rest s' | Err _ => None end
      | None => None
      end
  end.

Lemma cut_value name value : no_char "=" name = true → cut "=" (name +:+ "=" +:+ value) = (name, Some value).
Proof. intros H. change ("=" +:+ value) with (String "=" value). by apply cut_at. Qed.

(** The body of a spelt flag. *)
Lemma parseOne_body (double : bool) body rest s :
  body ≠ "" → starts_with "-" body = false → starts_with "=" body = false →
  parseOne (((if double then "--" else "-") +:+ body) :: rest) s =
  let '(name, given) := cut "=" body in
  match find_flag name with
  | None =>
      if String.eqb name "help" || String.eqb name "h" then FlagFailed ErrHelp
      else FlagFailed (Failf ("flag provided but not defined: -" +:+ name))
  | Some f => set_flag f name given rest s
  end.
Proof.
  intros Hb Hd He. assert (String.eqb body "" = false) as Hb' by by apply String.eqb_neq.
  set (arg := (if double then "--" else "-") +:+ body). assert (flag_body arg = Some body) as Hf.
  { unfold arg. destruct double; [done|]. destruct body as [|c body]; [done|]. cbn [starts_with] in Hd.
    destruct c as [[] [] [] [] [] [] [] []]; done. }
  assert (String.eqb arg "--" = false) as Ha.
  { apply String.eqb_neq. unfold arg. destruct double.
    - change ("--" +:+ body) with (String "-" (String "-" body)). by intros [=].
    - change ("-" +:+ body) with (String "-" body). intros [= ->]. done. }
  unfold parseOne. rewrite Hf, Ha, Hb', Hd, He. cbn [orb]. reflexivity.
Qed.

Lemma starts_with_app c a b : a ≠ "" → starts_with c (a +:+ b) = starts_with c a.
Proof. by destruct a. Qed.

Lemma no_equals_start name : no_char "=" name = true → starts_with "=" name = false.
Proof. destruct name as [|c name]; [done|]. unfold no_char. simpl. intros [H _]%andb_true_iff. by apply negb_true_iff in H. Qed.

Lemma app_nonempty (a b : string) : a ≠ "" → a +:+ b ≠ "".
Proof. by destruct a. Qed.

Lemma parseOne_spelt a f rest s :
  well_spelt a → find_flag (A_name a) = Some f →
  (∃ s', Flag_Set f (A_value a) s = Ok s' ∧ parseOne (spell a ++ rest) s = Seen rest s') ∨
  (∃ e e', Flag_Set f (A_value a) s = Err e ∧ parseOne (spell a ++ rest) s = FlagFailed e').
Proof.
  intros (Hn & Hd & He & f' & Hf' & Hs) Hf. rewrite Hf in Hf'. injection Hf' as <-.
  unfold spell. destruct (A_style a); cbn [app].
  - rewrite app_assoc_s, parseOne_body.
    + rewrite cut_value, Hf by done. unfold set_flag.
      destruct (IsBoolFlag f), (Flag_Set f (A_value a) s) as [s'|e]; eauto 6.
    + by apply app_nonempty.
    + by rewrite starts_with_app.
    + rewrite starts_with_app by done. by apply no_equals_start.
  - rewrite parseOne_body by auto using no_equals_start. rewrite cut_absent, Hf by done.
    unfold set_flag. rewrite Hs. destruct (Flag_Set f (A_value a) s) as [s'|e]; eauto 6.
  - rewrite parseOne_body by auto using no_equals_start. rewrite cut_absent, Hf by done.
    destruct Hs as [Hb ->]. unfold set_flag. rewrite Hb. destruct (Flag_Set f "true" s) as [s'|e]; eauto 6.
Qed.

(** Whatever follows, a sequence of assignments sets the flags in order, so that
    the last one counts, and parsing goes on after them; an assignment with an
    illegal value ends it. *)
Lemma flag_Parse_assignments asgs rest s :
  Forall well_spelt asgs →
  match assign_all asgs s with
  | Some s' => flag_Parse (concat (map spell asgs) ++ rest) s = flag_Parse rest s'
  | None => ∃ e, flag_Parse (concat (map spell asgs) ++ rest) s = Err e
  end.
Proof.
  intros H. revert s. induction H as [|a asgs Ha Has IH]; intros s; [done|].
  destruct Ha as (Hn & Hd & He & f & Hf & Hs) eqn:Ea. clear Ea. cbn [assign_all map concat]. rewrite Hf, <- app_assoc.
  destruct (parseOne_spelt a f (concat (map spell asgs) ++ rest) s) as [(s' & Hset & Hp)|(e & e' & Hset & Hp)];
    [by split_and!; eauto|done|..]; rewrite Hset, flag_Parse_step, Hp; [exact (IH s')|by eexists].
Qed.

(** Where the flags end: nothing, the terminator, or an argument that is not a
    flag; what follows is positional. *)
Inductive ends_flags : list string → list string → Prop :=
| ends_nothing : ends_flags [] []
| ends_terminator args : ends_flags ("--" :: args) args
| ends_argument arg args : flag_body arg = None → ends_flags (arg :: args) (arg :: args).

Lemma flag_Parse_positional rest args s : ends_flags rest args → flag_Parse rest s = Ok (s, args).
Proof. intros [|?|arg ? Ha]; rewrite flag_Parse_step; [done|done|]. unfold parseOne. by rewrite Ha. Qed.
End Flags.

(** ** The flags of glog *)

(** Levels and severities are 32-bit integers. *)
Record LogSettings : Type := MkLogSettings {
  toStderr : bool;
  alsoToStderr : bool;
  verbosity : Z;
  stderrThreshold : Z;
  vmodule : list (string * Z);
  traceLocation : string * Z;
  logDir : string }.

Definition severityName : list string := ["INFO"; "WARNING"; "ERROR"; "FATAL"].

(** [strings.ToUpper], as far as the result can be a severity name: besides the
    ASCII letters, the dotless i and the long s have ASCII upper cases. *)
Definition upper_rune (r : option string) : string :=
  match r with
  | Some (String c "") => String (if in_range c "a" "z" then ascii_of_N (N_of_ascii c - 32) else c) ""
  | Some s => if String.eqb s (encode_rune 305) then "I" else if String.eqb s (encode_rune 383) then "S" else s
  | None => replacement
  end.

Definition ToUpper (s : string) : string := String.concat "" (map upper_rune (runes s)).

Fixpoint index_of (name : string) (names : list string) (i : Z) : option Z :=
  match names with
  | [] => None
  | n :: rest => if String.eqb n name then Some i else index_of name rest (i + 1)
  end.

Definition severityByName (s : string) : option Z := index_of (ToUpper s) severityName 0.

Definition errVmoduleSyntax : string := "syntax error: expect comma-separated list of filename=N".
Definition errTraceSyntax : string := "syntax error: expect file.go:234".

Section Glog.
Context `{lib : !GoLib} {O : Type}.

(** The settings of a command: its own options and those of glog. *)
Definition settings : Type := O * LogSettings.

Definition on_log (f : LogSettings → LogSettings) (s : settings) : settings := (s.1, f s.2).

Definition Atoi_or (s : string) : result string Z :=
  match Atoi s with Ok n => Ok n | Err e => Err (num_error_text "Atoi" (Quote s) e) end.

Definition Level_Set (value : string) (s : settings) : result string settings :=
  match Atoi_or value with
  | Err e => Err e
  | Ok v => Ok (on_log (λ l, MkLogSettings (toStderr l) (alsoToStderr l) (wrap32 v) (stderrThreshold l) (vmodule l)
                                (traceLocation l) (logDir l)) s)
  end.

Definition severity_Set (value : string) (s : settings) : result string settings :=
  match (match severityByName value with Some v => Ok v | None => Atoi_or value end) with
  | Err e => Err e
  | Ok threshold => Ok (on_log (λ l, MkLogSettings (toStderr l) (alsoToStderr l) (verbosity l) (wrap32 threshold) (vmodule l)
                                (traceLocation l) (logDir l)) s)
  end.

Fixpoint module_filter (pats : list string) : result string (list (string * Z)) :=
  match pats with
  | [] => Ok []
  | pat :: rest =>
      if String.eqb pat "" then module_filter rest
      else match Split "=" pat with
           | [pattern; level] =>
               if String.eqb pattern "" || String.eqb level "" then Err errVmoduleSyntax
               else match Atoi level with
                    | Err _ => Err errVmoduleSyntax
                    | Ok v =>
                        if (v <? 0)%Z then Err "negative value for vmodule level"
                        else match module_filter rest with
                             | Err e => Err e
                             | Ok filter => Ok (if (v =? 0)%Z then filter else (pattern, wrap32 v) :: filter)
                             end
                    end
           | _ => Err errVmoduleSyntax
           end
  end.

Definition moduleSpec_Set (value : string) (s : settings) : result string settings :=
  match module_filter (Split "," value) with
  | Err e => Err e
  | Ok filter => Ok (on_log (λ l, MkLogSettings (toStderr l) (alsoToStderr l) (verbosity l) (stderrThreshold l) filter
                                (traceLocation l) (logDir l)) s)
  end.

(** The empty value unsets the location and is then refused as well. *)
Definition traceLocation_Set (value : string) (s : settings) : result string settings :=
  match Split ":" value with
  | [file; line] =>
      if no_char "." file then Err errTraceSyntax
      else match Atoi line with
           | Err _ => Err errTraceSyntax
           | Ok v =>
               if (v <=? 0)%Z then Err "negative or zero value for level"
               else Ok (on_log (λ l, MkLogSettings (toStderr l) (alsoToStderr l) (verbosity l) (stderrThreshold l)
                                  (vmodule l) (file, v) (logDir l)) s)
           end
  | _ => Err errTraceSyntax
  end.

Definition glog_flags : list (Flag settings) := [
  BoolVar "logtostderr" (λ b, on_log (λ l, MkLogSettings b (alsoToStderr l) (verbosity l) (stderrThreshold l) (vmodule l)
    (traceLocation l) (logDir l)));
  BoolVar "alsologtostderr" (λ b, on_log (λ l, MkLogSettings (toStderr l) b (verbosity l) (stderrThreshold l) (vmodule l)
    (traceLocation l) (logDir l)));
  MkFlag "v" false Level_Set;
  MkFlag "stderrthreshold" false severity_Set;
  MkFlag "vmodule" false moduleSpec_Set;
  MkFlag "log_backtrace_at" false traceLocation_Set;
  StringVar "log_dir" (λ d, on_log (λ l, MkLogSettings (toStderr l) (alsoToStderr l) (verbosity l) (stderrThreshold l)
    (vmodule l) (traceLocation l) d))].

(** What the commands' [init] functions make of glog's defaults: log to
    standard error, at verbosity 0. *)
Definition initial_log : LogSettings := MkLogSettings true false 0 2 [] ("", 0%Z) "".
End Glog.
Arguments settings : clear implicits.

(** ** Numbers *)

