(* ===== verification/Config.v ===== *)
(** * pkg/config/proxy_config.go and the client setup of pkg/kube/client.go

    Reading and validating the configuration, the defaults, and the choice of
    API server credentials from a kubeconfig.  A duration is a number of
    nanoseconds.  The custom decoder of [Duration] sees the text of the value; for an array or an object (which are rejected, but for the
    one-element array holding a zero) that text is taken without spaces. *)
From stdpp Require Import base tactics list strings gmap pretty.
From Stdlib Require Import ZArith Lia Ascii.
From S2P Require Import Prelude Strconv GoStd KubeTypes Labels Json JsonIndent Samples CloudPool Url PoolClient Messages Duration.

Local Open Scope go_scope.
Local Open Scope string_scope.

Definition Second : Z := 1000000000.
Definition DefaultServerTimeout : Z := (60 * Second)%Z.
Definition DefaultAPIServerTimeout : Z := (60 * Second)%Z.

Record APIServerAuthConfig : Type := MkAuth {
  KubeConfigPath : string;
  ClientCertPath : string;
  ClientKeyPath : string;
  CACertPath : string }.

Record APIServerConfig : Type := MkAPIServer {
  API_URL : string;
  API_Auth : APIServerAuthConfig;
  API_Timeout : Z }.

Record BackendConfig : Type := MkBackend { Backend_URL : string; Backend_Timeout : Z }.
Record ServerConfig : Type := MkServerConfig { Server_Timeout : Z }.
Record ProxyConfig : Type := MkProxyConfig {
  APIServer : APIServerConfig;
  Backend : BackendConfig;
  Server : ServerConfig }.

Definition zero_config : ProxyConfig :=
  MkProxyConfig (MkAPIServer "" (MkAuth "" "" "" "") 0) (MkBackend "" 0) (MkServerConfig 0).

Section Config.
Context `{ranger : !MapRange, lib : !GoLib}.

(** The text without its first and last byte ([b[1 : len(b)-1]]). *)
Definition inner_text (b : string) : string := first_n (String.length b - 2) (match b with String _ s => s | "" => "" end).

Definition Duration_UnmarshalJSON (cur : Z) (b : string) : decoded Z :=
  if (String.length b <? 2)%nat then DecodePanic "slice bounds out of range"
  else
    match ParseDuration (inner_text b) with
    | Ok d => Filled d None
    | Err e => Aborted (JCustomError e)
    end.

(** The text of a value. *)
Definition value_text (v : json) : string :=
  match v with JStr _ raw => quote_mark +:+ raw +:+ quote_mark | _ => write_json v end.

Definition dec_duration : decoder Z := λ cur v, Duration_UnmarshalJSON cur (value_text v).

Definition dec_auth : decoder APIServerAuthConfig := dec_struct "APIServerAuthConfig" [
  at_field "kubeConfigPath" KubeConfigPath (λ a x, MkAuth x (ClientCertPath a) (ClientKeyPath a) (CACertPath a)) dec_string;
  at_field "clientCertPath" ClientCertPath (λ a x, MkAuth (KubeConfigPath a) x (ClientKeyPath a) (CACertPath a)) dec_string;
  at_field "clientKeyPath" ClientKeyPath (λ a x, MkAuth (KubeConfigPath a) (ClientCertPath a) x (CACertPath a)) dec_string;
  at_field "caCertPath" CACertPath (λ a x, MkAuth (KubeConfigPath a) (ClientCertPath a) (ClientKeyPath a) x) dec_string].

Definition dec_api_server : decoder APIServerConfig := dec_struct "APIServerConfig" [
  at_field "url" API_URL (λ c x, MkAPIServer x (API_Auth c) (API_Timeout c)) dec_string;
  at_field "auth" API_Auth (λ c x, MkAPIServer (API_URL c) x (API_Timeout c)) dec_auth;
  at_field "timeout" API_Timeout (λ c x, MkAPIServer (API_URL c) (API_Auth c) x) dec_duration].

Definition dec_backend : decoder BackendConfig := dec_struct "BackendConfig" [
  at_field "url" Backend_URL (λ c x, MkBackend x (Backend_Timeout c)) dec_string;
  at_field "timeout" Backend_Timeout (λ c x, MkBackend (Backend_URL c) x) dec_duration].

Definition dec_server : decoder ServerConfig := dec_struct "ServerConfig" [
  at_field "timeout" Server_Timeout (λ c x, MkServerConfig x) dec_duration].

Definition dec_config : decoder ProxyConfig := dec_struct "ProxyConfig" [
  at_field "apiServer" APIServer (λ c x, MkProxyConfig x (Backend c) (Server c)) dec_api_server;
  at_field "backend" Backend (λ c x, MkProxyConfig (APIServer c) x (Server c)) dec_backend;
  at_field "server" Server (λ c x, MkProxyConfig (APIServer c) (Backend c) x) dec_server].

(** ** Validation *)

Definition Auth_Validate (a : APIServerAuthConfig) : option error :=
  if negb (String.eqb (KubeConfigPath a) "") then None
  else if String.eqb (ClientCertPath a) "" then Some (ErrorString "missing value: clientCertPath")
  else if String.eqb (ClientKeyPath a) "" then Some (ErrorString "missing value: clientKeyPath")
  else if String.eqb (CACertPath a) "" then Some (ErrorString "missing value: caCertPath")
  else None.

Definition APIServer_Validate (c : APIServerConfig) : option error :=
  if String.eqb (API_URL c) "" then Some (ErrorString "apiServer: missing field: url")
  else match urlParseError (API_URL c) with
       | Some err => Some (ErrorString ("apiServer: url: " +:+ Error err))
       | None =>
           match Auth_Validate (API_Auth c) with
           | Some err => Some (ErrorString ("apiServer: auth: " +:+ Error err))
           | None => None
           end
       end.

Definition Backend_Validate (c : BackendConfig) : option error :=
  if String.eqb (Backend_URL c) "" then Some (ErrorString "backend: missing field: url")
  else match urlParseError (Backend_URL c) with
       | Some err => Some (ErrorString ("backend: url: " +:+ Error err))
       | None => None
       end.

Definition Server_Validate (c : ServerConfig) : option error := None.

Definition Config_Validate (c : ProxyConfig) : option error :=
  match APIServer_Validate (APIServer c) with
  | Some err => Some (ErrorString ("proxy config: " +:+ Error err))
  | None =>
      match Backend_Validate (Backend c) with
      | Some err => Some (ErrorString ("proxy config: backend: " +:+ Error err))
      | None =>
          match Server_Validate (Server c) with
          | Some err => Some (ErrorString ("proxy config: server: " +:+ Error err))
          | None => None
          end
      end
  end.

(** The defaults of [NewFromJSON]. *)
Definition default_timeout (t d : Z) : Z := if (t =? 0)%Z then d else t.

Definition populate_defaults (c : ProxyConfig) : ProxyConfig :=
  MkProxyConfig
    (MkAPIServer (API_URL (APIServer c)) (API_Auth (APIServer c))
       (default_timeout (API_Timeout (APIServer c)) DefaultAPIServerTimeout))
    (MkBackend (Backend_URL (Backend c)) (default_timeout (Backend_Timeout (Backend c)) DefaultBackendTimeout))
    (MkServerConfig (default_timeout (Server_Timeout (Server c)) DefaultServerTimeout)).

Definition NewFromJSON (rawJSON : string) : outcome (result error ProxyConfig) :=
  let? r := Unmarshal zero_config dec_config rawJSON in
  match r with
  | Err e => Done (Err (ErrorString ("failed to parse proxy config: " +:+ jsonErrorText e)))
  | Ok config =>
      match Config_Validate config with
      | Some err => Done (Err (ErrorString ("invalid proxy configuration: " +:+ Error err)))
      | None => Done (Ok (populate_defaults config))
      end
  end.

(** ** Credentials from a kubeconfig *)

Record Cluster : Type := MkCluster {
  ClusterServer : string;
  CertificateAuthority : string;
  CertificateAuthorityData : string }.

Record Context : Type := MkContext { Context_Cluster : string; Context_AuthInfo : string }.

Record AuthInfo : Type := MkAuthInfo {
  ClientCertificate : string;
  ClientCertificateData : string;
  ClientKey : string;
  ClientKeyData : string }.

Record KubeConfig : Type := MkKubeConfig {
  Clusters : gmap string Cluster;
  Contexts : gmap string Context;
  AuthInfos : gmap string AuthInfo }.

Record TLSClientConfig : Type := MkTLS {
  CertFile : string;
  KeyFile : string;
  CAFile : string;
  CertData : string;
  KeyData : string;
  CAData : string }.

Fixpoint find_cluster (url : string) (entries : list (string * Cluster)) : option (string * Cluster) :=
  match entries with
  | [] => None
  | (name, cluster) :: rest =>
      if String.eqb (ClusterServer cluster) url then Some (name, cluster) else find_cluster url rest
  end.

(** No break: the last matching context counts. *)
Fixpoint context_user (cluster : string) (entries : list (string * Context)) (contextUser : string) : string :=
  match entries with
  | [] => contextUser
  | (_, context) :: rest =>
      context_user cluster rest
        (if String.eqb (Context_Cluster context) cluster then Context_AuthInfo context else contextUser)
  end.

Fixpoint find_user (user : string) (entries : list (string * AuthInfo)) : option AuthInfo :=
  match entries with
  | [] => None
  | (userName, info) :: rest => if String.eqb userName user then Some info else find_user user rest
  end.

Definition tlsClientConfigFromKubeConfig (kubeconfig : KubeConfig) (apiServerURL : string)
    : result error TLSClientConfig :=
  let '(kubeconfigClusterName, ca) :=
    match find_cluster apiServerURL (range (Clusters kubeconfig)) with
    | Some (name, cluster) => (name, (CertificateAuthority cluster, CertificateAuthorityData cluster))
    | None => ("", ("", ""))
    end in
  if String.eqb kubeconfigClusterName ""
  then Err (ErrorString ("kubeconfig does not contain a cluster with api server " +:+ apiServerURL))
  else
    let contextUser := context_user kubeconfigClusterName (range (Contexts kubeconfig)) "" in
    if String.eqb contextUser ""
    then Err (ErrorString ("kubeconfig does not contain a context for a cluster with api server " +:+ apiServerURL))
    else
      match find_user contextUser (range (AuthInfos kubeconfig)) with
      | Some user =>
          Ok (MkTLS (ClientCertificate user) (ClientKey user) ca.1
                (ClientCertificateData user) (ClientKeyData user) ca.2)
      | None => Err (ErrorString ("kubeconfig does not contain a user named " +:+ contextUser))
      end.

(** ** NewKubeClient *)

Record RestConfig : Type := MkRestConfig { Rest_Host : string; Rest_TLS : TLSClientConfig; Rest_Timeout : Z }.

Inductive setup_call : Type :=
| LoadFromFile (path : string)
| NewForConfig (config : RestConfig).
Definition setup_reply (c : setup_call) : Type :=
  match c with LoadFromFile _ => result error KubeConfig | NewForConfig _ => option error end.
Definition KubeSetup : Iface := mkIface setup_call setup_reply.

(** The REST configuration the client is made with, or the error. *)
Definition NewKubeClient (config : APIServerConfig) : Prog KubeSetup (result error RestConfig) :=
  match APIServer_Validate config with
  | Some err => Ret (Err (ErrorString ("API server config is invalid: " +:+ Error err)))
  | None =>
      let path := KubeConfigPath (API_Auth config) in
      let! tls :=
        if negb (String.eqb path "") then
          let! r := invoke (I := KubeSetup) (LoadFromFile path) in
          match r with
          | Err err => Ret (Err (ErrorString ("failed to load kubeconfig " +:+ path +:+ ": " +:+ Error err)))
          | Ok kubeConfig =>
              match tlsClientConfigFromKubeConfig kubeConfig (API_URL config) with
              | Err err =>
                  Ret (Err (ErrorString ("failed to load auth credentials from kubeconfig " +:+ path +:+ ": " +:+ Error err)))
              | Ok tls => Ret (Ok tls)
              end
          end
        else
          Ret (Ok (MkTLS (ClientCertPath (API_Auth config)) (ClientKeyPath (API_Auth config))
                     (CACertPath (API_Auth config)) "" "" "")) in
      match tls with
      | Err err => Ret (Err err)
      | Ok tls =>
          let clientConfig := MkRestConfig (API_URL config) tls (API_Timeout config) in
          let! r := invoke (I := KubeSetup) (NewForConfig clientConfig) in
          match r with
          | Some err => Ret (Err (ErrorString ("could not create kubernetes client: " +:+ Error err)))
          | None => Ret (Ok clientConfig)
          end
      end
  end.

(** ** What validation and decoding establish *)

Definition auth_complete (a : APIServerAuthConfig) : Prop :=
  KubeConfigPath a ≠ "" ∨ (ClientCertPath a ≠ "" ∧ ClientKeyPath a ≠ "" ∧ CACertPath a ≠ "").

Definition usable_url (u : string) : Prop := u ≠ "" ∧ urlParseError u = None.

Lemma Auth_Validate_spec a : Auth_Validate a = None ↔ auth_complete a.
Proof.
  unfold Auth_Validate, auth_complete.
  repeat match goal with |- context [String.eqb ?x ""] => destruct (String.eqb_spec x "") end; simpl; naive_solver.
Qed.

Lemma Backend_Validate_spec b : Backend_Validate b = None ↔ usable_url (Backend_URL b).
Proof.
  unfold Backend_Validate, usable_url. destruct (String.eqb_spec (Backend_URL b) ""); [naive_solver|].
  destruct (urlParseError _); naive_solver.
Qed.

Lemma APIServer_Validate_spec c : APIServer_Validate c = None ↔ usable_url (API_URL c) ∧ auth_complete (API_Auth c).
Proof.
  rewrite <- Auth_Validate_spec. unfold APIServer_Validate, usable_url.
  destruct (String.eqb_spec (API_URL c) ""); [naive_solver|].
  destruct (urlParseError _), (Auth_Validate _); naive_solver.
Qed.

Lemma Config_Validate_spec c :
  Config_Validate c = None ↔
  usable_url (API_URL (APIServer c)) ∧ auth_complete (API_Auth (APIServer c)) ∧ usable_url (Backend_URL (Backend c)).
Proof.
  unfold Config_Validate, Server_Validate.
  pose proof (APIServer_Validate_spec (APIServer c)). pose proof (Backend_Validate_spec (Backend c)).
  destruct (APIServer_Validate _), (Backend_Validate _); simpl in *; intuition congruence.
Qed.

(** Decoders that keep a predicate on the value they fill. *)
Definition keeps {T} (P : T → Prop) (d : decoder T) : Prop :=
  ∀ cur v x e, P cur → d cur v = Filled x e → P x.

Lemma dec_struct_keeps {T} (P : T → Prop) type (fields : list (field T)) :
  Forall (λ f : field T, keeps P f.2) fields → keeps P (dec_struct type fields).
Proof.
  intros Hf cur v x e Hcur. destruct v as [| | | | |fs]; try (intros [= <- <-]; done). unfold dec_struct. revert cur Hcur x e.
  induction fs as [|[k v] ms IH]; simpl; intros cur Hcur x e; [by intros [= <- <-]|].
  destruct (find_field fields k) as [d|] eqn:Ed; [|by apply IH].
  assert (keeps P d) as Hd.
  { unfold find_field in Ed. rewrite List.Forall_forall in Hf.
    destruct (List.find _ fields) as [f|] eqn:E1; [injection Ed as <-; apply Hf; by apply List.find_some in E1 as []|].
    destruct (List.find _ fields) as [f|] eqn:E2 in Ed; [injection Ed as <-; apply Hf; by apply List.find_some in E2 as []|done]. }
  destruct (d cur v) as [c e1| |] eqn:E; try done. apply Hd in E; [|done].
  destruct (dec_members fields c ms) as [c2 e2| |] eqn:E2; try done. intros [= <- <-]. by eapply IH.
Qed.

Lemma at_field_keeps {T F} (P : T → Prop) (Q : F → Prop) name (get : T → F) set d :
  keeps Q d → (∀ c, P c → Q (get c)) → (∀ c x, P c → Q x → P (set c x)) → keeps P (at_field name get set d).2.
Proof.
  intros Hd Hget Hset cur v x e Hcur. simpl. destruct (d (get cur) v) as [y e1| |] eqn:E; try done.
  intros [= <- <-]. apply Hd in E; [|by apply Hget]. by apply Hset.
Qed.

Lemma keeps_True {T} (d : decoder T) : keeps (λ _, True) d.
Proof. done. Qed.

Definition durations_fit (c : ProxyConfig) : Prop :=
  int64_range (API_Timeout (APIServer c)) ∧ int64_range (Backend_Timeout (Backend c)) ∧
  int64_range (Server_Timeout (Server c)).

Lemma dec_duration_keeps : keeps int64_range dec_duration.
Proof.
  intros cur v x e Hcur. unfold dec_duration, Duration_UnmarshalJSON. destruct (_ <? 2)%nat; [done|].
  destruct (ParseDuration _) as [d|] eqn:E; [|done]. intros [= <- <-]. by eapply ParseDuration_range.
Qed.

Ltac field_keeps := eapply at_field_keeps; [apply dec_duration_keeps || apply keeps_True|naive_solver..].

Lemma dec_config_keeps : keeps durations_fit dec_config.
Proof.
  apply dec_struct_keeps. unfold durations_fit. repeat (apply Forall_cons_2 || apply Forall_nil_2).
  - apply (at_field_keeps _ (λ c, int64_range (API_Timeout c))); [|naive_solver..].
    apply dec_struct_keeps. repeat (apply Forall_cons_2 || apply Forall_nil_2); field_keeps.
  - apply (at_field_keeps _ (λ c, int64_range (Backend_Timeout c))); [|naive_solver..].
    apply dec_struct_keeps. repeat (apply Forall_cons_2 || apply Forall_nil_2); field_keeps.
  - apply (at_field_keeps _ (λ c, int64_range (Server_Timeout c))); [|naive_solver..].
    apply dec_struct_keeps. repeat (apply Forall_cons_2 || apply Forall_nil_2); field_keeps.
Qed.

(** ** Credentials *)

Lemma find_cluster_Some url entries name cluster :
  find_cluster url entries = Some (name, cluster) → (name, cluster) ∈ entries ∧ ClusterServer cluster = url.
Proof.
  induction entries as [|[n c] rest IH]; simpl; [done|].
  destruct (String.eqb_spec (ClusterServer c) url); [intros [= <- <-]; by split; [left|]|].
  intros [? ?]%IH. split; [by right|done].
Qed.

Lemma find_cluster_None url entries :
  find_cluster url entries = None → ∀ name cluster, (name, cluster) ∈ entries → ClusterServer cluster ≠ url.
Proof.
  induction entries as [|[n c] rest IH]; simpl; [intros _ ? ? H; by apply elem_of_nil in H|].
  destruct (String.eqb_spec (ClusterServer c) url); [done|]. intros E ? ? [[= -> ->]|H]%elem_of_cons; [done|by eapply IH].
Qed.

(** The user found is the one before the loop or one of a matching context. *)
Lemma context_user_cases cluster entries : ∀ u0,
  (context_user cluster entries u0 = u0 ∧ ∀ n c, (n, c) ∈ entries → Context_Cluster c = cluster → False) ∨
  ∃ n c, (n, c) ∈ entries ∧ Context_Cluster c = cluster ∧ context_user cluster entries u0 = Context_AuthInfo c.
Proof.
  induction entries as [|[n c] rest IH]; simpl; intros u0; [left; split; [done|]; intros ? ? H; by apply elem_of_nil in H|].
  destruct (String.eqb_spec (Context_Cluster c) cluster) as [E|E].
  - right. destruct (IH (Context_AuthInfo c)) as [[-> _]|(n' & c' & ? & ? & ->)].
    + exists n, c. split; [by left|done].
    + exists n', c'. split; [by right|done].
  - destruct (IH u0) as [[-> H]|(n' & c' & ? & ? & ->)].
    + left. split; [done|]. intros ? ? [[= -> ->]|?]%elem_of_cons; [done|by eapply H].
    + right. exists n', c'. split; [by right|done].
Qed.

Lemma find_user_spec user m : find_user user (range m) = m !! user.
Proof.
  assert (∀ entries, NoDup entries.*1 → ∀ info, find_user user entries = Some info ↔ (user, info) ∈ entries) as H.
  { induction entries as [|[n i] rest IH]; simpl; intros Hnd info.
    - split; [done|intros Hin; by apply elem_of_nil in Hin].
    - apply NoDup_cons in Hnd as [Hn Hnd]. rewrite elem_of_cons. destruct (String.eqb_spec n user) as [->|Hne].
      + split; [intros [= ->]; by left|]. intros [[= ->]|Hin]; [done|]. destruct Hn.
        apply list_elem_of_fmap. by exists (user, info).
      + rewrite IH by done. split; [by right|]. intros [[= ? ?]|?]; [congruence|done]. }
  apply option_eq. intros info. rewrite H by apply nodup_range_keys. apply elem_of_range.
Qed.

(** The credentials of a chain of entries: a cluster at the URL, a context for
    it and the context's user. *)
Definition credential_chain (k : KubeConfig) (url : string) (tls : TLSClientConfig) : Prop :=
  ∃ name cluster ctx context user,
    name ≠ "" ∧ Clusters k !! name = Some cluster ∧ ClusterServer cluster = url ∧
    Contexts k !! ctx = Some context ∧ Context_Cluster context = name ∧
    AuthInfos k !! Context_AuthInfo context = Some user ∧ Context_AuthInfo context ≠ "" ∧
    tls = MkTLS (ClientCertificate user) (ClientKey user) (CertificateAuthority cluster)
            (ClientCertificateData user) (ClientKeyData user) (CertificateAuthorityData cluster).

Lemma tlsClientConfig_chain k url tls :
  tlsClientConfigFromKubeConfig k url = Ok tls → credential_chain k url tls.
Proof.
  unfold tlsClientConfigFromKubeConfig.
  destruct (find_cluster url _) as [[name cluster]|] eqn:Ec; [|done].
  apply find_cluster_Some in Ec as [Hc%elem_of_range Hurl].
  destruct (String.eqb_spec name "") as [|Hname]; [done|].
  destruct (String.eqb_spec (context_user name (range (Contexts k)) "") "") as [|Hu]; [done|].
  rewrite find_user_spec. destruct (AuthInfos k !! _) as [user|] eqn:Eu; [|done]. intros [= <-].
  destruct (context_user_cases name (range (Contexts k)) "") as [[? _]|(n & c & Hn%elem_of_range & Hcc & E)]; [done|].
  rewrite E in Eu, Hu. by exists name, cluster, n, c, user.
Qed.
End Config.

(** ** The order of the maps does not matter when the choices are unique *)

Definition unambiguous (k : KubeConfig) (url : string) : Prop :=
  (∀ n1 n2 c1 c2, Clusters k !! n1 = Some c1 → Clusters k !! n2 = Some c2 →
     ClusterServer c1 = url → ClusterServer c2 = url → n1 = n2) ∧
  (∀ n1 n2 x1 x2, Contexts k !! n1 = Some x1 → Contexts k !! n2 = Some x2 →
     Context_Cluster x1 = Context_Cluster x2 → Context_AuthInfo x1 = Context_AuthInfo x2).

Lemma find_cluster_order (r1 r2 : MapRange) k url :
  unambiguous k url →
  find_cluster url (range (MapRange := r1) (Clusters k)) = find_cluster url (range (MapRange := r2) (Clusters k)).
Proof.
  intros [Hu _]. destruct (find_cluster url (range (MapRange := r1) _)) as [[n1 c1]|] eqn:E1;
    destruct (find_cluster url (range (MapRange := r2) _)) as [[n2 c2]|] eqn:E2; [..|done].
  - apply find_cluster_Some in E1 as [H1%elem_of_range ?], E2 as [H2%elem_of_range ?].
    assert (n1 = n2) as -> by by eapply Hu. by simplify_eq.
  - apply find_cluster_Some in E1 as [H1%elem_of_range ?].
    destruct (find_cluster_None _ _ E2 n1 c1); [by apply elem_of_range|done].
  - apply find_cluster_Some in E2 as [H2%elem_of_range ?].
    destruct (find_cluster_None _ _ E1 n2 c2); [by apply elem_of_range|done].
Qed.

Lemma context_user_order (r1 r2 : MapRange) k url name :
  unambiguous k url →
  context_user name (range (MapRange := r1) (Contexts k)) "" = context_user name (range (MapRange := r2) (Contexts k)) "".
Proof.
  intros [_ Hu].
  destruct (context_user_cases name (range (MapRange := r1) (Contexts k)) "") as [[-> H1]|(n1 & c1 & I1%elem_of_range & M1 & ->)];
  destruct (context_user_cases name (range (MapRange := r2) (Contexts k)) "") as [[-> H2]|(n2 & c2 & I2%elem_of_range & M2 & ->)].
  - done.
  - destruct (H1 n2 c2); [by apply elem_of_range|done].
  - destruct (H2 n1 c1); [by apply elem_of_range|done].
  - eapply Hu; [exact I1|exact I2|congruence].
Qed.

(** ** A configuration as text *)

Definition Duration_json (d : Z) : json := jstr (Duration_String d).

Definition Auth_json (a : APIServerAuthConfig) : json :=
  JObj [("kubeConfigPath", jstr (KubeConfigPath a)); ("clientCertPath", jstr (ClientCertPath a));
        ("clientKeyPath", jstr (ClientKeyPath a)); ("caCertPath", jstr (CACertPath a))].
Definition APIServer_json (c : APIServerConfig) : json :=
  JObj [("url", jstr (API_URL c)); ("auth", Auth_json (API_Auth c)); ("timeout", Duration_json (API_Timeout c))].
Definition Backend_json (c : BackendConfig) : json :=
  JObj [("url", jstr (Backend_URL c)); ("timeout", Duration_json (Backend_Timeout c))].
Definition Server_json (c : ServerConfig) : json := JObj [("timeout", Duration_json (Server_Timeout c))].
Definition ProxyConfig_json (c : ProxyConfig) : json :=
  JObj [("apiServer", APIServer_json (APIServer c)); ("backend", Backend_json (Backend c)); ("server", Server_json (Server c))].

Definition ProxyConfig_String (c : ProxyConfig) : string := MarshalIndent (ProxyConfig_json c).

(** A whole number of seconds that fits. *)
Definition whole_seconds (d : Z) : Prop := ∃ n, d = (n * Second)%Z ∧ (Z.abs n * Second ≤ MaxInt64)%Z.

Definition ascii_auth (a : APIServerAuthConfig) : bool :=
  is_ascii_string (KubeConfigPath a) && is_ascii_string (ClientCertPath a) &&
  is_ascii_string (ClientKeyPath a) && is_ascii_string (CACertPath a).

(** ASCII strings and timeouts in whole seconds. *)
Definition plain_config (c : ProxyConfig) : Prop :=
  is_ascii_string (API_URL (APIServer c)) = true ∧ ascii_auth (API_Auth (APIServer c)) = true ∧
  is_ascii_string (Backend_URL (Backend c)) = true ∧
  whole_seconds (API_Timeout (APIServer c)) ∧ whole_seconds (Backend_Timeout (Backend c)) ∧
  whole_seconds (Server_Timeout (Server c)).

Lemma dec_Duration cur d : whole_seconds d → dec_duration cur (Duration_json d) = Filled d None.
Proof.
  intros (n & -> & Hn). unfold dec_duration, Duration_json, jstr, value_text, Second in *.
  rewrite (proj1 (plain_quoted _ (seconds_plain n))).
  unfold Duration_UnmarshalJSON, inner_text. change (quote_mark +:+ ?r) with (String (byte 34) r).
  cbn [String.length]. rewrite length_app_s. change (String.length quote_mark) with 1%nat.
  assert (0 < String.length (Duration_String (n * 1000000000)))%nat as Hl.
  { destruct (Duration_String (n * 1000000000)) eqn:E; [|simpl; lia].
    pose proof (Duration_roundtrip_seconds n Hn) as H. rewrite E in H. discriminate H. }
  replace (S (_ + 1) <? 2)%nat with false by (symmetry; apply Nat.ltb_ge; lia).
  replace (S (String.length (Duration_String (n * 1000000000)) + 1) - 2)%nat
    with (String.length (Duration_String (n * 1000000000))) by lia.
  rewrite first_n_app. by rewrite (Duration_roundtrip_seconds n Hn).
Qed.

Lemma wf_Duration d : whole_seconds d → wf_json (Duration_json d) = true.
Proof. intros (n & -> & _). apply wf_jstr, plain_quoted, seconds_plain. Qed.

Lemma config_json_wf c : plain_config c → wf_json (ProxyConfig_json c) = true.
Proof.
  intros (Hu & Ha & Hb & T1 & T2 & T3). unfold ascii_auth in Ha. rewrite !andb_true_iff in Ha.
  destruct Ha as (((H1 & H2) & H3) & H4).
  unfold ProxyConfig_json, APIServer_json, Auth_json, Backend_json, Server_json. cbn [wf_json forallb].
  by rewrite !wf_jstr, !wf_Duration by done.
Qed.

Lemma config_json_decoded c : plain_config c → dec_config zero_config (ProxyConfig_json c) = Filled c None.
Proof.
  destruct c as [[url [a1 a2 a3 a4] ta] [burl tb] [ts]]. intros (_ & _ & _ & T1 & T2 & T3). simpl in T1, T2, T3.
  unfold ProxyConfig_json, APIServer_json, Auth_json, Backend_json, Server_json, dec_config, dec_api_server, dec_auth,
    dec_backend, dec_server.
  repeat (cbn -[dec_duration Duration_json]; rewrite ?dec_Duration by done). done.
Qed.

#[export] Instance config_message : Message ProxyConfig := {|
  msg_zero := zero_config; msg_json := ProxyConfig_json; msg_dec := dec_config; msg_ok := plain_config;
  msg_wf := config_json_wf; msg_decodes := config_json_decoded |}.

Lemma config_text_decoded c :
  plain_config c → Unmarshal zero_config dec_config (ProxyConfig_String c) = Done (Ok c).
Proof.
  intros Hc. unfold Unmarshal, ProxyConfig_String. rewrite parse_indent by by apply config_json_wf.
  by rewrite config_json_decoded.
Qed.

(** ** Claims *)

Section Claims.
Context `{ranger : !MapRange, lib : !GoLib}.

Lemma NewFromJSON_inv rawJSON c :
  NewFromJSON rawJSON = Done (Ok c) →
  ∃ c0, Unmarshal zero_config dec_config rawJSON = Done (Ok c0) ∧ Config_Validate c0 = None ∧ c = populate_defaults c0.
Proof.
  unfold NewFromJSON. destruct (Unmarshal _ _ _) as [[c0|]|]; [|done..]. simpl.
  destruct (Config_Validate c0) eqn:Ev; [done|]. intros [= <-]. by exists c0.
Qed.

(** C36. A configuration that is accepted is usable: both URLs are non-empty and
    parse, the credentials are complete (a kubeconfig path, or certificate, key
    and CA paths), and every timeout is a non-zero int64; and it is the decoded
    document with the default in place of each zero timeout. *)
Theorem accepted_config_is_usable (rawJSON : string) (c : ProxyConfig) :
  NewFromJSON rawJSON = Done (Ok c) →
  usable_url (API_URL (APIServer c)) ∧ usable_url (Backend_URL (Backend c)) ∧
  auth_complete (API_Auth (APIServer c)) ∧ durations_fit c ∧
  API_Timeout (APIServer c) ≠ 0%Z ∧ Backend_Timeout (Backend c) ≠ 0%Z ∧ Server_Timeout (Server c) ≠ 0%Z ∧
  ∃ c0, Unmarshal zero_config dec_config rawJSON = Done (Ok c0) ∧ c = populate_defaults c0.
Proof.
  intros (c0 & E & Ev & ->)%NewFromJSON_inv. apply Config_Validate_spec in Ev as (Hu & Ha & Hb).
  assert (durations_fit c0) as (F1 & F2 & F3).
  { unfold Unmarshal in E. destruct (parse_json rawJSON) as [v|]; [|done].
    destruct (dec_config zero_config v) as [x [e|]| |] eqn:Ed; try done. injection E as <-.
    eapply dec_config_keeps; [|exact Ed]. unfold durations_fit, int64_range, MinInt64, MaxInt64. simpl. lia. }
  assert (∀ t d, int64_range t → (0 < d ≤ MaxInt64)%Z → int64_range (default_timeout t d) ∧ default_timeout t d ≠ 0%Z) as Hd.
  { intros t d Ht Hd. unfold default_timeout. destruct (Z.eqb_spec t 0); [|done].
    unfold int64_range, MinInt64 in *. lia. }
  assert ((0 < DefaultAPIServerTimeout ≤ MaxInt64)%Z ∧ (0 < DefaultBackendTimeout ≤ MaxInt64)%Z ∧
    (0 < DefaultServerTimeout ≤ MaxInt64)%Z) as (D1 & D2 & D3) by (vm_compute; intuition congruence).
  destruct (Hd _ _ F1 D1), (Hd _ _ F2 D2), (Hd _ _ F3 D3). split_and!; try done. by exists c0.
Qed.

(** C35. A configuration that the program prints can be given back to it: the
    text of a configuration (ASCII strings, timeouts of whole seconds, negative
    or zero included) is read as that configuration, with the defaults for zero
    timeouts, exactly when its URLs and credentials are usable; otherwise the
    result is an error and never a panic. *)
Theorem config_is_read_back (c : ProxyConfig) :
  plain_config c →
  (usable_url (API_URL (APIServer c)) ∧ auth_complete (API_Auth (APIServer c)) ∧ usable_url (Backend_URL (Backend c)) →
   NewFromJSON (ProxyConfig_String c) = Done (Ok (populate_defaults c))) ∧
  (¬ (usable_url (API_URL (APIServer c)) ∧ auth_complete (API_Auth (APIServer c)) ∧ usable_url (Backend_URL (Backend c))) →
   ∃ e, NewFromJSON (ProxyConfig_String c) = Done (Err e)).
Proof.
  intros Hc. unfold NewFromJSON. rewrite (config_text_decoded c Hc). cbn [obind]. pose proof (Config_Validate_spec c) as Hv.
  destruct (Config_Validate c) as [e|]; split; intros H.
  - by apply Hv in H.
  - eauto.
  - done.
  - by destruct H; apply Hv.
Qed.

(** A timeout given as a bare number misbehaves: a single digit takes the
    process down, a number of three digits whose middle digit is 0 counts as no
    timeout, so that the default applies. *)
Theorem bare_number_timeouts (rawJSON : string) (c c' : ascii) (cur : Z) :
  parse_json rawJSON = Some (JObj [("server", JObj [("timeout", JNum (String c ""))])]) →
  NewFromJSON rawJSON = Panicked "slice bounds out of range" ∧
  dec_duration cur (JNum (String c (String "0" (String c' "")))) = Filled 0%Z None.
Proof. intros H. unfold NewFromJSON, Unmarshal. rewrite H. done. Qed.

(** C37. A Kubernetes client is made from one consistent set of credentials: it
    addresses the configured API server with the configured timeout, and its TLS
    material is the configured files, or, when a kubeconfig path is given, that
    of a chain of entries of the loaded file (a named cluster at the configured
    URL, a context for that cluster, and that context's user). *)
Theorem kube_client_credentials (config : APIServerConfig) (t : trace KubeSetup) (rc : RestConfig) :
  runs (NewKubeClient config) t (Done (Ok rc)) →
  Rest_Host rc = API_URL config ∧ Rest_Timeout rc = API_Timeout config ∧
  ((KubeConfigPath (API_Auth config) = "" ∧ t = [ev (I := KubeSetup) (NewForConfig rc) None] ∧
    Rest_TLS rc = MkTLS (ClientCertPath (API_Auth config)) (ClientKeyPath (API_Auth config))
                    (CACertPath (API_Auth config)) "" "" "") ∨
   ∃ k, KubeConfigPath (API_Auth config) ≠ "" ∧
     t = [ev (I := KubeSetup) (LoadFromFile (KubeConfigPath (API_Auth config))) (Ok k);
          ev (I := KubeSetup) (NewForConfig rc) None] ∧
     credential_chain k (API_URL config) (Rest_TLS rc)).
Proof.
  unfold NewKubeClient. destruct (APIServer_Validate config); [by intros [_ ?]|].
  destruct (String.eqb_spec (KubeConfigPath (API_Auth config)) "") as [Hp|Hp]; simpl.
  - intros ([e|] & t' & -> & -> & H); [done|]. injection H as ->. split_and!; [done..|]. by left.
  - intros ([k|e] & t' & -> & H); simpl in H; [|by destruct H].
    destruct (tlsClientConfigFromKubeConfig k (API_URL config)) as [tls|e] eqn:Et; simpl in H; [|by destruct H].
    destruct H as ([e|] & t'' & -> & -> & H); [done|]. injection H as ->. split_and!; [done..|]. right.
    exists k. split_and!; [done..|]. by apply tlsClientConfig_chain.
Qed.
End Claims.

(** The credentials taken from a kubeconfig do not depend on the order in
    which Go ranges over its maps, provided at most one cluster has the API
    server's URL and the contexts of a cluster name the same user. *)
Theorem credentials_ignore_map_order (r1 r2 : MapRange) (k : KubeConfig) (url : string) :
  unambiguous k url →
  tlsClientConfigFromKubeConfig (ranger := r1) k url = tlsClientConfigFromKubeConfig (ranger := r2) k url.
Proof.
  intros Hu. unfold tlsClientConfigFromKubeConfig. rewrite (find_cluster_order r1 r2 k url Hu).
  destruct (find_cluster url _) as [[name cluster]|]; [|done].
  rewrite (context_user_order r1 r2 k url name Hu). by rewrite !find_user_spec.
Qed.

(** ** Witnesses *)

Definition sample_config : ProxyConfig :=
  MkProxyConfig
    (MkAPIServer "https://master:6443" (MkAuth "" "/pki/admin.pem" "/pki/admin-key.pem" "/pki/ca.pem") (20 * Second))
    (MkBackend "http://pool:9010" 0) (MkServerConfig (90 * Second)).
Definition sample_text : string := ProxyConfig_String sample_config.

Lemma accepted_config_is_usable_witness :
  ∃ c, NewFromJSON (ranger := map_to_list_range) (lib := plain_lib) sample_text = Done (Ok c) ∧ Backend_Timeout (Backend c) ≠ 0%Z.
Proof.
  destruct (NewFromJSON (ranger := map_to_list_range) (lib := plain_lib) sample_text) as [[c|e]|m] eqn:E; [|vm_compute in E; discriminate E..].
  exists c. split; [reflexivity|]. apply (accepted_config_is_usable (ranger := map_to_list_range) (lib := plain_lib) sample_text c E).
Defined.

Lemma config_is_read_back_witness :
  NewFromJSON (ranger := map_to_list_range) (lib := plain_lib) sample_text =
  Done (Ok (populate_defaults sample_config)).
Proof.
  apply (config_is_read_back (ranger := map_to_list_range) (lib := plain_lib) sample_config).
  - split_and!; [reflexivity..|exists 20%Z|exists 0%Z|exists 90%Z]; (split; [reflexivity|vm_compute; discriminate]).
  - split_and!; [split; [discriminate|reflexivity]| |split; [discriminate|reflexivity]].
    right. split_and!; discriminate.
Defined.

Definition bare_number_text : string := write_json (JObj [("server", JObj [("timeout", JNum "5")])]).

Lemma bare_number_timeouts_witness :
  NewFromJSON (ranger := map_to_list_range) (lib := plain_lib) bare_number_text = Panicked "slice bounds out of range".
Proof. apply (bare_number_timeouts (ranger := map_to_list_range) (lib := plain_lib) bare_number_text "5" "1" 0). vm_compute. reflexivity. Defined.

Definition sample_kubeconfig : KubeConfig :=
  MkKubeConfig {[ "prod" := MkCluster "https://master:6443" "" "CA"; "test" := MkCluster "https://test:6443" "" "CA2" ]}
    {[ "prod-admin" := MkContext "prod" "admin"; "test-admin" := MkContext "test" "tester" ]}
    {[ "admin" := MkAuthInfo "" "CERT" "" "KEY"; "tester" := MkAuthInfo "" "CERT2" "" "KEY2" ]}.
Definition sample_api_server : APIServerConfig :=
  MkAPIServer "https://master:6443" (MkAuth "/kubeconfig" "" "" "") 5.
Definition sample_setup : env KubeSetup := λ _ c,
  match c with LoadFromFile _ => Ok sample_kubeconfig | NewForConfig _ => None end.
Definition sample_new_client : Prog KubeSetup (result error RestConfig) :=
  NewKubeClient (ranger := map_to_list_range) (lib := plain_lib) sample_api_server.

(** The kubeconfig loaded first. *)
Definition loaded (t : trace KubeSetup) : option KubeConfig :=
  match t with existT (LoadFromFile _) (Ok k) :: _ => Some k | _ => None end.

Lemma kube_client_credentials_witness :
  ∃ rc, (exec sample_setup [] sample_new_client).2 = Done (Ok rc) ∧
    credential_chain sample_kubeconfig "https://master:6443" (Rest_TLS rc).
Proof.
  pose proof (exec_runs sample_setup sample_new_client []) as H.
  assert ((exec sample_setup [] sample_new_client).2 =
    Done (Ok (MkRestConfig "https://master:6443" (MkTLS "" "" "" "CERT" "KEY" "CA") 5))) as E
    by (vm_compute; reflexivity).
  rewrite E in H. eexists. split; [exact E|].
  destruct (kube_client_credentials (ranger := map_to_list_range) (lib := plain_lib) _ _ _ H)
    as (_ & _ & [(Hp & _)|(k & _ & Ht & Hk)]); [discriminate Hp|].
  apply (f_equal loaded) in Ht. change (Some sample_kubeconfig = Some k) in Ht. injection Ht as <-. exact Hk.
Defined.

(** A map iterated backwards. *)
Definition reverse_range : MapRange :=
  {| range V m := reverse (map_to_list m); range_perm V m := reverse_Permutation _ |}.

Lemma credentials_ignore_map_order_witness :
  tlsClientConfigFromKubeConfig (ranger := map_to_list_range) sample_kubeconfig "https://master:6443" =
  tlsClientConfigFromKubeConfig (ranger := reverse_range) sample_kubeconfig "https://master:6443".
Proof.
  apply (credentials_ignore_map_order map_to_list_range reverse_range). split.
  - intros n1 n2 c1 c2 H1 H2 U1 U2. simpl in H1, H2.
    apply lookup_insert_Some in H1 as [[<- <-]|[_ H1]]; [|apply lookup_singleton_Some in H1 as [<- <-]; discriminate U1].
    apply lookup_insert_Some in H2 as [[<- <-]|[_ H2]]; [reflexivity|].
    apply lookup_singleton_Some in H2 as [<- <-]. discriminate U2.
  - intros n1 n2 x1 x2 H1 H2 E. simpl in H1, H2.
    apply lookup_insert_Some in H1 as [[<- <-]|[_ [<- <-]%lookup_singleton_Some]];
      apply lookup_insert_Some in H2 as [[<- <-]|[_ [<- <-]%lookup_singleton_Some]];
      reflexivity || discriminate E.
Defined.
