(* ===== verification/Main.v ===== *)
(** * cmd/kubeaware-cloudpool-proxy/main.go: start-up

    The flags of the command, and [main] as a program over the operations of the
    process (opening and reading the configuration file, serving) and of the
    Kubernetes client library: [process] parses the command line, [main] is what
    follows.  [version] is set by the linker.  What serves requests is described by the listening address, the
    read timeout and the two clients the handlers are wired to. *)
From stdpp Require Import base tactics list strings gmap pretty.
From Stdlib Require Import ZArith Lia.
From S2P Require Import Prelude Strconv GoStd KubeTypes Labels Json Samples CloudPool Url PoolClient Duration Flags Config.

Local Open Scope go_scope.
Local Open Scope string_scope.

Record Options : Type := MkOptions { configPath : string; port : Z; showVersion : bool }.

(** [init]: the defaults and the flags, after those of glog. *)
Definition defaultOptions : Options := MkOptions "/etc/elastisys/kubeaware-cloudpool-proxy.json" 8080 false.

Definition main_flags `{lib : !GoLib} : list (Flag (settings Options)) := glog_flags ++ [
  StringVar "config-file" (λ v '(o, l), (MkOptions v (port o) (showVersion o), l));
  IntVar "port" (λ n '(o, l), (MkOptions (configPath o) n (showVersion o), l));
  BoolVar "version" (λ b '(o, l), (MkOptions (configPath o) (port o) b, l))].

(** What the process prints about an error in its flags, before the usage. *)
Definition flag_error_text (e : flag_error) : string := match e with ErrHelp => "" | Failf message => message end.

(** [http.Server], as far as [NewServer] sets it. *)
Record HTTPServer : Type := MkHTTPServer { Addr : string; ReadTimeout : Z }.

Definition NewServer (port : Z) (readTimeout : Z) : HTTPServer :=
  MkHTTPServer (":" +:+ pretty port) (if (readTimeout <=? 0)%Z then DefaultServerTimeout else readTimeout).

Inductive startup_call : Type :=
| OpenFile (path : string)
| ReadAll
| ListenAndServe (server : HTTPServer) (pool : DefaultCloudPoolClient) (kube : RestConfig).

Definition startup_reply (c : startup_call) : Type :=
  match c with OpenFile _ => option error | ReadAll => result error string | ListenAndServe _ _ _ => error end.
Definition Process : Iface := mkIface startup_call startup_reply.
Definition Startup : Iface := sum_iface Process KubeSetup.

Definition proc (c : startup_call) : Prog Startup (startup_reply c) := lift_l (invoke (I := Process) c).

(** How the process ends: the status and what it prints. *)
Record exit_status : Type := Exit { exit_code : Z; exit_message : string }.

Section Main.
Context `{ranger : !MapRange, lib : !GoLib}.
Context (version : string).

Definition main (opts : Options) : Prog Startup exit_status :=
  if showVersion opts then Ret (Exit 0 ("Version: " +:+ version +:+ newline))
  else
    let! opened := proc (OpenFile (configPath opts)) in
    match opened with
    | Some err => Ret (Exit 1 ("failed to open configuration file: " +:+ Error err))
    | None =>
        let! read := proc ReadAll in
        match read with
        | Err err => Ret (Exit 1 ("error: could not read config: " +:+ Error err +:+ newline))
        | Ok configBytes =>
            let! parsed := pure (NewFromJSON configBytes) in
            match parsed with
            | Err err => Ret (Exit 1 ("error: could not parse config: " +:+ Error err +:+ newline))
            | Ok proxyConfig =>
                let cloudPoolClient :=
                  NewClient (Backend_URL (Backend proxyConfig)) (Backend_Timeout (Backend proxyConfig)) in
                let! client := lift_r (NewKubeClient (APIServer proxyConfig)) in
                match client with
                | Err err => Ret (Exit 1 ("failed to create kubernetes client: " +:+ Error err))
                | Ok kubeClient =>
                    let restAPI := NewServer (port opts) (Server_Timeout (Server proxyConfig)) in
                    let! err := proc (ListenAndServe restAPI cloudPoolClient kubeClient) in
                    Ret (Exit 255 (Error err))
                end
            end
        end
    end.

(** The process: [flag.Parse] ends it with status 2 if the flags are wrong. *)
Definition process (args : list string) : Prog Startup exit_status :=
  match flag_Parse main_flags args (defaultOptions, initial_log) with
  | Err e => Ret (Exit 2 (flag_error_text e))
  | Ok (s, _) => main s.1
  end.

Definition serve_event (s : HTTPServer) (p : DefaultCloudPoolClient) (k : RestConfig) (err : error) : event Startup :=
  ev_l (ev (I := Process) (ListenAndServe s p k) err).

Definition is_serve (e : event Startup) : bool :=
  match projT1 e with inl (ListenAndServe _ _ _) => true | _ => false end.

Lemma NewKubeClient_returns (c : APIServerConfig) : no_panic (NewKubeClient c).
Proof. unfold NewKubeClient. prog_walk. Qed.

Lemma no_serve_in_setup (kt : trace KubeSetup) : Forall (λ e, is_serve e = false) (map ev_r kt).
Proof. induction kt; simpl; constructor; done. Qed.

Lemma positive_timeouts url t srv n : (0 < Timeout (NewClient url t))%Z ∧ (0 < ReadTimeout (NewServer n srv))%Z.
Proof.
  unfold NewClient, NewServer, DefaultBackendTimeout, DefaultServerTimeout, Second. simpl.
  destruct (Z.leb_spec t 0), (Z.leb_spec srv 0); lia.
Qed.

(** What a run of [main] without the version option comes to. *)
Lemma main_runs (opts : Options) (t : trace Startup) (o : outcome exit_status) :
  showVersion opts = false → runs (main opts) t o →
  (∃ text c kt k err,
     let pool := NewClient (Backend_URL (Backend c)) (Backend_Timeout (Backend c)) in
     let srv := NewServer (port opts) (Server_Timeout (Server c)) in
     t = ([ev_l (ev (I := Process) (OpenFile (configPath opts)) None); ev_l (ev (I := Process) ReadAll (Ok text))] ++
          map ev_r kt ++ [serve_event srv pool k err])%list ∧
     NewFromJSON text = Done (Ok c) ∧ usable_url (Backend_URL (Backend c)) ∧
     runs (NewKubeClient (APIServer c)) kt (Done (Ok k)) ∧
     (0 < Timeout pool)%Z ∧ (0 < ReadTimeout srv)%Z ∧ o = Done (Exit 255 (Error err))) ∨
  (Forall (λ e, is_serve e = false) t ∧
   ((∃ msg, o = Done (Exit 1 msg)) ∨ ∃ text m, NewFromJSON text = Panicked m ∧ o = Panicked m)).
Proof.
  intros Hv. unfold main. rewrite Hv. intros ([err|] & t1 & -> & H).
  { right. destruct H as [-> ->]. split; [by repeat constructor|]. eauto. }
  destruct H as ([text|err] & t2 & -> & H).
  2:{ right. destruct H as [-> ->]. split; [by repeat constructor|]. eauto. }
  cbn -[NewFromJSON NewKubeClient] in H. destruct (NewFromJSON text) as [[c|err]|m] eqn:E; cbn -[NewKubeClient] in H.
  2:{ right. destruct H as [-> ->]. split; [by repeat constructor|]. eauto. }
  2:{ right. destruct H as [-> ->]. split; [by repeat constructor|]. eauto. }
  apply runs_bind in H as [(t3 & t4 & [k|err] & -> & H1 & H2)|(m & -> & H1)].
  - apply runs_lift_r in H1 as (kt & -> & H1). destruct H2 as (err & t5 & -> & -> & ->). left.
    exists text, c, kt, k, err. destruct (NewFromJSON_inv _ _ E) as (c0 & _ & (_ & _ & Hb)%Config_Validate_spec & ->).
    split_and!; [done|done|exact Hb|done|by eapply (proj1 (positive_timeouts _ _ 0 0))|by eapply (proj2 (positive_timeouts "" 0 _ _))|done].
  - apply runs_lift_r in H1 as (kt & -> & H1). destruct H2 as [-> ->]. right. split; [|eauto].
    rewrite app_nil_r. repeat (constructor; [done|]). apply no_serve_in_setup.
  - apply runs_lift_r in H1 as (kt & -> & H1). by apply no_panic_runs in H1; [|apply NewKubeClient_returns].
Qed.

(** C38. The process serves requests only with a usable configuration.  Flags that
    do not parse end it with status 2 and the version option with status 0,
    before any call.  Otherwise either it opens and reads the configured file,
    the text is an accepted configuration, a Kubernetes client is made from its
    API server part, and it then listens on the given port, wired to a cloudpool
    client for the configured backend, with positive timeouts (ending with
    status 255 when serving ends); or it never listens, and ends with status 1
    and a message, or with the panic of reading the configuration. *)
Theorem startup_serves_only_usable_config (args : list string) (t : trace Startup) (o : outcome exit_status) :
  runs (process args) t o →
  match flag_Parse main_flags args (defaultOptions, initial_log) with
  | Err e => t = [] ∧ o = Done (Exit 2 (flag_error_text e))
  | Ok ((opts, _), _) =>
      if showVersion opts then t = [] ∧ o = Done (Exit 0 ("Version: " +:+ version +:+ newline))
      else
        (∃ text c kt k err,
           let pool := NewClient (Backend_URL (Backend c)) (Backend_Timeout (Backend c)) in
           let srv := NewServer (port opts) (Server_Timeout (Server c)) in
           t = ([ev_l (ev (I := Process) (OpenFile (configPath opts)) None); ev_l (ev (I := Process) ReadAll (Ok text))] ++
                map ev_r kt ++ [serve_event srv pool k err])%list ∧
           NewFromJSON text = Done (Ok c) ∧ usable_url (Backend_URL (Backend c)) ∧
           runs (NewKubeClient (APIServer c)) kt (Done (Ok k)) ∧
           (0 < Timeout pool)%Z ∧ (0 < ReadTimeout srv)%Z ∧ o = Done (Exit 255 (Error err))) ∨
        (Forall (λ e, is_serve e = false) t ∧
         ((∃ msg, o = Done (Exit 1 msg)) ∨ ∃ text m, NewFromJSON text = Panicked m ∧ o = Panicked m))
  end.
Proof.
  unfold process. destruct (flag_Parse _ _ _) as [[[opts log] rest]|e]; [|by intros [-> ->]]. cbn [fst].
  destruct (showVersion opts) eqn:Hv; [|by apply main_runs]. unfold main. rewrite Hv. by intros [-> ->].
Qed.

(** The options as assignments, each in one of its spellings. *)
Definition option_assignments (o : Options) (d1 d2 d3 : bool) (s1 s2 s3 : style) : list assignment := [
  Assign "config-file" (configPath o) d1 s1;
  Assign "port" (pretty (port o)) d2 s2;
  Assign "version" (if showVersion o then "true" else "false") d3 s3].

(** C39. Every value of the options can be given on the command line, and is what
    the process runs with: each option with one dash or two; the path and the
    port with an equals sign or as a separate argument, whatever the path
    contains; the version option, which is boolean, with an equals sign, or
    alone if it is to be true; and followed by nothing, by two dashes and any
    arguments, or by any arguments of which the first is not a flag (it does
    not start with a dash, or is just one dash). *)
Theorem command_line_selects_options (o : Options) (d1 d2 d3 : bool) (s1 s2 s3 : style) (rest args : list string) :
  int64_range (port o) → s1 ≠ Bare → s2 ≠ Bare → s3 ≠ Separate → (s3 = Bare → showVersion o = true) → ends_flags rest args →
  process (concat (map spell (option_assignments o d1 d2 d3 s1 s2 s3)) ++ rest) = main o.
Proof.
  intros Hn H1 H2 H3 Hb Hrest. unfold process.
  pose proof (flag_Parse_assignments main_flags (option_assignments o d1 d2 d3 s1 s2 s3) rest (defaultOptions, initial_log)) as H.
  assert (Forall (well_spelt main_flags) (option_assignments o d1 d2 d3 s1 s2 s3)) as Hw.
  { unfold option_assignments, well_spelt. repeat constructor; try done; (eexists; split; [reflexivity|]); cbn [A_style A_value];
      [by destruct s1|by destruct s2|]. destruct s3; [done|done|]. by rewrite Hb. }
  specialize (H Hw). clear Hw.
  assert (assign_all main_flags (option_assignments o d1 d2 d3 s1 s2 s3) (defaultOptions, initial_log) = Some (o, initial_log)) as E.
  { unfold option_assignments. cbn -[ParseInt_base_0 ParseBool pretty]. rewrite ParseInt_base_0_pretty by done.
    destruct o as [p n []]; reflexivity. }
  rewrite E in H. rewrite H. by rewrite (flag_Parse_positional _ _ args).
Qed.
End Main.

(** ** Witnesses *)

#[local] Existing Instance map_to_list_range.

Definition sample_process : env Startup := λ _ c,
  match c with
  | inl (OpenFile _) => None
  | inl ReadAll => Ok sample_text
  | inl (ListenAndServe _ _ _) => ErrorString "accept: too many open files"
  | inr (LoadFromFile _) => Ok sample_kubeconfig
  | inr (NewForConfig _) => None
  end.

Definition sample_main : Prog Startup exit_status := process (lib := plain_lib) "1.0" ["--port=8081"; "-v"; "4"].

Lemma startup_serves_only_usable_config_witness :
  ∃ s p k e, serve_event s p k e ∈ (exec sample_process [] sample_main).1 ∧ (0 < Timeout p)%Z ∧ Addr s = ":8081".
Proof.
  pose proof (exec_runs sample_process sample_main []) as H.
  assert (exit_code <$> (match (exec sample_process [] sample_main).2 with Done x => Some x | Panicked _ => None end)
          = Some 255%Z) as E by (vm_compute; reflexivity).
  pose proof (startup_serves_only_usable_config (lib := plain_lib) "1.0" ["--port=8081"; "-v"; "4"] _ _ H) as Hs.
  assert (flag_Parse (lib := plain_lib) (main_flags (lib := plain_lib)) ["--port=8081"; "-v"; "4"] (defaultOptions, initial_log) =
    Ok ((MkOptions "/etc/elastisys/kubeaware-cloudpool-proxy.json" 8081 false, MkLogSettings true false 4 2 [] ("", 0%Z) ""), []))
    as Hf by (vm_compute; reflexivity).
  rewrite Hf in Hs. cbn [showVersion] in Hs.
  destruct Hs as [(text & c & kt & k & err & Ht & _ & _ & _ & Hp & _)|(_ & [(msg & Hm)|(text & m & _ & Hm)])];
    [|rewrite Hm in E; discriminate E..].
  exists (NewServer 8081 (Server_Timeout (Server c))). eexists _, k, err. split; [|split; [exact Hp|reflexivity]].
  rewrite Ht. rewrite !elem_of_app. right. right. by apply list_elem_of_singleton.
Defined.

Lemma command_line_selects_options_witness :
  process (lib := plain_lib) "1.0" ["-config-file"; "-odd.json"; "--port=-1"; "-version"; "false"; "--x"] =
  Ret (Exit 0 ("Version: 1.0" +:+ newline)).
Proof.
  exact (command_line_selects_options (lib := plain_lib) "1.0" (MkOptions "-odd.json" (-1) true)
    false true false Separate WithEquals Bare ["false"; "--x"] ["false"; "--x"] ltac:(split; discriminate)
    ltac:(discriminate) ltac:(discriminate) ltac:(discriminate) ltac:(reflexivity) ltac:(apply ends_argument; reflexivity)).
Defined.
