(* ===== verification/Proxy.v ===== *)
(** * pkg/proxy/proxy.go: the Kubernetes-aware proxy

    [Proxy] decides, for a new desired size, whether the request is passed on
    to the backend cloudpool or turned into a graceful scale-down: it pairs
    worker nodes with machines, asks the node scaler which pairs are safe to
    remove, and drains, deletes and terminates the least loaded ones.

    The operations are programs over the interface [ProxyDeps], whose calls are
    the methods of [kube.NodeScaler] and [cloudpool.CloudPoolClient] that the
    proxy uses.  [NodeLoad] has no effect and is a function argument.  Logging
    is left out. *)
From stdpp Require Import base tactics list strings gmap.
From Stdlib Require Import ZArith Lia SpecFloat.
From S2P Require Import Prelude Strconv GoStd Quantity KubeTypes NodeInfo Samples QuasiScheduler NodeScaler Time CloudPool.

Local Open Scope go_scope.

Inductive proxy_call : Type :=
| ListWorkerNodes_call
| IsScaleDownCandidate_call (node : NodeInfo)
| DrainNode_call (node : NodeInfo)
| DeleteNode_call (node : NodeInfo)
| GetMachinePool_call
| GetMachine_call (machineID : string)
| SetDesiredSize_call (desiredSize : Z)
| TerminateMachine_call (machineID : string) (decrementDesiredSize : bool).

Definition proxy_reply (c : proxy_call) : Type :=
  match c with
  | ListWorkerNodes_call => result error (list NodeInfo)
  | IsScaleDownCandidate_call _ => bool * option error
  | DrainNode_call _ | DeleteNode_call _ => option error
  | GetMachinePool_call => result error MachinePoolMessage
  | GetMachine_call _ => result error Machine
  | SetDesiredSize_call _ | TerminateMachine_call _ _ => option error
  end.

Definition ProxyDeps : Iface := mkIface proxy_call proxy_reply.

Definition pcall (c : proxy_call) : Prog ProxyDeps (proxy_reply c) := invoke (I := ProxyDeps) c.
Definition pev (c : proxy_call) (r : proxy_reply c) : event ProxyDeps := ev (I := ProxyDeps) c r.

Record NodeMachinePair : Type := MkNodeMachinePair { KubeNode : NodeInfo; PairMachine : Machine }.

Definition NodeMachinePair_String (n : NodeMachinePair) : string :=
  "{" +:+ nodeName (KubeNode n) +:+ ": " +:+ ID (PairMachine n) +:+ "}".

(** The inner loop: the first machine with the given ID. *)
Fixpoint machine_with_id (id : string) (machines : list Machine) : option Machine :=
  match machines with
  | [] => None
  | machine :: rest => if String.eqb id (ID machine) then Some machine else machine_with_id id rest
  end.

Fixpoint pairNodesWithMachines (nodes : list NodeInfo) (machines : list Machine) : list NodeMachinePair :=
  match nodes with
  | [] => []
  | node :: rest =>
      match machine_with_id (ExternalID (Node_Spec (NodeOf node))) machines with
      | Some machine => MkNodeMachinePair node machine :: pairNodesWithMachines rest machines
      | None => pairNodesWithMachines rest machines
      end
  end.

Definition isMachineEvictable (n : NodeMachinePair) : bool * option NoScaleDownCandidateError :=
  if Evictable (Membership (PairMachine n)) then (true, None)
  else (false, Some (MkNoScaleDownCandidateError (nodeName (KubeNode n))
                       "machine's membershipStatus.evictable is true")).

Section Proxy.
Context `{sorter : !SliceSort, ranger : !MapRange, lib : !GoLib}.
Local Open Scope string_scope.

(** [nodeScaler.NodeLoad]. *)
Variable nodeLoad : NodeInfo → float64.

Definition isNodeSafeToDrain (node : NodeMachinePair)
    : Prog ProxyDeps (bool * option NoScaleDownCandidateError) :=
  let! (ok, err) := pcall (IsScaleDownCandidate_call (KubeNode node)) in
  match err with
  | Some err => Ret (false, Some (MkNoScaleDownCandidateError (nodeName (KubeNode node)) (Error err)))
  | None => Ret (ok, None)
  end.

Definition isScaleDownCandidate (node : NodeMachinePair)
    : Prog ProxyDeps (bool * option NoScaleDownCandidateError) :=
  let '(ok, reason) := isMachineEvictable node in
  if negb ok then Ret (false, reason)
  else
    let! (ok, reason) := isNodeSafeToDrain node in
    if negb ok then Ret (false, reason) else Ret (true, None).

Fixpoint partitionScaleDownCandidates (nodes : list NodeMachinePair)
    : Prog ProxyDeps (list NodeMachinePair * list (option NoScaleDownCandidateError)) :=
  match nodes with
  | [] => Ret ([], [])
  | node :: rest =>
      let! (ok, reason) := isScaleDownCandidate node in
      let! (candidates, rejections) := partitionScaleDownCandidates rest in
      if ok then Ret (node :: candidates, rejections) else Ret (candidates, reason :: rejections)
  end.

Definition byLoad (a b : NodeMachinePair) : bool :=
  float64_lt (nodeLoad (KubeNode a)) (nodeLoad (KubeNode b)).

Definition sortByLoad (nodes : list NodeMachinePair) : list NodeMachinePair := sortSlice byLoad nodes.

Definition evictAndTerminate (victim : NodeMachinePair) (decrementDesiredSize : bool)
    : Prog ProxyDeps (option error) :=
  let! err := pcall (DrainNode_call (KubeNode victim)) in
  match err with
  | Some err => Ret (Some (KubernetesClientError ("failed to drain victim node: " +:+ Error err)))
  | None =>
      let! err := pcall (DeleteNode_call (KubeNode victim)) in
      match err with
      | Some err =>
          Ret (Some (KubernetesClientError ("failed to delete kubernetes node " +:+
                       nodeName (KubeNode victim) +:+ ": " +:+ Error err)))
      | None =>
          let! err := pcall (TerminateMachine_call (ID (PairMachine victim)) decrementDesiredSize) in
          match err with
          | Some err =>
              Ret (Some (KubernetesClientError ("failed to terminate machine " +:+
                           ID (PairMachine victim) +:+ ": " +:+ Error err)))
          | None => Ret None
          end
      end
  end.

(** The loop over the victims, until done or until one removal fails. *)
Fixpoint scale_down_loop (victims : list NodeMachinePair) : Prog ProxyDeps (option error) :=
  match victims with
  | [] => Ret None
  | victim :: rest =>
      let! err := evictAndTerminate victim true in
      match err with
      | Some err => Ret (Some (ScaleDownError ("scale-down failed: " +:+ Error err)))
      | None => scale_down_loop rest
      end
  end.

Definition SetDesiredSize (desiredSize : Z) : Prog ProxyDeps (option error) :=
  let! r := pcall ListWorkerNodes_call in
  match r with
  | Err err =>
      Ret (Some (KubernetesClientError ("failed to retrieve kubernetes worker nodes: " +:+ Error err)))
  | Ok nodes =>
      let! r := pcall GetMachinePool_call in
      match r with
      | Err err => Ret (Some (CloudPoolClientError ("failed to retrieve cloudpool: " +:+ Error err)))
      | Ok pool =>
          let activeMachines := FilterMachines (Machines pool) [IsMachineActive] in
          let nodeMachinePairs := pairNodesWithMachines nodes activeMachines in
          let numActiveNodes := Z.of_nat (length nodeMachinePairs) in
          if (numActiveNodes <=? desiredSize)%Z then
            let! err := pcall (SetDesiredSize_call desiredSize) in
            match err with
            | Some err =>
                Ret (Some (CloudPoolClientError
                  ("failed to request desiredSize against backend cloudpool: " +:+ Error err)))
            | None => Ret None
            end
          else
            let numExcessNodes := wrap64 (numActiveNodes - desiredSize) in
            let! (victimCandidates, rejections) := partitionScaleDownCandidates nodeMachinePairs in
            if (length victimCandidates =? 0)%nat
            then Ret (Some (NoViableScaleDownCandidateError rejections))
            else
              let victimCandidates := sortByLoad victimCandidates in
              let numCandidates := Z.of_nat (length victimCandidates) in
              let nodesToRemove :=
                if (numCandidates <? numExcessNodes)%Z then numCandidates else numExcessNodes in
              scale_down_loop (take (Z.to_nat nodesToRemove) victimCandidates)
      end
  end.

Fixpoint node_with_external_id (id : string) (nodes : list NodeInfo) : option NodeInfo :=
  match nodes with
  | [] => None
  | node :: rest =>
      if String.eqb (ExternalID (Node_Spec (NodeOf node))) id then Some node
      else node_with_external_id id rest
  end.

Definition getNodeWithExternalID (machineID : string) : Prog ProxyDeps (result error NodeInfo) :=
  let! r := pcall ListWorkerNodes_call in
  match r with
  | Err err => Ret (Err (KubernetesClientError ("failed to get nodes: " +:+ Error err)))
  | Ok nodes =>
      match node_with_external_id machineID nodes with
      | Some node => Ret (Ok node)
      | None =>
          Ret (Err (NodeNotFoundError ("no kubernetes node with external ID " +:+ machineID +:+ " exists")))
      end
  end.

Definition TerminateMachine (machineID : string) (decrementDesiredSize : bool)
    : Prog ProxyDeps (option error) :=
  let! r := getNodeWithExternalID machineID in
  match r with
  | Err err => Ret (Some err)
  | Ok node =>
      let! r := pcall (GetMachine_call machineID) in
      match r with
      | Err err =>
          Ret (Some (CloudPoolClientError ("failed to get cloudpool machine with ID " +:+ machineID +:+
                       ": " +:+ Error err)))
      | Ok machine =>
          let victim := MkNodeMachinePair node machine in
          let! (ok, reason) := isScaleDownCandidate victim in
          if negb ok then
            Ret (Some (ScaleDownError ("TerminateMachine: machine is not deemed safe to scale down: " +:+
                         rejection_text reason)))
          else evictAndTerminate victim decrementDesiredSize
      end
  end.
End Proxy.

(** ** Pairing nodes with machines *)

Lemma machine_with_id_Some id ms m :
  machine_with_id id ms = Some m → m ∈ ms ∧ ID m = id.
Proof.
  induction ms as [|m' ms IH]; simpl; [done|].
  destruct (String.eqb_spec id (ID m')); [intros [= ->]; set_solver|set_solver].
Qed.

Lemma machine_with_id_None id ms : machine_with_id id ms = None ↔ ∀ m, m ∈ ms → ID m ≠ id.
Proof.
  induction ms as [|m' ms IH]; simpl; [set_solver|]. setoid_rewrite elem_of_cons.
  destruct (String.eqb_spec id (ID m')); [split; [done|]; naive_solver|]. rewrite IH. naive_solver.
Qed.

(** A worker node with its counterpart among the machines. *)
Definition counterpart (nodes : list NodeInfo) (machines : list Machine) (p : NodeMachinePair) : Prop :=
  KubeNode p ∈ nodes ∧ PairMachine p ∈ machines ∧
  ExternalID (Node_Spec (NodeOf (KubeNode p))) = ID (PairMachine p).

Lemma pairNodes_counterpart nodes machines p :
  p ∈ pairNodesWithMachines nodes machines → counterpart nodes machines p.
Proof.
  unfold counterpart. induction nodes as [|n ns IH]; simpl; [set_solver|].
  destruct (machine_with_id _ machines) as [m|] eqn:E; [|set_solver].
  apply machine_with_id_Some in E as [Hm Hid]. intros [->|Hp]%elem_of_cons; set_solver.
Qed.

(** The pairs are, in order, the nodes that have a machine. *)
Lemma pairNodes_nodes nodes machines :
  map KubeNode (pairNodesWithMachines nodes machines) =
  List.filter (λ n, bool_decide (is_Some (machine_with_id (ExternalID (Node_Spec (NodeOf n))) machines))) nodes.
Proof.
  induction nodes as [|n ns IH]; simpl; [done|].
  destruct (machine_with_id _ machines); simpl; by rewrite IH.
Qed.

Lemma node_with_external_id_Some id nodes n :
  node_with_external_id id nodes = Some n → n ∈ nodes ∧ ExternalID (Node_Spec (NodeOf n)) = id.
Proof.
  induction nodes as [|n' ns IH]; simpl; [done|].
  destruct (String.eqb_spec (ExternalID (Node_Spec (NodeOf n'))) id); [intros [= ->]; set_solver|set_solver].
Qed.

(** ** Checking the pairs *)

Definition approved (p : NodeMachinePair) : event ProxyDeps :=
  pev (IsScaleDownCandidate_call (KubeNode p)) (true, None).

(** The three calls that remove a pair, all of them successful. *)
Definition removed (decrement : bool) (p : NodeMachinePair) : trace ProxyDeps :=
  [pev (DrainNode_call (KubeNode p)) None; pev (DeleteNode_call (KubeNode p)) None;
   pev (TerminateMachine_call (ID (PairMachine p)) decrement) None].

(** A removal that stops at the first call that fails. *)
Inductive removal_failed (decrement : bool) (p : NodeMachinePair) : trace ProxyDeps → Prop :=
| drain_failed e :
    removal_failed decrement p [pev (DrainNode_call (KubeNode p)) (Some e)]
| delete_failed e :
    removal_failed decrement p
      [pev (DrainNode_call (KubeNode p)) None; pev (DeleteNode_call (KubeNode p)) (Some e)]
| terminate_failed e :
    removal_failed decrement p
      [pev (DrainNode_call (KubeNode p)) None; pev (DeleteNode_call (KubeNode p)) None;
       pev (TerminateMachine_call (ID (PairMachine p)) decrement) (Some e)].

Section ProxyFacts.
Context `{sorter : !SliceSort, ranger : !MapRange, lib : !GoLib}.
Variable nodeLoad : NodeInfo → float64.

(** The calls that check the pairs in order, the candidates and the reasons
    for the others: machines that are not evictable are rejected without asking
    the node scaler. *)
Inductive checked : list NodeMachinePair → trace ProxyDeps → list NodeMachinePair →
    list (option NoScaleDownCandidateError) → Prop :=
| checked_nil : checked [] [] [] []
| checked_not_evictable p ps t cs rs :
    Evictable (Membership (PairMachine p)) = false → checked ps t cs rs →
    checked (p :: ps) t cs ((isMachineEvictable p).2 :: rs)
| checked_approved p ps t cs rs :
    Evictable (Membership (PairMachine p)) = true → checked ps t cs rs →
    checked (p :: ps) (approved p :: t) (p :: cs) rs
| checked_refused p ps t cs rs b e :
    Evictable (Membership (PairMachine p)) = true → checked ps t cs rs →
    checked (p :: ps) (pev (IsScaleDownCandidate_call (KubeNode p)) (b, Some e) :: t) cs
      (Some (MkNoScaleDownCandidateError (nodeName (KubeNode p)) (Error e)) :: rs)
| checked_unexplained p ps t cs rs :
    Evictable (Membership (PairMachine p)) = true → checked ps t cs rs →
    checked (p :: ps) (pev (IsScaleDownCandidate_call (KubeNode p)) (false, None) :: t) cs (None :: rs).

(** One check. *)
Lemma isScaleDownCandidate_runs p t b r :
  runs (isScaleDownCandidate p) t (Done (b, r)) →
  (Evictable (Membership (PairMachine p)) = false ∧ t = [] ∧ b = false ∧ r = (isMachineEvictable p).2) ∨
  (Evictable (Membership (PairMachine p)) = true ∧
   ((t = [approved p] ∧ b = true ∧ r = None) ∨
    (∃ b' e, t = [pev (IsScaleDownCandidate_call (KubeNode p)) (b', Some e)] ∧ b = false ∧
       r = Some (MkNoScaleDownCandidateError (nodeName (KubeNode p)) (Error e))) ∨
    (t = [pev (IsScaleDownCandidate_call (KubeNode p)) (false, None)] ∧ b = false ∧ r = None))).
Proof.
  unfold isScaleDownCandidate, isMachineEvictable, isNodeSafeToDrain.
  destruct (Evictable (Membership (PairMachine p))) eqn:E; simpl.
  - intros ([b' [e|]] & t' & -> & H); simpl in H.
    + destruct H as [-> [= -> ->]]. right. split; [done|]. right. left. eauto.
    + destruct b'; simpl in H; destruct H as [-> [= -> ->]]; right; (split; [done|]); [left|right; right]; done.
  - intros [-> [= -> ->]]. left. done.
Qed.

Lemma partition_runs ps t cs rs :
  runs (partitionScaleDownCandidates ps) t (Done (cs, rs)) → checked ps t cs rs.
Proof.
  revert t cs rs. induction ps as [|p ps IH]; intros t cs rs; cbn [partitionScaleDownCandidates].
  { intros [-> [= -> ->]]. constructor. }
  intros H. apply runs_bind in H as [(t1 & t2 & [b r] & -> & H1 & H)|(? & ? & _)]; [|done].
  apply runs_bind in H as [(t3 & t4 & [cs' rs'] & -> & H2 & H)|(? & ? & _)]; [|done].
  apply IH in H2. apply isScaleDownCandidate_runs in H1
    as [(He & -> & -> & ->)|(He & [(-> & -> & ->)|[(b' & e & -> & -> & ->)|(-> & -> & ->)]])];
    destruct H as [-> [= -> ->]]; rewrite app_nil_r; by constructor.
Qed.

Lemma checked_sublist ps t cs rs :
  checked ps t cs rs → cs `sublist_of` ps ∧ length ps = (length cs + length rs)%nat.
Proof. induction 1 as [|???????[]|???????[]|?????????[]|???????[]]; simpl; split; (by constructor || lia). Qed.

Lemma checked_approval ps t cs rs p :
  checked ps t cs rs → p ∈ cs → Evictable (Membership (PairMachine p)) = true ∧ approved p ∈ t.
Proof. induction 1; set_solver. Qed.

Lemma checked_calls ps t cs rs e :
  checked ps t cs rs → e ∈ t → ∃ p r, p ∈ ps ∧ e = pev (IsScaleDownCandidate_call (KubeNode p)) r.
Proof.
  unfold approved. induction 1 as [|? ? ? ? ? ? ? IH|? ? ? ? ? ? ? IH|? ? ? ? ? ? ? ? ? IH|? ? ? ? ? ? ? IH]; intros He;
    [by apply not_elem_of_nil in He|..]; try (apply elem_of_cons in He as [->|He]; [by eexists _, _; split; [left|]|]);
    destruct (IH He) as (q & r & Hq & ->); exists q, r; (split; [by right|done]).
Qed.

(** No check panics, so every run of the partition ends with a result. *)
Lemma no_panic_partition ps : no_panic (partitionScaleDownCandidates ps).
Proof.
  assert (∀ p, no_panic (isScaleDownCandidate p)) as Hp.
  { intros p. unfold isScaleDownCandidate, isMachineEvictable, isNodeSafeToDrain.
    destruct (Evictable _); simpl; [|done]. intros [b [e|]]; simpl; [done|by destruct b]. }
  induction ps as [|p ps IH]; cbn [partitionScaleDownCandidates]; [done|].
  apply no_panic_bind; [apply Hp|]. intros [b r]. apply no_panic_bind; [done|].
  intros [cs rs]. by destruct b.
Qed.

Lemma no_panic_evict p b : no_panic (evictAndTerminate p b).
Proof. unfold evictAndTerminate, pcall. prog_walk. Qed.

(** ** Removing pairs *)

Lemma evictAndTerminate_runs p b t r :
  runs (evictAndTerminate p b) t (Done r) →
  (r = None ∧ t = removed b p) ∨ (∃ e, r = Some (KubernetesClientError e) ∧ removal_failed b p t).
Proof.
  unfold evictAndTerminate. simpl. intros ([e|] & t' & -> & H); simpl in H.
  { destruct H as [-> [= ->]]. right. eexists. split; [done|]. constructor. }
  destruct H as ([e|] & t1 & -> & H); simpl in H.
  { destruct H as [-> [= ->]]. right. eexists. split; [done|]. constructor. }
  destruct H as ([e|] & t2 & -> & H); destruct H as [-> [= ->]].
  - right. eexists. split; [done|]. constructor.
  - by left.
Qed.

Lemma scale_down_loop_runs victims t r :
  runs (scale_down_loop victims) t (Done r) →
  (r = None ∧ t = concat (map (removed true) victims)) ∨
  (∃ done v rest t' e, r = Some (ScaleDownError e) ∧ victims = done ++ v :: rest ∧
     t = concat (map (removed true) done) ++ t' ∧ removal_failed true v t').
Proof.
  revert t. induction victims as [|v vs IH]; intros t H; cbn [scale_down_loop] in H.
  { destruct H as [-> [= ->]]. by left. }
  apply runs_bind in H as [(t1 & t2 & r1 & -> & H1 & H)|(? & ? & _)]; [|done].
  apply evictAndTerminate_runs in H1 as [[-> ->]|(e & -> & Hf)].
  - apply IH in H as [[-> ->]|(done & v' & rest & t' & e & -> & -> & -> & Hf)]; [by left|].
    right. exists (v :: done), v', rest, t', e. split_and!; [done|done| |done].
    cbn [map concat]. by rewrite app_assoc.
  - destruct H as [-> [= ->]]. right. exists [], v, vs, t1. eexists. by rewrite app_nil_r.
Qed.

(** ** Everything [SetDesiredSize] can do *)

(** The pairs of worker nodes and active machines. *)
Definition active_pairs (nodes : list NodeInfo) (pool : MachinePoolMessage) : list NodeMachinePair :=
  pairNodesWithMachines nodes (FilterMachines (Machines pool) [IsMachineActive]).

(** How many victims there will be. *)
Definition victim_count (excess : Z) (candidates : list NodeMachinePair) : nat :=
  Z.to_nat (excess `min` Z.of_nat (length candidates)).

Definition read_state (nodes : list NodeInfo) (pool : MachinePoolMessage) : trace ProxyDeps :=
  [pev ListWorkerNodes_call (Ok nodes); pev GetMachinePool_call (Ok pool)].

Lemma victim_count_eq x cs :
  Z.to_nat (if (Z.of_nat (length (sortByLoad nodeLoad cs)) <? x)%Z
            then Z.of_nat (length (sortByLoad nodeLoad cs)) else x) = victim_count x cs.
Proof.
  unfold victim_count, sortByLoad. rewrite (Permutation_length (sortSlice_perm _ cs)).
  destruct (Z.ltb_spec (Z.of_nat (length cs)) x); f_equal; lia.
Qed.

Inductive set_size_spec (desiredSize : Z) : trace ProxyDeps → option error → Prop :=
| size_no_nodes e msg :
    set_size_spec desiredSize [pev ListWorkerNodes_call (Err e)] (Some (KubernetesClientError msg))
| size_no_pool nodes e msg :
    set_size_spec desiredSize [pev ListWorkerNodes_call (Ok nodes); pev GetMachinePool_call (Err e)]
      (Some (CloudPoolClientError msg))
| size_passed_on nodes pool :
    (Z.of_nat (length (active_pairs nodes pool)) ≤ desiredSize)%Z →
    set_size_spec desiredSize (read_state nodes pool ++ [pev (SetDesiredSize_call desiredSize) None]) None
| size_refused nodes pool e msg :
    (Z.of_nat (length (active_pairs nodes pool)) ≤ desiredSize)%Z →
    set_size_spec desiredSize (read_state nodes pool ++ [pev (SetDesiredSize_call desiredSize) (Some e)])
      (Some (CloudPoolClientError msg))
| size_no_candidate nodes pool t rs :
    (desiredSize < Z.of_nat (length (active_pairs nodes pool)))%Z →
    checked (active_pairs nodes pool) t [] rs →
    set_size_spec desiredSize (read_state nodes pool ++ t) (Some (NoViableScaleDownCandidateError rs))
| size_scaled_down nodes pool t cs rs victims :
    (desiredSize < Z.of_nat (length (active_pairs nodes pool)))%Z →
    checked (active_pairs nodes pool) t cs rs → cs ≠ [] →
    victims = take (victim_count (wrap64 (Z.of_nat (length (active_pairs nodes pool)) - desiredSize)) cs)
                (sortByLoad nodeLoad cs) →
    set_size_spec desiredSize (read_state nodes pool ++ t ++ concat (map (removed true) victims)) None
| size_stopped nodes pool t cs rs done v rest t' e :
    (desiredSize < Z.of_nat (length (active_pairs nodes pool)))%Z →
    checked (active_pairs nodes pool) t cs rs →
    done ++ v :: rest =
      take (victim_count (wrap64 (Z.of_nat (length (active_pairs nodes pool)) - desiredSize)) cs)
        (sortByLoad nodeLoad cs) →
    removal_failed true v t' →
    set_size_spec desiredSize (read_state nodes pool ++ t ++ concat (map (removed true) done) ++ t')
      (Some (ScaleDownError e)).

Lemma SetDesiredSize_runs n t r : runs (SetDesiredSize nodeLoad n) t (Done r) → set_size_spec n t r.
Proof.
  unfold SetDesiredSize. intros H. cbn [bind pcall invoke runs] in H.
  destruct H as ([nodes|e] & t1 & -> & H); [|destruct H as [-> [= ->]]; constructor].
  cbn [bind pcall invoke runs] in H.
  destruct H as ([pool|e] & t2 & -> & H); [|destruct H as [-> [= ->]]; constructor].
  fold (active_pairs nodes pool) in H. cbv zeta in H.
  change (set_size_spec n (read_state nodes pool ++ t2) r).
  destruct (Z.leb_spec (Z.of_nat (length (active_pairs nodes pool))) n) as [Hle|Hlt].
  { simpl in H. destruct H as ([e|] & t3 & -> & H); destruct H as [-> [= ->]]; by constructor. }
  apply runs_bind in H as [(t3 & t4 & [cs rs] & -> & Hp & H)|(? & ? & _)]; [|done].
  apply partition_runs in Hp. destruct (Nat.eqb_spec (length cs) 0) as [E0|E0].
  { destruct H as [-> [= ->]]. rewrite app_nil_r. apply length_zero_iff_nil in E0 as ->. by constructor. }
  rewrite victim_count_eq in H.
  apply scale_down_loop_runs in H as [[-> ->]|(done & v & rest & t' & e & -> & Hv & -> & Hf)].
  - eapply size_scaled_down; [done|exact Hp|by intros ->|done].
  - eapply size_stopped; [done|exact Hp|by symmetry|done].
Qed.

Lemma no_panic_SetDesiredSize n : no_panic (SetDesiredSize nodeLoad n).
Proof.
  pose proof no_panic_partition. pose proof no_panic_evict.
  assert (∀ vs, no_panic (scale_down_loop vs)).
  { induction vs as [|v vs IH]; cbn [scale_down_loop]; prog_walk. }
  unfold SetDesiredSize. apply no_panic_bind; [done|]. intros [nodes|e]; [|done].
  apply no_panic_bind; [done|]. intros [pool|e]; [|done]. cbv zeta.
  destruct (_ <=? _)%Z; [apply no_panic_bind; [done|]; by intros []|].
  apply no_panic_bind; [done|]. intros [cs rs]. by destruct (_ =? _)%nat.
Qed.
End ProxyFacts.

(** ** Everything [TerminateMachine] can do *)

Section TerminateFacts.
Context `{sorter : !SliceSort, ranger : !MapRange, lib : !GoLib}.

Inductive terminate_spec (id : string) (dec : bool) : trace ProxyDeps → option error → Prop :=
| term_no_nodes e msg :
    terminate_spec id dec [pev ListWorkerNodes_call (Err e)] (Some (KubernetesClientError msg))
| term_unknown nodes msg :
    (∀ n, n ∈ nodes → ExternalID (Node_Spec (NodeOf n)) ≠ id) →
    terminate_spec id dec [pev ListWorkerNodes_call (Ok nodes)] (Some (NodeNotFoundError msg))
| term_no_machine nodes e msg :
    terminate_spec id dec [pev ListWorkerNodes_call (Ok nodes); pev (GetMachine_call id) (Err e)]
      (Some (CloudPoolClientError msg))
| term_unsafe nodes p t rs msg :
    KubeNode p ∈ nodes → ExternalID (Node_Spec (NodeOf (KubeNode p))) = id →
    checked [p] t [] rs →
    terminate_spec id dec
      ([pev ListWorkerNodes_call (Ok nodes); pev (GetMachine_call id) (Ok (PairMachine p))] ++ t)
      (Some (ScaleDownError msg))
| term_removed nodes p :
    KubeNode p ∈ nodes → ExternalID (Node_Spec (NodeOf (KubeNode p))) = id →
    Evictable (Membership (PairMachine p)) = true →
    terminate_spec id dec
      ([pev ListWorkerNodes_call (Ok nodes); pev (GetMachine_call id) (Ok (PairMachine p)); approved p] ++
       removed dec p) None
| term_failed nodes p t msg :
    KubeNode p ∈ nodes → ExternalID (Node_Spec (NodeOf (KubeNode p))) = id →
    Evictable (Membership (PairMachine p)) = true → removal_failed dec p t →
    terminate_spec id dec
      ([pev ListWorkerNodes_call (Ok nodes); pev (GetMachine_call id) (Ok (PairMachine p)); approved p] ++ t)
      (Some (KubernetesClientError msg)).

Lemma node_with_external_id_None id nodes :
  node_with_external_id id nodes = None → ∀ n, n ∈ nodes → ExternalID (Node_Spec (NodeOf n)) ≠ id.
Proof.
  induction nodes as [|n' ns IH]; simpl; [set_solver|].
  destruct (String.eqb_spec (ExternalID (Node_Spec (NodeOf n'))) id); [done|set_solver].
Qed.

Lemma getNodeWithExternalID_runs id t r :
  runs (getNodeWithExternalID id) t (Done r) →
  (∃ e msg, t = [pev ListWorkerNodes_call (Err e)] ∧ r = Err (KubernetesClientError msg)) ∨
  (∃ nodes, t = [pev ListWorkerNodes_call (Ok nodes)] ∧
     match r with
     | Ok n => n ∈ nodes ∧ ExternalID (Node_Spec (NodeOf n)) = id
     | Err e => (∃ msg, e = NodeNotFoundError msg) ∧ ∀ n, n ∈ nodes → ExternalID (Node_Spec (NodeOf n)) ≠ id
     end).
Proof.
  unfold getNodeWithExternalID. simpl. intros ([nodes|e] & t' & -> & H).
  - right. exists nodes. destruct (node_with_external_id id nodes) as [n|] eqn:E; destruct H as [-> [= ->]].
    + split; [done|]. by apply node_with_external_id_Some.
    + split; [done|]. split; [eauto|]. by apply node_with_external_id_None.
  - destruct H as [-> [= ->]]. left. eauto.
Qed.

Lemma TerminateMachine_runs id dec t r : runs (TerminateMachine id dec) t (Done r) → terminate_spec id dec t r.
Proof.
  unfold TerminateMachine. intros H.
  apply runs_bind in H as [(t1 & t2 & r1 & -> & H1 & H)|(? & ? & _)]; [|done].
  apply getNodeWithExternalID_runs in H1 as [(e & msg & -> & ->)|(nodes & -> & Hr)].
  { destruct H as [-> [= ->]]. constructor. }
  destruct r1 as [n|e]; [destruct Hr as [Hn Hid]|destruct Hr as [(msg & ->) Hall]; destruct H as [-> [= ->]]; by constructor].
  cbn [bind pcall invoke runs] in H.
  destruct H as ([m|e] & t4 & -> & H); [|destruct H as [-> [= ->]]; constructor]. simpl app. cbv zeta in H.
  set (p := MkNodeMachinePair n m) in *. change n with (KubeNode p) in Hn, Hid.
  apply runs_bind in H as [(t5 & t6 & [b reason] & -> & Hc & H)|(? & ? & _)]; [|done].
  apply isScaleDownCandidate_runs in Hc
    as [(He & -> & -> & ->)|(He & [(-> & -> & ->)|[(b' & e & -> & -> & ->)|(-> & -> & ->)]])]; simpl negb in H; cbv iota in H.
  - destruct H as [-> [= ->]]. eapply (term_unsafe id dec nodes p []); [done..|]. by constructor; [|constructor].
  - apply evictAndTerminate_runs in H as [[-> ->]|(e & -> & Hf)].
    + by apply (term_removed id dec nodes p).
    + by eapply (term_failed id dec nodes p).
  - destruct H as [-> [= ->]]. eapply (term_unsafe id dec nodes p [_]); [done..|]. by constructor; [|constructor].
  - destruct H as [-> [= ->]]. eapply (term_unsafe id dec nodes p [_]); [done..|]. by constructor; [|constructor].
Qed.

Lemma no_panic_TerminateMachine id dec : no_panic (TerminateMachine id dec).
Proof.
  unfold TerminateMachine, getNodeWithExternalID. apply no_panic_bind.
  { apply no_panic_bind; [done|]. intros [nodes|e]; [|done]. by destruct (node_with_external_id id nodes). }
  intros [n|e]; [|done]. apply no_panic_bind; [done|]. intros [m|e]; [|done]. cbv zeta. apply no_panic_bind.
  - unfold isScaleDownCandidate, isMachineEvictable, isNodeSafeToDrain.
    destruct (Evictable _); simpl; [|done]. intros [b [e|]]; simpl; [done|by destruct b].
  - intros [b r]. destruct b; simpl negb; cbv iota; [|done]. apply no_panic_evict.
Qed.
End TerminateFacts.

(** ** Reading traces *)

(** The machines a trace asks the cloudpool to terminate, in order. *)
Definition terminations (t : trace ProxyDeps) : list string :=
  omap (λ e : event ProxyDeps, match projT1 e with TerminateMachine_call id _ => Some id | _ => None end) t.

(** The calls that change the cluster or the pool. *)
Definition changes (c : proxy_call) : bool :=
  match c with
  | DrainNode_call _ | DeleteNode_call _ | SetDesiredSize_call _ | TerminateMachine_call _ _ => true
  | _ => false
  end.

Lemma terminations_app t1 t2 : terminations (t1 ++ t2) = terminations t1 ++ terminations t2.
Proof. apply omap_app. Qed.

Lemma terminations_removed d vs :
  terminations (concat (map (removed d) vs)) = map (λ v, ID (PairMachine v)) vs.
Proof. induction vs as [|v vs IH]; [done|]. cbn [map concat]. rewrite terminations_app, IH. done. Qed.

Lemma terminations_failed d p t :
  removal_failed d p t → terminations t `prefix_of` [ID (PairMachine p)].
Proof. destruct 1; [by eexists|by eexists|done]. Qed.

Lemma call_of (c1 c2 : proxy_call) r1 r2 : pev c1 r1 = pev c2 r2 → c1 = c2.
Proof. apply (f_equal (@projT1 _ _)). Qed.

(** The replies of the two calls that read the state. *)
Definition nodes_reply (e : event ProxyDeps) : option (result error (list NodeInfo)) :=
  match e with existT ListWorkerNodes_call r => Some r | _ => None end.
Definition pool_reply (e : event ProxyDeps) : option (result error MachinePoolMessage) :=
  match e with existT GetMachinePool_call r => Some r | _ => None end.

Lemma read_reply_inj rn rp rn' rp' (t t' : trace ProxyDeps) :
  pev ListWorkerNodes_call rn :: pev GetMachinePool_call rp :: t =
  pev ListWorkerNodes_call rn' :: pev GetMachinePool_call rp' :: t' → rn = rn' ∧ rp = rp' ∧ t = t'.
Proof.
  intros H. injection H as H1 H2 H3. apply (f_equal nodes_reply) in H1. apply (f_equal pool_reply) in H2.
  simpl in *. by simplify_eq.
Qed.

(** The position of a termination request within removals. *)
Lemma removed_split d vs t1 id d' r t2 :
  concat (map (removed d) vs) = t1 ++ pev (TerminateMachine_call id d') r :: t2 →
  ∃ done v rest, vs = done ++ v :: rest ∧ id = ID (PairMachine v) ∧ d' = d ∧
    t1 = concat (map (removed d) done) ++
         [pev (DrainNode_call (KubeNode v)) None; pev (DeleteNode_call (KubeNode v)) None].
Proof.
  revert t1. induction vs as [|v vs IH]; intros t1 H; [by destruct t1|]. cbn [map concat] in H.
  apply split_app in H as [(b' & H & _)|(a' & -> & H)].
  - exists [], v, vs. split; [done|]. unfold removed in H.
    destruct t1 as [|e1 [|e2 [|e3 [|e4 t1]]]]; simpl in H.
    all: pose proof (f_equal (map (@projT1 _ _)) H) as Hc; simpl in Hc; simplify_eq/=; done.
  - destruct (IH _ H) as (done & v' & rest & -> & -> & -> & ->). exists (v :: done), v', rest.
    split_and!; [done..|]. cbn [map concat]. by rewrite app_assoc.
Qed.

Lemma removal_failed_split d p t t1 id d' r t2 :
  removal_failed d p t → t = t1 ++ pev (TerminateMachine_call id d') r :: t2 →
  id = ID (PairMachine p) ∧ d' = d ∧
  t1 = [pev (DrainNode_call (KubeNode p)) None; pev (DeleteNode_call (KubeNode p)) None].
Proof.
  intros Hf. destruct Hf; intros H; destruct t1 as [|e1 [|e2 [|e3 [|e4 t1]]]]; simpl in H;
    pose proof (f_equal (map (@projT1 _ _)) H) as Hc; simpl in Hc; simplify_eq/=; done.
Qed.

Lemma no_resize_in_removed d vs m a : pev (SetDesiredSize_call m) a ∉ concat (map (removed d) vs).
Proof.
  induction vs as [|v vs IH]; [apply not_elem_of_nil|]. cbn [map concat]. rewrite elem_of_app.
  intros [Hin|Hin]; [|done]. unfold removed in Hin. rewrite !elem_of_cons, elem_of_nil in Hin.
  destruct Hin as [H|[H|[H|[]]]]; by apply call_of in H.
Qed.

Section TraceFacts.
Context `{sorter : !SliceSort, ranger : !MapRange, lib : !GoLib}.

Lemma checked_no_termination ps t cs rs t1 c r t2 :
  changes c = true → checked ps t cs rs → t ≠ t1 ++ pev c r :: t2.
Proof.
  intros Hch Hc ->. destruct (checked_calls _ _ _ _ (pev c r) Hc) as (p & r' & _ & H).
  - apply elem_of_app. right. by left.
  - apply call_of in H as ->. done.
Qed.

Lemma terminations_checked ps t cs rs : checked ps t cs rs → terminations t = [].
Proof. induction 1; done. Qed.

Lemma changes_not_in_read nodes pool t1 c r t2 : changes c = true → read_state nodes pool ≠ t1 ++ pev c r :: t2.
Proof.
  intros Hch H. unfold read_state in H. destruct t1 as [|e1 [|e2 [|e3 t1]]]; simpl in H;
    pose proof (f_equal (map (@projT1 _ _)) H) as Hc; simpl in Hc; simplify_eq/=; done.
Qed.
End TraceFacts.

(** A removal was prepared: the pair [v] was approved before, and the last two
    calls drained its node and deleted it from the cluster, successfully. *)
Definition prepared (v : NodeMachinePair) (t : trace ProxyDeps) : Prop :=
  ∃ t0, t = t0 ++ [pev (DrainNode_call (KubeNode v)) None; pev (DeleteNode_call (KubeNode v)) None] ∧
    approved v ∈ t0.

Section SetSizeTraces.
Context `{sorter : !SliceSort, ranger : !MapRange, lib : !GoLib}.
Variable nodeLoad : NodeInfo → float64.

Lemma elem_of_victims k cs v : v ∈ take k (sortByLoad nodeLoad cs) → v ∈ cs.
Proof.
  intros Hv. assert (v ∈ sortByLoad nodeLoad cs) as H.
  { rewrite <- (take_drop k). apply elem_of_app. by left. }
  unfold sortByLoad in H. by rewrite sortSlice_perm in H.
Qed.

Lemma victim_is_approved nodes pool t cs rs k v :
  checked (active_pairs nodes pool) t cs rs → v ∈ take k (sortByLoad nodeLoad cs) →
  v ∈ active_pairs nodes pool ∧ Evictable (Membership (PairMachine v)) = true ∧ approved v ∈ t.
Proof.
  intros Hc Hv%elem_of_victims. split; [|by eapply checked_approval].
  destruct (checked_sublist _ _ _ _ Hc) as [Hs _]. by eapply elem_of_sublist.
Qed.

(** A termination request in a removal phase after the checks. *)
Lemma termination_in_removals nodes pool t cs rs k victims tr t1 id d r t2 :
  checked (active_pairs nodes pool) t cs rs →
  victims = take k (sortByLoad nodeLoad cs) →
  (∃ done v rest t', victims = done ++ v :: rest ∧
     tr = concat (map (removed true) done) ++ t' ∧ removal_failed true v t') ∨
  tr = concat (map (removed true) victims) →
  read_state nodes pool ++ t ++ tr = t1 ++ pev (TerminateMachine_call id d) r :: t2 →
  d = true ∧ ∃ v, v ∈ active_pairs nodes pool ∧ id = ID (PairMachine v) ∧
    Evictable (Membership (PairMachine v)) = true ∧ pev ListWorkerNodes_call (Ok nodes) ∈ t1 ∧
    pev GetMachinePool_call (Ok pool) ∈ t1 ∧ prepared v t1.
Proof.
  intros Hc -> Htr H.
  apply split_app in H as [(b & H & _)|(a & -> & H)]; [by apply changes_not_in_read in H|].
  apply split_app in H as [(b & H & _)|(a' & -> & H)]; [by eapply checked_no_termination in H|].
  assert (Hcase : ∃ v pre, v ∈ take k (sortByLoad nodeLoad cs) ∧ id = ID (PairMachine v) ∧ d = true ∧
    a' = pre ++ [pev (DrainNode_call (KubeNode v)) None; pev (DeleteNode_call (KubeNode v)) None]).
  { destruct Htr as [(done & v & rest & t' & Hv & -> & Hf)| ->].
    - apply split_app in H as [(b & H & _)|(a'' & -> & H)].
      + apply removed_split in H as (done' & v' & rest' & -> & -> & -> & ->).
        exists v'. eexists. split_and!; [|done|done|done]. rewrite Hv. set_solver.
      + eapply removal_failed_split in H as (-> & -> & ->); [|done].
        exists v. eexists. split_and!; [|done|done|done]. rewrite Hv. set_solver.
    - apply removed_split in H as (done' & v' & rest' & Hv & -> & -> & ->).
      exists v'. eexists. split_and!; [|done|done|done]. rewrite Hv. set_solver. }
  destruct Hcase as (v & pre & Hv & -> & -> & ->). split; [done|]. exists v.
  destruct (victim_is_approved _ _ _ _ _ _ _ Hc Hv) as (Hin & He & Ha).
  split_and!; [done|done|done|set_solver|set_solver|].
  exists (read_state nodes pool ++ t ++ pre). split; [by rewrite <- !app_assoc|set_solver].
Qed.

Lemma set_size_termination n t r t1 id d r' t2 :
  set_size_spec nodeLoad n t r → t = t1 ++ pev (TerminateMachine_call id d) r' :: t2 →
  d = true ∧ ∃ nodes pool v, v ∈ active_pairs nodes pool ∧ id = ID (PairMachine v) ∧
    Evictable (Membership (PairMachine v)) = true ∧ pev ListWorkerNodes_call (Ok nodes) ∈ t1 ∧
    pev GetMachinePool_call (Ok pool) ∈ t1 ∧ prepared v t1.
Proof.
  intros Hs H. destruct Hs.
  1-4: destruct t1 as [|e1 [|e2 [|e3 [|e4 t1]]]]; simpl in H;
    pose proof (f_equal (map (@projT1 _ _)) H) as Hc; simpl in Hc; simplify_eq/=; done.
  - apply split_app in H as [(b & H & _)|(a & -> & H)]; [by apply changes_not_in_read in H|].
    by eapply checked_no_termination in H.
  - eapply termination_in_removals in H as (-> & v & H); [|done|done|right; by subst victims].
    split; [done|]. by exists nodes, pool, v.
  - eapply termination_in_removals in H as (-> & v' & H'); [|done|done|left; by eexists _, _, _, _].
    split; [done|]. by exists nodes, pool, v'.
Qed.

(** The resize request of a run is the one made of the proxy, and comes after
    nothing but the two reads. *)
Lemma set_size_resize n t r t1 m r' t2 :
  set_size_spec nodeLoad n t r → t = t1 ++ pev (SetDesiredSize_call m) r' :: t2 →
  m = n ∧ t2 = [] ∧ ∃ nodes pool, t1 = read_state nodes pool ∧
    (Z.of_nat (length (active_pairs nodes pool)) ≤ n)%Z.
Proof.
  assert (Hno : ∀ nodes pool tc cs rs tr, checked (active_pairs nodes pool) tc cs rs →
    (∀ a b, tr ≠ a ++ pev (SetDesiredSize_call m) r' :: b) →
    read_state nodes pool ++ tc ++ tr ≠ t1 ++ pev (SetDesiredSize_call m) r' :: t2).
  { intros nodes pool tc cs rs tr Hc Htr H.
    apply split_app in H as [(b & H & _)|(a & _ & H)]; [by apply changes_not_in_read in H|].
    apply split_app in H as [(b & H & _)|(a' & _ & H)]; [by eapply checked_no_termination in H|].
    by eapply Htr. }
  assert (Hrem : ∀ vs a b, concat (map (removed true) vs) ≠ a ++ pev (SetDesiredSize_call m) r' :: b).
  { intros vs a b H. apply (no_resize_in_removed true vs m r'). rewrite H. set_solver. }
  intros Hs H. destruct Hs as [| |nodes pool Hle|nodes pool e msg Hle|nodes pool tc rs _ Hc
    |nodes pool tc cs rs victims _ Hc _ _|nodes pool tc cs rs done v rest tf e _ Hc _ Hf].
  1-4: destruct t1 as [|e1 [|e2 [|e3 [|e4 t1]]]]; simpl in H;
    pose proof (f_equal (map (@projT1 _ _)) H) as Hx; simpl in Hx; simplify_eq/=; try done.
  1-2: by split_and!; [| |exists nodes, pool].
  - rewrite <- (app_nil_r tc) in H. apply Hno with (cs := []) (rs := rs) in H; [done|done|by intros []].
  - by eapply Hno in H.
  - eapply Hno in H; [done|done|]. intros a b Hx. apply split_app in Hx as [(b' & Hx & _)|(a' & -> & Hx)]; [by eapply Hrem|].
    destruct Hf; destruct a' as [|e1 [|e2 [|e3 [|e4 t3]]]]; simpl in Hx;
      pose proof (f_equal (map (@projT1 _ _)) Hx) as Hy; simpl in Hy; simplify_eq/=; done.
Qed.

(** What the traces terminate. *)
Lemma set_size_terminations n t r nodes pool t' :
  set_size_spec nodeLoad n t r → t = read_state nodes pool ++ t' →
  (n < Z.of_nat (length (active_pairs nodes pool)))%Z →
  ∃ tc tr cs rs, t' = tc ++ tr ∧ checked (active_pairs nodes pool) tc cs rs ∧
    let victims := take (victim_count (wrap64 (Z.of_nat (length (active_pairs nodes pool)) - n)) cs)
                     (sortByLoad nodeLoad cs) in
    (cs = [] ∧ tr = [] ∧ r = Some (NoViableScaleDownCandidateError rs)) ∨
    (cs ≠ [] ∧ tr = concat (map (removed true) victims) ∧ r = None) ∨
    (∃ done v rest tf e, victims = done ++ v :: rest ∧ tr = concat (map (removed true) done) ++ tf ∧
       removal_failed true v tf ∧ r = Some (ScaleDownError e)).
Proof.
  intros Hs H Hlt. destruct Hs as [| |nodes' pool' Hle|nodes' pool' e msg Hle|nodes' pool' tc rs _ Hc
    |nodes' pool' tc cs rs victims _ Hc Hne ->|nodes' pool' tc cs rs done v rest tf e _ Hc Hv Hf];
    [by injection H| |..]; apply read_reply_inj in H as (? & ? & ?); simplify_eq; try lia.
  - exists t', [], [], rs. rewrite app_nil_r. split_and!; [done|done|]. by left.
  - exists tc. eexists. exists cs, rs. split_and!; [done|done|]. right. by left.
  - exists tc. eexists. exists cs, rs. split_and!; [done|done|]. right. right. by exists done, v, rest, tf, e.
Qed.

Lemma terminate_termination id dec t ro t1 id' d r t2 :
  terminate_spec id dec t ro → t = t1 ++ pev (TerminateMachine_call id' d) r :: t2 →
  d = dec ∧ t2 = [] ∧ ∃ nodes v,
    pev ListWorkerNodes_call (Ok nodes) ∈ t1 ∧ KubeNode v ∈ nodes ∧
    ExternalID (Node_Spec (NodeOf (KubeNode v))) = id ∧
    pev (GetMachine_call id) (Ok (PairMachine v)) ∈ t1 ∧ ID (PairMachine v) = id' ∧
    Evictable (Membership (PairMachine v)) = true ∧ prepared v t1.
Proof.
  intros H Ht.
  destruct H as [| | |nodes p tc rs msg Hn Hid Hc|nodes p Hn Hid He|nodes p tf msg Hn Hid He Hf].
  1-3: destruct t1 as [|e1 [|e2 [|e3 t1]]]; simpl in Ht;
    pose proof (f_equal (map (@projT1 _ _)) Ht) as Hx; simpl in Hx; simplify_eq/=; done.
  all: apply split_app in Ht as [(b & Ht & _)|(a & -> & Ht)].
  1,3,5: destruct t1 as [|e1 [|e2 [|e3 [|e4 t1]]]]; simpl in Ht;
    pose proof (f_equal (map (@projT1 _ _)) Ht) as Hx; simpl in Hx; simplify_eq/=; done.
  - by eapply checked_no_termination in Ht.
  - assert (Hr : concat (map (removed dec) [p]) = a ++ pev (TerminateMachine_call id' d) r :: t2)
      by (simpl; by rewrite <- Ht).
    apply removed_split in Hr as (done & v & rest & Hv & -> & -> & ->).
    destruct done as [|x done]; simplify_eq/=; [|by destruct done].
    split; [done|]. split; [by injection Ht|]. exists nodes, v. split_and!; try done; [set_solver|set_solver|].
    exists [pev ListWorkerNodes_call (Ok nodes); pev (GetMachine_call (ExternalID (Node_Spec (NodeOf (KubeNode v)))))
      (Ok (PairMachine v)); approved v]. split; [done|set_solver].
  - pose proof (removal_failed_split _ _ _ _ _ _ _ _ Hf Ht) as (-> & -> & ->). split; [done|].
    split; [destruct Hf; simpl in Ht; try (by injection Ht)|].
    exists nodes, p. split_and!; try done; [set_solver|set_solver|].
    eexists. split; [done|set_solver].
Qed.
End SetSizeTraces.

(** ** Claims *)

Section ProxyClaims.
Context `{sorter : !SliceSort, ranger : !MapRange, lib : !GoLib}.
Variable nodeLoad : NodeInfo → float64.

(** C7. Every run of [SetDesiredSize], whatever the node scaler and the
    cloudpool answer, returns and is one of: a failed read; the request passed
    on to the pool (accepted or refused) because there are at most [n] active
    pairs; no pair approved; the first [min(excess, candidates)] candidates by
    load removed one after the other; or such removals up to one that failed,
    after which nothing more is done. *)
Theorem set_desired_size_runs (n : Z) (t : trace ProxyDeps) (o : outcome (option error)) :
  runs (SetDesiredSize nodeLoad n) t o → ∃ r, o = Done r ∧ set_size_spec nodeLoad n t r.
Proof.
  intros H. destruct o as [r|m]; [|by apply no_panic_runs in H; [|apply no_panic_SetDesiredSize]].
  exists r. split; [done|]. by apply SetDesiredSize_runs.
Qed.

(** A resize request never terminates a machine unprepared: whenever the
    cloudpool is asked to terminate a machine, the desired size is decremented
    too, and the machine is the counterpart (same external ID) of a worker node
    that was listed, an active and evictable member of the pool that was read;
    the node scaler approved the node, and the two calls just before drained
    the node and deleted it from the cluster, both successfully. *)
Theorem resize_terminates_only_drained_nodes (n : Z) (t : trace ProxyDeps) (o : outcome (option error)) t1 id d r t2 :
  runs (SetDesiredSize nodeLoad n) t o →
  t = t1 ++ pev (TerminateMachine_call id d) r :: t2 →
  d = true ∧ ∃ nodes pool v,
    pev ListWorkerNodes_call (Ok nodes) ∈ t1 ∧ pev GetMachinePool_call (Ok pool) ∈ t1 ∧
    KubeNode v ∈ nodes ∧ PairMachine v ∈ Machines pool ∧ active_member (PairMachine v) ∧
    ID (PairMachine v) = id ∧ ExternalID (Node_Spec (NodeOf (KubeNode v))) = id ∧
    Evictable (Membership (PairMachine v)) = true ∧ prepared v t1.
Proof.
  intros H Ht. destruct o as [ro|m]; [|by apply no_panic_runs in H; [|apply no_panic_SetDesiredSize]].
  apply SetDesiredSize_runs in H.
  destruct (set_size_termination _ _ _ _ _ _ _ _ _ H Ht) as (-> & nodes & pool & v & Hv & -> & He & Hn & Hp & Hpre).
  split; [done|]. exists nodes, pool, v. unfold active_pairs in Hv.
  apply pairNodes_counterpart in Hv as (Hk & Hm & Hid). apply elem_of_active_machines in Hm as [Hm Ha].
  by split_and!.
Qed.

(** A request that does not shrink the set of active pairs is passed on
    unchanged, once, and nothing else is changed; its outcome is the
    cloudpool's. *)
Theorem growth_is_passed_on (n : Z) (nodes : list NodeInfo) (pool : MachinePoolMessage) t (r : option error) :
  runs (SetDesiredSize nodeLoad n) (read_state nodes pool ++ t) (Done r) →
  (Z.of_nat (length (active_pairs nodes pool)) ≤ n)%Z →
  ∃ answer, t = [pev (SetDesiredSize_call n) answer] ∧ (r = None ↔ answer = None).
Proof.
  intros H Hle. apply SetDesiredSize_runs in H. remember (read_state nodes pool ++ t) as t0 eqn:Et.
  destruct H; [by injection Et|..]; apply read_reply_inj in Et as (? & ? & ?); simplify_eq; try lia.
  - by exists None.
  - by exists (Some e).
Qed.

(** C18. A scale-down request for [n >= 0] machines is never passed on as a
    resize; it asks to terminate at most as many machines as there are active
    pairs in excess of [n] and at most as many as there are candidates, and
    when it succeeds it has terminated exactly the smaller of the two numbers,
    and at least one. *)
Theorem scale_down_stays_within_excess (n : Z) (nodes : list NodeInfo) (pool : MachinePoolMessage) t (r : option error) :
  (0 ≤ n)%Z → (Z.of_nat (length (active_pairs nodes pool)) ≤ MaxInt64)%Z →
  (n < Z.of_nat (length (active_pairs nodes pool)))%Z →
  runs (SetDesiredSize nodeLoad n) (read_state nodes pool ++ t) (Done r) →
  let excess := (Z.of_nat (length (active_pairs nodes pool)) - n)%Z in
  ∃ tc tr cs rs, t = tc ++ tr ∧ checked (active_pairs nodes pool) tc cs rs ∧
    (∀ m a, pev (SetDesiredSize_call m) a ∉ t) ∧
    (Z.of_nat (length (terminations t)) ≤ excess `min` Z.of_nat (length cs))%Z ∧
    (r = None → Z.of_nat (length (terminations t)) = excess `min` Z.of_nat (length cs) ∧
       (0 < length (terminations t))%nat)%Z.
Proof.
  intros H0 Hmax Hlt H excess. apply SetDesiredSize_runs in H.
  destruct (set_size_terminations _ _ _ _ _ _ _ H eq_refl Hlt) as (tc & tr & cs & rs & -> & Hc & Hcase).
  rewrite wrap64_small in Hcase by (unfold int64_range, MinInt64, MaxInt64 in *; lia). fold excess in Hcase.
  assert (Hlen : ∀ k, length (take k (sortByLoad nodeLoad cs)) = Nat.min k (length cs)).
  { intros k. unfold sortByLoad. by rewrite length_take, (Permutation_length (sortSlice_perm _ cs)). }
  specialize (Hlen (victim_count excess cs)). unfold victim_count in Hlen at 2.
  exists tc, tr, cs, rs. rewrite terminations_app, (terminations_checked _ _ _ _ Hc). simpl app.
  split; [done|]. split; [done|]. split; [|split].
  - intros m a [Hin|Hin]%elem_of_app; [by destruct (checked_calls _ _ _ _ _ Hc Hin) as (? & ? & _ & ?%call_of)|].
    revert Hin. destruct Hcase as [(_ & -> & _)|[(_ & -> & _)|(done & v & rest & tf & e & _ & -> & Hf & _)]].
    + apply not_elem_of_nil.
    + apply no_resize_in_removed.
    + rewrite elem_of_app. intros [Hin|Hin]; [by apply no_resize_in_removed in Hin|].
      destruct Hf; rewrite !elem_of_cons, elem_of_nil in Hin; naive_solver (eauto using call_of).
  - destruct Hcase as [(_ & -> & _)|[(_ & -> & _)|(done & v & rest & tf & e & Hv & -> & Hf & _)]].
    + simpl. lia.
    + rewrite terminations_removed, length_map, Hlen. lia.
    + rewrite terminations_app, terminations_removed, length_app, length_map.
      apply terminations_failed, prefix_length in Hf. simpl in Hf.
      apply (f_equal length) in Hv. rewrite Hlen, length_app in Hv. simpl in Hv. lia.
  - intros ->. destruct Hcase as [(_ & _ & ?)|[(Hne & -> & _)|(? & ? & ? & ? & ? & _ & _ & _ & ?)]]; try done.
    rewrite terminations_removed, length_map, Hlen. destruct cs; [done|]. simpl length in *. lia.
Qed.

(** C19. The victims are the least loaded candidates: after a successful
    scale-down the candidates split into those removed, in order of increasing
    load, and those kept, none of which has a smaller load than a removed one
    (provided no load is NaN). *)
Theorem scale_down_removes_least_loaded (n : Z) (nodes : list NodeInfo) (pool : MachinePoolMessage) t :
  (∀ v, v ∈ active_pairs nodes pool → is_nan (nodeLoad (KubeNode v)) = false) →
  (n < Z.of_nat (length (active_pairs nodes pool)))%Z →
  runs (SetDesiredSize nodeLoad n) (read_state nodes pool ++ t) (Done None) →
  ∃ tc cs rs victims kept,
    t = tc ++ concat (map (removed true) victims) ∧ checked (active_pairs nodes pool) tc cs rs ∧
    cs ≡ₚ victims ++ kept ∧
    (∀ v w, v ∈ victims → w ∈ kept → float64_lt (nodeLoad (KubeNode w)) (nodeLoad (KubeNode v)) = false) ∧
    (∀ i j v w, (i < j)%nat → victims !! i = Some v → victims !! j = Some w →
       float64_lt (nodeLoad (KubeNode w)) (nodeLoad (KubeNode v)) = false).
Proof.
  intros Hnan Hlt H. apply SetDesiredSize_runs in H.
  destruct (set_size_terminations _ _ _ _ _ _ _ H eq_refl Hlt) as (tc & tr & cs & rs & -> & Hc & Hcase).
  cbv zeta in Hcase. set (k := victim_count _ cs) in Hcase.
  destruct Hcase as [(_ & _ & ?)|[(Hne & -> & _)|(? & ? & ? & ? & ? & _ & _ & _ & ?)]]; [done| |done].
  exists tc, cs, rs, (take k (sortByLoad nodeLoad cs)), (drop k (sortByLoad nodeLoad cs)).
  assert (Hord : ∀ i j v w, (i < j)%nat → sortByLoad nodeLoad cs !! i = Some v →
    sortByLoad nodeLoad cs !! j = Some w → float64_lt (nodeLoad (KubeNode w)) (nodeLoad (KubeNode v)) = false).
  { apply (sortSlice_sorted (byLoad nodeLoad) cs). apply (float64_strict_weak (λ p, nodeLoad (KubeNode p))).
    intros x Hx. apply Hnan. eapply elem_of_sublist; [done|]. by eapply checked_sublist. }
  split_and!; [done|done| | |].
  - rewrite take_drop. unfold sortByLoad. by rewrite sortSlice_perm.
  - intros v w [i Hi]%list_elem_of_lookup [j Hj]%list_elem_of_lookup.
    apply lookup_take_Some in Hi as [Hi Hik]. rewrite lookup_drop in Hj.
    apply (Hord i (k + j)%nat); [lia|done..].
  - intros i j v w Hij Hi Hj. apply lookup_take_Some in Hi as [Hi _]. apply lookup_take_Some in Hj as [Hj _].
    by apply (Hord i j).
Qed.

(** When no pair can be removed, the error explains every pair, in order,
    by its node name, provided the node scaler gives a reason with every
    refusal; nothing has been changed. *)
Theorem no_candidate_error_explains_every_pair (n : Z) (nodes : list NodeInfo) (pool : MachinePoolMessage) t rs :
  runs (SetDesiredSize nodeLoad n) (read_state nodes pool ++ t) (Done (Some (NoViableScaleDownCandidateError rs))) →
  (∀ node, pev (IsScaleDownCandidate_call node) (false, None) ∉ t) →
  map (fmap NoCand_NodeName) rs = map (λ p, Some (nodeName (KubeNode p))) (active_pairs nodes pool) ∧
  Forall (λ e : event ProxyDeps, changes (projT1 e) = false) t.
Proof.
  intros H Hlaw. apply SetDesiredSize_runs in H. remember (read_state nodes pool ++ t) as t0 eqn:Et.
  remember (Some (NoViableScaleDownCandidateError rs)) as r0 eqn:Er.
  destruct H as [| | | |nodes' pool' tc rs' Hlt Hc| |]; try discriminate Er.
  apply read_reply_inj in Et as (? & ? & ?). simplify_eq. split.
  - clear Hlt. remember [] as cs eqn:Ecs. induction Hc as [|p ps t cs rs He _ IH| |p ps t cs rs b e He _ IH|p ps t cs rs He _ IH];
      simplify_eq/=; [done|..].
    + unfold isMachineEvictable. rewrite He. simpl. rewrite IH; done.
    + rewrite IH; try done. intros node Hin. apply (Hlaw node), elem_of_cons. by right.
    + exfalso. eapply Hlaw. by left.
  - apply Forall_forall. intros e He. destruct (checked_calls _ _ _ _ _ Hc He) as (p & r & _ & ->). done.
Qed.

(** C22. Every run of [TerminateMachine] returns and is one of: a failed read;
    no worker node with that external ID; a refused check; or a worker node
    with that external ID that was approved and then drained, deleted and its
    machine terminated with the requested decrement flag, up to the first call
    that fails. *)
Theorem terminate_machine_runs (id : string) (dec : bool) (t : trace ProxyDeps) (o : outcome (option error)) :
  runs (TerminateMachine id dec) t o → ∃ r, o = Done r ∧ terminate_spec id dec t r.
Proof.
  intros H. destruct o as [r|m]; [|by apply no_panic_runs in H; [|apply no_panic_TerminateMachine]].
  exists r. split; [done|]. by apply TerminateMachine_runs.
Qed.

(** [TerminateMachine] terminates nothing unprepared: a termination request
    names the machine the cloudpool returned for the given ID, which is
    evictable, with the requested decrement flag, after the worker node with
    that external ID was approved, drained and deleted. *)
Theorem terminate_only_drained_node (id : string) (dec : bool) (t : trace ProxyDeps) (o : outcome (option error))
    t1 id' d r t2 :
  runs (TerminateMachine id dec) t o →
  t = t1 ++ pev (TerminateMachine_call id' d) r :: t2 →
  d = dec ∧ t2 = [] ∧ ∃ nodes v,
    pev ListWorkerNodes_call (Ok nodes) ∈ t1 ∧ KubeNode v ∈ nodes ∧
    ExternalID (Node_Spec (NodeOf (KubeNode v))) = id ∧
    pev (GetMachine_call id) (Ok (PairMachine v)) ∈ t1 ∧ ID (PairMachine v) = id' ∧
    Evictable (Membership (PairMachine v)) = true ∧ prepared v t1.
Proof.
  intros H Ht. destruct o as [ro|m]; [|by apply no_panic_runs in H; [|apply no_panic_TerminateMachine]].
  apply TerminateMachine_runs in H. by eapply terminate_termination.
Qed.
End ProxyClaims.

(** ** Witnesses *)

#[local] Existing Instance map_to_list_range.
#[local] Existing Instance insertion_sort.

Definition sample_time : Time := MkTime 2017 6 1 12 30 5 250000000 120.
Definition sample_machine (id : string) (evictable : bool) : Machine :=
  MkMachine id "RUNNING" (MkMembershipStatus true evictable) "IN_SERVICE" "cloud" "region" "m1.small"
    (Some sample_time) None (Some ["10.0.0.1"]) None None.

Definition sample_pool (evictable : bool) : MachinePoolMessage :=
  MkMachinePoolMessage
    (Some [sample_machine "i-1" evictable; sample_machine "i-2" evictable; sample_machine "i-3" evictable]) sample_time.

(** A node scaler that approves and a pool that accepts everything. *)
Definition willing_env (evictable : bool) : env ProxyDeps := λ _ c,
  match c with
  | ListWorkerNodes_call => Ok sample_nodes
  | IsScaleDownCandidate_call _ => (true, None)
  | DrainNode_call _ => None
  | DeleteNode_call _ => None
  | GetMachinePool_call => Ok (sample_pool evictable)
  | GetMachine_call id => Ok (sample_machine id evictable)
  | SetDesiredSize_call _ => None
  | TerminateMachine_call _ _ => None
  end.

Definition sample_resize (n : Z) : Prog ProxyDeps (option error) :=
  SetDesiredSize NodeLoad n.

Definition sample_trace (evictable : bool) (n : Z) : trace ProxyDeps := (exec (willing_env evictable) [] (sample_resize n)).1.

Lemma sample_resize_runs (e : bool) (n : Z) (o : outcome (option error)) :
  (exec (willing_env e) [] (sample_resize n)).2 = o → runs (sample_resize n) (sample_trace e n) o.
Proof. intros <-. apply exec_runs. Qed.

Lemma set_desired_size_runs_witness :
  set_size_spec NodeLoad 2 (sample_trace true 2) None.
Proof.
  destruct (set_desired_size_runs NodeLoad 2 (sample_trace true 2) (Done None)) as (r & Hr & Hs).
  - apply sample_resize_runs. vm_compute. reflexivity.
  - injection Hr as <-. exact Hs.
Defined.

Lemma resize_terminates_only_drained_nodes_witness :
  ∃ t1 v, ID (PairMachine v) = "i-3" ∧ prepared v t1 ∧
    sample_trace true 2 = t1 ++ [pev (TerminateMachine_call "i-3" true) None].
Proof.
  assert (sample_trace true 2 = take 7 (sample_trace true 2) ++ [pev (TerminateMachine_call "i-3" true) None]) as E
    by (vm_compute; reflexivity).
  assert (runs (sample_resize 2) (sample_trace true 2) (Done None)) as H
    by (apply sample_resize_runs; vm_compute; reflexivity).
  destruct (resize_terminates_only_drained_nodes NodeLoad 2 (sample_trace true 2) _
    (take 7 (sample_trace true 2)) "i-3" true None [] H E)
    as (_ & nodes & pool & v & _ & _ & _ & _ & _ & Hid & _ & _ & Hp).
  exists (take 7 (sample_trace true 2)), v. split; [exact Hid|]. split; [exact Hp|exact E].
Defined.

Lemma growth_is_passed_on_witness :
  ∃ answer, drop 2 (sample_trace true 3) = [pev (SetDesiredSize_call 3) answer].
Proof.
  assert (sample_trace true 3 = read_state sample_nodes (sample_pool true) ++ drop 2 (sample_trace true 3)) as E
    by (vm_compute; reflexivity).
  destruct (growth_is_passed_on NodeLoad 3 sample_nodes (sample_pool true)
    (drop 2 (sample_trace true 3)) None) as (a & Ha & _).
  - rewrite <- E. apply sample_resize_runs. vm_compute. reflexivity.
  - vm_compute. discriminate.
  - exists a. exact Ha.
Defined.

Lemma scale_down_stays_within_excess_witness : length (terminations (drop 2 (sample_trace true 1))) = 2%nat.
Proof.
  assert (sample_trace true 1 = read_state sample_nodes (sample_pool true) ++ drop 2 (sample_trace true 1)) as E
    by (vm_compute; reflexivity).
  destruct (scale_down_stays_within_excess NodeLoad 1 sample_nodes (sample_pool true)
    (drop 2 (sample_trace true 1)) None) as (tc & tr & cs & rs & Ht & Hc & _ & Hle & Heq).
  - lia.
  - vm_compute. discriminate.
  - vm_compute. reflexivity.
  - rewrite <- E. apply sample_resize_runs. vm_compute. reflexivity.
  - destruct (Heq eq_refl) as [Hn Hpos]. clear -Hle Hpos. vm_compute in *. reflexivity.
Defined.

Lemma scale_down_removes_least_loaded_witness :
  ∃ victims kept : list NodeMachinePair,
    ∀ v w, v ∈ victims → w ∈ kept → float64_lt (NodeLoad (KubeNode w)) (NodeLoad (KubeNode v)) = false.
Proof.
  assert (sample_trace true 2 = read_state sample_nodes (sample_pool true) ++ drop 2 (sample_trace true 2)) as E
    by (vm_compute; reflexivity).
  destruct (scale_down_removes_least_loaded NodeLoad 2 sample_nodes (sample_pool true)
    (drop 2 (sample_trace true 2))) as (tc & cs & rs & victims & kept & _ & _ & _ & H & _).
  - intros v Hv. vm_compute in Hv. repeat (apply elem_of_cons in Hv as [->|Hv]; [vm_compute; reflexivity|]).
    exfalso. exact (not_elem_of_nil _ Hv).
  - vm_compute. reflexivity.
  - rewrite <- E. apply sample_resize_runs. vm_compute. reflexivity.
  - exists victims, kept. exact H.
Defined.

Lemma no_candidate_error_explains_every_pair_witness :
  ∃ rs, map (fmap NoCand_NodeName) rs = [Some "n1"; Some "n2"; Some "n3"].
Proof.
  assert (sample_trace false 2 = read_state sample_nodes (sample_pool false) ++ []) as E
    by (vm_compute; reflexivity).
  pose (rs := map (λ p, (isMachineEvictable p).2) (active_pairs sample_nodes (sample_pool false))).
  destruct (no_candidate_error_explains_every_pair NodeLoad 2 sample_nodes
    (sample_pool false) [] rs) as [H _].
  - rewrite <- E. apply sample_resize_runs. vm_compute. reflexivity.
  - intros node. apply not_elem_of_nil.
  - exists rs. exact H.
Defined.

Definition sample_terminate : Prog ProxyDeps (option error) := TerminateMachine "i-2" false.
Definition sample_terminate_trace : trace ProxyDeps := (exec (willing_env true) [] sample_terminate).1.

Lemma terminate_machine_runs_witness : terminate_spec "i-2" false sample_terminate_trace None.
Proof.
  destruct (terminate_machine_runs "i-2" false sample_terminate_trace (Done None)) as (r & Hr & Hs).
  - assert ((exec (willing_env true) [] sample_terminate).2 = Done None) as E by (vm_compute; reflexivity).
    rewrite <- E. apply exec_runs.
  - injection Hr as <-. exact Hs.
Defined.

Lemma terminate_only_drained_node_witness :
  ∃ v, ID (PairMachine v) = "i-2" ∧ prepared v (take 5 sample_terminate_trace).
Proof.
  assert (sample_terminate_trace = take 5 sample_terminate_trace ++ [pev (TerminateMachine_call "i-2" false) None]) as E
    by (vm_compute; reflexivity).
  destruct (terminate_only_drained_node "i-2" false sample_terminate_trace
    ((exec (willing_env true) [] sample_terminate).2) (take 5 sample_terminate_trace) "i-2" false None []
    (exec_runs (willing_env true) sample_terminate []) E) as (_ & _ & nodes & v & _ & _ & _ & _ & Hid & _ & Hp).
  exists v. split; [exact Hid|exact Hp].
Defined.
