(* ===== verification/System.v ===== *)
(** * Putting the parts together (cmd/kubeaware-cloudpool-proxy/main.go)

    [main] builds a node scaler on a Kubernetes client and hands it, with a
    cloudpool client, to the proxy.  Here the proxy's calls are replaced by
    the programs of both: the composed operations are programs over the
    Kubernetes client and the HTTP backend.

    What the proxy needs of a node scaler and of a cloudpool client are the
    classes [NodeScaler] and [CloudPoolClient]; their instances
    [DefaultNodeScaler] and [HTTPCloudPoolClient] are the ones [main] uses.
    The end-to-end theorems are proved against the classes and then
    instantiated. *)
From stdpp Require Import base tactics list strings gmap.
From Stdlib Require Import ZArith Lia.
From S2P Require Import Prelude Strconv GoStd Quantity KubeTypes Json NodeInfo Samples QuasiScheduler NodeScaler Time CloudPool Url PoolClient Proxy.

(** ** The CloudPoolClient interface (client.go) *)

(** What one can ask a cloudpool to change. *)
Inductive pool_change : Type :=
| Resize (desiredSize : Z)
| Terminate (machineID : string) (decrementDesiredSize : bool).

(** A trace with at most one call, which satisfies [P]. *)
Definition at_most_one {B : Iface} (P : call B → Prop) (t : trace B) : Prop :=
  t = [] ∨ ∃ e, t = [e] ∧ P (projT1 e).

(** The operations, over the service [B], and what the proxy relies on: the
    reading operations ask for no change, and a machine that was looked up has
    the requested ID; the two others ask at most once, and
    for what they are called with; forwarding makes no other call. *)
Class CloudPoolClient (B : Iface) : Type := {
  cp_Forward : Request → Prog B (result error Response);
  cp_GetPoolSize : Prog B (result error PoolSizeMessage);
  cp_GetMachinePool : Prog B (result error MachinePoolMessage);
  cp_GetMachine : string → Prog B (result error Machine);
  cp_SetDesiredSize : Z → Prog B (option error);
  cp_TerminateMachine : string → bool → Prog B (option error);
  cp_changes : call B → bool;
  cp_asks : call B → pool_change → Prop;
  cp_forwards : call B → Request → Prop;
  cp_size_reads : calls_only (λ c, cp_changes c = false) cp_GetPoolSize;
  cp_pool_reads : calls_only (λ c, cp_changes c = false) cp_GetMachinePool;
  cp_machine_reads : ∀ id, calls_only (λ c, cp_changes c = false) (cp_GetMachine id);
  cp_machine_found : ∀ id, returns (λ r, match r with Ok m => ID m = id | Err _ => True end) (cp_GetMachine id);
  cp_resize_asks : ∀ n t o, runs (cp_SetDesiredSize n) t o → at_most_one (λ c, cp_asks c (Resize n)) t;
  cp_terminate_asks : ∀ id dec t o,
    runs (cp_TerminateMachine id dec) t o → at_most_one (λ c, cp_asks c (Terminate id dec)) t;
  cp_forward_calls : ∀ req, calls_only (λ c, cp_forwards c req) (cp_Forward req);
  cp_resize_returns : ∀ n, no_panic (cp_SetDesiredSize n);
  cp_terminate_returns : ∀ id dec, no_panic (cp_TerminateMachine id dec);
  cp_forward_returns : ∀ req, no_panic (cp_Forward req) }.

(** *** The HTTP client as such a client *)

Section HTTPClient.
Context `{ranger : !MapRange, lib : !GoLib}.
Variable c : DefaultCloudPoolClient.

(** Everything but a GET may change the pool. *)
Definition backend_changes (call : http_call) : bool :=
  let 'ClientDo out := call in negb (String.eqb (Out_Method out) "GET").

(** The request that asks the backend for a change. *)
Definition backend_asks (call : http_call) (change : pool_change) : Prop :=
  let 'ClientDo out := call in
  Out_Method out = "POST"%string ∧
  match change with
  | Resize n =>
      Out_URL out = poolURL c (urlPath (poolURL c "/pool/size")) ∧ Out_Body out = enc_set_size n
  | Terminate id dec =>
      Out_URL out = poolURL c (urlPath (poolURL c "/pool/terminate")) ∧ Out_Body out = enc_terminate id dec
  end.

Definition backend_forwards (call : http_call) (req : Request) : Prop :=
  let 'ClientDo out := call in out = forwarded c req.

Lemma no_panic_Forward req : no_panic (Forward c req).
Proof. unfold Forward. prog_walk. Qed.

Lemma no_panic_doRequest req : no_panic (doRequest c req).
Proof.
  pose proof (no_panic_Forward req). unfold doRequest. apply no_panic_bind; [done|]. intros [resp|e]; [|done].
  destruct (BodyError resp); [done|]. destruct (negb _); [|done].
  destruct (Unmarshal _ _ _) as [[[m d]|e]|m] eqn:E; [done..|]. exfalso.
  by apply Unmarshal_never in E; [|apply dec_error_message_never].
Qed.

Lemma reads_Forward req :
  Method req = "GET"%string → calls_only (I := HTTPBackend) (λ c, backend_changes c = false) (Forward c req).
Proof.
  intros Hm. unfold Forward. destruct (newRequestError _ _); [done|]. simpl. rewrite Hm. split; [done|].
  by intros [].
Qed.

Lemma reads_doRequest req :
  Method req = "GET"%string → calls_only (I := HTTPBackend) (λ c, backend_changes c = false) (doRequest c req).
Proof.
  intros Hm. unfold doRequest. apply calls_only_bind; [by apply reads_Forward|]. prog_walk.
Qed.

Lemma reads_GetMachinePool : calls_only (I := HTTPBackend) (λ c, backend_changes c = false) (GetMachinePool c).
Proof.
  unfold GetMachinePool. destruct (newRequestError _ _); [done|].
  apply calls_only_bind; [by apply reads_doRequest|]. prog_walk.
Qed.

(** [cloudpool.NewClient]. *)
#[export] Instance HTTPCloudPoolClient : CloudPoolClient HTTPBackend.
Proof.
  refine {| cp_Forward := Forward c; cp_GetPoolSize := GetPoolSize c; cp_GetMachinePool := GetMachinePool c;
            cp_GetMachine := GetMachine c; cp_SetDesiredSize := client_SetDesiredSize c;
            cp_TerminateMachine := client_TerminateMachine c;
            cp_changes := backend_changes : call HTTPBackend → bool;
            cp_asks := backend_asks : call HTTPBackend → pool_change → Prop;
            cp_forwards := backend_forwards : call HTTPBackend → Request → Prop |}.
  - unfold GetPoolSize. destruct (newRequestError _ _); [done|].
    apply calls_only_bind; [by apply reads_doRequest|]. prog_walk.
  - apply reads_GetMachinePool.
  - intros id. unfold GetMachine. apply calls_only_bind; [apply reads_GetMachinePool|]. prog_walk.
  - intros id. unfold GetMachine. apply returns_bind. intros [pool|e]; [|done].
    destruct (machine_by_id id (Machines pool)) as [m|] eqn:E; [|done]. by apply machine_by_id_Some in E as [_ ?].
  - intros n t o [(-> & _)|(out & r & -> & Hm & Hu & Hb & _)]%post_runs; [by left|]. right. eexists. by split_and!.
  - intros id dec t o [(-> & _)|(out & r & -> & Hm & Hu & Hb & _)]%post_runs; [by left|]. right. eexists. by split_and!.
  - intros req. unfold Forward. prog_walk.
  - intros n. unfold client_SetDesiredSize. destruct (newRequestError _ _); [done|].
    apply no_panic_bind; [apply no_panic_doRequest|]. by intros [].
  - intros id dec. unfold client_TerminateMachine. destruct (newRequestError _ _); [done|].
    apply no_panic_bind; [apply no_panic_doRequest|]. by intros [].
  - apply no_panic_Forward.
Defined.
End HTTPClient.

(** ** The NodeScaler interface (nodescaler.go) *)

(** The operations the proxy uses, over the service [K], and what it relies
    on: checks and listings change nothing, a verdict is an approval without
    error or a refusal with one, and only a check can panic. *)
Class NodeScaler (K : Iface) : Type := {
  ns_mutates : call K → bool;
  ns_ListWorkerNodes : Prog K (result error (list NodeInfo));
  ns_IsScaleDownCandidate : NodeInfo → Prog K (bool * option error);
  ns_DrainNode : NodeInfo → Prog K (option error);
  ns_DeleteNode : NodeInfo → Prog K (option error);
  ns_NodeLoad : NodeInfo → float64;
  ns_list_reads : calls_only (λ c, ns_mutates c = false) ns_ListWorkerNodes;
  ns_check_reads : ∀ node, calls_only (λ c, ns_mutates c = false) (ns_IsScaleDownCandidate node);
  ns_verdict : ∀ node, returns (λ '(b, oe), b = true ↔ oe = None) (ns_IsScaleDownCandidate node);
  ns_list_returns : no_panic ns_ListWorkerNodes;
  ns_drain_returns : ∀ node, no_panic (ns_DrainNode node);
  ns_delete_returns : ∀ node, no_panic (ns_DeleteNode node) }.

Lemma no_panic_node_infos nodes : no_panic (node_infos_loop nodes).
Proof.
  assert (∀ name, no_panic (getNodeInfo name)) by (intros; unfold getNodeInfo, getPodsOnNode; prog_walk).
  induction nodes; cbn [node_infos_loop]; prog_walk.
Qed.

(** [kube.NewNodeScaler]. *)
#[export] Instance DefaultNodeScaler `{sorter : !SliceSort, ranger : !MapRange, lib : !GoLib} : NodeScaler KubeClient.
Proof.
  refine {| ns_mutates := kube_mutates : call KubeClient → bool;
            ns_ListWorkerNodes := ListWorkerNodes;
            ns_IsScaleDownCandidate := IsScaleDownCandidate;
            ns_DrainNode := NodeScaler.DrainNode;
            ns_DeleteNode := NodeScaler.DeleteNode;
            ns_NodeLoad := NodeLoad |}.
  - apply ListWorkerNodes_reads.
  - apply IsScaleDownCandidate_reads.
  - apply IsScaleDownCandidate_verdict.
  - pose proof no_panic_node_infos. unfold ListWorkerNodes, ListNodes, getNodeInfos. prog_walk.
  - apply no_panic_DrainNode.
  - intros node. unfold NodeScaler.DeleteNode. prog_walk.
Defined.

Section System.
Context `{sorter : !SliceSort, ranger : !MapRange, lib : !GoLib} {K B : Iface} `{!NodeScaler K, !CloudPoolClient B}.

(** The two services the proxy talks to. *)
Definition Services : Iface := sum_iface K B.

(** [proxy.New(poolClient, nodeScaler)]: the implementation of each call. *)
Definition wire (c : proxy_call) : Prog Services (proxy_reply c) :=
  match c with
  | ListWorkerNodes_call => lift_l ns_ListWorkerNodes
  | IsScaleDownCandidate_call node => lift_l (ns_IsScaleDownCandidate node)
  | DrainNode_call node => lift_l (ns_DrainNode node)
  | DeleteNode_call node => lift_l (ns_DeleteNode node)
  | GetMachinePool_call => lift_r cp_GetMachinePool
  | GetMachine_call id => lift_r (cp_GetMachine id)
  | SetDesiredSize_call n => lift_r (cp_SetDesiredSize n)
  | TerminateMachine_call id b => lift_r (cp_TerminateMachine id b)
  end.

Definition proxy_SetDesiredSize (n : Z) : Prog Services (option error) :=
  interp (I := ProxyDeps) wire (SetDesiredSize ns_NodeLoad n).

Definition proxy_TerminateMachine (id : string) (dec : bool) : Prog Services (option error) :=
  interp (I := ProxyDeps) wire (TerminateMachine id dec).

Definition proxy_Forward (request : Request) : Prog Services (result error Response) :=
  lift_r (cp_Forward request).

(** The calls to the services that change something. *)
Definition service_changes (c : call Services) : bool :=
  match c with
  | inl c => ns_mutates c
  | inr c => cp_changes c
  end.
End System.

(** What a call of the proxy asks the pool to change. *)
Definition asked (c : proxy_call) : option pool_change :=
  match c with
  | SetDesiredSize_call n => Some (Resize n)
  | TerminateMachine_call id dec => Some (Terminate id dec)
  | _ => None
  end.

Section SystemFacts.
Context `{sorter : !SliceSort, ranger : !MapRange, lib : !GoLib} {K B : Iface} `{!NodeScaler K, !CloudPoolClient B}.

(** Where the segments of two consecutive parts of a client trace are. *)
Lemma implements_app evs1 evs2 segs :
  implements (I := ProxyDeps) wire (evs1 ++ evs2) segs →
  ∃ segs1 segs2, segs = segs1 ++ segs2 ∧ implements (I := ProxyDeps) wire evs1 segs1 ∧
    implements (I := ProxyDeps) wire evs2 segs2.
Proof. intros H. apply Forall2_app_inv_l in H as (s1 & s2 & H1 & H2 & ->). eauto. Qed.

Lemma implements_cons c r evs segs :
  implements (I := ProxyDeps) wire (pev c r :: evs) segs →
  ∃ seg segs', segs = seg :: segs' ∧ runs (wire c) seg (Done r) ∧ implements (I := ProxyDeps) wire evs segs'.
Proof. intros H. apply Forall2_cons_inv_l in H as (seg & segs' & H1 & H2 & ->). eauto. Qed.

Lemma ev_r_inj (e e' : event B) : ev_r (I := K) e = ev_r e' → e = e'.
Proof.
  intros H. apply (f_equal (λ x : event (sum_iface K B),
    match x with existT (inl _) _ => None | existT (inr c) r => Some (ev (I := B) c r) end)) in H.
  destruct e, e'. simpl in H. by injection H.
Qed.

Lemma ev_r_in_lift_l (t' : trace K) u (e : event B) v : map ev_l t' ≠ u ++ ev_r e :: v.
Proof.
  intros H. assert (ev_r e ∈ map (@ev_l K B) t') as Hin by (rewrite H; set_solver).
  apply list_elem_of_fmap in Hin as (x & Hx & _). apply (f_equal (@projT1 _ _)) in Hx. discriminate Hx.
Qed.

Lemma ev_r_in_lift_r (t' : trace B) u (e : event B) v :
  map (@ev_r K B) t' = u ++ ev_r e :: v → ∃ u' v', t' = u' ++ e :: v' ∧ u = map ev_r u' ∧ v = map ev_r v'.
Proof.
  intros H. apply fmap_app_inv in H as (u' & w & -> & H & ->). destruct w as [|x w]; [done|].
  pose proof (f_equal head H) as Hx. injection H as _ ->. simpl in Hx. apply (inj Some), ev_r_inj in Hx as ->.
  by exists u', w.
Qed.

(** A change is asked of the pool only by the two calls of the proxy that are
    for it, and is all they do. *)
Lemma wire_change c seg o u e v :
  runs (wire c) seg o → seg = u ++ ev_r e :: v → cp_changes (projT1 e) = true →
  u = [] ∧ v = [] ∧ ∃ ch, asked c = Some ch ∧ cp_asks (projT1 e) ch.
Proof.
  intros H -> Hch.
  assert (Hread : ∀ A (p : Prog B A) o', calls_only (λ c, cp_changes c = false) p →
    runs (lift_r (I := K) p) (u ++ ev_r e :: v) o' → False).
  { intros A p o' Hp (t' & Ht & Hr)%runs_lift_r. symmetry in Ht.
    apply ev_r_in_lift_r in Ht as (u' & v' & -> & _). apply (calls_only_runs _ _ _ _ Hp) in Hr.
    apply Forall_app in Hr as [_ Hr]. apply Forall_cons in Hr as [Hr _]. congruence. }
  assert (Hask : ∀ A (p : Prog B A) o' P, (∀ t o, runs p t o → at_most_one P t) →
    runs (lift_r (I := K) p) (u ++ ev_r e :: v) o' → u = [] ∧ v = [] ∧ P (projT1 e)).
  { intros A p o' P Hp (t' & Ht & Hr)%runs_lift_r. symmetry in Ht.
    apply ev_r_in_lift_r in Ht as (u' & v' & -> & -> & ->). apply Hp in Hr as [Hr|(x & Hr & Hx)]; [by destruct u'|].
    destruct u' as [|y u']; [|by destruct u']. by simplify_eq/=. }
  destruct c; unfold wire in H.
  1-4: apply runs_lift_l in H as (t' & H & _); symmetry in H; by apply ev_r_in_lift_l in H.
  - exfalso. eapply Hread; [apply cp_pool_reads|exact H].
  - exfalso. eapply Hread; [apply cp_machine_reads|exact H].
  - apply (Hask _ _ _ (λ c, cp_asks c (Resize desiredSize))) in H as (-> & -> & H); [|apply cp_resize_asks].
    split_and!; [done..|]. by eexists.
  - apply (Hask _ _ _ (λ c, cp_asks c (Terminate machineID decrementDesiredSize))) in H as (-> & -> & H);
      [|apply cp_terminate_asks]. split_and!; [done..|]. by eexists.
Qed.

(** The proxy's call behind a change of the pool found in a composed run. *)
Lemma change_in_segments evs segs t1 e t2 :
  implements (I := ProxyDeps) wire evs segs →
  concat segs = t1 ++ ev_r e :: t2 → cp_changes (projT1 e) = true →
  ∃ evs1 c r evs2 segs1 ch, evs = evs1 ++ pev c r :: evs2 ∧ asked c = Some ch ∧ cp_asks (projT1 e) ch ∧
    implements (I := ProxyDeps) wire evs1 segs1 ∧ t1 = concat segs1.
Proof.
  intros Hi H Hch. apply split_concat in H as (s1 & s & s2 & u & v & -> & Hs & -> & ->).
  apply Forall2_app_inv_r in Hi as (e1 & e2 & H1 & H2 & ->).
  apply Forall2_cons_inv_r in H2 as ([c r] & e2' & Hr & H2 & ->). simpl in Hr.
  destruct (wire_change _ _ _ _ _ _ Hr Hs Hch) as (-> & -> & ch & Ha & Hc).
  exists e1, c, r, e2', s1, ch. split_and!; [done..|by rewrite app_nil_r].
Qed.

(** The preparation of a removal, seen at the services. *)
Definition prepared_at_services (v : NodeMachinePair) (t : trace (sum_iface K B)) : Prop :=
  ∃ ta tc tb td tl,
    t = ta ++ map ev_l tc ++ tb ++ map ev_l td ++ map ev_l tl ∧
    runs (ns_IsScaleDownCandidate (KubeNode v)) tc (Done (true, None)) ∧
    runs (ns_DrainNode (KubeNode v)) td (Done None) ∧
    runs (ns_DeleteNode (KubeNode v)) tl (Done None).

Lemma prepared_segments v evs segs :
  prepared v evs → implements (I := ProxyDeps) wire evs segs → prepared_at_services v (concat segs).
Proof.
  intros (t0 & -> & (u & w & ->)%list_elem_of_split) Hi.
  apply implements_app in Hi as (s1 & s2 & -> & H1 & H2).
  apply implements_app in H1 as (s3 & s4 & -> & H3 & H4).
  apply implements_cons in H4 as (sc & s5 & -> & Hc & H5).
  apply implements_cons in H2 as (sd & s6 & -> & Hd & H6).
  apply implements_cons in H6 as (sl & s7 & -> & Hl & H7). apply Forall2_nil_inv_l in H7 as ->.
  apply runs_lift_l in Hc as (tc & -> & Hc). apply runs_lift_l in Hd as (td & -> & Hd).
  apply runs_lift_l in Hl as (tl & -> & Hl).
  exists (concat s3), tc, (concat s5), td, tl. split_and!; [|done..].
  rewrite !concat_app. simpl. by rewrite app_nil_r, <- !app_assoc.
Qed.
End SystemFacts.

(** ** Reads come first *)

(** Nothing is read or checked once something has been changed. *)
Fixpoint reads_first {A} (changed : bool) (p : Prog ProxyDeps A) : Prop :=
  match p with
  | Ret _ => True
  | Panic _ => True
  | Vis c k =>
      (changes c = false → changed = false) ∧
      ∀ r, reads_first (changed || changes c) (k r)
  end.

(** Programs that only change things may come after a change. *)
Lemma reads_first_changing {A} b (p : Prog ProxyDeps A) :
  calls_only (I := ProxyDeps) (λ c, changes c = true) p → reads_first b p.
Proof.
  revert b. induction p as [a|m|c k IH]; intros b Hp; simpl in *; [done..|].
  destruct Hp as [Hc Hk]. split; [congruence|]. auto.
Qed.

Lemma reads_first_bind {A B} (p : Prog ProxyDeps A) (f : A → Prog ProxyDeps B) :
  calls_only (I := ProxyDeps) (λ c, changes c = false) p → (∀ a, reads_first false (f a)) →
  reads_first false (bind p f).
Proof.
  intros Hp Hf. induction p as [a|m|c k IH]; simpl in *; [apply Hf|done|].
  destruct Hp as [Hc Hk]. split; [done|]. intros r. rewrite Hc. simpl. apply IH, Hk.
Qed.

Lemma reads_first_after {A} b (p : Prog ProxyDeps A) evs c k :
  changes c = false → reads_first b p → after p evs (Vis (I := ProxyDeps) c k) →
  b = false ∧ Forall (λ e : event ProxyDeps, changes (projT1 e) = false) evs.
Proof.
  intros Hcc. revert b p. induction evs as [|e evs IH]; intros b p Hc Ha; simpl in Ha.
  - subst p. simpl in Hc. destruct Hc as [Hb _]. by split; [apply Hb|].
  - destruct Ha as (c' & r & k' & -> & -> & Ha). simpl in Hc. destruct Hc as [_ Hc].
    destruct (IH _ _ (Hc r) Ha) as [[-> Hc']%orb_false_iff Hf]. split; [done|]. by constructor.
Qed.

Section ReadsFirst.
Context `{sorter : !SliceSort, ranger : !MapRange, lib : !GoLib} {K B : Iface} `{!NodeScaler K, !CloudPoolClient B}.

Lemma evict_changes p b : calls_only (I := ProxyDeps) (λ c, changes c = true) (evictAndTerminate p b).
Proof. unfold evictAndTerminate, pcall. prog_walk. Qed.

Lemma check_reads p : calls_only (I := ProxyDeps) (λ c, changes c = false) (isScaleDownCandidate p).
Proof.
  unfold isScaleDownCandidate, isMachineEvictable, isNodeSafeToDrain.
  destruct (Evictable _); simpl; [|done]. split; [done|]. intros [b [e|]]; simpl; [done|by destruct b].
Qed.

Lemma partition_reads ps : calls_only (I := ProxyDeps) (λ c, changes c = false) (partitionScaleDownCandidates ps).
Proof.
  induction ps as [|p ps IH]; cbn [partitionScaleDownCandidates]; [done|].
  apply calls_only_bind; [apply check_reads|]. intros [b r]. apply calls_only_bind; [done|].
  intros [cs rs]. by destruct b.
Qed.

Lemma SetDesiredSize_reads_first load n : reads_first false (SetDesiredSize load n).
Proof.
  unfold SetDesiredSize, pcall. apply reads_first_bind; [done|]. intros [nodes|e]; [|done].
  apply reads_first_bind; [done|]. intros [pool|e]; [|done]. cbv zeta.
  destruct (_ <=? _)%Z; [split; [done|]; by intros []|].
  apply reads_first_bind; [apply partition_reads|]. intros [cs rs]. destruct (_ =? _)%nat; [done|].
  apply reads_first_changing. induction (take _ _) as [|v vs IH]; cbn [scale_down_loop]; [done|].
  apply calls_only_bind; [apply evict_changes|]. by intros [e|].
Qed.

Lemma TerminateMachine_reads_first id dec : reads_first false (TerminateMachine id dec).
Proof.
  unfold TerminateMachine, getNodeWithExternalID, pcall. apply reads_first_bind.
  { split; [done|]. intros [nodes|e]; [|done]. simpl. by destruct (node_with_external_id id nodes). }
  intros [n|e]; [|done]. apply reads_first_bind; [done|]. intros [m|e]; [|done]. cbv zeta.
  apply reads_first_bind; [apply check_reads|]. intros [b r]. destruct b; simpl negb; cbv iota; [|done].
  apply reads_first_changing, evict_changes.
Qed.

(** A reading call is a reading run at the services, whatever its end. *)
Lemma wire_reads c t o :
  changes c = false → runs (wire c) t o →
  Forall (λ e : event (sum_iface K B), service_changes (projT1 e) = false) t.
Proof.
  assert (Hl : ∀ A (p : Prog K A) t o, calls_only (λ c, ns_mutates c = false) p → runs (lift_l (J := B) p) t o →
    Forall (λ e : event (sum_iface K B), service_changes (projT1 e) = false) t).
  { intros A p t' o' Hp (t'' & -> & H)%runs_lift_l. apply (calls_only_runs _ _ _ _ Hp) in H. by apply Forall_map. }
  assert (Hr : ∀ A (p : Prog B A) t o, calls_only (λ c, cp_changes c = false) p → runs (lift_r (I := K) p) t o →
    Forall (λ e : event (sum_iface K B), service_changes (projT1 e) = false) t).
  { intros A p t' o' Hp (t'' & -> & H)%runs_lift_r. apply (calls_only_runs _ _ _ _ Hp) in H. by apply Forall_map. }
  intros Hc H. destruct c; try discriminate Hc; unfold wire in H.
  - eapply Hl; [apply ns_list_reads|exact H].
  - eapply Hl; [apply ns_check_reads|exact H].
  - eapply Hr; [apply cp_pool_reads|exact H].
  - eapply Hr; [apply cp_machine_reads|exact H].
Qed.

(** The segments of calls that change nothing change nothing. *)
Lemma reading_segments evs segs :
  Forall (λ e : event ProxyDeps, changes (projT1 e) = false) evs →
  implements (I := ProxyDeps) wire evs segs →
  Forall (λ e : event (sum_iface K B), service_changes (projT1 e) = false) (concat segs).
Proof.
  intros He Hi. induction Hi as [|[c r] seg evs segs Hr _ IH]; [constructor|].
  apply Forall_cons in He as [Hc He]. simpl in Hc, Hr |- *. apply Forall_app_2; [|by apply IH].
  by eapply wire_reads.
Qed.

Lemma panic_reads {A} (p : Prog ProxyDeps A) t m :
  no_panic p → reads_first false p → runs (interp (I := ProxyDeps) wire p) t (Panicked m) →
  Forall (λ e : event (sum_iface K B), service_changes (projT1 e) = false) t.
Proof.
  intros Hp Hc H. apply runs_interp_panic in H as (evs & segs & rest & p' & Ha & Hi & -> & Hcase).
  destruct Hcase as [[-> _]|(c & k & -> & Hr)].
  { exfalso. clear Hc Hi. revert p Hp Ha. induction evs as [|e evs IH]; intros p Hp Ha; simpl in Ha; [by subst p|].
    destruct Ha as (c & r & k & -> & -> & Ha). eapply (IH (k r)); [apply Hp|done]. }
  destruct (changes c) eqn:Ec.
  { exfalso. destruct c; try discriminate Ec; unfold wire in Hr;
      first [apply runs_lift_l in Hr as (t' & _ & Hr)|apply runs_lift_r in Hr as (t' & _ & Hr)]; eapply no_panic_runs in Hr;
      first [done|apply ns_drain_returns|apply ns_delete_returns|apply cp_resize_returns|apply cp_terminate_returns]. }
  destruct (reads_first_after _ _ _ _ _ Ec Hc Ha) as [_ He].
  apply Forall_app_2; [by eapply reading_segments|by eapply wire_reads].
Qed.

(** A run in which a change is asked of the pool did not panic. *)
Lemma change_returns {A} (p : Prog ProxyDeps A) t o t1 e t2 :
  no_panic p → reads_first false p → runs (interp (I := ProxyDeps) wire p) t o →
  t = t1 ++ ev_r e :: t2 → cp_changes (projT1 e) = true → ∃ a, o = Done a.
Proof.
  intros Hp Hc H -> Hch. destruct o as [a|m]; [by exists a|]. exfalso.
  apply panic_reads in H; [|done..]. apply Forall_app in H as [_ H]. apply Forall_cons in H as [H _].
  simpl in H. congruence.
Qed.
End ReadsFirst.

Lemma DeleteNode_success `{!MapRange} node t :
  runs (NodeScaler.DeleteNode node) t (Done None) → t = [ev (I := KubeClient) (KDeleteNode (NodeOf node)) None].
Proof.
  unfold NodeScaler.DeleteNode. simpl. intros ([e|] & t0 & -> & Hr); by destruct Hr as [-> ?].
Qed.

(** ** Changes asked of the pool *)

Section Changes.
Context `{sorter : !SliceSort, ranger : !MapRange, lib : !GoLib} {K B : Iface} `{!NodeScaler K, !CloudPoolClient B}.

(** With any node scaler and cloudpool client that keep their promises: a
    resize asks the pool for that size, having changed nothing, or for the
    termination of a machine whose node is prepared. *)
Lemma resize_change n t o t1 e t2 :
  runs (proxy_SetDesiredSize n) t o → t = t1 ++ ev_r e :: t2 → cp_changes (projT1 e) = true →
  (cp_asks (projT1 e) (Resize n) ∧
   Forall (λ e : event (sum_iface K B), service_changes (projT1 e) = false) t1) ∨
  (∃ v, cp_asks (projT1 e) (Terminate (ID (PairMachine v)) true) ∧
     ExternalID (Node_Spec (NodeOf (KubeNode v))) = ID (PairMachine v) ∧
     Evictable (Membership (PairMachine v)) = true ∧ prepared_at_services v t1).
Proof.
  intros H Ht Hch.
  destruct (change_returns _ _ _ _ _ _ (no_panic_SetDesiredSize _ n) (SetDesiredSize_reads_first _ n) H Ht Hch) as [r ->].
  subst t. apply runs_interp in H as (evs & segs & Hr & Hs & Hi). symmetry in Hs.
  destruct (change_in_segments _ _ _ _ _ Hi Hs Hch) as (evs1 & c & r1 & evs2 & segs1 & ch & -> & Ha & Hask & Hi1 & ->).
  apply SetDesiredSize_runs in Hr. destruct c; try discriminate Ha; simpl in Ha; injection Ha as <-.
  - left. destruct (set_size_resize _ _ _ _ _ _ _ _ Hr eq_refl) as (-> & _ & nodes & pool & -> & _).
    split; [done|]. eapply reading_segments; [|exact Hi1]. by repeat constructor.
  - right. destruct (set_size_termination _ _ _ _ _ _ _ _ _ Hr eq_refl)
      as (-> & nodes & pool & v & Hv & -> & He & _ & _ & Hp).
    exists v. unfold active_pairs in Hv. apply pairNodes_counterpart in Hv as (_ & _ & Hid).
    split_and!; [done|done|done|by eapply prepared_segments].
Qed.

Lemma no_resize_in_terminate id dec :
  calls_only (I := ProxyDeps) (λ c, match c with SetDesiredSize_call _ => False | _ => True end) (TerminateMachine id dec).
Proof.
  unfold TerminateMachine, getNodeWithExternalID, isScaleDownCandidate, isMachineEvictable, isNodeSafeToDrain,
    evictAndTerminate, pcall. prog_walk.
Qed.

(** A machine that was looked up has the requested ID. *)
Lemma get_machine_in_segments evs segs id m :
  implements (I := ProxyDeps) (wire (K := K) (B := B)) evs segs → pev (GetMachine_call id) (Ok m) ∈ evs → ID m = id.
Proof.
  intros Hi (u & w & ->)%list_elem_of_split. apply implements_app in Hi as (s1 & s2 & _ & _ & Hi).
  apply implements_cons in Hi as (seg & s3 & _ & Hr & _). unfold wire in Hr. apply runs_lift_r in Hr as (t' & _ & Hr).
  apply (returns_runs _ _ _ _ (cp_machine_found id)) in Hr. done.
Qed.

(** A termination request asks only for the termination of the requested
    machine, whose node is prepared. *)
Lemma termination_change mid dec t o t1 e t2 :
  runs (proxy_TerminateMachine mid dec) t o → t = t1 ++ ev_r e :: t2 → cp_changes (projT1 e) = true →
  ∃ v, cp_asks (projT1 e) (Terminate mid dec) ∧
    ID (PairMachine v) = mid ∧ ExternalID (Node_Spec (NodeOf (KubeNode v))) = mid ∧
    Evictable (Membership (PairMachine v)) = true ∧ prepared_at_services v t1.
Proof.
  intros H Ht Hch.
  destruct (change_returns _ _ _ _ _ _ (no_panic_TerminateMachine mid dec) (TerminateMachine_reads_first mid dec) H Ht Hch)
    as [r ->].
  subst t. apply runs_interp in H as (evs & segs & Hr & Hs & Hi). symmetry in Hs.
  destruct (change_in_segments _ _ _ _ _ Hi Hs Hch) as (evs1 & c & r1 & evs2 & segs1 & ch & -> & Ha & Hask & Hi1 & ->).
  pose proof (calls_only_runs _ _ _ _ (no_resize_in_terminate mid dec) Hr) as Hno.
  apply Forall_app in Hno as [_ Hno]. apply Forall_cons in Hno as [Hno _]. simpl in Hno.
  apply TerminateMachine_runs in Hr. destruct c; try discriminate Ha; [done|]. simpl in Ha. injection Ha as <-.
  destruct (terminate_termination _ _ _ _ _ _ _ _ _ Hr eq_refl) as (-> & _ & nodes & v & _ & _ & Hid & Hg & <- & He & Hp).
  apply get_machine_in_segments with (1 := Hi1) in Hg. rewrite Hg in Hask.
  exists v. split_and!; [done..|by eapply prepared_segments].
Qed.
End Changes.

(** *** With the node scaler of the program *)

Section Ready.
Context `{sorter : !SliceSort, ranger : !MapRange, lib : !GoLib} {B : Iface} `{!CloudPoolClient B}.

(** The machine of [v] may be terminated now: the cluster was read and the node
    was safe to remove with respect to what was read; then the drain taint was
    put on the node and every active non-system pod evicted, in order and with
    no refusal; and the last call deleted the node from the cluster. *)
Definition ready_to_terminate (v : NodeMachinePair) (t : trace (sum_iface KubeClient B)) : Prop :=
  ∃ ta tc tb td,
    t = ta ++ map ev_l tc ++ tb ++ map ev_l td ++
        [ev_l (ev (I := KubeClient) (KDeleteNode (NodeOf (KubeNode v))) None)] ∧
    drain_spec (KubeNode v) td None ∧
    ((Z.of_nat (length (Pods (KubeNode v))) < 2^31)%Z → Forall wf_pod (Pods (KubeNode v)) →
     safe_to_remove (KubeNode v) tc).

Lemma prepared_is_ready v t : prepared_at_services (B := B) v t → ready_to_terminate v t.
Proof.
  intros (ta & tc & tb & td & tl & -> & Hc & Hd & Hl). apply DeleteNode_success in Hl as ->.
  exists ta, tc, tb, td. split_and!; [done|by apply DrainNode_runs|].
  intros Hlen Hwf. by eapply approved_is_safe.
Qed.
End Ready.

(** A request the backend receives. *)
Definition http_event {K : Iface} (out : OutRequest) (r : result error Response) : event (sum_iface K HTTPBackend) :=
  ev_r (ev (I := HTTPBackend) (ClientDo out) r).

(** ** Claims *)

Section SystemClaims.
Context `{sorter : !SliceSort, ranger : !MapRange, lib : !GoLib}.

(** C3. End to end, with the node scaler and the cloudpool client of the program:
    every request other than a GET that the backend receives during a resize is
    either the request for that size, sent when nothing has been changed, or
    the request to terminate, decrementing the size, an evictable machine that
    is ready: before it the cluster was read and the machine's node was safe to
    remove with respect to what was read; then the drain taint was on the node
    and every active non-system pod of it was evicted, in order, with no
    refusal; and the node was deleted from the cluster by the call just
    before. *)
Theorem resize_is_safe_end_to_end (c : DefaultCloudPoolClient) (n : Z)
    (t : trace (sum_iface KubeClient HTTPBackend)) (o : outcome (option error)) t1 out x t2 :
  runs (proxy_SetDesiredSize (CloudPoolClient0 := HTTPCloudPoolClient c) n) t o →
  t = t1 ++ http_event out x :: t2 → Out_Method out ≠ "GET"%string →
  (backend_asks c (ClientDo out) (Resize n) ∧
   Forall (λ e : event (sum_iface KubeClient HTTPBackend),
     service_changes (CloudPoolClient0 := HTTPCloudPoolClient c) (projT1 e) = false) t1) ∨
  (∃ v, backend_asks c (ClientDo out) (Terminate (ID (PairMachine v)) true) ∧
     ExternalID (Node_Spec (NodeOf (KubeNode v))) = ID (PairMachine v) ∧
     Evictable (Membership (PairMachine v)) = true ∧ ready_to_terminate v t1).
Proof.
  intros H Ht Hm.
  assert (backend_changes (ClientDo out) = true) as Hch by (apply negb_true_iff; by apply String.eqb_neq).
  destruct (resize_change _ _ _ _ _ _ H Ht Hch) as [[Ha Hf]|(v & Ha & Hid & He & Hp)]; [by left|].
  right. exists v. split_and!; [done..|by apply prepared_is_ready].
Qed.

(** C4. The same for a request to terminate one machine: the only request other
    than a GET is the termination of the requested machine, as asked, which is
    evictable and ready. *)
Theorem termination_is_safe_end_to_end (c : DefaultCloudPoolClient) (mid : string) (dec : bool)
    (t : trace (sum_iface KubeClient HTTPBackend)) (o : outcome (option error)) t1 out x t2 :
  runs (proxy_TerminateMachine (CloudPoolClient0 := HTTPCloudPoolClient c) mid dec) t o →
  t = t1 ++ http_event out x :: t2 → Out_Method out ≠ "GET"%string →
  backend_asks c (ClientDo out) (Terminate mid dec) ∧
  ∃ v, ID (PairMachine v) = mid ∧ ExternalID (Node_Spec (NodeOf (KubeNode v))) = mid ∧
    Evictable (Membership (PairMachine v)) = true ∧ ready_to_terminate v t1.
Proof.
  intros H Ht Hm.
  assert (backend_changes (ClientDo out) = true) as Hch by (apply negb_true_iff; by apply String.eqb_neq).
  destruct (termination_change _ _ _ _ _ _ _ H Ht Hch) as (v & Ha & Hm' & Hid & He & Hp). split; [done|].
  exists v. split_and!; [done..|by apply prepared_is_ready].
Qed.

(** C24. A panic during a resize or a termination request happens before
    anything was changed: no node was updated or deleted, no pod evicted, and
    the cloudpool was asked neither to resize nor to terminate. *)
Theorem panic_leaves_services_unchanged {K B : Iface} `{!NodeScaler K, !CloudPoolClient B} (n : Z) (id : string) (dec : bool)
    (t : trace (sum_iface K B)) m :
  runs (proxy_SetDesiredSize n) t (Panicked m) ∨ runs (proxy_TerminateMachine id dec) t (Panicked m) →
  Forall (λ e : event (sum_iface K B), service_changes (projT1 e) = false) t.
Proof.
  intros [H|H]; eapply panic_reads; try exact H.
  - apply no_panic_SetDesiredSize.
  - apply SetDesiredSize_reads_first.
  - apply no_panic_TerminateMachine.
  - apply TerminateMachine_reads_first.
Qed.

(** With a node scaler that keeps its promises the rejections reported when
    no machine can be removed are all present, so that the text of the error
    can be formed (its method dereferences each of them). *)
Theorem rejections_are_never_nil {K B : Iface} `{!NodeScaler K, !CloudPoolClient B} (n : Z) (t : trace (sum_iface K B)) rs :
  runs (proxy_SetDesiredSize n) t (Done (Some (NoViableScaleDownCandidateError rs))) → Forall is_Some rs.
Proof.
  intros H. apply runs_interp in H as (evs & segs & Hr & _ & Hi). apply SetDesiredSize_runs in Hr.
  remember (Some (NoViableScaleDownCandidateError rs)) as r0 eqn:Er.
  destruct Hr as [| | | |nodes pool tc rs' Hlt Hc| |]; try discriminate Er. simplify_eq.
  apply implements_app in Hi as (s1 & s2 & _ & _ & Hi). clear s1 segs Hlt. revert s2 Hi.
  remember [] as cs eqn:Ecs. induction Hc as [|p ps t' cs rs He _ IH| |p ps t' cs rs b e He _ IH|p ps t' cs rs He _ IH];
    intros segs Hi; simplify_eq/=; constructor.
  - unfold isMachineEvictable. rewrite He. eauto.
  - by eapply IH.
  - eauto.
  - apply implements_cons in Hi as (seg & segs' & -> & _ & Hi). by eapply IH.
  - apply implements_cons in Hi as (seg & segs' & -> & Hv & _). unfold wire in Hv.
    apply runs_lift_l in Hv as (tv & _ & Hv). apply (returns_runs _ _ _ _ (ns_verdict _)) in Hv. naive_solver.
  - apply implements_cons in Hi as (seg & segs' & -> & _ & Hi). by eapply IH.
Qed.
End SystemClaims.

(** ** Witnesses *)

#[local] Existing Instance map_to_list_range.
#[local] Existing Instance insertion_sort.

(** A pool as the backend would write it. *)
Definition pool_text (pool : MachinePoolMessage) : string := write_json (MachinePoolMessage_json pool).

(** A cluster with the given nodes and a backend with the given pool, both
    accepting every change. *)
Definition services_env (infos : list NodeInfo) (pool : MachinePoolMessage) : env (sum_iface KubeClient HTTPBackend) :=
  λ _ c, match c with
         | inl c => cluster_answer infos [sample_budget 1] c
         | inr (ClientDo out) =>
             Ok (MkResponse 200 "200 OK" ∅ (if String.eqb (Out_Method out) "GET" then pool_text pool else "") None)
         end.

Definition sample_services : env (sum_iface KubeClient HTTPBackend) := services_env sample_nodes (sample_pool true).

#[local] Instance witness_lib : GoLib := plain_lib.
#[local] Instance witness_client : CloudPoolClient HTTPBackend := HTTPCloudPoolClient sample_client.

Definition sample_proxy_resize (n : Z) : Prog (sum_iface KubeClient HTTPBackend) (option error) := proxy_SetDesiredSize n.
Definition sample_proxy_termination : Prog (sum_iface KubeClient HTTPBackend) (option error) :=
  proxy_TerminateMachine "i-2" false.

Definition resize_trace : trace (sum_iface KubeClient HTTPBackend) := (exec sample_services [] (sample_proxy_resize 2)).1.
Definition termination_trace : trace (sum_iface KubeClient HTTPBackend) :=
  (exec sample_services [] sample_proxy_termination).1.

Definition terminate_request (id : string) (dec : bool) : OutRequest :=
  MkOutRequest "POST" "http://pool:9010/pool/terminate" (Header_Add json_header "X-Forwarded-For" "")
    (enc_terminate id dec) DefaultBackendTimeout.
Definition accepted : result error Response := Ok (MkResponse 200 "200 OK" ∅ "" None).

Lemma resize_trace_end : resize_trace = removelast resize_trace ++ [http_event (terminate_request "i-3" true) accepted].
Proof. vm_compute. reflexivity. Qed.

Lemma termination_trace_end :
  termination_trace = removelast termination_trace ++ [http_event (terminate_request "i-2" false) accepted].
Proof. vm_compute. reflexivity. Qed.

(** The machine a terminate request names. *)
Lemma terminate_request_id id dec id' dec' :
  backend_asks sample_client (ClientDo (terminate_request id dec)) (Terminate id' dec') →
  enc_terminate id dec = enc_terminate id' dec'.
Proof. by intros (_ & _ & H). Qed.

Lemma resize_is_safe_end_to_end_witness :
  ∃ v, enc_terminate "i-3" true = enc_terminate (ID (PairMachine v)) true ∧
    ready_to_terminate v (removelast resize_trace).
Proof.
  destruct (resize_is_safe_end_to_end sample_client 2 resize_trace _ (removelast resize_trace)
    (terminate_request "i-3" true) accepted [] (exec_runs sample_services (sample_proxy_resize 2) []) resize_trace_end)
    as [(Ha & _)|(v & Ha & _ & _ & Hr)]; [discriminate| |].
  - exfalso. destruct Ha as (_ & Hu & _). vm_compute in Hu. discriminate Hu.
  - exists v. split; [exact (terminate_request_id _ _ _ _ Ha)|exact Hr].
Defined.

Lemma termination_is_safe_end_to_end_witness :
  ∃ v, ID (PairMachine v) = "i-2"%string ∧ ready_to_terminate v (removelast termination_trace).
Proof.
  destruct (termination_is_safe_end_to_end sample_client "i-2" false termination_trace _ (removelast termination_trace)
    (terminate_request "i-2" false) accepted [] (exec_runs sample_services sample_proxy_termination []) termination_trace_end)
    as (_ & v & Hid & _ & _ & Hr); [discriminate|].
  exists v. split; [exact Hid|exact Hr].
Defined.

(** The pod without the optional field makes the check of its node panic. *)
Definition panicking_services : env (sum_iface KubeClient HTTPBackend) :=
  services_env (unset_controller_node :: sample_nodes) (MkMachinePoolMessage (Some [sample_machine "i-9" true]) sample_time).

Lemma panic_leaves_services_unchanged_witness :
  Forall (λ e : event (sum_iface KubeClient HTTPBackend), service_changes (projT1 e) = false)
    (exec panicking_services [] (sample_proxy_resize 0)).1.
Proof.
  assert (match (exec panicking_services [] (sample_proxy_resize 0)).2 with Panicked _ => True | _ => False end) as E
    by (vm_compute; exact I).
  pose proof (exec_runs panicking_services (sample_proxy_resize 0) []) as H.
  destruct ((exec panicking_services [] (sample_proxy_resize 0)).2) as [r|m]; [destruct E|].
  apply (panic_leaves_services_unchanged 0 "" false _ m). left. exact H.
Defined.

Definition refusing_services : env (sum_iface KubeClient HTTPBackend) := services_env sample_nodes (sample_pool false).

Lemma rejections_are_never_nil_witness : ∃ rs, length rs = 3%nat ∧ Forall is_Some rs (A := option NoScaleDownCandidateError).
Proof.
  assert (match (exec refusing_services [] (sample_proxy_resize 2)).2 with
          | Done (Some (NoViableScaleDownCandidateError rs)) => length rs = 3%nat | _ => False end) as E
    by (vm_compute; reflexivity).
  pose proof (exec_runs refusing_services (sample_proxy_resize 2) []) as H.
  destruct ((exec refusing_services [] (sample_proxy_resize 2)).2) as [[[]|]|]; try contradiction.
  exists Rejections. split; [exact E|]. exact (rejections_are_never_nil 2 _ _ H).
Defined.
