(* ===== verification/World.v ===== *)
(** * What an update does to the cluster and the pool

    The safety theorems hold for every reply of the services.  Here the
    services have a state: the nodes with their pods and taints, the active
    machines of the pool and its desired size.  [PoolWorld] states what the
    proxy's collaborators promise about it, and [resize_world] and
    [terminate_world] say what the two operations of the proxy leave behind,
    whatever fails on the way: calls may fail, and a failed deletion or
    termination may nevertheless have happened.

    As long as only reads were made, nothing has changed at all.  Draining
    changes pods and taints, on the drained node and where its pods go, so that
    from the first removal on only the [view] is described: which workers and
    machines there are, and the desired size. *)
From stdpp Require Import base tactics list strings gmap.
From Stdlib Require Import ZArith Lia.
From S2P Require Import Prelude Strconv GoStd KubeTypes Json NodeInfo NodeScaler CloudPool PoolClient Proxy.

Local Open Scope Z_scope.

(** ** Services with a state *)

Section Replay.
Context {I : Iface} {W : Type} (effect : W → event I → W → Prop).

(** The calls of a trace, with their effects. *)
Inductive replay : W → trace I → W → Prop :=
| replay_nil w : replay w [] w
| replay_cons w e w1 t w2 : effect w e w1 → replay w1 t w2 → replay w (e :: t) w2.

Lemma replay_app w t1 t2 w' : replay w (t1 ++ t2) w' ↔ ∃ w1, replay w t1 w1 ∧ replay w1 t2 w'.
Proof.
  split.
  - revert w. induction t1 as [|e t1 IH]; intros w H; simpl in H; [exists w; split; [constructor|done]|].
    inversion H as [|? ? w1 ? ? He Hr]; subst. apply IH in Hr as (w2 & H1 & H2). exists w2. split; [|done]. by econstructor.
  - intros (w1 & H1 & H2). induction H1; [done|]. simpl. econstructor; eauto.
Qed.

Lemma replay_single w e w' : replay w [e] w' ↔ effect w e w'.
Proof.
  split; [|intros H; econstructor; [exact H|constructor]].
  intros H. inversion H as [|? ? w1 ? ? He Hr]; subst. by inversion Hr; subst.
Qed.

(** What no call of the trace changes stays. *)
Lemma replay_keeps {V} (f : W → V) w t w' :
  replay w t w' → (∀ e w1 w2, e ∈ t → effect w1 e w2 → f w2 = f w1) → f w' = f w.
Proof.
  induction 1 as [|w e w1 t w2 He _ IH]; intros H; [done|].
  rewrite IH; [by eapply H; [left|]|]. intros e' ? ? Hin. apply H. by right.
Qed.
End Replay.

(** What draining leaves as it is: the worker nodes with their names and
    external IDs, the IDs of the active machines of the pool, and its desired
    size. *)
Record view : Type := View { workers : list (string * string); active : list string; desired : Z }.

(** The worker nodes that have an active machine. *)
Definition pairs_of (v : view) : list (string * string) := filter (λ i, i.2 ∈ active v) (workers v).

(** Without the nodes of these names, or the machines of these IDs. *)
Definition drop_nodes (names : list string) (xs : list (string * string)) : list (string * string) := filter (λ i, i.1 ∉ names) xs.
Definition drop_ids (ids xs : list string) : list string := filter (λ x, x ∉ ids) xs.

Definition delete_node (name : string) (v : view) : view := View (drop_nodes [name] (workers v)) (active v) (desired v).
Definition drop_machine (id : string) (dec : bool) (v : view) : view :=
  View (workers v) (drop_ids [id] (active v)) (if dec then desired v - 1 else desired v).

Definition ident (n : NodeInfo) : string * string := (nodeName n, ExternalID (Node_Spec (NodeOf n))).

Definition active_ids (pool : MachinePoolMessage) : list string := map ID (FilterMachines (Machines pool) [IsMachineActive]).

(** The calls of the proxy that change what is viewed. *)
Definition alters (c : proxy_call) : bool :=
  match c with DeleteNode_call _ | TerminateMachine_call _ _ | SetDesiredSize_call _ => true | _ => false end.

(** What the node scaler and the cloudpool client promise: names and external
    IDs are unique; listings are truthful; checks and listings change nothing,
    and draining nothing that is viewed; a deletion or termination that
    succeeds happened, and one that fails happened or not; a resize leaves the
    nodes alone.  Only machines with ASCII IDs can be asked for reliably.
    Between the calls nothing changes by itself. *)
Class PoolWorld (W : Type) : Type := {
  effect : W → event ProxyDeps → W → Prop;
  whole : W → list NodeInfo;
  seen : W → view;
  unique : ∀ w, NoDup (workers (seen w)).*1 ∧ NoDup (workers (seen w)).*2;
  listed : ∀ w ns w', effect w (pev ListWorkerNodes_call (Ok ns)) w' → map ident ns = workers (seen w);
  pooled : ∀ w pool w', effect w (pev GetMachinePool_call (Ok pool)) w' → active_ids pool = active (seen w);
  fetched : ∀ w id m w', effect w (pev (GetMachine_call id) (Ok m)) w' → ID m = id;
  reads : ∀ w c r w', changes c = false → effect w (pev c r) w' → whole w' = whole w ∧ seen w' = seen w;
  unaltered : ∀ w c r w', alters c = false → effect w (pev c r) w' → seen w' = seen w;
  deletes : ∀ w n r w', effect w (pev (DeleteNode_call n) r) w' →
    seen w' = delete_node (nodeName n) (seen w) ∨ r ≠ None ∧ seen w' = seen w;
  terminates : ∀ w id dec r w', is_ascii_string id = true → effect w (pev (TerminateMachine_call id dec) r) w' →
    seen w' = drop_machine id dec (seen w) ∨ r ≠ None ∧ seen w' = seen w;
  resizes : ∀ w n r w', int64_range n → effect w (pev (SetDesiredSize_call n) r) w' →
    whole w' = whole w ∧ workers (seen w') = workers (seen w) ∧ (r = None → desired (seen w') = n) }.

(** ** Removing pairs *)

Definition pair_ident (p : NodeMachinePair) : string * string := (nodeName (KubeNode p), ID (PairMachine p)).

(** The nodes and the machines of the pairs are gone. *)
Definition pruned (vs : list (string * string)) (dec : bool) (v : view) : view :=
  View (drop_nodes vs.*1 (workers v)) (drop_ids vs.*2 (active v)) (if dec then desired v - Z.of_nat (length vs) else desired v).

(** What a removal that failed leaves: node and machine are both there, the node
    is gone, or both are gone. *)
Definition half_removed (p : string * string) (dec : bool) (v v' : view) : Prop :=
  v' = v ∨ v' = delete_node p.1 v ∨ v' = pruned [p] dec v.

Lemma drop_nodes_app a b xs : drop_nodes a (drop_nodes b xs) = drop_nodes (b ++ a) xs.
Proof. unfold drop_nodes. rewrite list_filter_filter. apply list_filter_iff. set_solver. Qed.

Lemma drop_ids_app a b xs : drop_ids a (drop_ids b xs) = drop_ids (b ++ a) xs.
Proof. unfold drop_ids. rewrite list_filter_filter. apply list_filter_iff. set_solver. Qed.

Lemma filter_ext_in {A} (P Q : A → Prop) `{∀ x, Decision (P x), ∀ x, Decision (Q x)} (xs : list A) :
  (∀ x, x ∈ xs → P x ↔ Q x) → filter P xs = filter Q xs.
Proof.
  induction xs as [|x xs IH]; intros HPQ; [done|].
  assert (filter P xs = filter Q xs) as IH' by (apply IH; intros y Hy; apply HPQ; by right).
  specialize (HPQ x ltac:(left)). destruct (decide (P x)) as [Hx|Hx].
  - rewrite (filter_cons_True P), (filter_cons_True Q) by tauto. by rewrite IH'.
  - rewrite (filter_cons_False P), (filter_cons_False Q) by tauto. done.
Qed.

Lemma filter_complement_length {A} (P : A → Prop) `{∀ x, Decision (P x)} (xs : list A) :
  (length (filter P xs) + length (filter (λ x, ¬ P x) xs))%nat = length xs.
Proof.
  induction xs as [|x xs IH]; [done|]. destruct (decide (P x)) as [Hx|Hx].
  - rewrite (filter_cons_True P), (filter_cons_False (λ x, ¬ P x)) by tauto. simpl. lia.
  - rewrite (filter_cons_False P), (filter_cons_True (λ x, ¬ P x)) by tauto. simpl. lia.
Qed.

Lemma NoDup_fmap_eq {A B} (f : A → B) (xs : list A) x y : NoDup (f <$> xs) → x ∈ xs → y ∈ xs → f x = f y → x = y.
Proof.
  induction xs as [|z xs IH]; intros Hd Hx Hy E; [by apply not_elem_of_nil in Hx|].
  apply NoDup_cons in Hd as [Hz Hd]. apply elem_of_cons in Hx as [->|Hx], Hy as [->|Hy]; [done| | |by apply IH].
  - destruct Hz. rewrite E. by apply list_elem_of_fmap_2.
  - destruct Hz. rewrite <- E. by apply list_elem_of_fmap_2.
Qed.

Lemma filter_all {A} (P : A → Prop) `{∀ x, Decision (P x)} (xs : list A) : (∀ x, x ∈ xs → P x) → filter P xs = xs.
Proof.
  induction xs as [|x xs IH]; intros H'; [done|]. rewrite filter_cons_True by (apply H'; left). rewrite IH; [done|].
  intros y Hy. apply H'. by right.
Qed.

Lemma pruned_nil v : pruned [] true v = v.
Proof.
  destruct v. unfold pruned, drop_nodes, drop_ids. simpl. rewrite !filter_all by (intros; apply not_elem_of_nil). f_equal. lia.
Qed.

Lemma pruned_cons p vs v : pruned vs true (pruned [p] true v) = pruned (p :: vs) true v.
Proof. unfold pruned. cbn [workers active desired fmap list_fmap]. rewrite drop_nodes_app, drop_ids_app. f_equal. cbn [length]. lia. Qed.

(** Removing some of the pairs leaves the others. *)
Lemma pairs_of_pruned vs v :
  NoDup (workers v).*1 → NoDup (workers v).*2 → (∀ i, i ∈ vs → i ∈ pairs_of v) →
  pairs_of (pruned vs true v) = filter (λ i, i ∉ vs) (pairs_of v).
Proof.
  intros H1 H2 Hvs. unfold pairs_of, pruned, drop_nodes, drop_ids. cbn [workers active]. rewrite !list_filter_filter.
  assert (Hin : ∀ i, i ∈ vs → i ∈ workers v) by (intros i Hi%Hvs; by apply list_elem_of_filter in Hi as [_ ?]).
  apply filter_ext_in. intros [name id] Hi. simpl. rewrite list_elem_of_filter. split.
  - intros [[Hid Ha] Hn]. split; [|done]. intros Hv. apply Hn. by apply (list_elem_of_fmap_2 fst _ (name, id)).
  - intros [Hv Ha]. split_and!; [|done|].
    + intros ([n' id'] & -> & Hv')%list_elem_of_fmap_1. simpl in *.
      pose proof (NoDup_fmap_eq snd _ _ _ H2 Hi (Hin _ Hv') eq_refl). congruence.
    + intros ([n' id'] & -> & Hv')%list_elem_of_fmap_1. simpl in *.
      pose proof (NoDup_fmap_eq fst _ _ _ H1 Hi (Hin _ Hv') eq_refl). congruence.
Qed.

Section Effects.
Context `{sorter : !SliceSort, ranger : !MapRange, lib : !GoLib}.
Context {W : Type} `{!PoolWorld W}.
Variable nodeLoad : NodeInfo → float64.

Lemma replay_unaltered w t w' :
  replay effect w t w' → (∀ e, e ∈ t → alters (projT1 e) = false) → seen w' = seen w.
Proof.
  intros H Ht. eapply replay_keeps; [exact H|]. intros [c r] w1 w2 He. apply unaltered. exact (Ht _ He).
Qed.

(** Reads change nothing. *)
Lemma replay_reads w t w' :
  replay effect w t w' → Forall (λ e : event ProxyDeps, changes (projT1 e) = false) t →
  whole w' = whole w ∧ seen w' = seen w.
Proof.
  intros H Ht. rewrite Forall_forall in Ht.
  assert ((whole w', seen w') = (whole w, seen w)) as E; [|by injection E].
  eapply (replay_keeps _ (λ w, (whole w, seen w))); [exact H|].
  intros [c r] w1 w2 He Hw. by destruct (reads w1 c r w2 (Ht _ He) Hw) as [-> ->].
Qed.

Lemma replay_call w c r t w' :
  replay effect w (pev c r :: t) w' → ∃ w1, effect w (pev c r) w1 ∧ replay effect w1 t w'.
Proof. intros H. inversion H; subst. eauto. Qed.

Definition ascii_machine (p : NodeMachinePair) : Prop := is_ascii_string (ID (PairMachine p)) = true.

Lemma replay_removed p dec w w' :
  ascii_machine p → replay effect w (removed dec p) w' → seen w' = pruned [pair_ident p] dec (seen w).
Proof.
  intros Hp (w1 & H1 & (w2 & H2 & H3)%replay_call)%replay_call. apply replay_single in H3.
  apply unaltered in H1; [|done]. apply deletes in H2 as [H2|[? _]]; [|done]. apply terminates in H3 as [H3|[? _]]; [|done|done].
  rewrite H3, H2, H1. unfold pruned, drop_machine, delete_node. destruct dec; simpl; f_equal; lia.
Qed.

Lemma replay_failed p dec w t w' :
  ascii_machine p → removal_failed dec p t → replay effect w t w' → half_removed (pair_ident p) dec (seen w) (seen w').
Proof.
  intros Hp [e|e|e] H; apply replay_call in H as (w1 & H1 & H); apply unaltered in H1; try done; rewrite <- H1.
  - inversion H; subst. by left.
  - apply replay_single, deletes in H as [H|[_ H]]; [right; left|left]; exact H.
  - apply replay_call in H as (w2 & H2 & H). apply deletes in H2 as [H2|[? _]]; [|done].
    apply replay_single, terminates in H as [H|[_ H]]; [..|done]; right; [right|left]; rewrite H, H2; [|done].
    unfold pruned, drop_machine, delete_node. destruct dec; simpl; f_equal; lia.
Qed.

Lemma replay_removals vs w w' :
  Forall ascii_machine vs → replay effect w (concat (map (removed true) vs)) w' → seen w' = pruned (map pair_ident vs) true (seen w).
Proof.
  intros Hvs. revert w. induction Hvs as [|p vs Hp _ IH]; intros w H; cbn [map concat] in H.
  - inversion H; subst. symmetry. apply pruned_nil.
  - apply replay_app in H as (w1 & H1%replay_removed & H2%IH); [|done]. rewrite H2, H1. apply pruned_cons.
Qed.

Lemma replay_read_state w nodes pool t w' :
  replay effect w (read_state nodes pool ++ t) w' →
  ∃ w1, map ident nodes = workers (seen w) ∧ active_ids pool = active (seen w) ∧ whole w1 = whole w ∧ seen w1 = seen w ∧
    replay effect w1 t w'.
Proof.
  intros (w1 & H1 & (w2 & H2 & H)%replay_call)%replay_call. exists w2. destruct (reads _ ListWorkerNodes_call _ _ eq_refl H1) as [B1 E1].
  destruct (reads _ GetMachinePool_call _ _ eq_refl H2) as [B2 E2]. apply listed in H1. apply pooled in H2. rewrite E1 in *. by rewrite B2, B1, E2.
Qed.

(** The pairs the proxy makes of what it reads. *)
Lemma active_pairs_idents nodes pool v :
  map ident nodes = workers v → active_ids pool = active v → map pair_ident (active_pairs nodes pool) = pairs_of v.
Proof.
  intros Hw Ha. unfold pairs_of. rewrite <- Hw, <- Ha. unfold active_pairs, active_ids.
  generalize (FilterMachines (Machines pool) [IsMachineActive]). intros ms. clear Hw Ha.
  induction nodes as [|n ns IH]; [done|]. cbn [pairNodesWithMachines map].
  destruct (machine_with_id _ ms) as [m|] eqn:E.
  - apply machine_with_id_Some in E as [Hm Hid]. rewrite filter_cons_True.
    2: { simpl. rewrite <- Hid. by apply list_elem_of_fmap_2. }
    cbn [map]. rewrite IH. unfold pair_ident, ident. simpl. by rewrite Hid.
  - rewrite filter_cons_False, IH; [done|]. simpl. intros (m & Hid & Hm)%list_elem_of_fmap.
    by eapply machine_with_id_None in E.
Qed.

(** What a resize leaves behind, by the calls it made: [b] and [v] are the nodes
    and the view before, [b'] and [v'] after, and [r] is the result.  The
    candidates [cs] are those of the pairs that were read whose machine is
    evictable and whose node was approved ([checked]). *)
Inductive resize_leaves (n : Z) (b b' : list NodeInfo) (v v' : view) : trace ProxyDeps → option error → Prop :=
| resize_unread t e :
    t = [pev ListWorkerNodes_call (Err e)] ∨ (∃ nodes, t = [pev ListWorkerNodes_call (Ok nodes); pev GetMachinePool_call (Err e)]) →
    b' = b → v' = v → ∀ msg, resize_leaves n b b' v v' t (Some msg)
| resize_by_pool nodes pool answer r :
    Z.of_nat (length (pairs_of v)) ≤ n → b' = b → workers v' = workers v →
    (r = None ↔ answer = None) → (r = None → desired v' = n) →
    resize_leaves n b b' v v' (read_state nodes pool ++ [pev (SetDesiredSize_call n) answer]) r
| resize_no_candidate nodes pool t rs :
    n < Z.of_nat (length (pairs_of v)) → map pair_ident (active_pairs nodes pool) = pairs_of v →
    checked (active_pairs nodes pool) t [] rs → b' = b → v' = v →
    resize_leaves n b b' v v' (read_state nodes pool ++ t) (Some (NoViableScaleDownCandidateError rs))
| resize_scaled_down nodes pool t cs rs vs :
    n < Z.of_nat (length (pairs_of v)) → map pair_ident (active_pairs nodes pool) = pairs_of v →
    checked (active_pairs nodes pool) t cs rs → cs ≠ [] →
    NoDup (map pair_ident vs) → (∀ p, p ∈ vs → p ∈ cs) →
    Z.of_nat (length vs) = (Z.of_nat (length (pairs_of v)) - n) `min` Z.of_nat (length cs) →
    v' = pruned (map pair_ident vs) true v →
    Z.of_nat (length (pairs_of v')) = n `max` (Z.of_nat (length (pairs_of v)) - Z.of_nat (length cs)) →
    resize_leaves n b b' v v' (read_state nodes pool ++ t ++ concat (map (removed true) vs)) None
| resize_stopped nodes pool t cs rs vs p t' e :
    n < Z.of_nat (length (pairs_of v)) → map pair_ident (active_pairs nodes pool) = pairs_of v →
    checked (active_pairs nodes pool) t cs rs → removal_failed true p t' →
    NoDup (map pair_ident (vs ++ [p])) → (∀ q, q ∈ vs ++ [p] → q ∈ cs) →
    half_removed (pair_ident p) true (pruned (map pair_ident vs) true v) v' →
    n ≤ Z.of_nat (length (pairs_of v')) →
    resize_leaves n b b' v v' (read_state nodes pool ++ t ++ concat (map (removed true) vs) ++ t') (Some e).

Lemma pruned_count vs v :
  NoDup (workers v).*1 → NoDup (workers v).*2 → NoDup vs → (∀ i, i ∈ vs → i ∈ pairs_of v) →
  length (pairs_of (pruned vs true v)) = (length (pairs_of v) - length vs)%nat.
Proof.
  intros H1 H2 Hd Hvs. rewrite pairs_of_pruned by done.
  assert (NoDup (pairs_of v)) as Hp by (apply NoDup_filter; by eapply NoDup_fmap_1).
  assert (vs ≡ₚ filter (λ i, i ∈ vs) (pairs_of v)) as Hin.
  { apply NoDup_Permutation; [done|by apply NoDup_filter|]. intros i. rewrite list_elem_of_filter. naive_solver. }
  pose proof (Permutation_length Hin).
  pose proof (filter_complement_length (λ i, i ∈ vs) (pairs_of v)) as Hc. cbn beta in Hc. rewrite <- Hc, <- H. lia.
Qed.

(** At most one more pair is lost when a removal fails. *)
Lemma half_removed_count p v v' :
  NoDup (workers v).*1 → NoDup (workers v).*2 → p ∈ pairs_of v → half_removed p true v v' →
  (length (pairs_of v) - 1 ≤ length (pairs_of v'))%nat.
Proof.
  intros H1 H2 Hp [->|[->| ->]]; [lia| |rewrite pruned_count; [done|done|done|apply NoDup_singleton|set_solver]].
  pose proof (pruned_count [p] v H1 H2 (NoDup_singleton p) ltac:(set_solver)) as Hc. simpl in Hc. rewrite <- Hc.
  rewrite pairs_of_pruned by (done || set_solver). unfold pairs_of, delete_node, drop_nodes. cbn [workers active].
  rewrite !list_filter_filter. apply Nat.eq_le_incl, f_equal, filter_ext_in. intros i Hi. rewrite !list_elem_of_singleton.
  apply list_elem_of_filter in Hp as [_ Hp]. split; [|naive_solver]. intros [Hne Ha]. split; [done|]. intros E.
  apply Hne. by apply (NoDup_fmap_eq fst _ _ _ H1 Hi Hp).
Qed.

Lemma stopped_count vs p v v' :
  NoDup (workers v).*1 → NoDup (workers v).*2 → NoDup (vs ++ [p]) → (∀ i, i ∈ vs ++ [p] → i ∈ pairs_of v) →
  half_removed p true (pruned vs true v) v' → (length (pairs_of v) - length vs - 1 ≤ length (pairs_of v'))%nat.
Proof.
  intros H1 H2 Hd Hin Hh. apply NoDup_app in Hd as (Hd & Hp & _).
  rewrite <- (pruned_count vs v) by (done || set_solver). eapply half_removed_count; [| | |exact Hh].
  - eapply sublist_NoDup; [exact H1|]. apply fmap_sublist, sublist_filter.
  - eapply sublist_NoDup; [exact H2|]. apply fmap_sublist, sublist_filter.
  - rewrite pairs_of_pruned by (done || set_solver). apply list_elem_of_filter. split; [|set_solver].
    intros Hv. apply (Hp p Hv). set_solver.
Qed.

Lemma checked_unaltered ps t cs rs w w' :
  checked ps t cs rs → replay effect w t w' → whole w' = whole w ∧ seen w' = seen w.
Proof.
  intros Hc Hr. eapply replay_reads; [exact Hr|]. apply Forall_forall. intros e He.
  by destruct (checked_calls _ _ _ _ _ Hc He) as (p & r & _ & ->).
Qed.

(** The victims among the pairs: distinct, and as many as are in excess or can
    be removed. *)
Lemma victims_spec n ps t cs rs victims :
  0 ≤ n → NoDup (map pair_ident ps) → Z.of_nat (length ps) ≤ MaxInt64 → n < Z.of_nat (length ps) → checked ps t cs rs →
  victims = take (victim_count (wrap64 (Z.of_nat (length ps) - n)) cs) (sortByLoad nodeLoad cs) →
  NoDup (map pair_ident victims) ∧ (∀ p, p ∈ victims → p ∈ cs) ∧ cs `sublist_of` ps ∧
  Z.of_nat (length victims) = (Z.of_nat (length ps) - n) `min` Z.of_nat (length cs).
Proof.
  intros Hn Hd Hmax Hlt Hc ->. destruct (checked_sublist _ _ _ _ Hc) as [Hsub Hlen].
  rewrite wrap64_small by (unfold int64_range, MinInt64, MaxInt64 in *; lia).
  pose proof (sortSlice_perm (byLoad nodeLoad) cs) as Hperm. fold (sortByLoad nodeLoad cs) in Hperm.
  assert (NoDup (map pair_ident cs)) as Hcs.
  { eapply sublist_NoDup; [exact Hd|]. by apply fmap_sublist. }
  split_and!; [| |done|].
  - eapply sublist_NoDup; [|apply fmap_sublist, sublist_take]. change (NoDup (pair_ident <$> sortByLoad nodeLoad cs)).
    by rewrite Hperm.
  - intros p Hp. rewrite <- Hperm. eapply elem_of_sublist; [exact Hp|apply sublist_take].
  - rewrite length_take, (Permutation_length Hperm). unfold victim_count. lia.
Qed.

Section Resize.
Variables (n : Z) (w : W).
Hypothesis size_natural : 0 ≤ n ≤ MaxInt64.
Hypothesis few_workers : Z.of_nat (length (workers (seen w))) ≤ MaxInt64.
Hypothesis ascii_ids : Forall (λ id, is_ascii_string id = true) (active (seen w)).

(** The pairs of what is read: those of the state. *)
Definition pairs_read (ps : list NodeMachinePair) : Prop :=
  map pair_ident ps = pairs_of (seen w) ∧ length ps = length (pairs_of (seen w)) ∧ NoDup (map pair_ident ps) ∧
  Z.of_nat (length ps) ≤ MaxInt64 ∧ Forall ascii_machine ps.

Lemma replay_pairs nodes pool t w' :
  replay effect w (read_state nodes pool ++ t) w' →
  ∃ w1, pairs_read (active_pairs nodes pool) ∧ whole w1 = whole w ∧ seen w1 = seen w ∧ replay effect w1 t w'.
Proof.
  intros (w1 & Hw & Ha & Eb & E & Hr)%replay_read_state. exists w1. split; [|done]. destruct (unique w) as [H1 _].
  pose proof (active_pairs_idents _ _ _ Hw Ha) as Ei. pose proof (f_equal length Ei) as El. rewrite length_map in El. split_and!; [done|done|..].
  - rewrite Ei. apply NoDup_filter. by eapply NoDup_fmap_1.
  - rewrite El. etransitivity; [|exact few_workers]. apply Nat2Z.inj_le. apply length_filter.
  - apply Forall_forall. intros p Hp. rewrite Forall_forall in ascii_ids. apply ascii_ids.
    apply (list_elem_of_fmap_2 pair_ident) in Hp. change (pair_ident <$> _) with (map pair_ident (active_pairs nodes pool)) in Hp.
    rewrite Ei in Hp. by apply list_elem_of_filter in Hp as [? _].
Qed.

Lemma ascii_victims ps cs victims :
  pairs_read ps → (∀ p, p ∈ victims → p ∈ cs) → cs `sublist_of` ps → Forall ascii_machine victims.
Proof.
  intros (_ & _ & _ & _ & Ha) Hin Hsub. rewrite !Forall_forall in *. intros p Hp. apply Ha. eapply elem_of_sublist; [|exact Hsub]. auto.
Qed.

Lemma scaled_down_leaves nodes pool tc cs rs victims w1 w' :
  let ps := active_pairs nodes pool in
  pairs_read ps → seen w1 = seen w → n < Z.of_nat (length ps) → checked ps tc cs rs → cs ≠ [] →
  victims = take (victim_count (wrap64 (Z.of_nat (length ps) - n)) cs) (sortByLoad nodeLoad cs) →
  replay effect w1 (tc ++ concat (map (removed true) victims)) w' →
  resize_leaves n (whole w) (whole w') (seen w) (seen w') (read_state nodes pool ++ tc ++ concat (map (removed true) victims)) None.
Proof.
  intros ps Hps E Hlt Hc Hne Hv (w2 & Hc' & Hr)%replay_app. pose proof Hps as (Ei & El & Hd & Hl & _). destruct (unique w) as [H1 H2].
  destruct (victims_spec _ _ _ _ _ _ (proj1 size_natural) Hd Hl Hlt Hc Hv) as (Hdv & Hin & Hsub & Hlen).
  apply replay_removals in Hr; [|by eapply ascii_victims]. rewrite (proj2 (checked_unaltered _ _ _ _ _ _ Hc Hc')), E in Hr.
  assert (Hin' : ∀ i, i ∈ map pair_ident victims → i ∈ pairs_of (seen w)).
  { intros i (p & -> & Hp)%list_elem_of_fmap. rewrite <- Ei. apply list_elem_of_fmap_2. eapply elem_of_sublist; [|exact Hsub]. by apply Hin. }
  apply (resize_scaled_down _ _ _ _ _ nodes pool tc cs rs victims); try done; [by rewrite <- El|by rewrite <- El|].
  rewrite Hr, pruned_count by done. rewrite length_map, <- El. pose proof (sublist_length _ _ Hsub). lia.
Qed.

Lemma stopped_leaves nodes pool tc cs rs done v rest tf e w1 w' :
  let ps := active_pairs nodes pool in
  pairs_read ps → seen w1 = seen w → n < Z.of_nat (length ps) → checked ps tc cs rs →
  done ++ v :: rest = take (victim_count (wrap64 (Z.of_nat (length ps) - n)) cs) (sortByLoad nodeLoad cs) →
  removal_failed true v tf → replay effect w1 (tc ++ concat (map (removed true) done) ++ tf) w' →
  resize_leaves n (whole w) (whole w') (seen w) (seen w')
    (read_state nodes pool ++ tc ++ concat (map (removed true) done) ++ tf) (Some e).
Proof.
  intros ps Hps E Hlt Hc Hv Hf (w2 & Hc' & (w3 & Hr & Hf')%replay_app)%replay_app. pose proof Hps as (Ei & El & Hd & Hl & _).
  destruct (unique w) as [H1 H2]. destruct (victims_spec _ _ _ _ _ _ (proj1 size_natural) Hd Hl Hlt Hc Hv) as (Hdv & Hin & Hsub & Hlen).
  pose proof (ascii_victims _ _ _ Hps Hin Hsub) as [Hdone [Hav _]%Forall_cons]%Forall_app.
  apply replay_removals in Hr; [|done]. rewrite (proj2 (checked_unaltered _ _ _ _ _ _ Hc Hc')), E in Hr.
  apply (replay_failed _ _ _ _ _ Hav Hf) in Hf'. rewrite Hr in Hf'.
  assert (Hvs : ∀ q, q ∈ done ++ [v] → q ∈ cs) by (intros q Hq; apply Hin; set_solver).
  assert (Hin' : ∀ i, i ∈ map pair_ident (done ++ [v]) → i ∈ pairs_of (seen w)).
  { intros i (p & -> & Hp)%list_elem_of_fmap. rewrite <- Ei. apply list_elem_of_fmap_2. eapply elem_of_sublist; [|exact Hsub].
    by apply Hvs. }
  assert (Hd' : NoDup (map pair_ident (done ++ [v]))).
  { eapply sublist_NoDup; [exact Hdv|]. apply fmap_sublist, sublist_app; [reflexivity|]. apply sublist_skip, sublist_nil_l. }
  apply (resize_stopped _ _ _ _ _ nodes pool tc cs rs done v); try assumption; [by rewrite <- El|].
  rewrite map_app in Hin', Hd'. pose proof (stopped_count _ _ _ _ H1 H2 Hd' Hin' Hf') as Hs. rewrite length_map in Hs.
  rewrite length_app in Hlen. cbn [length] in Hlen. lia.
Qed.

Lemma resize_world t r w' :
  runs (SetDesiredSize nodeLoad n) t (Done r) → replay effect w t w' →
  resize_leaves n (whole w) (whole w') (seen w) (seen w') t r.
Proof.
  intros H%SetDesiredSize_runs Hr. assert (int64_range n) as Hrange by (unfold int64_range, MinInt64, MaxInt64 in *; lia).
  destruct H as [e msg|nodes e msg|nodes pool Hle|nodes pool e msg Hle|nodes pool tc rs Hlt Hc
    |nodes pool tc cs rs victims Hlt Hc Hne Hv|nodes pool tc cs rs done v rest tf e Hlt Hc Hv Hf].
  1,2: apply replay_reads in Hr as [Hb Hs]; [|by repeat constructor]; eapply (resize_unread _ _ _ _ _ _ e); eauto.
  all: apply replay_pairs in Hr as (w1 & Hps & Eb & E & Hr); pose proof Hps as (Ei & El & _).
  1,2: apply replay_single, resizes in Hr as (Hb & Hk & Hs); [|exact Hrange];
    apply resize_by_pool; [by rewrite <- El|by rewrite Hb|by rewrite Hk, E|done|done].
  - destruct (checked_unaltered _ _ _ _ _ _ Hc Hr) as [Hb Hs]. apply resize_no_candidate; [by rewrite <- El|done|done|congruence..].
  - by eapply scaled_down_leaves.
  - by eapply stopped_leaves.
Qed.
End Resize.

(** What a request to terminate a machine leaves behind, by the calls it made. *)
Inductive terminate_leaves (id : string) (dec : bool) (b b' : list NodeInfo) (v v' : view) : trace ProxyDeps → option error → Prop :=
| terminate_refused t e :
    Forall (λ x : event ProxyDeps, changes (projT1 x) = false) t → b' = b → v' = v → terminate_leaves id dec b b' v v' t (Some e)
| terminate_done nodes p :
    pair_ident p ∈ workers v → ID (PairMachine p) = id → Evictable (Membership (PairMachine p)) = true →
    v' = pruned [pair_ident p] dec v →
    terminate_leaves id dec b b' v v'
      ([pev ListWorkerNodes_call (Ok nodes); pev (GetMachine_call id) (Ok (PairMachine p)); approved p] ++ removed dec p) None
| terminate_stopped nodes p t e :
    pair_ident p ∈ workers v → ID (PairMachine p) = id → Evictable (Membership (PairMachine p)) = true →
    removal_failed dec p t → half_removed (pair_ident p) dec v v' →
    terminate_leaves id dec b b' v v'
      ([pev ListWorkerNodes_call (Ok nodes); pev (GetMachine_call id) (Ok (PairMachine p)); approved p] ++ t) (Some e).

(** The pair that was fetched and approved. *)
Lemma replay_fetched w nodes id p t w' :
  KubeNode p ∈ nodes → ExternalID (Node_Spec (NodeOf (KubeNode p))) = id →
  replay effect w ([pev ListWorkerNodes_call (Ok nodes); pev (GetMachine_call id) (Ok (PairMachine p)); approved p] ++ t) w' →
  ∃ w1, pair_ident p ∈ workers (seen w) ∧ ID (PairMachine p) = id ∧ seen w1 = seen w ∧ replay effect w1 t w'.
Proof.
  intros Hn He (w1 & H1 & (w2 & H2 & (w3 & H3 & H)%replay_call)%replay_call)%replay_call. exists w3.
  destruct (reads _ ListWorkerNodes_call _ _ eq_refl H1) as [_ E1], (reads _ (GetMachine_call id) _ _ eq_refl H2) as [_ E2],
    (reads _ (IsScaleDownCandidate_call (KubeNode p)) _ _ eq_refl H3) as [_ E3].
  apply listed in H1. apply fetched in H2. rewrite E3, E2, E1. split_and!; try done.
  unfold pair_ident. rewrite H2, <- He, <- H1. by apply (list_elem_of_fmap_2 ident).
Qed.

Lemma terminate_world id dec w t r w' :
  is_ascii_string id = true → runs (TerminateMachine id dec) t (Done r) → replay effect w t w' →
  terminate_leaves id dec (whole w) (whole w') (seen w) (seen w') t r.
Proof.
  intros Hascii H%TerminateMachine_runs Hr.
  destruct H as [e msg|nodes msg Hno|nodes e msg|nodes p tc rs msg Hn He Hc|nodes p Hn He Hev|nodes p tf msg Hn He Hev Hf].
  1-3: apply replay_reads in Hr as [Hb Hs]; [|by repeat constructor]; apply terminate_refused; [by repeat constructor|done|done].
  - assert (Forall (λ x : event ProxyDeps, changes (projT1 x) = false)
      ([pev ListWorkerNodes_call (Ok nodes); pev (GetMachine_call id) (Ok (PairMachine p))] ++ tc)) as Hread.
    { repeat constructor. apply Forall_forall. intros e' He'. by destruct (checked_calls _ _ _ _ _ Hc He') as (q & r & _ & ->). }
    destruct (replay_reads _ _ _ Hr Hread). by apply terminate_refused.
  - apply replay_fetched in Hr as (w1 & Hw & Hid & E & Hr); [|done|done].
    apply replay_removed in Hr; [|red; by rewrite Hid]. rewrite E in Hr. by apply terminate_done.
  - apply replay_fetched in Hr as (w1 & Hw & Hid & E & Hr); [|done|done].
    eapply replay_failed in Hr; [|red; by rewrite Hid|exact Hf]. rewrite E in Hr. by apply terminate_stopped.
Qed.
End Effects.
