(* ===== verification/Backends.v ===== *)
(** * The services, with their state

    [Backends] states what the Kubernetes API and the cloudpool promise about
    single calls; with the default node scaler and the HTTP client that is what
    the proxy is promised ([wired_world]).  The results say what a resize and a
    termination request leave of the cluster and the pool ([resize_effect],
    [terminate_effect]).

    A store that answers every call keeps the promises ([cluster_backends]).
    On it two examples show what the proxy does not prevent
    ([removals_are_not_rechecked], [pool_shrinks_without_draining]). *)
From stdpp Require Import base tactics list strings gmap.
From Stdlib Require Import ZArith Lia.
From S2P Require Import Prelude Strconv GoStd Quantity KubeTypes Time Json NodeInfo Samples QuasiScheduler NodeScaler CloudPool Url PoolClient Messages Proxy System World.

Local Open Scope Z_scope.

(** ** The Kubernetes API and the cloudpool *)

(** What the two services hold: the nodes with their pods, the active machines
    and the desired size. *)
Class BackendState (W : Type) : Type := {
  infos : W → list NodeInfo;
  active_of : W → list string;
  target : W → Z }.

Section Backends.
Context `{sorter : !SliceSort, ranger : !MapRange, lib : !GoLib}.
Variable c : DefaultCloudPoolClient.

Definition view_of {W} `{!BackendState W} (w : W) : view :=
  View (map ident (filterNodes (infos w) [pnot isMasterNode])) (active_of w) (target w).

(** Nothing has changed. *)
Definition same_state {W} `{!BackendState W} (w w' : W) : Prop :=
  infos w' = infos w ∧ active_of w' = active_of w ∧ target w' = target w.

Lemma same_state_trans {W} `{!BackendState W} (w1 w2 w3 : W) : same_state w1 w2 → same_state w2 w3 → same_state w1 w3.
Proof. unfold same_state. intros (E1 & E2 & E3) (-> & -> & ->). done. Qed.

Lemma same_state_view {W} `{!BackendState W} (w w' : W) : same_state w w' → view_of w' = view_of w.
Proof. intros (E1 & E2 & E3). unfold view_of. by rewrite E1, E2, E3. Qed.

Definition kube_ev (k : kube_call) (r : kube_reply k) : event (sum_iface KubeClient HTTPBackend) :=
  ev (I := sum_iface KubeClient HTTPBackend) (inl k) r.
Definition http_ev (out : OutRequest) (r : result error Response) : event (sum_iface KubeClient HTTPBackend) :=
  ev (I := sum_iface KubeClient HTTPBackend) (inr (ClientDo out)) r.

(** What they promise: nodes have unique names and external IDs, and are read
    as they are; an update of a node, or the eviction of a pod that is not one
    of the system's, makes no node come, go or become a master; a GET changes
    nothing and reports the pool as it is; the calls that remove a node, a
    machine or set the size do so when they succeed, and possibly when they
    fail, and the last leaves the nodes alone.  Between the calls nothing
    changes by itself. *)
Class Backends (W : Type) `{!BackendState W} : Type := {
  react : W → event (sum_iface KubeClient HTTPBackend) → W → Prop;
  infos_unique : ∀ w, NoDup (map nodeName (infos w)) ∧ NoDup (map (λ n, (ident n).2) (infos w));
  kube_lists : ∀ w items w', react w (kube_ev KListNodes (Ok items)) w' →
    map (λ n, Name (Node_Meta n)) items = map nodeName (infos w);
  kube_gets : ∀ w name n w', react w (kube_ev (KGetNode name) (Ok n)) w' →
    ∃ i, i ∈ infos w ∧ nodeName i = name ∧ NodeOf i = n;
  kube_pods : ∀ w name pods w', react w (kube_ev (KListPods NamespaceAll (node_name_selector name)) (Ok pods)) w' →
    ∀ i, i ∈ infos w → nodeName i = name → Pods i = pods;
  kube_reads : ∀ w k r w', kube_mutates k = false → react w (kube_ev k r) w' → same_state w w';
  kube_drains : ∀ w k r w', drain_call k → react w (kube_ev k r) w' → view_of w' = view_of w;
  kube_deletes : ∀ w n r w', react w (kube_ev (KDeleteNode n) r) w' →
    view_of w' = delete_node (Name (Node_Meta n)) (view_of w) ∨ r ≠ None ∧ view_of w' = view_of w;
  http_reads : ∀ w out r w', Out_Method out = "GET"%string → react w (http_ev out r) w' → same_state w w';
  http_reports : ∀ w out resp w' pool, Out_Method out = "GET"%string → Out_URL out = poolURL c (urlPath (poolURL c "/pool")) →
    react w (http_ev out (Ok resp)) w' → StatusCode resp = StatusOK →
    decode (RespBody resp) = Done (Ok pool) → active_ids pool = active_of w;
  http_terminates : ∀ w out id dec r w', Out_Method out = "POST"%string →
    Out_URL out = poolURL c (urlPath (poolURL c "/pool/terminate")) →
    decode (Out_Body out) = Done (Ok (MkTerminateMachineMessage id dec)) → react w (http_ev out r) w' →
    view_of w' = drop_machine id dec (view_of w) ∨ ¬ ok_response r ∧ view_of w' = view_of w;
  http_resizes : ∀ w out n r w', Out_Method out = "POST"%string → Out_URL out = poolURL c (urlPath (poolURL c "/pool/size")) →
    decode (Out_Body out) = Done (Ok (MkSetDesiredSizeMessage (Some n))) → react w (http_ev out r) w' →
    infos w' = infos w ∧ (ok_response r → target w' = n) }.

Context {W : Type} `{!BackendState W, !Backends W}.

#[local] Existing Instance HTTPCloudPoolClient.

(** The effect of a call of the proxy is that of the calls it is wired to. *)
Definition wired_effect (w : W) (e : event ProxyDeps) (w' : W) : Prop :=
  ∃ seg, runs (wire (CloudPoolClient0 := HTTPCloudPoolClient c) (projT1 e)) seg (Done (projT2 e)) ∧ replay react w seg w'.

Lemma replay_wired evs segs w w' :
  implements (I := ProxyDeps) (wire (CloudPoolClient0 := HTTPCloudPoolClient c)) evs segs →
  replay react w (concat segs) w' → replay wired_effect w evs w'.
Proof.
  intros H. revert w. induction H as [|e seg evs segs Hr _ IH]; intros w H; cbn [concat] in H.
  - inversion H; subst. constructor.
  - apply replay_app in H as (w1 & H1 & H2). econstructor; [by exists seg|by apply IH].
Qed.

(** Reading the nodes gives the nodes. *)
Lemma replay_kube_reads w t w' :
  replay react w (map ev_l t) w' → Forall (λ e : event KubeClient, kube_mutates (projT1 e) = false) t →
  infos w' = infos w ∧ view_of w' = view_of w.
Proof.
  intros H Ht. assert (same_state w w') as Hsame; [|split; [apply Hsame|by apply same_state_view]].
  revert w H. induction Ht as [|[k r] t Hk _ IH]; intros w H; cbn [map] in H; inversion H as [|? ? w1 ? ? He Hr]; subst; [done|].
  apply kube_reads in He; [|done]. by eapply same_state_trans; [|apply IH].
Qed.

Lemma replay_read_nodes ns items w w' :
  length items = length ns →
  replay react w (map ev_l (concat (zip_with (λ info item, read_node info (Name (Node_Meta item))) ns items))) w' →
  map nodeName ns = map (λ n, Name (Node_Meta n)) items ∧ ∀ n, n ∈ ns → n ∈ infos w.
Proof.
  revert items w. induction ns as [|n ns IH]; intros [|item items] w Hl H; try discriminate Hl.
  { split; [done|]. intros n Hn. by apply not_elem_of_nil in Hn. }
  cbn [zip_with concat] in H. rewrite map_app in H. apply replay_app in H as (w1 & Hn & H).
  inversion Hn as [|? ? w2 ? ? Hg Hp]; subst. apply replay_single in Hp.
  pose proof (kube_reads _ (KGetNode _) _ _ eq_refl Hg) as (E1 & _). pose proof (kube_reads _ (KListPods _ _) _ _ eq_refl Hp) as (E2 & _).
  apply kube_gets in Hg as (i & Hi & Hname & Hof).
  assert (nodeName n = nodeName i) as Hni by (unfold nodeName; by rewrite Hof).
  assert (n = i) as ->.
  { destruct n as [node pods], i as [node' pods']. simpl in Hof. subst node'.
    rewrite <- E1 in Hi. pose proof (kube_pods _ _ _ _ Hp _ Hi eq_refl) as Hpods. simpl in Hpods. by subst. }
  destruct (IH items w1 ltac:(by injection Hl) H) as [Hm Hin]. split.
  - cbn [map]. by rewrite Hm, Hname.
  - intros n [->|Hn']%elem_of_cons; [done|]. rewrite <- E1, <- E2. by apply Hin.
Qed.

Lemma observed_infos t ns w w' : observed t ns → replay react w (map ev_l t) w' → ns = infos w.
Proof.
  intros (items & Hl & ->) H. cbn [map] in H. inversion H as [|? ? w1 ? ? He Hr]; subst.
  pose proof (kube_reads _ KListNodes _ _ eq_refl He) as (E & _). apply kube_lists in He.
  apply replay_read_nodes in Hr as [Hm Hin]; [|done]. rewrite E in Hin. rewrite He in Hm.
  destruct (infos_unique w) as [Hd _]. apply (list_eq_same_length _ _ (length (infos w))); [done| |].
  { pose proof (f_equal length Hm) as Hlen. by rewrite !length_map in Hlen. }
  intros i x y _ Hx Hy. apply (NoDup_fmap_eq nodeName (infos w)); [done| | |].
  - apply Hin. by eapply list_elem_of_lookup_2.
  - by eapply list_elem_of_lookup_2.
  - assert (map nodeName ns !! i = map nodeName (infos w) !! i) as Ei by by rewrite Hm.
    change (map nodeName) with (fmap (M := list) nodeName) in Ei. rewrite !list_lookup_fmap, Hx, Hy in Ei. by injection Ei.
Qed.

Lemma replay_drain_calls w t w' :
  replay react w (map ev_l t) w' → Forall (λ e : event KubeClient, drain_call (projT1 e)) t → view_of w' = view_of w.
Proof.
  intros H Ht. eapply (replay_keeps _ view_of); [exact H|]. intros e w1 w2 ([k r] & -> & He)%list_elem_of_fmap.
  apply kube_drains. rewrite Forall_forall in Ht. exact (Ht _ He).
Qed.

Lemma replay_http_reads w t w' :
  replay react w (map ev_r t) w' → Forall (λ e : event HTTPBackend, backend_changes (projT1 e) = false) t →
  infos w' = infos w ∧ view_of w' = view_of w.
Proof.
  intros H Ht. assert ((infos w', view_of w') = (infos w, view_of w)) as E; [|exact (conj (f_equal fst E) (f_equal snd E))].
  eapply (replay_keeps _ (λ w, (infos w, view_of w))); [exact H|]. intros e w1 w2 ([[out] r] & -> & He)%list_elem_of_fmap Hw.
  assert (same_state w1 w2) as Hs; [|by rewrite (same_state_view _ _ Hs), (proj1 Hs)]. eapply http_reads; [|exact Hw].
  rewrite Forall_forall in Ht. specialize (Ht _ He). simpl in Ht. apply negb_false_iff in Ht. by apply String.eqb_eq.
Qed.

Lemma reads_are_drain_calls (t : trace KubeClient) :
  Forall (λ e : event KubeClient, kube_mutates (projT1 e) = false) t → Forall (λ e : event KubeClient, drain_call (projT1 e)) t.
Proof. intros H. eapply Forall_impl; [exact H|]. by intros [[] r]. Qed.

(** What a read of the pool that succeeds was answered. *)
Lemma GetMachinePool_answer t pool :
  runs (GetMachinePool c) t (Done (Ok pool)) →
  ∃ out resp, t = [ev (I := HTTPBackend) (ClientDo out) (Ok resp)] ∧ Out_Method out = "GET"%string ∧
    Out_URL out = poolURL c (urlPath (poolURL c "/pool")) ∧ StatusCode resp = StatusOK ∧
    Unmarshal (MkMachinePoolMessage None zero_time) dec_pool (RespBody resp) = Done (Ok pool).
Proof.
  unfold GetMachinePool. destruct (newRequestError _ _); [by intros [_ ?]|]. intros H.
  apply runs_bind in H as [(t1 & t2 & r & -> & H1 & H)|(m & ? & _)]; [|done].
  apply doRequest_runs in H1 as [(_ & _ & m & d & [= ->])|(_ & x & -> & [(Hok & resp & -> & [= ->])|(_ & m & d & [= ->])])];
    [by destruct H| |by destruct H].
  apply runs_bind in H as [(t3 & t4 & r & -> & H1 & H)|(m & ? & _)]; [|done]. apply runs_pure in H1 as [-> Hu].
  destruct r as [p|e]; destruct H as [-> [= <-]]. eexists _, resp. split_and!; try done.
  by destruct Hok as (resp' & [= <-] & ? & _).
Qed.

Lemma wired_reads w k r w' : changes k = false → wired_effect w (pev k r) w' → infos w' = infos w ∧ view_of w' = view_of w.
Proof.
  intros Hk (seg & Hr & H). destruct k; try discriminate Hk; cbn [projT1 projT2 wire] in Hr;
    apply runs_lift_l in Hr as (t & -> & Hr) || apply runs_lift_r in Hr as (t & -> & Hr).
  - eapply replay_kube_reads; [exact H|]. exact (calls_only_runs _ _ _ _ ListWorkerNodes_reads Hr).
  - eapply replay_kube_reads; [exact H|]. exact (calls_only_runs _ _ _ _ (IsScaleDownCandidate_reads node) Hr).
  - eapply replay_http_reads; [exact H|].
    exact (calls_only_runs _ _ _ _ (cp_pool_reads (CloudPoolClient := HTTPCloudPoolClient c)) Hr).
  - eapply replay_http_reads; [exact H|].
    exact (calls_only_runs _ _ _ _ (cp_machine_reads (CloudPoolClient := HTTPCloudPoolClient c) machineID) Hr).
Qed.

Lemma wired_unaltered w k r w' : alters k = false → wired_effect w (pev k r) w' → view_of w' = view_of w.
Proof.
  intros Hk H. destruct (changes k) eqn:Hc; [|by eapply wired_reads]. destruct k; try discriminate.
  destruct H as (seg & Hr & H). apply runs_lift_l in Hr as (t & -> & Hr). eapply replay_drain_calls; [exact H|].
  exact (calls_only_runs _ _ _ _ (DrainNode_calls node) Hr).
Qed.

Lemma wired_deletes w n r w' : wired_effect w (pev (DeleteNode_call n) r) w' →
  view_of w' = delete_node (nodeName n) (view_of w) ∨ r ≠ None ∧ view_of w' = view_of w.
Proof.
  intros (seg & Hr & H). apply runs_lift_l in Hr as (t & -> & x & t' & -> & Hr).
  assert (t' = [] ∧ (x ≠ None → r ≠ None)) as [-> Hx] by (destruct x; destruct Hr as [-> Hr]; by simplify_eq).
  apply replay_single, kube_deletes in H as [H|[? H]]; [by left|right; auto].
Qed.

(** An update of the pool: not sent, or sent and answered. *)
Lemma wired_post (P : W → Prop) path body w t r w' :
  posts c path body t (Done r) → replay react w (map ev_r t) w' → (r ≠ None → P w) →
  (∀ out x w1, Out_Method out = "POST"%string → Out_URL out = poolURL c (urlPath (poolURL c path)) → Out_Body out = body →
     (r = None → ok_response x) → react w (http_ev out x) w1 → P w1) →
  P w'.
Proof.
  intros Hp Hrep Hrefl Hsent. destruct Hp as [(-> & e & He)|(out & x & -> & Hm & Hu & Hb & _ & Hx)].
  - injection He as ->. inversion Hrep; subst. by apply Hrefl.
  - apply replay_single in Hrep. eapply Hsent; [exact Hm|exact Hu|exact Hb| |exact Hrep].
    intros ->. by destruct Hx as [[? _]|(_ & e & ?)].
Qed.

Lemma wired_terminates w id dec r w' : is_ascii_string id = true → wired_effect w (pev (TerminateMachine_call id dec) r) w' →
  view_of w' = drop_machine id dec (view_of w) ∨ r ≠ None ∧ view_of w' = view_of w.
Proof.
  intros Hid (seg & Hr & H). apply runs_lift_r in Hr as (t & -> & Hr). apply post_runs in Hr.
  eapply (wired_post (λ w', view_of w' = drop_machine id dec (view_of w) ∨ r ≠ None ∧ view_of w' = view_of w));
    [exact Hr|exact H|by right|].
  intros out x w1 Hm Hu Hb Hx He. apply (http_terminates _ out id dec) in He as [He|[Hn He]]; [by left| |done|done|].
  - right. split; [|done]. intros ->. by apply Hn, Hx.
  - rewrite Hb. exact (decode_written (MkTerminateMachineMessage id dec) Hid).
Qed.

Lemma wired_resizes w n r w' : int64_range n → wired_effect w (pev (SetDesiredSize_call n) r) w' →
  infos w' = infos w ∧ workers (view_of w') = workers (view_of w) ∧ (r = None → desired (view_of w') = n).
Proof.
  intros Hrange (seg & Hr & H). apply runs_lift_r in Hr as (t & -> & Hr). apply post_runs in Hr.
  assert (infos w' = infos w ∧ (r = None → target w' = n)) as [Hi Hn]; [|by split; [|split; [unfold view_of; simpl; rewrite Hi|]]].
  eapply (wired_post (λ w', infos w' = infos w ∧ (r = None → target w' = n))); [exact Hr|exact H|by split|].
  intros out x w1 Hm Hu Hb Hx He. apply (http_resizes _ out n) in He as [He Hn]; [|done|done|].
  - split; [done|]. intros Hnone. apply Hn, Hx, Hnone.
  - rewrite Hb. exact (decode_written (MkSetDesiredSizeMessage (Some n)) Hrange).
Qed.

Lemma sublist_fmap_NoDup {A B} (f : A → B) (xs ys : list A) : xs `sublist_of` ys → NoDup (map f ys) → NoDup (f <$> xs).
Proof. intros Hs Hd. eapply sublist_NoDup; [exact Hd|]. by apply fmap_sublist. Qed.

#[export] Instance wired_world : PoolWorld W.
Proof.
  refine {| effect := wired_effect; whole := infos; seen := view_of |}.
  - intros w. destruct (infos_unique w) as [H1 H2]. unfold view_of. cbn [workers].
    split; change (map ident) with (fmap (M := list) ident); rewrite <- list_fmap_compose;
      (eapply sublist_fmap_NoDup; [apply filterNodes_sublist|]); [exact H1|exact H2].
  - intros w ns w' (seg & Hr & H). apply runs_lift_l in Hr as (t & -> & Hr).
    apply ListWorkerNodes_runs in Hr as (is' & Ho & ->). by rewrite (observed_infos _ _ _ _ Ho H).
  - intros w pool w' (seg & Hr & H). apply runs_lift_r in Hr as (t & -> & Hr).
    apply GetMachinePool_answer in Hr as (out & resp & -> & Hm & Hu & Hs & Hd). apply replay_single in H.
    exact (http_reports _ _ _ _ _ Hm Hu H Hs Hd).
  - intros w id m w' (seg & Hr & _). apply runs_lift_r in Hr as (t & -> & Hr).
    exact (returns_runs _ _ _ _ (cp_machine_found (CloudPoolClient := HTTPCloudPoolClient c) id) Hr).
  - apply wired_reads.
  - apply wired_unaltered.
  - apply wired_deletes.
  - apply wired_terminates.
  - apply wired_resizes.
Defined.
End Backends.

(** ** The two updates, on the services *)

Section EffectClaims.
Context `{sorter : !SliceSort, ranger : !MapRange, lib : !GoLib}.
Variable c : DefaultCloudPoolClient.
Context {W : Type} `{!BackendState W, !Backends c W}.

#[local] Instance wired_client : CloudPoolClient HTTPBackend := HTTPCloudPoolClient c.

(** A panic comes before anything is changed. *)
Lemma panic_unaltered {A} (p : Prog ProxyDeps A) t m w w' :
  no_panic p → reads_first false p → runs (interp (I := ProxyDeps) wire p) t (Panicked m) →
  replay (react c) w t w' → same_state w w'.
Proof.
  intros Hp Hc H Hr. apply panic_reads in H; [|done..]. rewrite Forall_forall in H.
  induction Hr as [w|w e w1 t w2 He Hr IH]; [done|]. eapply same_state_trans; [|apply IH; intros x Hx; apply H; by right].
  specialize (H e ltac:(left)). destruct e as [[k|[out]] r]; cbn in H.
  - exact (kube_reads c _ _ _ _ H He).
  - eapply (http_reads c _ out r); [|exact He]. apply negb_false_iff in H. by apply String.eqb_eq.
Qed.

(** What the two updates leave when they return; [evs] are the calls of the
    proxy, and [segs] the runs of the node scaler and of the client that
    implement them. *)
Lemma wired_resize (n : Z) (w w' : W) t r :
  0 ≤ n ≤ MaxInt64 → Z.of_nat (length (infos w)) ≤ MaxInt64 →
  Forall (λ id, is_ascii_string id = true) (active_of w) →
  runs (proxy_SetDesiredSize n) t (Done r) → replay (react c) w t w' →
  ∃ evs segs, t = concat segs ∧ implements (I := ProxyDeps) wire evs segs ∧
    resize_leaves n (infos w) (infos w') (view_of w) (view_of w') evs r.
Proof.
  intros Hn Hl Ha H Hr. apply runs_interp in H as (evs & segs & H & -> & Hi). exists evs, segs. split_and!; [done|done|].
  eapply (replay_wired c) in Hr; [|exact Hi].
  eapply (resize_world (PoolWorld0 := wired_world c)); [done| |exact Ha|exact H|exact Hr].
  cbn [seen wired_world view_of workers]. rewrite length_map. etransitivity; [|exact Hl].
  apply Nat2Z.inj_le, sublist_length, filterNodes_sublist.
Qed.

Lemma wired_termination (id : string) (dec : bool) (w w' : W) t r :
  is_ascii_string id = true → runs (proxy_TerminateMachine id dec) t (Done r) → replay (react c) w t w' →
  ∃ evs segs, t = concat segs ∧ implements (I := ProxyDeps) wire evs segs ∧
    terminate_leaves id dec (infos w) (infos w') (view_of w) (view_of w') evs r.
Proof.
  intros Hid H Hr. apply runs_interp in H as (evs & segs & H & -> & Hi). exists evs, segs. split_and!; [done|done|].
  eapply (replay_wired c) in Hr; [|exact Hi].
  exact (terminate_world (PoolWorld0 := wired_world c) id dec w evs r w' Hid H Hr).
Qed.

(** C16. What a request for n machines leaves of the cluster and the pool,
    whatever fails on the way.  The services keep the promises of [Backends]
    (unique names and external IDs, truthful reads, and nothing else changes
    the cluster or the pool meanwhile), n and the number of nodes are at most
    2^63 - 1, and the IDs of the active machines are ASCII.
    If the nodes or the pool could not be read, or no pair of a worker node and
    an active machine is a candidate although there are more than n, it is an
    error and no node, pod, taint, machine or size has changed.  With at most n
    pairs no node, pod or taint has changed and the cloudpool was asked for n,
    which is the desired size if it agreed.  With more, of the candidates,
    those pairs whose machine is evictable and whose node the node scaler
    approved, the excess over n was removed, or all if they are fewer: their
    nodes and machines are gone and the others are there, the desired size is
    lower by their number, and n pairs are left, or the pairs that were not
    candidates if these are more.  If a removal fails, it is an error: the pairs
    removed before are gone, of the failing one nothing (but pods of it may
    have been evicted, and its node may be tainted), the node, or both are gone,
    all others are there, and no fewer than n pairs are left.
    A panic has changed nothing. *)
Theorem resize_effect (n : Z) (w w' : W) t o :
  0 ≤ n ≤ MaxInt64 → Z.of_nat (length (infos w)) ≤ MaxInt64 →
  Forall (λ id, is_ascii_string id = true) (active_of w) →
  runs (proxy_SetDesiredSize n) t o → replay (react c) w t w' →
  match o with
  | Done r => ∃ evs segs, t = concat segs ∧ implements (I := ProxyDeps) wire evs segs ∧
      resize_leaves n (infos w) (infos w') (view_of w) (view_of w') evs r
  | Panicked _ => same_state w w'
  end.
Proof.
  intros Hn Hl Ha H Hr. destruct o as [r|m]; [by eapply wired_resize|].
  eapply panic_unaltered; [apply no_panic_SetDesiredSize|apply SetDesiredSize_reads_first|exact H|exact Hr].
Qed.

(** C17. What a request to terminate a machine with an ASCII ID leaves, if the
    services keep the promises of [Backends] (unique names and external IDs,
    truthful reads, and nothing else changes the cluster or the pool
    meanwhile).  On success there was a worker node with the machine's ID as
    its external ID, the machine was evictable and the node approved by the
    node scaler; the node and the machine are gone, everything else that is
    viewed is there, and the desired size is lower by one if that was asked.
    On an error, either only reads were made and no node, pod, taint, machine
    or size has changed; or the machine was evictable, its node was approved
    and the removal began and failed: then of the two both are there (but pods
    may have been evicted from the node, and it may be tainted), the node is
    gone, or both are gone, and the other nodes and machines are there.  A
    panic has changed nothing. *)
Theorem terminate_effect (id : string) (dec : bool) (w w' : W) t o :
  is_ascii_string id = true → runs (proxy_TerminateMachine id dec) t o → replay (react c) w t w' →
  match o with
  | Done r => ∃ evs segs, t = concat segs ∧ implements (I := ProxyDeps) wire evs segs ∧
      terminate_leaves id dec (infos w) (infos w') (view_of w) (view_of w') evs r
  | Panicked _ => same_state w w'
  end.
Proof.
  intros Hid H Hr. destruct o as [r|m]; [by eapply wired_termination|].
  eapply panic_unaltered; [apply no_panic_TerminateMachine|apply TerminateMachine_reads_first|exact H|exact Hr].
Qed.
End EffectClaims.

(** ** Services that answer from a store *)

#[local] Existing Instance map_to_list_range.
#[local] Existing Instance insertion_sort.
#[local] Instance world_lib : GoLib := plain_lib.

Record store : Type := Store { nodes : list NodeInfo; machines : list Machine; size : Z }.

Definition pool_report (s : store) : MachinePoolMessage := MkMachinePoolMessage (Some (machines s)) sample_time.
Definition http_ok (body : string) : result error Response := Ok (MkResponse 200 "200 OK" ∅ body None).
Definition http_refused : result error Response := Ok (MkResponse 400 "400 Bad Request" ∅ "" None).

(** An update of a node sets its taints, an eviction removes the pod. *)
Definition retaint (n : Node) (i : NodeInfo) : NodeInfo :=
  if String.eqb (nodeName i) (Name (Node_Meta n)) then
    let spec := Node_Spec (NodeOf i) in
    MkNodeInfo (MkNode (Node_Meta (NodeOf i))
                  (MkNodeSpec (PodCIDR spec) (ExternalID spec) (ProviderID spec) (Unschedulable (Node_Spec n)) (Taints (Node_Spec n)))
                  (Node_Status (NodeOf i))) (Pods i)
  else i.
Definition evict (e : Eviction) (i : NodeInfo) : NodeInfo :=
  MkNodeInfo (NodeOf i)
    (List.filter (λ p, negb (String.eqb (podNamespace p) (Evict_Namespace e) && String.eqb (Name (Pod_Meta p)) (Evict_Name e))) (Pods i)).

(** The pool terminates what it is asked to, and when it is resized it keeps
    its first machines. *)
Definition pool_step (out : OutRequest) (s : store) : result error Response * store :=
  if String.eqb (Out_Method out) "GET" then (http_ok (pool_text (pool_report s)), s)
  else if String.eqb (Out_URL out) (poolURL sample_client (urlPath (poolURL sample_client "/pool/terminate"))) then
    match decode (Out_Body out) with
    | Done (Ok (MkTerminateMachineMessage id dec)) =>
        (http_ok "", Store (nodes s) (filter (λ m, ID m ∉ [id]) (machines s)) (if dec then size s - 1 else size s))
    | _ => (http_refused, s)
    end
  else if String.eqb (Out_URL out) (poolURL sample_client (urlPath (poolURL sample_client "/pool/size"))) then
    match decode (Out_Body out) with
    | Done (Ok (MkSetDesiredSizeMessage (Some n))) => (http_ok "", Store (nodes s) (take (Z.to_nat n) (machines s)) n)
    | _ => (http_refused, s)
    end
  else (http_refused, s).

Definition store_step (k : call (sum_iface KubeClient HTTPBackend)) (s : store) : reply (sum_iface KubeClient HTTPBackend) k * store :=
  match k return reply (sum_iface KubeClient HTTPBackend) k * store with
  | inl k => (cluster_answer (nodes s) [] k,
      match k with
      | KUpdateNode n => Store (map (retaint n) (nodes s)) (machines s) (size s)
      | KEvictPod e => Store (map (evict e) (nodes s)) (machines s) (size s)
      | KDeleteNode n => Store (filter (λ i, nodeName i ∉ [Name (Node_Meta n)]) (nodes s)) (machines s) (size s)
      | _ => s
      end)
  | inr (ClientDo out) => pool_step out s
  end.

(** Names are unique, as selectors, and so are external IDs, and the machines
    can be reported. *)
Definition wf_store (s : store) : Prop :=
  NoDup (map (λ i, FieldSelector (node_name_selector (nodeName i))) (nodes s)) ∧
  NoDup (map (λ i, (ident i).2) (nodes s)) ∧ Forall machine_ok (machines s).

Lemma nodeName_retaint n i : nodeName (retaint n i) = nodeName i.
Proof. unfold retaint. by destruct (String.eqb _ _). Qed.
Lemma ident_retaint n i : ident (retaint n i) = ident i.
Proof. unfold retaint. by destruct (String.eqb _ _). Qed.
Lemma isMasterNode_retaint n i : isMasterNode (retaint n i) = isMasterNode i.
Proof. unfold retaint. by destruct (String.eqb _ _). Qed.

Lemma isMasterNode_evict e i : Evict_Namespace e ≠ KubeSystemNS → isMasterNode (evict e i) = isMasterNode i.
Proof.
  intros He. unfold isMasterNode, evict, nodeName. cbn [NodeOf Pods]. generalize (Name (Node_Meta (NodeOf i))). intros name.
  induction (Pods i) as [|p ps IH]; [done|]. cbn [List.filter is_master_loop].
  destruct (String.eqb_spec (podNamespace p) (Evict_Namespace e)) as [Ep|Ep]; cbn [andb negb is_master_loop].
  - destruct (String.eqb_spec (podNamespace p) KubeSystemNS) as [Es|Es]; [congruence|]. cbn [negb].
    destruct (String.eqb (Name (Pod_Meta p)) (Evict_Name e)); cbn [negb is_master_loop]; [done|].
    destruct (String.eqb_spec (podNamespace p) KubeSystemNS); [congruence|]. done.
  - by rewrite IH.
Qed.

(** Filtering before and after a loop of the program. *)
Lemma filter_loop_filter {A B} (f : A → B) (P : B → Prop) `{∀ y, Decision (P y)} ps (xs : list A) :
  map f (NodeScaler.filter_loop ps (filter (λ x, P (f x)) xs)) = filter P (map f (NodeScaler.filter_loop ps xs)).
Proof.
  induction xs as [|x xs IH]; [done|]. destruct (decide (P (f x))) as [Hx|Hx].
  - rewrite filter_cons_True by done. cbn [NodeScaler.filter_loop]. destruct (satisfies_all x ps); [|done].
    cbn [map]. by rewrite filter_cons_True, IH.
  - rewrite filter_cons_False by done. cbn [NodeScaler.filter_loop]. destruct (satisfies_all x ps); [|done].
    cbn [map]. by rewrite filter_cons_False, IH.
Qed.

Lemma workers_map (f : NodeInfo → NodeInfo) xs :
  (∀ i, ident (f i) = ident i) → (∀ i, isMasterNode (f i) = isMasterNode i) →
  map ident (filterNodes (map f xs) [pnot isMasterNode]) = map ident (filterNodes xs [pnot isMasterNode]).
Proof.
  intros Hi Hm. unfold filterNodes. induction xs as [|i xs IH]; [done|]. cbn [map NodeScaler.filter_loop satisfies_all].
  assert (pnot isMasterNode (f i) = pnot isMasterNode i) as -> by (unfold pnot; by rewrite Hm).
  destruct (pnot isMasterNode i); cbn [negb map]; by rewrite ?Hi, IH.
Qed.

Lemma step_wf k s : wf_store s → wf_store (store_step k s).2.
Proof.
  intros (H1 & H2 & H3). destruct k as [k|[out]]; cbn [store_step snd].
  - destruct k as [| |n|n| | | |]; try by split_and!.
    + split_and!; [..|exact H3]; cbn [nodes]; rewrite map_map.
      * erewrite map_ext; [exact H1|]. intros i. by rewrite nodeName_retaint.
      * erewrite map_ext; [exact H2|]. intros i. by rewrite ident_retaint.
    + split_and!; [..|exact H3]; cbn [nodes]; by eapply sublist_fmap_NoDup; [apply sublist_filter|].
    + split_and!; [..|exact H3]; cbn [nodes]; by rewrite map_map.
  - unfold pool_step. repeat case_match; simplify_eq; try by split_and!.
    all: split_and!; [done|done|]; cbn [machines snd]; try by apply Forall_take.
    all: rewrite Forall_forall in *; intros m [_ Hm]%list_elem_of_filter; auto.
Qed.

(** A store whose shape is kept. *)
Record cluster : Type := Cluster { holds : store; sound : wf_store holds }.

#[export] Instance cluster_state : BackendState cluster := {|
  infos w := nodes (holds w);
  active_of w := active_ids (pool_report (holds w));
  target w := size (holds w) |}.

Definition cluster_react (w : cluster) (e : event (sum_iface KubeClient HTTPBackend)) (w' : cluster) : Prop :=
  projT2 e = (store_step (projT1 e) (holds w)).1 ∧ holds w' = (store_step (projT1 e) (holds w)).2.

Lemma size_url_differs :
  poolURL sample_client (urlPath (poolURL sample_client "/pool/size")) ≠
  poolURL sample_client (urlPath (poolURL sample_client "/pool/terminate")).
Proof. vm_compute. discriminate. Qed.

Lemma sound_names w : NoDup (map nodeName (nodes (holds w))).
Proof.
  destruct (sound w) as (H & _). rewrite <- (map_map nodeName (λ n, FieldSelector (node_name_selector n))) in H.
  by eapply (NoDup_fmap_1 (λ n, FieldSelector (node_name_selector n))).
Qed.

(** The pods with a node's name as their selector are the node's. *)
Lemma selected_pods (is_on : NodeInfo → string) xs i :
  NoDup (map is_on xs) → i ∈ xs →
  concat (map (λ j, if String.eqb (is_on i) (is_on j) then Pods j else []) xs) = Pods i.
Proof.
  induction xs as [|j xs IH]; intros Hd Hi; [by apply not_elem_of_nil in Hi|]. cbn [map concat]. apply NoDup_cons in Hd as [Hj Hd].
  apply elem_of_cons in Hi as [->|Hi].
  - rewrite String.eqb_refl. assert (concat (map (λ k, if String.eqb (is_on j) (is_on k) then Pods k else []) xs) = []) as ->
      by (apply concat_nil_Forall, Forall_forall; intros l (k & -> & Hk)%list_elem_of_fmap;
          destruct (String.eqb_spec (is_on j) (is_on k)) as [E|]; [|done]; destruct Hj; rewrite E; by apply list_elem_of_fmap_2).
    by rewrite app_nil_r.
  - destruct (String.eqb_spec (is_on i) (is_on j)) as [E|]; [|by apply IH]. destruct Hj. rewrite <- E. by apply list_elem_of_fmap_2.
Qed.

Lemma cluster_view w w' :
  holds w' = holds w → view_of w' = view_of w.
Proof. intros E. unfold view_of. cbn [infos active_of target cluster_state]. by rewrite E. Qed.

Lemma cluster_drains w k r w' : drain_call k → cluster_react w (kube_ev k r) w' → view_of w' = view_of w.
Proof.
  intros Hk [_ E]. cbn [projT1 kube_ev ev store_step snd] in E.
  destruct k as [| |n| | |e| |]; try done; try by apply cluster_view.
  all: unfold view_of; cbn [infos active_of target cluster_state]; rewrite E; cbn [nodes machines size pool_report]; f_equal;
    apply workers_map; intros i.
  - apply ident_retaint.
  - apply isMasterNode_retaint.
  - done.
  - by apply isMasterNode_evict.
Qed.

Lemma cluster_deletes w n r w' : cluster_react w (kube_ev (KDeleteNode n) r) w' →
  view_of w' = delete_node (Name (Node_Meta n)) (view_of w).
Proof.
  intros [_ E]. cbn [projT1 kube_ev ev store_step snd] in E. unfold view_of, delete_node.
  cbn [infos active_of target cluster_state workers active desired].
  rewrite E. cbn [nodes machines size pool_report]. f_equal.
  exact (filter_loop_filter ident (λ j, j.1 ∉ [Name (Node_Meta n)]) [pnot isMasterNode] (nodes (holds w))).
Qed.

Lemma cluster_posts w out r w' :
  Out_Method out = "POST"%string → cluster_react w (http_ev out r) w' →
  (Out_URL out = poolURL sample_client (urlPath (poolURL sample_client "/pool/terminate")) → ∀ id dec,
     decode (Out_Body out) = Done (Ok (MkTerminateMachineMessage id dec)) → view_of w' = drop_machine id dec (view_of w)) ∧
  (Out_URL out = poolURL sample_client (urlPath (poolURL sample_client "/pool/size")) → ∀ n,
     decode (Out_Body out) = Done (Ok (MkSetDesiredSizeMessage (Some n))) →
     infos w' = infos w ∧ target w' = n).
Proof.
  intros Hm [_ E]. cbn [projT1 http_ev ev store_step snd] in E. unfold pool_step in E. rewrite Hm in E.
  change (String.eqb "POST" "GET") with false in E. cbv iota in E. split.
  - intros Hu id dec Hb. rewrite Hu, String.eqb_refl, Hb in E. cbn [snd] in E. unfold view_of, drop_machine.
    cbn [infos active_of target cluster_state workers active desired]. rewrite E. cbn [nodes size]. f_equal.
    exact (filter_loop_filter ID (λ x, x ∉ [id]) [IsMachineActive] (machines (holds w))).
  - intros Hu n Hb. rewrite Hu in E. destruct (String.eqb_spec (poolURL sample_client (urlPath (poolURL sample_client "/pool/size")))
      (poolURL sample_client (urlPath (poolURL sample_client "/pool/terminate")))) as [E'|_]; [by destruct size_url_differs|].
    rewrite String.eqb_refl, Hb in E. cbn [snd] in E. cbn [infos target cluster_state]. by rewrite E.
Qed.

(** The store keeps the promises of the services. *)
#[export] Instance cluster_backends : Backends sample_client cluster.
Proof.
  refine {| react := cluster_react |}.
  - intros w. split; [apply sound_names|]. by destruct (sound w) as (_ & ? & _).
  - intros w items w' [[= ->] _]. cbn [infos cluster_state]. by rewrite map_map.
  - intros w name n w' [E _]. cbn [kube_ev ev projT1 projT2 store_step fst cluster_answer] in E.
    destruct (List.find (hasNodeName name) (nodes (holds w))) as [i|] eqn:Ei; [|done]. injection E as ->.
    apply find_some in Ei as [Hi Hn]. exists i. apply list_elem_of_In in Hi. apply String.eqb_eq in Hn. done.
  - intros w name pods w' [[= ->] _] i Hi <-. symmetry. destruct (sound w) as (Hd & _).
    exact (selected_pods (λ i, FieldSelector (node_name_selector (nodeName i))) _ i Hd Hi).
  - intros w k r w' Hk [_ E]. cbn [projT1 kube_ev ev store_step snd] in E. unfold same_state. cbn [infos active_of target cluster_state].
    destruct k; try discriminate Hk; by rewrite E.
  - apply cluster_drains.
  - intros w n r w' H. left. by eapply cluster_deletes.
  - intros w out r w' Hm [_ E]. cbn [projT1 http_ev ev store_step snd] in E. unfold pool_step in E. rewrite Hm in E.
    unfold same_state. cbn [infos active_of target cluster_state]. by rewrite E.
  - intros w out resp w' pool Hm _ [E _] _ Hd. cbn [projT1 projT2 http_ev ev store_step fst] in E. unfold pool_step in E. rewrite Hm in E.
    injection E as ->. cbn [RespBody] in Hd. unfold pool_text in Hd.
    assert (pool_ok (pool_report (holds w))) as Hok by (split; [by destruct (sound w) as (_ & _ & ?)|ground_ranges]).
    pose proof (decode_written _ Hok) as Hw. change (msg_json (pool_report (holds w))) with (MachinePoolMessage_json (pool_report (holds w))) in Hw.
    rewrite Hw in Hd. by injection Hd as <-.
  - intros w out id dec r w' Hm Hu Hb H. left. by eapply cluster_posts.
  - intros w out n r w' Hm Hu Hb H. destruct (cluster_posts _ _ _ _ Hm H) as [_ Hs]. destruct (Hs Hu n Hb) as [? ?]. by split.
Defined.

(** What the store does, as a run on which the results hold. *)
Lemma serve_cluster {A} (p : Prog (sum_iface KubeClient HTTPBackend) A) w :
  let '(t, o, s) := serve store_step (holds w) p in runs p t o ∧ ∃ w', holds w' = s ∧ replay cluster_react w t w'.
Proof.
  revert w. induction p as [a|m|k f IH]; intros w; cbn [serve]; [split; [done|]; exists w; split; [done|constructor]..|].
  destruct (store_step k (holds w)) as [r s1] eqn:Es. pose proof (step_wf k _ (sound w)) as Hwf. rewrite Es in Hwf. cbn [snd] in Hwf.
  specialize (IH r (Cluster s1 Hwf)). cbn [holds] in IH. destruct (serve store_step s1 (f r)) as [[t o] s2].
  destruct IH as (Hr & w' & Hh & Hrep). split; [simpl; eauto|]. exists w'. split; [done|]. econstructor; [|exact Hrep].
  split; cbn [projT1 projT2 ev]; by rewrite Es.
Qed.

(** ** Witnesses and examples *)

#[local] Instance sample_wiring : CloudPoolClient HTTPBackend := HTTPCloudPoolClient sample_client.

Definition store_view (s : store) : view :=
  View (map ident (filterNodes (nodes s) [pnot isMasterNode])) (active_ids (pool_report s)) (size s).

Lemma sample_machine_ok id b : is_ascii_string id = true → machine_ok (sample_machine id b).
Proof.
  intros Hid. split; [repeat constructor; exact Hid|]. split; [constructor; [ground_ranges|constructor]|].
  split; [repeat constructor|]. by split; [apply List.Forall_nil|].
Qed.

(** The three workers of the sample cluster, all of them in the pool. *)
Definition three_workers : store := Store sample_nodes (Machines (sample_pool true)) 3.

Lemma three_workers_wf : wf_store three_workers.
Proof.
  split_and!.
  - apply (bool_decide_unpack _). vm_compute. exact I.
  - apply (bool_decide_unpack _). vm_compute. exact I.
  - repeat (constructor; [by apply sample_machine_ok|]). constructor.
Qed.

(** The least loaded worker is removed. *)
Lemma resize_effect_witness :
  let '(t, o, s) := serve store_step three_workers (proxy_SetDesiredSize 2) in
  o = Done None ∧ store_view s = View [("n1", "i-1"); ("n2", "i-2")]%string ["i-1"; "i-2"]%string 2 ∧
  ∃ evs segs, t = concat segs ∧ implements (I := ProxyDeps) wire evs segs ∧
    resize_leaves 2 (nodes three_workers) (nodes s) (store_view three_workers) (store_view s) evs None.
Proof.
  pose proof (serve_cluster (proxy_SetDesiredSize 2) (Cluster three_workers three_workers_wf)) as H. cbn [holds] in H.
  assert (let '(_, o, s) := serve store_step three_workers (proxy_SetDesiredSize 2) in
    o = Done None ∧ store_view s = View [("n1", "i-1"); ("n2", "i-2")]%string ["i-1"; "i-2"]%string 2) as Hc
    by (vm_compute; split; reflexivity).
  destruct (serve store_step three_workers (proxy_SetDesiredSize 2)) as [[t o] s]. destruct Hc as [-> Hs], H as (Hr & w' & <- & Hrep).
  split_and!; [done|done|]. refine (resize_effect sample_client 2 (Cluster three_workers three_workers_wf) w' t _ _ _ _ Hr Hrep).
  - unfold MaxInt64. lia.
  - vm_compute. discriminate.
  - repeat constructor.
Defined.

Lemma terminate_effect_witness :
  let '(t, o, s) := serve store_step three_workers (proxy_TerminateMachine "i-2" false) in
  o = Done None ∧ store_view s = View [("n1", "i-1"); ("n3", "i-3")]%string ["i-1"; "i-3"]%string 3 ∧
  ∃ evs segs, t = concat segs ∧ implements (I := ProxyDeps) wire evs segs ∧
    terminate_leaves "i-2" false (nodes three_workers) (nodes s) (store_view three_workers) (store_view s) evs None.
Proof.
  pose proof (serve_cluster (proxy_TerminateMachine "i-2" false) (Cluster three_workers three_workers_wf)) as H. cbn [holds] in H.
  assert (let '(_, o, s) := serve store_step three_workers (proxy_TerminateMachine "i-2" false) in
    o = Done None ∧ store_view s = View [("n1", "i-1"); ("n3", "i-3")]%string ["i-1"; "i-3"]%string 3) as Hc
    by (vm_compute; split; reflexivity).
  destruct (serve store_step three_workers (proxy_TerminateMachine "i-2" false)) as [[t o] s].
  destruct Hc as [-> Hs], H as (Hr & w' & <- & Hrep). split_and!; [done|done|].
  exact (terminate_effect sample_client "i-2" false (Cluster three_workers three_workers_wf) w' t _ eq_refl Hr Hrep).
Defined.

Definition busy_worker (name id pod : string) : NodeInfo := sample_node name id 2000 4000 [sample_pod pod 500 1000].

(** Two workers, each of which has room for the pod of the other. *)
Definition two_workers : store :=
  Store [busy_worker "n1" "i-1" "a"; busy_worker "n2" "i-2" "b"] [sample_machine "i-1" true; sample_machine "i-2" true] 2.

(** The candidates are all checked before the first one is removed, and not
    again: asked for no machines, the proxy removes both workers.  Asked for
    one machine and then for none, it refuses to remove the last worker, since
    no node is left that could take its pods. *)
Theorem removals_are_not_rechecked :
  (let '(_, o, s) := serve store_step two_workers (proxy_SetDesiredSize 0) in
   o = Done None ∧ store_view s = View [] [] 0) ∧
  (let '(_, o, s) := serve store_step two_workers (proxy_SetDesiredSize 1) in
   o = Done None ∧ store_view s = View [("n1", "i-1")]%string ["i-1"]%string 1 ∧
   let '(_, o', s') := serve store_step s (proxy_SetDesiredSize 0) in
   (∃ rs, o' = Done (Some (NoViableScaleDownCandidateError rs))) ∧
   store_view s' = store_view s).
Proof. vm_compute. repeat split; try reflexivity. eexists. reflexivity. Qed.

(** A pool of three machines, one of which has not become a node yet. *)
Definition growing_pool : store :=
  Store (nodes two_workers) [sample_machine "i-1" true; sample_machine "i-3" true; sample_machine "i-2" true] 3.

(** The desired size is compared with the number of nodes that have a machine,
    and not with the size of the pool: with two such nodes and three machines a
    request for two machines goes to the cloudpool, which may take the machine
    of a worker whose pod was not evicted. *)
Theorem pool_shrinks_without_draining :
  let '(t, o, s) := serve store_step growing_pool (proxy_SetDesiredSize 2) in
  o = Done None ∧ nodes s = nodes growing_pool ∧ length (active (store_view growing_pool)) = 3%nat ∧
  active (store_view s) = ["i-1"; "i-3"]%string ∧
  Forall (λ e : event (sum_iface KubeClient HTTPBackend), match projT1 e with inl k => kube_mutates k = false | inr _ => True end) t.
Proof. vm_compute. repeat split; try reflexivity. repeat constructor. Qed.
