(* ===== verification/Server.v ===== *)
(** * pkg/proxy/server.go: the HTTP server

    Routing (gorilla/mux as vendored), the three handlers with the response
    they write, and the [updateLock] that serialises updates, as a transition
    system of concurrent requests.

    A handler is a program whose calls are locking, unlocking and the methods
    of [CloudPoolProxy]; a call to the proxy may panic, which ends the handler
    at that point (net/http recovers the panic of a request and keeps serving),
    without running the code after it.  Header names are in canonical form, as
    net/http keeps them. *)
From stdpp Require Import base tactics list strings gmap pretty.
From Stdlib Require Import ZArith Lia Ascii.
From S2P Require Import Prelude Strconv GoStd KubeTypes Labels Json JsonIndent Samples CloudPool Url PoolClient Messages.

Local Open Scope go_scope.
Local Open Scope string_scope.

(** ** Routing *)

Fixpoint last_char (s : string) : option ascii :=
  match s with
  | "" => None
  | String c "" => Some c
  | String _ s' => last_char s'
  end.

(** mux's [cleanPath]. *)
Definition cleanPath (p : string) : string :=
  match p with
  | "" => "/"
  | String c _ =>
      let p := if Ascii.eqb c "/" then p else String "/" p in
      let np := Clean p in
      if bool_decide (last_char p = Some "/"%char) && negb (String.eqb np "/") then np +:+ "/" else np
  end.

Inductive destination : Type :=
| ToRedirect (path : string)
| ToSetDesiredSize
| ToTerminateMachine
| ToBackend
| ToNotFound.

(** The routes of [NewServer] in order; a path that is not clean is redirected
    first. *)
Definition route (method path : string) : destination :=
  if negb (String.eqb (cleanPath path) path) then ToRedirect (cleanPath path)
  else if String.eqb path "/pool/size" && String.eqb method "POST" then ToSetDesiredSize
  else if String.eqb path "/pool/terminate" && String.eqb method "POST" then ToTerminateMachine
  else match path with
       | String "/" _ => ToBackend
       | _ => ToNotFound
       end.

(** ** The response writer *)

(** The header map the handler fills in; once a status is sent, the headers of
    that moment are sent with it and later status codes are ignored. *)
Record Writer : Type := MkWriter {
  W_Header : Header;
  W_Sent : option (Z * Header);
  W_Body : string }.

Definition new_writer : Writer := MkWriter ∅ None "".

Definition add_header (w : Writer) (k v : string) : Writer := MkWriter (Header_Add (W_Header w) k v) (W_Sent w) (W_Body w).

Definition WriteHeader (w : Writer) (code : Z) : Writer :=
  MkWriter (W_Header w) (match W_Sent w with Some s => Some s | None => Some (code, W_Header w) end) (W_Body w).

Definition write_body (w : Writer) (bytes : string) : Writer :=
  let w := WriteHeader w StatusOK in MkWriter (W_Header w) (W_Sent w) (W_Body w +:+ bytes).

Definition StatusBadRequest : Z := 400.
Definition StatusInternalServerError : Z := 500.
Definition StatusBadGateway : Z := 502.

Definition error_body (message detail : string) : string := MarshalIndent (ErrorMessage_json message detail).

Definition writeErrorResponse (w : Writer) (statusCode : Z) (message detail : string) : Writer :=
  write_body (WriteHeader (add_header w "Content-Type" "application/json") statusCode) (error_body message detail).

(** ** The handlers *)

Inductive server_call : Type :=
| LockUpdate
| UnlockUpdate
| CallSetDesiredSize (n : Z)
| CallTerminateMachine (id : string) (dec : bool)
| CallForward (req : Request).

(** A proxy method returns or panics. *)
Definition server_reply (c : server_call) : Type :=
  match c with
  | LockUpdate | UnlockUpdate => unit
  | CallSetDesiredSize _ | CallTerminateMachine _ _ => outcome (option error)
  | CallForward _ => outcome (result error Response)
  end.

Definition ServerDeps : Iface := mkIface server_call server_reply.

Definition scall (c : server_call) : Prog ServerDeps (server_reply c) := invoke (I := ServerDeps) c.

(** A request whose body can be read or not. *)
Record Incoming : Type := MkIncoming { In_Request : Request; In_BodyError : option error }.

Section Handlers.
Context `{ranger : !MapRange, lib : !GoLib}.

(** [ErrorWithCause], as the pair of its fields. *)
Definition cause_message (cause : error) (message : string) : string * string :=
  match ErrorWithCause cause message [] with
  | ErrorMessage m d => (m, d)
  | _ => (message, "")
  end.

Definition respond_error (w : Writer) (code : Z) (cause : error) (message : string) : Writer :=
  let '(m, d) := cause_message cause message in writeErrorResponse w code m d.

(** The common tail of the two update handlers: the call under the lock and the
    response. *)
Definition locked_update (call : server_call) (as_update : server_reply call → outcome (option error))
    (failure : string) (w : Writer) : Prog ServerDeps Writer :=
  let! _ := scall LockUpdate in
  let! r := scall call in
  let! err := pure (as_update r) in
  let! _ := scall UnlockUpdate in
  match err with
  | Some err => Ret (respond_error w StatusInternalServerError err failure)
  | None => Ret (WriteHeader w StatusOK)
  end.

Definition HandleSetDesiredSize (r : Incoming) : Prog ServerDeps Writer :=
  let w := new_writer in
  match In_BodyError r with
  | Some err => Ret (respond_error w StatusBadRequest err "failed to read request body")
  | None =>
      let! u := pure (Unmarshal (MkSetDesiredSizeMessage None) dec_set_size (ReqBody (In_Request r))) in
      match u with
      | Err e =>
          Ret (respond_error w StatusBadRequest (ErrorString (jsonErrorText e)) "failed to decode setDesiredSize message")
      | Ok setDesiredSizeMsg =>
          match SetDesiredSizeMessage_Validate setDesiredSizeMsg with
          | Some err => Ret (writeErrorResponse w StatusBadRequest (Error err) "")
          | None =>
              match DesiredSize setDesiredSizeMsg with
              | None => Panic "nil pointer dereference: *setDesiredSizeMsg.DesiredSize"
              | Some n => locked_update (CallSetDesiredSize n) (λ r, r) "failed to set desired size" w
              end
          end
      end
  end.

Definition HandleTerminateMachine (r : Incoming) : Prog ServerDeps Writer :=
  let w := new_writer in
  match In_BodyError r with
  | Some err => Ret (respond_error w StatusBadRequest err "failed to read request body")
  | None =>
      let! u := pure (Unmarshal (MkTerminateMachineMessage "" false) dec_terminate (ReqBody (In_Request r))) in
      match u with
      | Err e =>
          Ret (respond_error w StatusBadRequest (ErrorString (jsonErrorText e)) "failed to decode terminateMachine message")
      | Ok terminateMachineMsg =>
          match TerminateMachineMessage_Validate terminateMachineMsg with
          | Some err => Ret (writeErrorResponse w StatusBadRequest (Error err) "")
          | None =>
              locked_update
                (CallTerminateMachine (MachineID terminateMachineMsg) (DecrementDesiredSize terminateMachineMsg))
                (λ r, r) "failed to terminate machine" w
          end
      end
  end.

(** Copying the headers of the backend, in map order. *)
Definition copy_headers (w : Writer) (h : Header) : Writer :=
  foldl (λ w '(k, vs), foldl (λ w v, add_header w k v) w vs) w (range h).

Definition ForwardToBackend (r : Incoming) : Prog ServerDeps Writer :=
  let w := new_writer in
  let! r := scall (CallForward (In_Request r)) in
  let! r := pure r in
  match r with
  | Err err => Ret (respond_error w StatusBadGateway err "failed to forward request to backend")
  | Ok backendResponse =>
      let w := WriteHeader (copy_headers w (RespHeader backendResponse)) (StatusCode backendResponse) in
      let w := write_body w (RespBody backendResponse) in
      match BodyError backendResponse with
      | Some err => Ret (respond_error w StatusBadGateway err "failed to read backend response body")
      | None => Ret w
      end
  end.

(** The redirect of mux, and its not-found answer (no path leads there). *)
Definition redirect (u : URL) (path : string) : Writer :=
  WriteHeader (MkWriter (<["Location" := [URL_String (with_path u path)]]> ∅) None "") 301.

Definition not_found : Writer := WriteHeader new_writer 404.

(** One request: routing and the handler. *)
Definition ServeHTTP (r : Incoming) : Prog ServerDeps Writer :=
  match route (Method (In_Request r)) (URLPath (In_Request r)) with
  | ToRedirect p => Ret (redirect (ReqURL (In_Request r)) p)
  | ToSetDesiredSize => HandleSetDesiredSize r
  | ToTerminateMachine => HandleTerminateMachine r
  | ToBackend => ForwardToBackend r
  | ToNotFound => Ret not_found
  end.
End Handlers.

(** ** Concurrent requests *)

(** A request being served: about to go on with its program, or inside a call
    to the proxy. *)
Inductive thread : Type :=
| Running (p : Prog ServerDeps Writer)
| Inside (c : server_call) (k : server_reply c → Prog ServerDeps Writer).

(** The holder of [updateLock], if any, and the requests so far. *)
Record server : Type := MkServer { holder : option nat; threads : list thread }.

Definition initial_server : server := MkServer None [].

Definition is_update (c : server_call) : bool :=
  match c with CallSetDesiredSize _ | CallTerminateMachine _ _ => true | _ => false end.

Section Steps.
Context `{ranger : !MapRange, lib : !GoLib}.

Inductive step : server → server → Prop :=
| step_arrive h ts r :
    step (MkServer h ts) (MkServer h (ts ++ [Running (ServeHTTP r)])%list)
| step_lock ts i k :
    ts !! i = Some (Running (Vis (I := ServerDeps) LockUpdate k)) →
    step (MkServer None ts) (MkServer (Some i) (<[i := Running (k tt)]> ts))
| step_unlock h ts i k :
    ts !! i = Some (Running (Vis (I := ServerDeps) UnlockUpdate k)) →
    step (MkServer h ts) (MkServer None (<[i := Running (k tt)]> ts))
| step_call h ts i c k :
    c ≠ LockUpdate → c ≠ UnlockUpdate →
    ts !! i = Some (Running (Vis (I := ServerDeps) c k)) →
    step (MkServer h ts) (MkServer h (<[i := Inside c k]> ts))
| step_return h ts i c k r :
    ts !! i = Some (Inside c k) →
    step (MkServer h ts) (MkServer h (<[i := Running (k r)]> ts)).

Inductive reachable : server → Prop :=
| reach_initial : reachable initial_server
| reach_step s s' : reachable s → step s s' → reachable s'.

(** *** Lock discipline *)

(** A program that, holding the lock iff [held], locks and unlocks in turn,
    makes updates only with the lock and returns without it. *)
Fixpoint disciplined (held : bool) (p : Prog ServerDeps Writer) : Prop :=
  match p with
  | Ret _ => held = false
  | Panic _ => True
  | Vis c k =>
      (match c with
       | LockUpdate => held = false
       | UnlockUpdate => held = true
       | c => if is_update c then held = true else True
       end) ∧
      ∀ r, disciplined (match c with LockUpdate => true | UnlockUpdate => false | _ => held end) (k r)
  end.

Definition disciplined_thread (held : bool) (th : thread) : Prop :=
  match th with
  | Running p => disciplined held p
  | Inside c k =>
      c ≠ LockUpdate ∧ c ≠ UnlockUpdate ∧ (is_update c = true → held = true) ∧ ∀ r, disciplined held (k r)
  end.

Lemma locked_update_disciplined c f msg w :
  is_update c = true → disciplined false (locked_update c f msg w).
Proof.
  intros Hc. unfold locked_update. cbn [bind scall invoke disciplined]. split; [done|]. intros _.
  split; [by destruct c|]. intros r.
  assert (Hf : disciplined true (bind (pure (f r)) (λ err, bind (scall UnlockUpdate) (λ _,
    match err with Some err => Ret (respond_error w StatusInternalServerError err msg) | None => Ret (WriteHeader w StatusOK) end)))).
  { destruct (f r) as [[e|]|m]; simpl; [split; [done|]; done|split; [done|]; done|done]. }
  by destruct c.
Qed.

Lemma ServeHTTP_disciplined r : disciplined false (ServeHTTP r).
Proof.
  unfold ServeHTTP. destruct (route _ _); try done.
  - unfold HandleSetDesiredSize. cbv zeta. destruct (In_BodyError r); [done|].
    destruct (Unmarshal _ _ _) as [[msg|e]|m]; simpl; [|done|done].
    destruct (SetDesiredSizeMessage_Validate msg); [done|]. destruct (DesiredSize msg); [|done].
    by apply locked_update_disciplined.
  - unfold HandleTerminateMachine. cbv zeta. destruct (In_BodyError r); [done|].
    destruct (Unmarshal _ _ _) as [[msg|e]|m]; simpl; [|done|done].
    destruct (TerminateMachineMessage_Validate msg); [done|]. by apply locked_update_disciplined.
  - unfold ForwardToBackend. cbv zeta. cbn [bind scall invoke disciplined]. split; [done|].
    intros [[resp|e]|m]; simpl; [|done|done]. by destruct (BodyError resp).
Qed.

(** Every thread is disciplined, and exactly the holder has the lock. *)
Definition lock_invariant (s : server) : Prop :=
  (∀ i th, threads s !! i = Some th → disciplined_thread (bool_decide (holder s = Some i)) th) ∧
  (∀ i, holder s = Some i → (i < length (threads s))%nat).

Lemma lock_invariant_step s s' : lock_invariant s → step s s' → lock_invariant s'.
Proof.
  intros [Hd Hl] Hs. destruct Hs as [h ts r|ts i k Hi|h ts i k Hi|h ts i c k Hc1 Hc2 Hi|h ts i c k r Hi];
    unfold lock_invariant in *; cbn [threads holder] in *.
  - split.
    + intros j th. rewrite lookup_app_Some. intros [Hj|[Hj Hth]]; [by apply Hd|].
      assert (h ≠ Some j) as Hne by (intros ->; specialize (Hl j eq_refl); lia).
      rewrite bool_decide_false by done. apply list_lookup_singleton_Some in Hth as [_ <-].
      apply ServeHTTP_disciplined.
    + intros j Hj. specialize (Hl j Hj). rewrite length_app. lia.
  - assert (i < length ts)%nat by by eapply lookup_lt_Some.
    pose proof (Hd i _ Hi) as Hi'. rewrite bool_decide_false in Hi' by done. destruct Hi' as [_ Hk].
    split; [|intros j [= <-]; by rewrite length_insert].
    intros j th Hj. destruct (decide (i = j)) as [->|Hne].
    + rewrite list_lookup_insert_eq in Hj by done. simplify_eq. rewrite bool_decide_true by done. apply (Hk tt).
    + rewrite list_lookup_insert_ne in Hj by done. rewrite bool_decide_false by congruence.
      specialize (Hd j th Hj). by rewrite bool_decide_false in Hd.
  - assert (i < length ts)%nat by by eapply lookup_lt_Some.
    pose proof (Hd i _ Hi) as [Hheld Hk]. apply bool_decide_eq_true in Hheld as ->.
    split; [|done]. intros j th Hj. rewrite bool_decide_false by done. destruct (decide (i = j)) as [->|Hne].
    + rewrite list_lookup_insert_eq in Hj by done. simplify_eq. apply (Hk tt).
    + rewrite list_lookup_insert_ne in Hj by done. specialize (Hd j th Hj).
      by rewrite bool_decide_false in Hd by congruence.
  - assert (i < length ts)%nat by by eapply lookup_lt_Some. pose proof (Hd i _ Hi) as [Hu Hk].
    split; [|intros j Hj; rewrite length_insert; by apply Hl].
    intros j th Hj. destruct (decide (i = j)) as [->|Hne]; [|rewrite list_lookup_insert_ne in Hj by done; by apply Hd].
    rewrite list_lookup_insert_eq in Hj by done. simplify_eq. simpl. split_and!; [done|done|by destruct c|].
    intros r. specialize (Hk r). by destruct c.
  - assert (i < length ts)%nat by by eapply lookup_lt_Some. pose proof (Hd i _ Hi) as (_ & _ & _ & Hk).
    split; [|intros j Hj; rewrite length_insert; by apply Hl].
    intros j th Hj. destruct (decide (i = j)) as [->|Hne]; [|rewrite list_lookup_insert_ne in Hj by done; by apply Hd].
    rewrite list_lookup_insert_eq in Hj by done. simplify_eq. apply Hk.
Qed.

Lemma reachable_invariant s : reachable s → lock_invariant s.
Proof.
  induction 1 as [|s s' _ IH Hs]; [|by eapply lock_invariant_step].
  split; [|done]. intros i th Hi. simpl in Hi; by rewrite lookup_nil in Hi.
Qed.

(** A request has panicked while it held the lock. *)
Definition wedged (s : server) (i : nat) : Prop :=
  holder s = Some i ∧ ∃ m, threads s !! i = Some (Running (Panic m)).

Lemma wedged_step s s' i : lock_invariant s → wedged s i → step s s' → wedged s' i.
Proof.
  intros [Hd _] [Hh (m & Hi)] Hs. unfold wedged.
  destruct Hs as [h ts r|ts j k Hj|h ts j k Hj|h ts j c k _ _ Hj|h ts j c k r Hj]; cbn [threads holder] in *.
  - split; [done|]. exists m. by apply lookup_app_l_Some.
  - done.
  - subst h. pose proof (Hd j _ Hj) as [Hheld _]. apply bool_decide_eq_true in Hheld. congruence.
  - split; [done|]. exists m. rewrite list_lookup_insert_ne; [done|congruence].
  - split; [done|]. exists m. rewrite list_lookup_insert_ne; [done|congruence].
Qed.

Inductive steps : server → server → Prop :=
| steps_refl s : steps s s
| steps_cons s1 s2 s3 : step s1 s2 → steps s2 s3 → steps s1 s3.

Lemma reachable_steps s s' : reachable s → steps s s' → reachable s'.
Proof. intros Hr Hs. induction Hs; [done|]. apply IHHs. by eapply reach_step. Qed.

Lemma wedged_steps s s' i : reachable s → wedged s i → steps s s' → wedged s' i ∧ reachable s'.
Proof.
  intros Hr Hw Hs. induction Hs as [|s1 s2 s3 H1 _ IH]; [done|]. apply IH.
  - by eapply reach_step.
  - eapply wedged_step; [by apply reachable_invariant|done|done].
Qed.

(** The reply of an update that panicked. *)
Definition panic_reply (c : server_call) : server_reply c → Prop :=
  match c with
  | CallSetDesiredSize _ | CallTerminateMachine _ _ => λ r, ∃ m, r = Panicked m
  | _ => λ _, False
  end.

(** A handler goes down with the update it has called: it does nothing more. *)
Fixpoint goes_down (p : Prog ServerDeps Writer) : Prop :=
  match p with
  | Vis c k => (∀ r, panic_reply c r → ∃ m, k r = Panic m) ∧ ∀ r, goes_down (k r)
  | _ => True
  end.

Definition goes_down_thread (th : thread) : Prop :=
  match th with
  | Running p => goes_down p
  | Inside c k => goes_down (Vis (I := ServerDeps) c k)
  end.

Lemma ServeHTTP_goes_down r : goes_down (ServeHTTP r).
Proof.
  assert (∀ o msg w, goes_down (bind (pure o) (λ err : option error, bind (scall UnlockUpdate) (λ _,
    match err with Some err => Ret (respond_error w StatusInternalServerError err msg) | None => Ret (WriteHeader w StatusOK) end))))
    as Htail by (intros [[e|]|m] msg w; by simpl).
  unfold ServeHTTP. destruct (route _ _); try done.
  - unfold HandleSetDesiredSize. cbv zeta. destruct (In_BodyError r); [done|].
    destruct (Unmarshal _ _ _) as [[msg|e]|m]; simpl; [|done|done].
    destruct (SetDesiredSizeMessage_Validate msg); [done|]. destruct (DesiredSize msg); [|done].
    unfold locked_update. split; [done|]. intros []. split; [intros x [m ->]; by exists m|]. intros x. apply Htail.
  - unfold HandleTerminateMachine. cbv zeta. destruct (In_BodyError r); [done|].
    destruct (Unmarshal _ _ _) as [[msg|e]|m]; simpl; [|done|done].
    destruct (TerminateMachineMessage_Validate msg); [done|].
    unfold locked_update. split; [done|]. intros []. split; [intros x [m ->]; by exists m|]. intros x. apply Htail.
  - unfold ForwardToBackend. cbv zeta. cbn [bind scall invoke goes_down]. split; [done|].
    intros [[resp|e]|m]; simpl; [|done|done]. by destruct (BodyError resp).
Qed.

Lemma reachable_goes_down s i th : reachable s → threads s !! i = Some th → goes_down_thread th.
Proof.
  intros Hr. revert i th. induction Hr as [|s s' _ IH Hs]; [by intros i th Hi; cbn in Hi; rewrite lookup_nil in Hi|].
  intros i th Hi. destruct Hs as [h ts r|ts j k Hj|h ts j k Hj|h ts j c k _ _ Hj|h ts j c k r Hj]; cbn [threads] in *.
  { apply lookup_app_Some in Hi as [Hi|[_ Hi]]; [by eapply IH|]. apply list_lookup_singleton_Some in Hi as [_ <-].
    apply ServeHTTP_goes_down. }
  all: apply list_lookup_insert_Some in Hi as [(-> & <- & _)|[_ Hi]]; [|by eapply IH].
  all: apply IH in Hj; try exact Hj; destruct Hj as [_ Hj]; apply Hj.
Qed.

(** After an update has panicked its request keeps the lock. *)
Lemma panic_wedges s i c k r :
  reachable s → threads s !! i = Some (Inside c k) → panic_reply c r →
  wedged (MkServer (holder s) (<[i := Running (k r)]> (threads s))) i.
Proof.
  intros Hr Hi Hp. destruct (reachable_invariant s Hr) as [Hd _]. destruct (Hd i _ Hi) as (_ & _ & Hheld & _).
  destruct (reachable_goes_down s i _ Hr Hi) as [Hdown _]. destruct (Hdown r Hp) as [m Hm]. split; cbn [holder threads].
  - apply (bool_decide_eq_true (holder s = Some i)), Hheld. by destruct c.
  - exists m. rewrite list_lookup_insert_eq; [by rewrite Hm|]. by eapply lookup_lt_Some.
Qed.
End Steps.

(** ** Headers and routes *)

Section ServerFacts.
Context `{ranger : !MapRange, lib : !GoLib}.

Lemma add_values w k vs k' :
  default [] (W_Header (foldl (λ w v, add_header w k v) w vs) !! k') =
  (default [] (W_Header w !! k') ++ (if decide (k = k') then vs else []))%list.
Proof.
  revert w. induction vs as [|v vs IH]; intros w; simpl.
  { case_decide; by rewrite app_nil_r. }
  rewrite IH. simpl. unfold Header_Add. case_decide as E.
  - subst k'. rewrite lookup_insert_eq. simpl. by rewrite <- app_assoc.
  - by rewrite lookup_insert_ne.
Qed.

Lemma add_values_sent w k vs :
  W_Sent (foldl (λ w v, add_header w k v) w vs) = W_Sent w ∧ W_Body (foldl (λ w v, add_header w k v) w vs) = W_Body w.
Proof. revert w. induction vs as [|v vs IH]; intros w; simpl; [done|]. by rewrite !(proj1 (IH _)), !(proj2 (IH _)). Qed.

Lemma copy_entries w (es : list (string * list string)) k :
  NoDup es.*1 →
  default [] (W_Header (foldl (λ w '(k, vs), foldl (λ w v, add_header w k v) w vs) w es) !! k) =
  (default [] (W_Header w !! k) ++ default [] ((list_to_map es : Header) !! k))%list.
Proof.
  revert w. induction es as [|[k0 vs] es IH]; intros w Hnd; cbn [foldl].
  { simpl. rewrite lookup_empty. simpl. by rewrite app_nil_r. }
  inversion Hnd as [|? ? Hk Hnd']; subst. rewrite IH by done. rewrite add_values, <- app_assoc. f_equal.
  simpl list_to_map. case_decide as E.
  - subst k. rewrite lookup_insert_eq. simpl.
    rewrite (not_elem_of_list_to_map_1 es k0) by done. simpl. by rewrite app_nil_r.
  - by rewrite lookup_insert_ne.
Qed.

(** Copying gives every header its values, in order. *)
Lemma copy_headers_spec h k :
  default [] (W_Header (copy_headers new_writer h) !! k) = default [] (h !! k).
Proof.
  unfold copy_headers. rewrite copy_entries.
  - simpl. rewrite lookup_empty. simpl. f_equal. rewrite <- (list_to_map_to_list (M := gmap string) h) at 2.
    by rewrite (list_to_map_proper (M := gmap string) _ _ (nodup_range_keys h) (range_perm h)).
  - apply nodup_range_keys.
Qed.

Lemma copy_headers_sent h : W_Sent (copy_headers new_writer h) = None ∧ W_Body (copy_headers new_writer h) = "".
Proof.
  unfold copy_headers. assert (Hg : ∀ es w,
    W_Sent (foldl (λ w '(k, vs), foldl (λ w v, add_header w k v) w vs) w es) = W_Sent w ∧
    W_Body (foldl (λ w '(k, vs), foldl (λ w v, add_header w k v) w vs) w es) = W_Body w).
  { induction es as [|[k vs] es IH]; intros w; cbn [foldl]; [done|].
    rewrite !(proj1 (IH _)), !(proj2 (IH _)). apply add_values_sent. }
  apply Hg.
Qed.

Lemma Clean_rooted p : ∃ s, Clean p = String "/" s.
Proof. unfold Clean, join_rooted. by eexists. Qed.

Lemma cleanPath_rooted p : ∃ s, cleanPath p = String "/" s.
Proof.
  unfold cleanPath. destruct p as [|c p]; [by exists ""|]. cbv zeta.
  destruct (Clean_rooted (if Ascii.eqb c "/" then String c p else String "/" (String c p))) as (s & Hs).
  rewrite Hs. destruct (_ && _); by eexists.
Qed.

Lemma last_char_app a s : s ≠ "" → last_char (a +:+ s) = last_char s.
Proof.
  intros Hs. induction a as [|c a IH]; [done|]. change (String c a +:+ s) with (String c (a +:+ s)).
  cbn [last_char]. rewrite IH. by destruct a, s.
Qed.

Lemma last_char_no_slash e : e ≠ "" → no_char "/" e = true → last_char e ≠ Some "/"%char.
Proof.
  induction e as [|c e IH]; [done|]. intros _. unfold no_char. cbn [all_chars last_char]. intros [Hc He]%andb_true_iff.
  destruct e as [|d e]; [|by apply IH]. apply negb_true_iff, Ascii.eqb_neq in Hc. congruence.
Qed.

Lemma last_char_join elems :
  elems ≠ [] → Forall proper_element elems → last_char (join_rooted elems) ≠ Some "/"%char.
Proof.
  intros Hne H. unfold join_rooted. rewrite last_char_app.
  - induction H as [|e elems (He & _ & _ & Hn) Hes IH]; [done|]. destruct elems as [|e' elems].
    + by apply last_char_no_slash.
    + rewrite concat_cons, last_char_app by done. change ("/" +:+ ?x) with (String "/" x). cbn [last_char].
      destruct (String.concat "/" (e' :: elems)) eqn:E; [|by apply IH].
      inversion Hes as [|? ? (He' & _) ?]; subst. by destruct elems, e'.
  - inversion H as [|e es (He & _) ?]; subst; [done|]. by destruct es, e.
Qed.

Lemma Split_cons sep s : ∃ w ws, Split sep s = w :: ws.
Proof. destruct s as [|c s]; cbn [Split]; [|destruct (Ascii.eqb c sep), (Split sep s)]; by eauto. Qed.

Lemma Split_trailing sep s : Split sep (s +:+ String sep "") = (Split sep s ++ [""])%list.
Proof.
  induction s as [|c s IH]; [change ("" +:+ String sep "") with (String sep ""); cbn [Split]; by rewrite Ascii.eqb_refl|].
  change (String c s +:+ String sep "") with (String c (s +:+ String sep "")). cbn [Split].
  destruct (Ascii.eqb c sep); rewrite IH; [done|]. by destruct (Split_cons sep s) as (w & ws & ->).
Qed.

(** Cleaning a path that ends in a slash is the same as cleaning it without. *)
Lemma Clean_trailing_slash elems :
  elems ≠ [] → Forall proper_element elems → Clean (join_rooted elems +:+ "/") = join_rooted elems.
Proof.
  intros Hne H. unfold Clean. f_equal.
  change (join_rooted elems +:+ "/") with (join_rooted elems +:+ String "/" ""). rewrite Split_trailing.
  rewrite Split_join by done.
  pose proof (clean_elements_id [] elems H) as Hid.
  assert (∀ st es, clean_elements st (es ++ [""])%list = clean_elements st es) as ->.
  { intros st es. revert st. induction es as [|e es IH]; intros st; [done|]. cbn [app clean_elements].
    by destruct (_ || _), (String.eqb e ".."). }
  by destruct elems.
Qed.

(** A cleaned path is clean: a redirect is followed by no second one. *)
Lemma cleanPath_idemp p : cleanPath (cleanPath p) = cleanPath p.
Proof.
  unfold cleanPath at 2 3. destruct p as [|c p]; [done|]. cbv zeta.
  set (q := if Ascii.eqb c "/" then _ else _). destruct (Clean_shape q) as (elems & He & ->).
  assert (Hclean : Clean (join_rooted elems) = join_rooted elems) by by apply Clean_join.
  destruct (decide (elems = [])) as [->|Hne].
  { change (join_rooted []) with "/". by rewrite andb_false_r. }
  assert (Hneq : String.eqb (join_rooted elems) "/" = false).
  { unfold join_rooted. destruct elems as [|e es]; [done|]. inversion He as [|? ? (Hd & _) ?]; subst.
    apply String.eqb_neq. by destruct e, es. }
  rewrite Hneq, andb_true_r. destruct (bool_decide (last_char q = Some "/"%char)).
  - unfold cleanPath. change (join_rooted elems +:+ "/") with (String "/" (String.concat "/" elems +:+ "/")).
    cbv beta iota zeta. rewrite Ascii.eqb_refl.
    change (String "/" (String.concat "/" elems +:+ "/")) with (join_rooted elems +:+ "/").
    rewrite Clean_trailing_slash by done. rewrite Hneq, last_char_app by done. done.
  - unfold cleanPath. change (join_rooted elems) with (String "/" (String.concat "/" elems)) at 1.
    cbv beta iota zeta. rewrite Ascii.eqb_refl. change (String "/" (String.concat "/" elems)) with (join_rooted elems).
    rewrite Hclean, bool_decide_eq_false_2 by by apply last_char_join. done.
Qed.

Lemma route_spec method path :
  route method path =
  if String.eqb (cleanPath path) path then
    if String.eqb path "/pool/size" && String.eqb method "POST" then ToSetDesiredSize
    else if String.eqb path "/pool/terminate" && String.eqb method "POST" then ToTerminateMachine
    else ToBackend
  else ToRedirect (cleanPath path).
Proof.
  unfold route. destruct (String.eqb_spec (cleanPath path) path) as [E|]; [|done]. simpl negb. cbv iota.
  destruct (cleanPath_rooted path) as (s & Hs). rewrite E in Hs. subst path. done.
Qed.
End ServerFacts.

(** ** Claims *)

(** A readable request with a well-formed resize message for [n]. *)
Definition asks_size (r : Incoming) (n : Z) : Prop :=
  In_BodyError r = None ∧ (0 ≤ n)%Z ∧
  Unmarshal (MkSetDesiredSizeMessage None) dec_set_size (ReqBody (In_Request r)) =
    Done (Ok (MkSetDesiredSizeMessage (Some n))).

(** A readable request with a well-formed terminate message. *)
Definition asks_termination (r : Incoming) (id : string) (dec : bool) : Prop :=
  In_BodyError r = None ∧ id ≠ "" ∧
  Unmarshal (MkTerminateMachineMessage "" false) dec_terminate (ReqBody (In_Request r)) =
    Done (Ok (MkTerminateMachineMessage id dec)).

(** The status a handler sent. *)
Definition status (w : Writer) : option Z := fst <$> W_Sent w.

(** The calls of an update and what they led to. *)
Definition update_calls (c : server_call) (r : server_reply c) : trace ServerDeps :=
  [ev (I := ServerDeps) LockUpdate tt; ev (I := ServerDeps) c r; ev (I := ServerDeps) UnlockUpdate tt].

Section HandlerFacts.
Context `{ranger : !MapRange, lib : !GoLib}.

Lemma status_respond_error w code e msg : W_Sent w = None → status (respond_error w code e msg) = Some code.
Proof.
  intros Hw. unfold respond_error. destruct (cause_message e msg) as [m d]. unfold status, writeErrorResponse, write_body, WriteHeader.
  simpl. by rewrite Hw.
Qed.

Lemma locked_update_runs c (f : server_reply c → outcome (option error)) msg t w :
  runs (locked_update c f msg new_writer) t (Done w) →
  ∃ r oe, f r = Done oe ∧ t = update_calls c r ∧
    status w = Some (match oe with None => StatusOK | Some _ => StatusInternalServerError end).
Proof.
  unfold locked_update. intros H. cbn [bind scall invoke runs] in H.
  destruct H as ([] & t1 & -> & H). destruct H as (r & t2 & -> & H).
  apply runs_bind in H as [(t3 & t4 & oe & -> & [-> Hf]%runs_pure & H)|(? & ? & _)]; [|done].
  simpl in H. destruct H as ([] & t5 & -> & H). exists r, oe. split; [done|].
  destruct oe as [e|]; destruct H as [-> [= ->]].
  - split; [done|]. by apply status_respond_error.
  - by split.
Qed.
End HandlerFacts.

(** The error response of the server, as the client reads it. *)
Lemma error_response_read `{ranger : !MapRange, lib : !GoLib} c code message detail resp method path header body past :
  is_ascii_string message = true → is_ascii_string detail = true → code ≠ StatusOK →
  status (writeErrorResponse new_writer code message detail) = Some (StatusCode resp) →
  RespBody resp = W_Body (writeErrorResponse new_writer code message detail) → BodyError resp = None →
  newRequestError method (poolURL c (urlPath (poolURL c path))) = None →
  exec (answers resp) past (doRequest c (own_request c method path header body)) =
  ([ev (I := HTTPBackend) (ClientDo (forwarded c (own_request c method path header body))) (Ok resp)],
   Done (Err (ErrorMessage message detail))).
Proof.
  intros Hm Hd Hcode Hst Hbody Herr Hnew. simpl in Hst. injection Hst as Hst. unfold doRequest, Forward.
  change (newRequestError (Method (own_request c method path header body)) (poolURL c (URLPath (own_request c method path header body))))
    with (newRequestError method (poolURL c (urlPath (poolURL c path)))). rewrite Hnew. cbn. unfold answers.
  rewrite Herr, <- Hst, (proj2 (Z.eqb_neq _ _) Hcode), Hbody. cbn [negb].
  pose proof (decode_indented (message, detail) (conj Hm Hd)) as Hdec.
  change (Unmarshal ("", "") dec_error_message (error_body message detail) = Done (Ok (message, detail))) in Hdec.
  change (W_Body (writeErrorResponse new_writer code message detail)) with (error_body message detail). by rewrite Hdec.
Qed.

(** What an operation of the client makes of an error of its request. *)
Lemma operation_error `{ranger : !MapRange, lib : !GoLib} {A} c e resp method path header body (msg : string) args
    (f : error → A) (g : error → Prog HTTPBackend A) (k : string → Prog HTTPBackend A) t :
  newRequestError method (poolURL c path) = None →
  exec (answers resp) [] (doRequest c (own_request c method path header body)) = (t, Done (Err e)) →
  exec (answers resp) []
    (match newRequestError method (poolURL c path) with
     | Some err => g err
     | None =>
         bind (doRequest c (own_request c method path header body)) (λ r,
           match r with Err err => Ret (f (ErrorWithCause err msg args)) | Ok body => k body end)
     end) = (t, Done (f (ErrorWithCause e msg args))).
Proof. intros -> He. rewrite (exec_bind _ _ _ _ _ _ He). simpl. by rewrite app_nil_r. Qed.

Section ServerClaims.
Context `{ranger : !MapRange, lib : !GoLib}.

(** C15. Updates exclude each other: in every reachable state of the server at
    most one request is inside [SetDesiredSize] or [TerminateMachine] of the
    proxy, and it is the one that holds the lock. *)
Theorem updates_are_mutually_exclusive (s : server) (i j : nat) ci ki cj kj :
  reachable s →
  threads s !! i = Some (Inside ci ki) → threads s !! j = Some (Inside cj kj) →
  is_update ci = true → is_update cj = true →
  i = j ∧ holder s = Some i.
Proof.
  intros Hr Hi Hj Hci Hcj. destruct (reachable_invariant s Hr) as [Hd _].
  destruct (Hd i _ Hi) as (_ & _ & Hhi & _). destruct (Hd j _ Hj) as (_ & _ & Hhj & _).
  specialize (Hhi Hci). specialize (Hhj Hcj). apply bool_decide_eq_true in Hhi, Hhj. split; congruence.
Qed.

(** The server never gets stuck on the lock except after a panic: in every
    reachable state in which a request holds the lock, that request can take a
    step (its call returns, or it goes on to its call or to the unlocking), or
    it has panicked. *)
Theorem lock_holder_can_progress (s : server) (i : nat) :
  reachable s → holder s = Some i →
  wedged s i ∨ ∃ th s', step s s' ∧ threads s' = <[i := th]> (threads s).
Proof.
  intros Hr Hh. destruct (reachable_invariant s Hr) as [Hd Hl]. destruct s as [h ts]. cbn [holder threads] in *.
  destruct (lookup_lt_is_Some_2 ts i) as [th Hth]; [by apply Hl|].
  pose proof (Hd i th Hth) as Hi. rewrite bool_decide_true in Hi by done.
  destruct th as [[w|m|c k]|c k].
  - done.
  - left. split; [done|]. eauto.
  - right. destruct Hi as [Hc _].
    destruct c; [done|eexists _, _; split; [by eapply step_unlock|done]|..];
      (eexists _, _; split; [by eapply step_call; [| |exact Hth]|done]).
  - right. destruct Hi as (Hc1 & Hc2 & _).
    assert (r : server_reply c) by (destruct c; [exact tt|exact tt|exact (Panicked EmptyString)..]).
    eexists _, _. split; [exact (step_return h ts i c k r Hth)|done].
Qed.

(** C25. When a resize or a termination panics in the proxy, its request keeps
    the update lock: in the state in which the panic has come back to the
    handler, and in every later one, the lock is held by that request, which
    does nothing more, and no request is inside an update, so no resize or
    termination is served again until the program restarts. *)
Theorem panic_blocks_updates_forever (s s' : server) (i : nat) (c : server_call) (k : server_reply c → Prog ServerDeps Writer) r :
  reachable s → threads s !! i = Some (Inside c k) → panic_reply c r →
  steps (MkServer (holder s) (<[i := Running (k r)]> (threads s))) s' →
  holder s' = Some i ∧ (∃ m, threads s' !! i = Some (Running (Panic m))) ∧
  ∀ j c' k', threads s' !! j = Some (Inside c' k') → is_update c' = false.
Proof.
  intros Hr Hi Hp Hs. pose proof (panic_wedges s i c k r Hr Hi Hp) as Hw.
  assert (reachable (MkServer (holder s) (<[i := Running (k r)]> (threads s)))) as Hr1.
  { eapply reach_step; [exact Hr|]. destruct s as [h ts]. by apply step_return. }
  destruct (wedged_steps _ _ _ Hr1 Hw Hs) as [[Hh Hpanic] Hr'].
  split_and!; [done|done|]. intros j c' k' Hj. destruct (reachable_invariant s' Hr') as [Hd _].
  destruct (Hd j _ Hj) as (_ & _ & Hheld & _). destruct (is_update c'); [|done].
  specialize (Hheld eq_refl). apply bool_decide_eq_true in Hheld. destruct Hpanic. congruence.
Qed.

(** C23. A resize request reaches the proxy only with a well-formed message for
    a non-negative size, once and between locking and unlocking, and is answered
    200 or 500 by the proxy's result; any other request to that route is
    answered 400 and makes no call at all. *)
Theorem resize_handler_outcome (r : Incoming) (t : trace ServerDeps) (w : Writer) :
  runs (HandleSetDesiredSize r) t (Done w) →
  (t = [] ∧ status w = Some StatusBadRequest ∧ ∀ n, ¬ asks_size r n) ∨
  (∃ n oe, asks_size r n ∧ t = update_calls (CallSetDesiredSize n) (Done oe) ∧
     status w = Some (match oe with None => StatusOK | Some _ => StatusInternalServerError end)).
Proof.
  unfold HandleSetDesiredSize, asks_size. cbv zeta.
  destruct (In_BodyError r) as [e|].
  { intros [-> [= ->]]. left. split; [done|]. split; [by apply status_respond_error|]. by intros n [? _]. }
  destruct (Unmarshal _ _ _) as [[msg|e]|m] eqn:Eu; cbn [pure bind].
  3: by intros [].
  2: { intros [-> [= ->]]. left. split; [done|]. split; [by apply status_respond_error|]. by intros n (_ & _ & ?). }
  pose proof (SetDesiredSizeMessage_Validate_spec msg) as Hv.
  destruct (SetDesiredSizeMessage_Validate msg) as [e|].
  { intros [-> [= ->]]. left. split; [done|]. split; [done|]. intros n (_ & Hn & [= ->]).
    assert (Some e = None) as Hx by (apply Hv; by exists n). done. }
  destruct (proj1 Hv eq_refl) as (n & Hn & Hpos). rewrite Hn. intros H.
  apply locked_update_runs in H as (r' & oe & -> & -> & Hs). right. exists n, oe.
  destruct msg as [d]. simpl in Hn. subst d. by split_and!.
Qed.

(** The same for a request to terminate a machine, whose message must name
    a machine. *)
Theorem terminate_handler_outcome (r : Incoming) (t : trace ServerDeps) (w : Writer) :
  runs (HandleTerminateMachine r) t (Done w) →
  (t = [] ∧ status w = Some StatusBadRequest ∧ ∀ id dec, ¬ asks_termination r id dec) ∨
  (∃ id dec oe, asks_termination r id dec ∧ t = update_calls (CallTerminateMachine id dec) (Done oe) ∧
     status w = Some (match oe with None => StatusOK | Some _ => StatusInternalServerError end)).
Proof.
  unfold HandleTerminateMachine, asks_termination. cbv zeta.
  destruct (In_BodyError r) as [e|].
  { intros [-> [= ->]]. left. split; [done|]. split; [by apply status_respond_error|]. by intros id dec [? _]. }
  destruct (Unmarshal _ _ _) as [[[id dec]|e]|m] eqn:Eu; cbn [pure bind].
  3: by intros [].
  2: { intros [-> [= ->]]. left. split; [done|]. split; [by apply status_respond_error|]. by intros id dec (_ & _ & ?). }
  unfold TerminateMachineMessage_Validate. simpl MachineID. destruct (String.eqb_spec id "") as [->|Hid].
  { intros [-> [= ->]]. left. split; [done|]. split; [done|]. by intros id' dec' (_ & Hne & [= <- <-]). }
  intros H. apply locked_update_runs in H as (r' & oe & -> & -> & Hs). right. by exists id, dec, oe.
Qed.

(** A forwarded request is answered with the backend's answer: its status,
    for every header name its values in order, and its body. *)
Theorem forwarding_returns_backend_response (r : Incoming) (t : trace ServerDeps) (w : Writer) (resp : Response) :
  runs (ForwardToBackend r) t (Done w) →
  t = [ev (I := ServerDeps) (CallForward (In_Request r)) (Done (Ok resp))] → BodyError resp = None →
  W_Body w = RespBody resp ∧
  ∃ h, W_Sent w = Some (StatusCode resp, h) ∧ ∀ k, default [] (h !! k) = default [] (RespHeader resp !! k).
Proof.
  unfold ForwardToBackend. cbv zeta. intros H Ht Hb. cbn [bind scall invoke runs] in H.
  destruct H as (r' & t' & Ht' & H). rewrite Ht in Ht'.
  apply (f_equal (λ t : trace ServerDeps, match t with [existT (CallForward _) x] => Some x | _ => None end)) in Ht'
    as Hr. destruct t'; [|discriminate Ht']. simpl in Hr. injection Hr as <-.
  cbn [pure bind] in H. rewrite Hb in H. destruct H as [_ [= ->]].
  destruct (copy_headers_sent (RespHeader resp)) as [Hs Hbody]. unfold write_body, WriteHeader. simpl.
  rewrite Hs, Hbody. split; [done|]. eexists. split; [done|]. intros k. apply copy_headers_spec.
Qed.

(** Routing: a POST to one of the two update paths goes to its handler, any
    other request with a clean path is forwarded to the backend, and a request
    with an unclean path is redirected to the clean one. *)
Theorem routing_is_total (method path : string) :
  (cleanPath path = path → path = "/pool/size" → method = "POST" → route method path = ToSetDesiredSize) ∧
  (cleanPath path = path → path = "/pool/terminate" → method = "POST" → route method path = ToTerminateMachine) ∧
  (cleanPath path = path → (path = "/pool/size" ∨ path = "/pool/terminate" → method ≠ "POST") → route method path = ToBackend) ∧
  (cleanPath path ≠ path → route method path = ToRedirect (cleanPath path)).
Proof.
  rewrite route_spec. destruct (String.eqb_spec (cleanPath path) path) as [E|E]; [|done].
  split_and!; [by intros _ -> ->|by intros _ -> ->| |done]. intros _ Hm.
  destruct (String.eqb_spec path "/pool/size"), (String.eqb_spec path "/pool/terminate"),
    (String.eqb_spec method "POST"); simpl; naive_solver.
Qed.

(** A trailing slash circumvents the update handling: [POST /pool/size/] and
    [POST /pool/terminate/] are not routed to the handlers but forwarded, and
    the URL they are forwarded to is that of the backend's own resize and
    terminate operations, so the pool is changed without any regard to the
    Kubernetes nodes. *)
Theorem trailing_slash_bypasses_handlers (c : DefaultCloudPoolClient) :
  route "POST" "/pool/size/" = ToBackend ∧ poolURL c "/pool/size/" = CloudPoolURL c +:+ "/pool/size" ∧
  route "POST" "/pool/terminate/" = ToBackend ∧ poolURL c "/pool/terminate/" = CloudPoolURL c +:+ "/pool/terminate".
Proof. by split_and!. Qed.

(** A request whose path is not clean is answered with a redirect, without any
    call, and the redirect is right: read as the target of a request, its
    Location has the clean path and the query of the request, whatever
    characters the path has, and a request for it is not redirected again. *)
Theorem redirect_reaches_clean_path (rest : string) (r : Incoming) (p : string) :
  ParseRequestURI (String "/" rest) = Ok (ReqURL (In_Request r)) →
  route (Method (In_Request r)) (URLPath (In_Request r)) = ToRedirect p →
  ∃ w location u, ServeHTTP r = Ret w ∧ W_Sent w = Some (301%Z, <["Location" := [location]]> ∅) ∧
    ParseRequestURI location = Ok u ∧ URL_Path u = cleanPath (URLPath (In_Request r)) ∧
    URL_RawQuery u = URL_RawQuery (ReqURL (In_Request r)) ∧
    URL_ForceQuery u = URL_ForceQuery (ReqURL (In_Request r)) ∧
    ∀ method q, route method (URL_Path u) ≠ ToRedirect q.
Proof.
  intros Hu Hr. assert (cleanPath (URLPath (In_Request r)) ≠ URLPath (In_Request r) ∧ p = cleanPath (URLPath (In_Request r)))
    as [Hne ->].
  { rewrite route_spec in Hr. destruct (String.eqb_spec (cleanPath (URLPath (In_Request r))) (URLPath (In_Request r)));
      [by repeat case_match|by simplify_eq]. }
  unfold ServeHTTP. rewrite Hr. eexists _, _, _. split; [done|]. split; [done|]. split.
  { eapply redirected_target; [exact Hu| |exact Hne]. by destruct (cleanPath_rooted (URLPath (In_Request r))) as (s & ->). }
  split_and!; [done..|]. intros method q. cbn [URL_Path]. rewrite route_spec, cleanPath_idemp, String.eqb_refl.
  by repeat case_match.
Qed.

(** An escaped question mark circumvents the update handling as well: a POST to
    [/pool/size%3F] or [/pool/terminate%3F] has a path that no handler is
    registered for; it is forwarded, and since [Forward] builds the URL from the
    decoded path, the question mark then ends the path: the backend is asked
    for its own resize or terminate operation. *)
Theorem escaped_query_bypasses_handlers (c : DefaultCloudPoolClient) (op : string) (req : Request) :
  plain_base c [] → op = "size" ∨ op = "terminate" → Method req = "POST" →
  ParseRequestURI ("/pool/" +:+ op +:+ "%3F") = Ok (ReqURL req) →
  route (Method req) (URLPath req) = ToBackend ∧
  ∃ out u k, Forward c req = Vis (I := HTTPBackend) (ClientDo out) k ∧ Out_Method out = "POST" ∧
    Parse (Out_URL out) = Ok u ∧ URL_Path u = "/pool/" +:+ op ∧ Out_Body out = ReqBody req.
Proof.
  intros (scheme & host & Hs & Hh & _ & Hc) Hop Hm Hu.
  assert (URLPath req = "/pool/" +:+ op +:+ "?") as Hp.
  { assert (ParseRequestURI ("/pool/" +:+ op +:+ "%3F") = Ok (path_url ("/pool/" +:+ op +:+ "?"))) as E
      by (by destruct Hop as [->| ->]).
    unfold URLPath. rewrite E in Hu. injection Hu as <-. done. }
  assert (poolURL c (URLPath req) = scheme +:+ "://" +:+ host +:+ String "/" ("pool/" +:+ op) +:+ query_text (Some "")) as Hurl.
  { unfold poolURL. rewrite Hp, Hc, !app_assoc_s. do 3 f_equal. by destruct Hop as [->| ->]. }
  pose proof (Parse_ordinary_query scheme host ("pool/" +:+ op) (Some "") Hs Hh ltac:(by destruct Hop as [->| ->]) eq_refl) as Hparse.
  split; [rewrite Hp, Hm; by destruct Hop as [->| ->]|].
  unfold Forward. rewrite Hurl, Hm.
  assert (newRequestError "POST" (scheme +:+ "://" +:+ host +:+ String "/" ("pool/" +:+ op) +:+ query_text (Some "")) = None) as ->.
  { unfold newRequestError, urlParseError. by rewrite Hparse. }
  eexists _, _, _. split; [reflexivity|]. cbn [Out_Method Out_URL Out_Body]. by rewrite Hparse.
Qed.

(** C32. An error response of this server is understood by the cloudpool client
    of this program (so one proxy can be the backend of another).  Let the base
    of the client be an http or https URL of ordinary characters, and let the
    backend answer every request with the error response of this server for
    some status other than 200, message and detail, both ASCII and the message
    without a percent sign.  Then every operation of the client, after its one
    request, returns an error with that detail, whose message is that message
    after the name of the operation and its argument. *)
Theorem error_response_reaches_client (c : DefaultCloudPoolClient) (base : list string) (code : Z) (message detail : string)
    (resp : Response) (n : Z) (id : string) (dec : bool) :
  plain_base c base → is_ascii_string message = true → is_ascii_string detail = true →
  all_chars (λ ch, negb (Ascii.eqb ch "%")) message = true → code ≠ StatusOK →
  let w := writeErrorResponse new_writer code message detail in
  status w = Some (StatusCode resp) → RespBody resp = W_Body w → BodyError resp = None →
  let sent (out : OutRequest) := [ev (I := HTTPBackend) (ClientDo out) (Ok resp)] in
  ∃ pool_req size_req resize_req terminate_req,
    exec (answers resp) [] (GetMachinePool c) =
      (sent pool_req, Done (Err (ErrorMessage ("getMachinePool: " +:+ message) detail))) ∧
    exec (answers resp) [] (GetPoolSize c) =
      (sent size_req, Done (Err (ErrorMessage ("getPoolSize: " +:+ message) detail))) ∧
    exec (answers resp) [] (GetMachine c id) =
      (sent pool_req, Done (Err (ErrorMessage ("getMachine " +:+ id +:+ ": failed to get machine: getMachinePool: " +:+ message) detail))) ∧
    exec (answers resp) [] (client_SetDesiredSize c n) =
      (sent resize_req, Done (Some (ErrorMessage ("setDesiredSize " +:+ pretty n +:+ ": " +:+ message) detail))) ∧
    exec (answers resp) [] (client_TerminateMachine c id dec) =
      (sent terminate_req, Done (Some (ErrorMessage ("terminateMachine " +:+ id +:+ ": " +:+ message) detail))).
Proof.
  intros Hb Hm Hd Hpct Hcode w Hst Hbody Herr sent.
  assert (∀ elems method, elems = ["pool"] ∨ elems = ["pool"; "size"] ∨ elems = ["pool"; "terminate"] → validMethod (request_method method) = true →
    newRequestError method (poolURL c (join_rooted elems)) = None ∧
    newRequestError method (poolURL c (urlPath (poolURL c (join_rooted elems)))) = None) as Hnew.
  { intros elems method Hel Hv. destruct (plain_base_accepts c base elems method Hb) as (? & ? & _); [| |done|done];
      destruct Hel as [->|[->| ->]]; by repeat constructor. }
  assert (∀ method path header body, newRequestError method (poolURL c (urlPath (poolURL c path))) = None → _) as He
    by exact (λ method path header body, error_response_read c code message detail resp method path header body [] Hm Hd Hcode Hst Hbody Herr).
  destruct (Hnew ["pool"] "GET" ltac:(by left) eq_refl) as [Hp1 Hp2].
  destruct (Hnew ["pool"; "size"] "GET" ltac:(by right; left) eq_refl) as [Hs1 Hs2].
  destruct (Hnew ["pool"; "size"] "POST" ltac:(by right; left) eq_refl) as [Hr1 Hr2].
  destruct (Hnew ["pool"; "terminate"] "POST" ltac:(by right; right) eq_refl) as [Ht1 Ht2].
  assert (Hpool : exec (answers resp) [] (GetMachinePool c) = (sent (forwarded c (own_request c "GET" "/pool" ∅ "")),
    Done (Err (ErrorMessage ("getMachinePool: " +:+ message) detail)))).
  { etransitivity; [exact (operation_error c _ resp "GET" "/pool" ∅ "" "getMachinePool" [] Err _ _ _ Hp1 (He _ _ _ _ Hp2))|].
    by rewrite ErrorWithCause_plain. }
  eexists _, _, _, _. split_and!; [exact Hpool|..].
  - etransitivity; [exact (operation_error c _ resp "GET" "/pool/size" ∅ "" "getPoolSize" [] Err _ _ _ Hs1 (He _ _ _ _ Hs2))|].
    by rewrite ErrorWithCause_plain.
  - unfold GetMachine. rewrite (exec_bind _ _ _ _ _ _ Hpool). cbn [exec fst snd]. rewrite app_nil_r.
    by rewrite (ErrorWithCause_arg _ _ "getMachine " "s" ": failed to get machine").
  - etransitivity; [exact (operation_error c _ resp "POST" "/pool/size" _ _ "setDesiredSize %d" _ Some _ _ _ Hr1 (He _ _ _ _ Hr2))|].
    by rewrite (ErrorWithCause_arg _ _ "setDesiredSize " "d" "").
  - etransitivity; [exact (operation_error c _ resp "POST" "/pool/terminate" _ _ "terminateMachine %s" _ Some _ _ _ Ht1 (He _ _ _ _ Ht2))|].
    by rewrite (ErrorWithCause_arg _ _ "terminateMachine " "s" "").
Qed.

(** When reading the backend's body fails part-way the status has already
    been sent: the response keeps the backend's status, not 502, and the error
    message is appended to the part of the body already sent. *)
Theorem late_body_error_keeps_status (r : Incoming) (t : trace ServerDeps) (w : Writer) (resp : Response) (e : error) :
  runs (ForwardToBackend r) t (Done w) →
  t = [ev (I := ServerDeps) (CallForward (In_Request r)) (Done (Ok resp))] → BodyError resp = Some e →
  status w = Some (StatusCode resp) ∧ ∃ m d, W_Body w = RespBody resp +:+ error_body m d.
Proof.
  unfold ForwardToBackend. cbv zeta. intros H Ht Hb. cbn [bind scall invoke runs] in H.
  destruct H as (r' & t' & Ht' & H). rewrite Ht in Ht'.
  apply (f_equal (λ t : trace ServerDeps, match t with [existT (CallForward _) x] => Some x | _ => None end)) in Ht'
    as Hr. destruct t'; [|discriminate Ht']. simpl in Hr. injection Hr as <-.
  cbn [pure bind] in H. rewrite Hb in H. destruct H as [_ [= ->]].
  destruct (copy_headers_sent (RespHeader resp)) as [Hs Hbody]. unfold respond_error.
  destruct (cause_message e _) as [m d]. unfold status, writeErrorResponse, write_body, WriteHeader. simpl.
  rewrite Hs, Hbody. split; [done|]. by exists m, d.
Qed.
End ServerClaims.

(** ** Witnesses *)

#[local] Existing Instance map_to_list_range.
#[local] Existing Instance insertion_sort.

Definition post (path body : string) : Incoming := MkIncoming (MkRequest "POST" (path_url path) ∅ "10.0.0.1:4711" body) None.
Definition resize_post (n : Z) : Incoming := post "/pool/size" (enc_set_size n).
Definition terminate_post : Incoming := post "/pool/terminate" (enc_terminate "i-1" true).

Definition sample_serve (r : Incoming) : Prog ServerDeps Writer := ServeHTTP (lib := plain_lib) r.

(** The resize request locks, calls the proxy, and panics with it. *)
Lemma resize_post_shape :
  ∃ k k2, sample_serve (resize_post 2) = Vis (I := ServerDeps) LockUpdate k ∧
    k tt = Vis (I := ServerDeps) (CallSetDesiredSize 2) k2 ∧
    k2 (Panicked "nil pointer dereference") = Panic "nil pointer dereference".
Proof.
  assert (sample_serve (resize_post 2) = locked_update (CallSetDesiredSize 2) (λ r, r)
    "failed to set desired size" new_writer) as ->; [|by eexists _, _].
  unfold sample_serve, ServeHTTP. change (route _ _) with ToSetDesiredSize. cbv iota.
  unfold HandleSetDesiredSize. cbv zeta. simpl In_BodyError. cbv iota.
  assert (Unmarshal (MkSetDesiredSizeMessage None) dec_set_size (ReqBody (In_Request (resize_post 2))) =
    Done (Ok (MkSetDesiredSizeMessage (Some 2%Z)))) as -> by (vm_compute; reflexivity).
  reflexivity.
Qed.

(** One resize request: it has the lock and is about to call the proxy. *)
Lemma locked_reachable :
  ∃ k, reachable (lib := plain_lib)
    (MkServer (Some 0%nat) [Running (Vis (I := ServerDeps) (CallSetDesiredSize 2) k)]) ∧
    k (Panicked "nil pointer dereference") = Panic "nil pointer dereference".
Proof.
  destruct resize_post_shape as (k & k2 & Hk & Hk2 & Hp). exists k2. split; [|exact Hp].
  assert (reachable (lib := plain_lib) (MkServer None [Running (sample_serve (resize_post 2))])) as Hr.
  { eapply reach_step; [apply reach_initial|]. apply (step_arrive None [] (resize_post 2)). }
  rewrite Hk in Hr. eapply reach_step; [exact Hr|]. rewrite <- Hk2. by apply (step_lock [_] 0).
Qed.

Lemma inside_reachable :
  ∃ k, reachable (lib := plain_lib)
    (MkServer (Some 0%nat) [Inside (CallSetDesiredSize 2) k]) ∧
    k (Panicked "nil pointer dereference") = Panic "nil pointer dereference".
Proof.
  destruct locked_reachable as (k & Hr & Hk). exists k. split; [|exact Hk].
  eapply reach_step; [exact Hr|]. by apply (step_call _ [_] 0).
Qed.

Lemma updates_are_mutually_exclusive_witness :
  ∃ s : server, reachable (lib := plain_lib) s ∧ holder s = Some 0%nat.
Proof.
  destruct inside_reachable as (k & Hr & _). eexists. split; [exact Hr|].
  refine (proj2 (updates_are_mutually_exclusive (lib := plain_lib) _ 0%nat 0%nat
    (CallSetDesiredSize 2) k (CallSetDesiredSize 2) k Hr _ _ _ _)); reflexivity.
Defined.

Lemma lock_holder_can_progress_witness :
  ∃ s : server, wedged s 0 ∨ ∃ th s', step (lib := plain_lib) s s' ∧ threads s' = <[0%nat := th]> (threads s).
Proof.
  destruct inside_reachable as (k & Hr & _). eexists.
  apply (lock_holder_can_progress (lib := plain_lib) _ 0 Hr). reflexivity.
Defined.

(** A resize panics, and then another one arrives. *)
Lemma panic_blocks_updates_forever_witness :
  ∃ (s s' : server) k, reachable (lib := plain_lib) s ∧ threads s = [Inside (CallSetDesiredSize 2) k] ∧
    steps (lib := plain_lib) (MkServer (holder s) [Running (k (Panicked "nil pointer dereference"))]) s' ∧
    length (threads s') = 2%nat ∧ holder s' = Some 0%nat ∧
    ∀ j c k, threads s' !! j = Some (Inside c k) → is_update c = false.
Proof.
  destruct inside_reachable as (k & Hr & _).
  assert (steps (lib := plain_lib) (MkServer (Some 0%nat) [Running (k (Panicked "nil pointer dereference"))])
    (MkServer (Some 0%nat) [Running (k (Panicked "nil pointer dereference")); Running (sample_serve (resize_post 2))])) as Hs
    by (eapply steps_cons; [apply (step_arrive (Some 0%nat) [_] (resize_post 2))|apply steps_refl]).
  eexists _, _, k. split; [exact Hr|]. split; [reflexivity|]. split; [exact Hs|]. split; [reflexivity|].
  destruct (panic_blocks_updates_forever (lib := plain_lib) _ _ 0%nat (CallSetDesiredSize 2) k
    (Panicked "nil pointer dereference") Hr eq_refl ltac:(eexists; reflexivity) Hs) as (Hh & _ & Hno).
  split; [exact Hh|exact Hno].
Defined.

(** Replies of a proxy on which everything succeeds. *)
Definition willing_proxy : env ServerDeps := λ _ c,
  match c with
  | LockUpdate => tt
  | UnlockUpdate => tt
  | CallSetDesiredSize _ => Done None
  | CallTerminateMachine _ _ => Done None
  | CallForward _ => Done (Ok (MkResponse 200 "200 OK" {[ "X" := ["a"; "b"] ]} "hello" None))
  end.

Lemma resize_handler_outcome_witness :
  ∃ w, (exec willing_proxy [] (HandleSetDesiredSize (lib := plain_lib) (resize_post 2))).2 = Done w ∧
    status w = Some 200%Z.
Proof.
  destruct (exec willing_proxy [] (HandleSetDesiredSize (lib := plain_lib) (resize_post 2))) as [t o] eqn:E.
  pose proof (exec_runs willing_proxy (HandleSetDesiredSize (lib := plain_lib) (resize_post 2)) []) as H.
  rewrite E in H. vm_compute in E. injection E as <- <-. eexists. split; [reflexivity|].
  destruct (resize_handler_outcome (lib := plain_lib) (resize_post 2) _ _ H)
    as [(Ht & _)|(n & oe & _ & _ & Hs)]; [discriminate Ht|].
  destruct oe as [e|]; [discriminate Hs|exact Hs].
Defined.

Lemma terminate_handler_outcome_witness :
  ∃ w, (exec willing_proxy [] (HandleTerminateMachine (lib := plain_lib) (post "/pool/terminate" "{}"))).2 = Done w ∧
    status w = Some 400%Z.
Proof.
  destruct (exec willing_proxy [] (HandleTerminateMachine (lib := plain_lib) (post "/pool/terminate" "{}")))
    as [t o] eqn:E.
  pose proof (exec_runs willing_proxy (HandleTerminateMachine (lib := plain_lib) (post "/pool/terminate" "{}")) []) as H.
  rewrite E in H. vm_compute in E. injection E as <- <-. eexists. split; [reflexivity|].
  destruct (terminate_handler_outcome (lib := plain_lib) (post "/pool/terminate" "{}") _ _ H)
    as [(_ & Hs & _)|(id & dec & oe & _ & Ht & _)]; [exact Hs|discriminate Ht].
Defined.

Lemma forwarding_returns_backend_response_witness :
  ∃ w h, W_Sent w = Some (200%Z, h) ∧ default [] (h !! "X") = ["a"; "b"].
Proof.
  pose (p := ForwardToBackend (post "/x" "")).
  assert (match (exec willing_proxy [] p).2 with Done _ => True | _ => False end) as E by (vm_compute; exact I).
  pose proof (exec_runs willing_proxy p []) as H. destruct ((exec willing_proxy [] p).2) as [w|]; [|destruct E].
  destruct (forwarding_returns_backend_response (post "/x" "") _ w
    (MkResponse 200 "200 OK" {[ "X" := ["a"; "b"] ]} "hello" None) H) as (_ & h & Hs & Hk);
    [vm_compute; reflexivity|reflexivity|].
  exists w, h. split; [exact Hs|]. rewrite Hk. vm_compute. reflexivity.
Defined.

Definition truncated_response : Response := MkResponse 200 "200 OK" ∅ "hel" (Some (ErrorString "unexpected EOF")).
Definition truncating_proxy : env ServerDeps := λ _ c,
  match c with
  | LockUpdate => tt
  | UnlockUpdate => tt
  | CallSetDesiredSize _ => Done None
  | CallTerminateMachine _ _ => Done None
  | CallForward _ => Done (Ok truncated_response)
  end.

Lemma late_body_error_keeps_status_witness : ∃ w, status w = Some 200%Z ∧ ∃ m d, W_Body w = "hel" +:+ error_body m d.
Proof.
  pose (p := ForwardToBackend (post "/x" "")).
  assert (match (exec truncating_proxy [] p).2 with Done _ => True | _ => False end) as E by (vm_compute; exact I).
  pose proof (exec_runs truncating_proxy p []) as H. destruct ((exec truncating_proxy [] p).2) as [w|]; [|destruct E].
  exists w. apply (late_body_error_keeps_status (post "/x" "") _ w truncated_response
    (ErrorString "unexpected EOF") H); [vm_compute; reflexivity|reflexivity].
Defined.

Lemma error_response_reaches_client_witness :
  let resp := MkResponse 500 "500 Internal Server Error" ∅
    (W_Body (writeErrorResponse new_writer 500 "no room" "node n1 is full")) None in
  (exec (answers resp) [] (client_SetDesiredSize (lib := plain_lib) sample_client 2)).2 =
  Done (Some (ErrorMessage "setDesiredSize 2: no room" "node n1 is full")).
Proof.
  destruct (error_response_reaches_client (lib := plain_lib) sample_client [] 500 "no room" "node n1 is full"
    (MkResponse 500 "500 Internal Server Error" ∅ (W_Body (writeErrorResponse new_writer 500 "no room" "node n1 is full")) None)
    2 "i-1" true sample_base eq_refl eq_refl eq_refl ltac:(discriminate) eq_refl eq_refl eq_refl)
    as (? & ? & ? & ? & _ & _ & _ & H & _). exact (f_equal snd H).
Defined.

Definition unclean_request : Incoming :=
  MkIncoming (MkRequest "GET" (MkURL "" "" None "" "/pool//a?b" "" false "x=1" "") ∅ "10.0.0.1:4711" "") None.

Lemma redirect_reaches_clean_path_witness :
  ∃ w location u, ServeHTTP (lib := plain_lib) unclean_request = Ret w ∧
    ParseRequestURI (lib := plain_lib) location = Ok u ∧ URL_Path u = "/pool/a?b" ∧ URL_RawQuery u = "x=1".
Proof.
  destruct (redirect_reaches_clean_path (lib := plain_lib) "pool//a%3Fb?x=1" unclean_request "/pool/a?b"
    ltac:(vm_compute; reflexivity) ltac:(vm_compute; reflexivity)) as (w & location & u & Hw & _ & Hl & Hp & Hq & _).
  exists w, location, u. split; [exact Hw|]. split; [exact Hl|]. split; [|exact Hq]. rewrite Hp. vm_compute. reflexivity.
Defined.

Lemma escaped_query_bypasses_handlers_witness :
  route "POST" "/pool/terminate?" = ToBackend.
Proof.
  exact (proj1 (escaped_query_bypasses_handlers (lib := plain_lib) sample_client "terminate"
    (MkRequest "POST" (path_url "/pool/terminate?") ∅ "" "") sample_base ltac:(right; reflexivity) eq_refl
    ltac:(vm_compute; reflexivity))).
Defined.
