(* ===== verification/Stack.v ===== *)
(** * The running program: concurrent requests down to the services

    [main] serves HTTP requests with a proxy that is wired to the Kubernetes
    client and the backend.  [request_program] is what one request makes the
    program do: locking, unlocking, and calls to the two services.  The
    transition system [sys_step] interleaves the requests call by call, with
    any replies, and records every call in a log.

    The theorems are about that log: which changes of the pool it can contain
    and what came before them, which calls of other requests can come between
    the calls of an update, that a request that holds the lock gives it back or
    dies with it, and that the requests come to rest. *)
From stdpp Require Import base tactics list strings gmap.
From Stdlib Require Import ZArith Lia.
From S2P Require Import Prelude Strconv GoStd Quantity KubeTypes Json NodeInfo Samples QuasiScheduler NodeScaler CloudPool Url PoolClient Proxy System Server.

(** ** One request *)

Inductive lock_call : Type := Lock | Unlock.
Definition UpdateLock : Iface := mkIface lock_call (λ _, unit).

Section Stack.
Context `{sorter : !SliceSort, ranger : !MapRange, lib : !GoLib}.
Context {K B : Iface} `{!NodeScaler K, !CloudPoolClient B}.

Definition Effects : Iface := sum_iface UpdateLock (sum_iface K B).

(** The calls of a handler: the lock, and the methods of the proxy. *)
Definition serve_call (c : server_call) : Prog Effects (server_reply c) :=
  match c with
  | LockUpdate => lift_l (invoke (I := UpdateLock) Lock)
  | UnlockUpdate => lift_l (invoke (I := UpdateLock) Unlock)
  | CallSetDesiredSize n => lift_r (catch (proxy_SetDesiredSize n))
  | CallTerminateMachine id dec => lift_r (catch (proxy_TerminateMachine id dec))
  | CallForward req => lift_r (catch (proxy_Forward req))
  end.

Definition request_program (r : Incoming) : Prog Effects Writer := interp (I := ServerDeps) serve_call (ServeHTTP r).

(** ** The transition system *)

(** The holder of the lock, the requests received, what each has left to do,
    and the calls made so far, each with the request that made it. *)
Record system : Type := MkSystem {
  sys_holder : option nat;
  sys_requests : list Incoming;
  sys_threads : list (Prog Effects Writer);
  sys_log : list (nat * event Effects) }.

Definition initial_system : system := MkSystem None [] [] [].

(** A step of request [i]. *)
Inductive thread_step (i : nat) : system → system → Prop :=
| thread_lock rs ts log k :
    ts !! i = Some (Vis (I := Effects) (inl Lock) k) →
    thread_step i (MkSystem None rs ts log)
      (MkSystem (Some i) rs (<[i := k tt]> ts) (log ++ [(i, ev (I := Effects) (inl Lock) tt)]))
| thread_unlock h rs ts log k :
    ts !! i = Some (Vis (I := Effects) (inl Unlock) k) →
    thread_step i (MkSystem h rs ts log)
      (MkSystem None rs (<[i := k tt]> ts) (log ++ [(i, ev (I := Effects) (inl Unlock) tt)]))
| thread_call h rs ts log c k r :
    ts !! i = Some (Vis (I := Effects) (inr c) k) →
    thread_step i (MkSystem h rs ts log)
      (MkSystem h rs (<[i := k r]> ts) (log ++ [(i, ev (I := Effects) (inr c) r)])).

Inductive sys_step : system → system → Prop :=
| sys_arrive h rs ts log r :
    sys_step (MkSystem h rs ts log) (MkSystem h (rs ++ [r]) (ts ++ [request_program r]) log)
| sys_thread i s s' : thread_step i s s' → sys_step s s'.

Inductive sys_reachable : system → Prop :=
| sys_start : sys_reachable initial_system
| sys_next s s' : sys_reachable s → sys_step s s' → sys_reachable s'.

(** ** Histories *)

(** The calls of one request in a log. *)
Definition events_of (i : nat) (log : list (nat * event Effects)) : trace Effects :=
  omap (λ x : nat * event Effects, if decide (x.1 = i) then Some x.2 else None) log.

(** The calls to the services in a trace. *)
Definition service_events (t : trace Effects) : trace (sum_iface K B) :=
  omap (λ e : event Effects, match e with existT (inl _) _ => None | existT (inr c) r => Some (ev (I := sum_iface K B) c r) end) t.

(** Whether a request with this history holds the lock. *)
Definition holding (t : trace Effects) : bool :=
  foldl (λ held (e : event Effects), match projT1 e with inl Lock => true | inl Unlock => false | inr _ => held end) false t.

Lemma events_of_app i l1 l2 : events_of i (l1 ++ l2) = events_of i l1 ++ events_of i l2.
Proof. apply omap_app. Qed.

Lemma events_of_snoc i j e log :
  events_of i (log ++ [(j, e)]) = if decide (j = i) then events_of i log ++ [e] else events_of i log.
Proof. rewrite events_of_app. simpl. case_decide; [done|by rewrite app_nil_r]. Qed.

Lemma holding_snoc t e :
  holding (t ++ [e]) = match projT1 e with inl Lock => true | inl Unlock => false | inr _ => holding t end.
Proof. unfold holding. by rewrite foldl_app. Qed.

(** Locking and unlocking in turn and returning without the lock; what is
    called without it satisfies [P]. *)
Fixpoint orderly {A} (P : call (sum_iface K B) → Prop) (held : bool) (p : Prog Effects A) : Prop :=
  match p with
  | Ret _ => held = false
  | Panic _ => True
  | Vis c k =>
      match c with
      | inl Lock => held = false
      | inl Unlock => held = true
      | inr c => held = false → P c
      end ∧
      ∀ r, orderly P (match c with inl Lock => true | inl Unlock => false | inr _ => held end) (k r)
  end.

Lemma orderly_after {A} P (p p' : Prog Effects A) t held :
  orderly P held p → after p t p' →
  orderly P (foldl (λ held (e : event Effects), match projT1 e with inl Lock => true | inl Unlock => false | inr _ => held end)
    held t) p'.
Proof.
  revert p held. induction t as [|e t IH]; intros p held Hp Ha; simpl in Ha; [by subst p|].
  destruct Ha as (c & r & k & -> & -> & Ha). destruct Hp as [_ Hk]. simpl. by eapply IH.
Qed.

(** A program on the services only, with the lock held, or whose calls all
    satisfy [P]. *)
Lemma orderly_bind_services {A C} (P : call (sum_iface K B) → Prop) held (p : Prog (sum_iface K B) A) (f : A → Prog Effects C) :
  (held = false → calls_only P p) → (∀ a, orderly P held (f a)) → orderly P held (bind (lift_r p) f).
Proof.
  intros Hp Hf. induction p as [a|m|c k IH]; simpl in *; [done..|].
  split; [intros Hh; by destruct (Hp Hh)|]. intros r. apply IH. intros Hh. by destruct (Hp Hh).
Qed.

(** The forwarding of a request. *)
Definition forwards_request (r : Incoming) (c : call (sum_iface K B)) : Prop :=
  match c with inl _ => False | inr c => cp_forwards c (In_Request r) end.
End Stack.

Arguments Effects : clear implicits.
Arguments system : clear implicits.
Arguments MkSystem {_ _} _ _ _ _.

(** A call to the backend among the calls of the program. *)
Definition pool_event {K B : Iface} (e : event B) : event (Effects K B) := ev_r (ev_r e).

Section StackFacts.
Context `{sorter : !SliceSort, ranger : !MapRange, lib : !GoLib}.
Context {K B : Iface} `{!NodeScaler K, !CloudPoolClient B}.

Lemma locked_update_orderly P c f msg w :
  is_update c = true → orderly (K := K) (B := B) P false (interp (I := ServerDeps) serve_call (locked_update c f msg w)).
Proof.
  intros Hc. unfold locked_update. cbn [bind scall invoke interp serve_call lift_l orderly]. split; [done|]. intros [].
  assert (Hf : ∀ r, orderly (K := K) (B := B) P true (interp (I := ServerDeps) serve_call
    (bind (pure (f r)) (λ err, bind (scall UnlockUpdate) (λ _,
      match err with Some err => Ret (respond_error w StatusInternalServerError err msg) | None => Ret (WriteHeader w StatusOK) end))))).
  { intros r. destruct (f r) as [[e|]|m]; simpl; [by split|by split|done]. }
  destruct c; try discriminate Hc; cbn [serve_call]; (apply orderly_bind_services; [done|exact Hf]).
Qed.

Lemma request_orderly r : orderly (K := K) (B := B) (forwards_request r) false (request_program r).
Proof.
  unfold request_program, ServeHTTP. destruct (route _ _); try done.
  - unfold HandleSetDesiredSize. cbv zeta. destruct (In_BodyError r); [done|].
    destruct (Unmarshal _ _ _) as [[msg|e]|m]; cbn [pure bind]; [|done|done].
    destruct (SetDesiredSizeMessage_Validate msg); [done|]. destruct (DesiredSize msg); [|done].
    by apply locked_update_orderly.
  - unfold HandleTerminateMachine. cbv zeta. destruct (In_BodyError r); [done|].
    destruct (Unmarshal _ _ _) as [[msg|e]|m]; cbn [pure bind]; [|done|done].
    destruct (TerminateMachineMessage_Validate msg); [done|]. by apply locked_update_orderly.
  - unfold ForwardToBackend. cbv zeta. cbn [bind scall invoke interp serve_call].
    apply orderly_bind_services.
    + intros _. apply calls_only_catch. unfold proxy_Forward.
      apply calls_only_lift_r, cp_forward_calls.
    + intros [[resp|e]|m]; simpl; [|done|done]. by destruct (BodyError resp).
Qed.

(** *** The invariant *)

(** Every request has done what the log says, and exactly the holder has the
    lock. *)
Definition stack_invariant (s : system K B) : Prop :=
  length (sys_requests s) = length (sys_threads s) ∧
  (∀ i, (length (sys_requests s) ≤ i)%nat → events_of i (sys_log s) = []) ∧
  (∀ i, holding (events_of i (sys_log s)) = bool_decide (sys_holder s = Some i)) ∧
  (∀ i r p, sys_requests s !! i = Some r → sys_threads s !! i = Some p →
     after (request_program r) (events_of i (sys_log s)) p).

(** The lock is taken, released and left by the right requests. *)
Lemma lock_in_order s i p :
  stack_invariant s → sys_threads s !! i = Some p →
  match p with
  | Vis (inl Lock) _ => holding (events_of i (sys_log s)) = false
  | Vis (inl Unlock) _ => holding (events_of i (sys_log s)) = true
  | Ret _ => holding (events_of i (sys_log s)) = false
  | _ => True
  end.
Proof.
  intros (Hlen & _ & _ & Ha) Hp. destruct (lookup_lt_is_Some_2 (sys_requests s) i) as [r Hr].
  { rewrite Hlen. by eapply lookup_lt_Some. }
  pose proof (orderly_after _ _ _ _ _ (request_orderly r) (Ha i r p Hr Hp)) as Ho. unfold holding in *.
  by destruct p as [|m|[[]|c] k]; [|..|destruct Ho|destruct Ho|].
Qed.

(** The history of a request that made a call. *)
Lemma history_step s i c k x (h : option nat) :
  stack_invariant s → sys_threads s !! i = Some (Vis (I := Effects K B) c k) →
  (∀ j, (match c with inl Lock => true | inl Unlock => false | inr _ => holding (events_of i (sys_log s)) end) =
        bool_decide (h = Some i) ∧ (j ≠ i → bool_decide (sys_holder s = Some j) = bool_decide (h = Some j))) →
  stack_invariant (MkSystem h (sys_requests s) (<[i := k x]> (sys_threads s)) (sys_log s ++ [(i, ev (I := Effects K B) c x)])).
Proof.
  intros (Hlen & Hnone & Hh & Ha) Hi Hhold. assert (i < length (sys_threads s))%nat by by eapply lookup_lt_Some.
  split_and!; simpl.
  - by rewrite length_insert.
  - intros j Hj. rewrite events_of_snoc. destruct (decide (i = j)); [lia|]. by apply Hnone.
  - intros j. rewrite events_of_snoc. destruct (decide (i = j)) as [E|E].
    + subst j. rewrite holding_snoc. simpl. apply (Hhold i).
    + rewrite Hh. apply Hhold. done.
  - intros j r p Hr Hp. rewrite events_of_snoc. destruct (decide (i = j)) as [E|E].
    + subst j. rewrite list_lookup_insert_eq in Hp by done. injection Hp as <-. apply after_snoc. by apply Ha.
    + rewrite list_lookup_insert_ne in Hp by done. by apply Ha.
Qed.

Lemma stack_invariant_step s s' : stack_invariant s → sys_step s s' → stack_invariant s'.
Proof.
  intros Hs Hstep. destruct Hstep as [h rs ts log r|i s s' Hstep].
  - destruct Hs as (Hlen & Hnone & Hh & Ha). simpl in *. split_and!; simpl.
    + rewrite !length_app. simpl. lia.
    + intros i Hi. rewrite length_app in Hi. apply Hnone. lia.
    + done.
    + intros i r' p Hr Hp. apply lookup_app_Some in Hr as [Hr|[Hi Hr]].
      * rewrite lookup_app_l in Hp; [by apply Ha|]. rewrite <- Hlen. by eapply lookup_lt_Some.
      * rewrite lookup_app_r in Hp by lia. apply list_lookup_singleton_Some in Hr as [Hx <-].
        apply list_lookup_singleton_Some in Hp as [_ <-]. by rewrite Hnone.
  - destruct Hstep as [rs ts log k Hi|h rs ts log k Hi|h rs ts log c k r Hi].
    + apply (history_step (MkSystem None rs ts log) i (inl Lock) k tt (Some i) Hs Hi). intros j. simpl.
      rewrite bool_decide_true by done. split; [done|]. intros Hj. rewrite !bool_decide_false by congruence. done.
    + pose proof (lock_in_order _ _ _ Hs Hi) as Hu. simpl in Hu. pose proof Hs as (_ & _ & Hh & _). simpl in Hh.
      rewrite Hh in Hu. apply bool_decide_eq_true in Hu. subst h.
      apply (history_step (MkSystem (Some i) rs ts log) i (inl Unlock) k tt None Hs Hi). intros j. simpl.
      split; [done|]. intros Hj.
      rewrite !bool_decide_false by congruence. done.
    + apply (history_step (MkSystem h rs ts log) i (inr c) k r h Hs Hi). intros j. simpl.
      destruct Hs as (_ & _ & Hh & _). split; [apply Hh|done].
Qed.

Lemma reachable_stack_invariant s : sys_reachable s → stack_invariant s.
Proof.
  induction 1 as [|s s' _ IH Hs]; [|by eapply stack_invariant_step].
  split_and!; simpl; [done|done|done|]. intros i r p Hr. by rewrite lookup_nil in Hr.
Qed.

(** What the log held earlier was the log of an earlier state. *)
Lemma reachable_prefix s l1 l2 :
  sys_reachable s → sys_log s = l1 ++ l2 →
  ∃ s', sys_reachable s' ∧ sys_log s' = l1 ∧ sys_requests s' `prefix_of` sys_requests s.
Proof.
  intros Hr. revert l1 l2. induction Hr as [|s s' Hr IH Hs]; intros l1 l2 H.
  - simpl in H. symmetry in H. apply app_nil in H as [-> ->]. by exists initial_system; split; [constructor|].
  - assert (Hgrow : sys_log s' = sys_log s ∨ ∃ x, sys_log s' = sys_log s ++ [x]).
    { destruct Hs as [|i s s' Hs]; [by left|]. right. destruct Hs; by eexists. }
    assert (Hreq : sys_requests s `prefix_of` sys_requests s').
    { destruct Hs as [|i s s' Hs]; [by apply prefix_app_r|]. by destruct Hs. }
    destruct l2 as [|y l2 _] using rev_ind.
    + rewrite app_nil_r in H. exists s'. split_and!; [by eapply sys_next|done|done].
    + rewrite app_assoc in H. destruct Hgrow as [Hl|(x & Hl)]; rewrite Hl in H.
      * rewrite <- app_assoc in H. destruct (IH _ _ H) as (s0 & H0 & H1 & H2). exists s0. by split_and!; [| |etrans].
      * apply app_inj_tail in H as [H _]. destruct (IH _ _ H) as (s0 & H0 & H1 & H2). exists s0. by split_and!; [| |etrans].
Qed.

(** *** What a request does *)

Lemma service_events_lift l : service_events (map (@ev_r UpdateLock (sum_iface K B)) l) = l.
Proof. induction l as [|[c r] l IH]; [done|]. simpl. f_equal. apply IH. Qed.

(** After the lock: the program [p] on the services, then no call to them. *)
Lemma locked_program_runs {A C} (p : Prog (sum_iface K B) A) (f : outcome A → Prog (Effects K B) C) t o t1 e t2 :
  (∀ a t o, runs (f a) t o → service_events t = []) →
  runs (Vis (I := Effects K B) (inl Lock) (λ _, bind (lift_r (catch p)) f)) t o →
  t = t1 ++ pool_event e :: t2 →
  ∃ x v, runs p (service_events t1 ++ ev_r e :: v) x.
Proof.
  intros Hf H ->. simpl in H. destruct H as ([] & t' & Ht & H).
  assert (Hseg : ∃ seg x rest, t' = map ev_r seg ++ rest ∧ runs p seg x ∧ service_events rest = []).
  { apply runs_bind in H as [(ta & tb & a & -> & H1 & H2)|(m & -> & H1)].
    - apply runs_lift_r in H1 as (seg & -> & (x & _ & H1)%runs_catch). exists seg, x, tb. split_and!; [done..|]. by eapply Hf.
    - apply runs_lift_r in H1 as (seg & _ & (x & ? & _)%runs_catch). done. }
  destruct Hseg as (seg & x & rest & -> & Hp & Hrest). exists x.
  destruct t1 as [|e1 t1]; [by apply (f_equal (map (@projT1 _ _))) in Ht|]. injection Ht as -> Ht. symmetry in Ht.
  apply split_app in Ht as [(b & Ht & _)|(a & -> & Ht)].
  - unfold pool_event in Ht. apply ev_r_in_lift_r in Ht as (u & v & -> & -> & _). exists v.
    change (service_events (?x :: map ev_r u)) with (service_events (map (@ev_r UpdateLock (sum_iface K B)) u)).
    by rewrite service_events_lift.
  - exfalso. rewrite Ht in Hrest. unfold service_events in Hrest. rewrite omap_app in Hrest.
    apply app_nil in Hrest as [_ Hrest]. by destruct e.
Qed.

Lemma update_tail_silent (f : outcome (option error) → outcome (option error)) msg w a t o :
  runs (interp (I := ServerDeps) serve_call
    (bind (pure (f a)) (λ err, bind (scall UnlockUpdate) (λ _,
      match err with Some err => Ret (respond_error w StatusInternalServerError err msg) | None => Ret (WriteHeader w StatusOK) end))))
    t o → service_events (K := K) (B := B) t = [].
Proof.
  destruct (f a) as [[e|]|m]; simpl; [| |by intros [-> _]]; intros ([] & t' & -> & -> & _); done.
Qed.

(** A request calls the backend when it is forwarded, or as part of an update,
    and then the calls before it are the beginning of that update. *)
Lemma request_backend_call r t o t1 e t2 :
  runs (request_program (K := K) (B := B) r) t o → t = t1 ++ pool_event e :: t2 →
  let path := route (Method (In_Request r)) (URLPath (In_Request r)) in
  (path = ToBackend ∧ cp_forwards (projT1 e) (In_Request r)) ∨
  (∃ n x v, path = ToSetDesiredSize ∧ asks_size r n ∧
     runs (proxy_SetDesiredSize n) (service_events t1 ++ ev_r e :: v) x) ∨
  (∃ id dec x v, path = ToTerminateMachine ∧ asks_termination r id dec ∧
     runs (proxy_TerminateMachine id dec) (service_events t1 ++ ev_r e :: v) x).
Proof.
  intros H Ht. cbv zeta. unfold request_program, ServeHTTP in H.
  assert (Hcalls : ∀ p : Prog (Effects K B) Writer, runs p t o → match p with Vis _ _ => True | _ => False end).
  { intros [w|m|c k] Hr; [destruct Hr as [-> _]; by destruct t1..|done]. }
  destruct (route _ _).
  - by apply Hcalls in H.
  - right. left. unfold HandleSetDesiredSize in H. cbv zeta in H. unfold asks_size.
    destruct (In_BodyError r); [by apply Hcalls in H|].
    destruct (Unmarshal _ _ _) as [[msg|e']|m] eqn:Eu; cbn [pure bind] in H; [|by apply Hcalls in H..].
    pose proof (SetDesiredSizeMessage_Validate_spec msg) as Hv.
    destruct (SetDesiredSizeMessage_Validate msg) as [e'|]; [by apply Hcalls in H|].
    destruct (proj1 Hv eq_refl) as (n & Hn & Hpos). rewrite Hn in H. exists n.
    destruct (locked_program_runs (proxy_SetDesiredSize n) _ _ _ _ _ _ (update_tail_silent _ _ _) H Ht) as (x & v & Hr).
    exists x, v. destruct msg as [d]. simpl in Hn. subst d. by split_and!.
  - right. right. unfold HandleTerminateMachine in H. cbv zeta in H. unfold asks_termination.
    destruct (In_BodyError r); [by apply Hcalls in H|].
    destruct (Unmarshal _ _ _) as [[[id dec]|e']|m] eqn:Eu; cbn [pure bind] in H; [|by apply Hcalls in H..].
    unfold TerminateMachineMessage_Validate in H. simpl MachineID in H.
    destruct (String.eqb_spec id "") as [->|Hid]; [by apply Hcalls in H|].
    destruct (locked_program_runs (proxy_TerminateMachine id dec) _ _ _ _ _ _ (update_tail_silent _ _ _) H Ht) as (x & v & Hr).
    exists id, dec, x, v. by split_and!.
  - left. split; [done|]. subst t.
    assert (Hc : calls_only (I := Effects K B) (λ c, match c with inl _ => False | inr c => forwards_request r c end)
      (interp (I := ServerDeps) serve_call (ForwardToBackend r))).
    { unfold ForwardToBackend. cbv zeta. cbn [bind scall invoke interp serve_call]. apply calls_only_bind.
      - apply calls_only_lift_r, calls_only_catch, calls_only_lift_r, cp_forward_calls.
      - intros [[resp|e']|m]; simpl; [|done|done]. by destruct (BodyError resp). }
    apply (calls_only_runs _ _ _ _ Hc) in H. apply Forall_app in H as [_ H]. by apply Forall_cons in H as [H _].
  - by apply Hcalls in H.
Qed.

(** The history of a request up to and including one of its calls. *)
Lemma history_of_call s l1 i e l2 :
  sys_reachable (K := K) (B := B) s → sys_log s = l1 ++ (i, e) :: l2 →
  ∃ r q, sys_requests s !! i = Some r ∧ after (request_program r) (events_of i l1 ++ [e]) q.
Proof.
  intros Hs Hl. rewrite cons_middle, app_assoc in Hl.
  destruct (reachable_prefix _ _ _ Hs Hl) as (s' & Hs' & Hl' & Hreq).
  apply reachable_stack_invariant in Hs' as (Hlen & Hnone & _ & Ha).
  assert (Hev : events_of i (sys_log s') = events_of i l1 ++ [e]).
  { rewrite Hl', events_of_snoc. by rewrite decide_True. }
  destruct (sys_requests s' !! i) as [r|] eqn:Er.
  2: { apply lookup_ge_None_1 in Er. rewrite Hnone in Hev by done. symmetry in Hev. by apply app_nil in Hev as [_ ?]. }
  destruct (lookup_lt_is_Some_2 (sys_threads s') i) as [q Hq]; [rewrite <- Hlen; by eapply lookup_lt_Some|].
  exists r, q. split; [by eapply prefix_lookup_Some|]. rewrite <- Hev. by apply Ha.
Qed.

(** Which calls a request can make, by its history. *)
Lemma call_in_order r t (e : event (Effects K B)) q :
  after (request_program r) (t ++ [e]) q →
  match projT1 e with
  | inl Lock => holding t = false
  | inl Unlock => holding t = true
  | inr c => holding t = false → forwards_request r c
  end.
Proof.
  intros Ha. apply after_app_inv in Ha as (p & H1 & c & x & k & -> & -> & _).
  apply (orderly_after _ _ _ _ _ (request_orderly r)) in H1 as [Hc _]. by destruct c as [[]|c].
Qed.

(** From locking to unlocking a request holds the lock. *)
Lemma holding_since_lock i l1 l2 :
  (i, ev (I := Effects K B) (inl Unlock) tt) ∉ l2 →
  holding (events_of i (l1 ++ (i, ev (I := Effects K B) (inl Lock) tt) :: l2)) = true.
Proof.
  induction l2 as [|[j e] l2 IH] using rev_ind; intros Hno.
  - rewrite events_of_snoc, decide_True by done. by rewrite holding_snoc.
  - rewrite not_elem_of_app, list_elem_of_singleton in Hno. destruct Hno as [Hno Hlast].
    rewrite app_comm_cons, app_assoc, events_of_snoc. destruct (decide (j = i)) as [->|Hne]; [|by apply IH].
    rewrite holding_snoc. destruct e as [[[]|c] x]; [done| |by apply IH]. exfalso. apply Hlast. by destruct x.
Qed.

(** No two requests hold the lock. *)
Lemma one_holder s i j :
  sys_reachable (K := K) (B := B) s → holding (events_of i (sys_log s)) = true → holding (events_of j (sys_log s)) = true →
  i = j.
Proof.
  intros Hs Hi Hj. apply reachable_stack_invariant in Hs as (_ & _ & Hh & _). rewrite Hh in Hi, Hj.
  apply bool_decide_eq_true in Hi, Hj. congruence.
Qed.

(** While one request holds the lock, the others are forwarded. *)
Lemma isolated_call s l i j e l3 :
  sys_reachable s → sys_log s = l ++ (j, e) :: l3 → holding (events_of i l) = true → j ≠ i →
  ∃ r c x, sys_requests s !! j = Some r ∧ e = pool_event (ev (I := B) c x) ∧ cp_forwards c (In_Request r).
Proof.
  intros Hs Hl Hi Hne. destruct (history_of_call _ _ _ _ _ Hs Hl) as (r & q & Hr & Ha). apply call_in_order in Ha.
  assert (Hj : holding (events_of j l) = false).
  { apply not_true_is_false. intros Hj. destruct (reachable_prefix _ _ _ Hs Hl) as (s' & Hs' & <- & _).
    by apply Hne, (one_holder s'). }
  destruct e as [[[]|[c|c]] x]; simpl in Ha.
  - exfalso. rewrite cons_middle, app_assoc in Hl. destruct (reachable_prefix _ _ _ Hs Hl) as (s' & Hs' & Hl' & _).
    apply Hne, (one_holder s'); [done|..]; rewrite Hl', events_of_snoc.
    + rewrite decide_True by done. by rewrite holding_snoc.
    + by rewrite decide_False.
  - congruence.
  - by apply Ha in Hj.
  - exists r, c, x. split_and!; [done..|by apply Ha].
Qed.

(** *** Requests side by side *)

(** Steps of other requests than [i]. *)
Inductive others (i : nat) : system K B → system K B → Prop :=
| others_none s : others i s s
| others_arrive h rs ts log r s' :
    others i (MkSystem h (rs ++ [r]) (ts ++ [request_program r]) log) s' → others i (MkSystem h rs ts log) s'
| others_step j s1 s2 s3 : j ≠ i → thread_step j s1 s2 → others i s2 s3 → others i s1 s3.

(** While a request holds the lock, the others change neither this nor what it
    has left to do. *)
Lemma others_preserve i s s' p :
  others i s s' → sys_reachable s → sys_holder s = Some i → sys_threads s !! i = Some p →
  sys_reachable s' ∧ sys_holder s' = Some i ∧ sys_threads s' !! i = Some p.
Proof.
  induction 1 as [s|h rs ts log r s' _ IH|j s1 s2 s3 Hj Hstep _ IH]; intros Hs Hh Hp; [done|..].
  - apply IH; [by eapply sys_next; [|apply sys_arrive]|done|by apply lookup_app_l_Some].
  - apply IH; [by eapply sys_next; [|by eapply sys_thread]|..].
    + destruct Hstep as [| |]; [done| |done]. pose proof (reachable_stack_invariant _ Hs) as Hinv.
      match goal with H : _ !! j = Some _ |- _ => pose proof (lock_in_order _ _ _ Hinv H) as Hu end.
      destruct Hinv as (_ & _ & Hb & _). simpl in *. rewrite Hb in Hu. apply bool_decide_eq_true in Hu. congruence.
    + destruct Hstep; simpl in *; by rewrite list_lookup_insert_ne.
Qed.

(** However the services answer and whatever the other requests do between its
    steps, request [i] can always go on and, after finitely many steps of its
    own, reaches a state with [Q]. *)
Inductive inevitable (i : nat) (Q : system K B → Prop) (s : system K B) : Prop :=
| inevitable_now : Q s → inevitable i Q s
| inevitable_later :
    (∀ s1, others i s s1 → ∃ s2, thread_step i s1 s2) →
    (∀ s1 s2, others i s s1 → thread_step i s1 s2 → inevitable i Q s2) →
    inevitable i Q s.

(** The lock is free, or its holder has died with it. *)
Definition lock_settled (i : nat) (s : system K B) : Prop :=
  sys_holder s = None ∨ (sys_holder s = Some i ∧ ∃ m, sys_threads s !! i = Some (Panic m)).

Lemma thread_step_inv i (s s' : system K B) p :
  thread_step i s s' → sys_threads s !! i = Some p →
  match p with
  | Vis c k => (∃ r, sys_threads s' = <[i := k r]> (sys_threads s)) ∧
      sys_holder s' = match c with inl Lock => Some i | inl Unlock => None | inr _ => sys_holder s end
  | _ => False
  end.
Proof. intros Hs Hp. destruct Hs; simpl in *; simplify_eq; eauto. Qed.

(** The holder of the lock can go on unless it has died. *)
Lemma holder_can_step (e : env (Effects K B)) i c k s :
  sys_reachable s → sys_holder s = Some i → sys_threads s !! i = Some (Vis (I := Effects K B) c k) →
  ∃ s', thread_step i s s'.
Proof.
  intros Hs Hh Hp. pose proof (reachable_stack_invariant _ Hs) as Hinv. pose proof (lock_in_order _ _ _ Hinv Hp) as Hw.
  destruct Hinv as (_ & _ & Hb & _). destruct s as [h rs ts log]. simpl in *. subst h. rewrite Hb in Hw.
  destruct c as [[]|c].
  - by apply bool_decide_eq_false in Hw.
  - eexists. by eapply thread_unlock.
  - eexists. by apply (thread_call i (Some i) rs ts log c k (e [] (inr c))).
Qed.

Lemma lock_inevitably_settled (e : env (Effects K B)) i p s :
  sys_reachable s → sys_holder s = Some i → sys_threads s !! i = Some p → inevitable i (lock_settled i) s.
Proof.
  revert s. induction p as [w|m|c k IH]; intros s Hs Hh Hp.
  - exfalso. pose proof (reachable_stack_invariant _ Hs) as Hinv. pose proof (lock_in_order _ _ _ Hinv Hp) as Hw.
    destruct Hinv as (_ & _ & Hb & _). simpl in Hw. rewrite Hb in Hw. by apply bool_decide_eq_false in Hw.
  - apply inevitable_now. right. split; [done|]. by exists m.
  - apply inevitable_later.
    + intros s1 Ho. destruct (others_preserve _ _ _ _ Ho Hs Hh Hp) as (Hs1 & Hh1 & Hp1). by eapply holder_can_step.
    + intros s1 s2 Ho Hstep. destruct (others_preserve _ _ _ _ Ho Hs Hh Hp) as (Hs1 & Hh1 & Hp1).
      destruct (thread_step_inv _ _ _ _ Hstep Hp1) as [(r & Ht) Hh2].
      destruct (decide (sys_holder s2 = None)) as [Hn|Hn]; [apply inevitable_now; by left|].
      apply (IH r); [by eapply sys_next; [|eapply sys_thread]| |].
      * destruct c as [[]|c]; congruence.
      * rewrite Ht. apply list_lookup_insert_eq. by eapply lookup_lt_Some.
Qed.
(** *** Coming to rest *)

(** A request goes on with the reply to its call. *)
Definition goes_on (ts' ts : list (Prog (Effects K B) Writer)) : Prop :=
  ∃ i p, ts !! i = Some p ∧ match p with Vis c k => ∃ r, ts' = <[i := k r]> ts | _ => False end.

Lemma goes_on_cons p ts : Acc goes_on ts → Acc goes_on (p :: ts).
Proof.
  revert ts. assert (Hin : ∀ q ts i p ts', (∀ ts1, goes_on ts1 ts → Acc goes_on (q :: ts1)) → ts !! i = Some p →
    match p with Vis c k => ∃ r, ts' = <[S i := k r]> (q :: ts) | _ => False end → Acc goes_on ts').
  { intros q ts i p' ts' Hts Hi Hp. destruct p' as [w|m|c k]; [destruct Hp..|]. destruct Hp as (r & ->). apply (Hts (<[i := k r]> ts)).
    exists i, (Vis (I := Effects K B) c k). split; [exact Hi|by exists r]. }
  induction p as [w|m|c k IH]; intros ts Hts; induction Hts as [ts Hts IHts];
    constructor; intros ts' ([|i] & p' & Hi & Hp); simpl in Hi; try (exact (Hin _ _ _ _ _ IHts Hi Hp)); injection Hi as <-.
  - destruct Hp.
  - destruct Hp.
  - destruct Hp as (r & ->). apply IH. by constructor.
Qed.

Lemma goes_on_terminates ts : Acc goes_on ts.
Proof.
  induction ts as [|p ts IH]; [|by apply goes_on_cons]. constructor. intros ts' (i & p & Hi & _). by rewrite lookup_nil in Hi.
Qed.

(** Without new requests only finitely many steps are possible. *)
Lemma steps_terminate (s : system K B) : Acc (λ s2 s1, ∃ i, thread_step i s1 s2) s.
Proof.
  remember (sys_threads s) as ts eqn:Ets. pose proof (goes_on_terminates ts) as H. revert s Ets.
  induction H as [ts _ IH]; intros s ->. constructor. intros s' (i & Hstep). eapply IH; [|reflexivity].
  destruct Hstep; simpl; eexists i, _; (split; [eassumption|]); by eexists.
Qed.

(** A request that has been answered, or whose handler died. *)
Definition finished {A} (p : Prog (Effects K B) A) : Prop := match p with Vis _ _ => False | _ => True end.

Definition at_rest (s : system K B) : Prop := ∀ i s', ¬ thread_step i s s'.

(** What can still be done at rest: wait for the lock. *)
Lemma rest_waits (e : env (Effects K B)) s i p :
  at_rest s → sys_threads s !! i = Some p → finished p ∨ sys_holder s ≠ None ∧ ∃ k, p = Vis (I := Effects K B) (inl Lock) k.
Proof.
  intros Hrest Hp. destruct p as [w|m|[[]|c] k]; [by left|by left|..]; destruct s as [h rs ts log]; simpl in *.
  - right. split; [|by exists k]. intros ->. eapply (Hrest i). by eapply thread_lock.
  - exfalso. eapply (Hrest i). by eapply thread_unlock.
  - exfalso. eapply (Hrest i). by apply (thread_call i h rs ts log c k (e [] (inr c))).
Qed.

Lemma holder_thread s i : sys_reachable s → sys_holder s = Some i → is_Some (sys_threads s !! i).
Proof.
  intros Hs Hh. apply reachable_stack_invariant in Hs as (Hlen & Hnone & Hb & _). apply lookup_lt_is_Some_2.
  destruct (decide (i < length (sys_threads s))%nat) as [|Hge]; [done|]. specialize (Hb i).
  rewrite Hnone, bool_decide_true in Hb; [discriminate Hb|done|lia].
Qed.
End StackFacts.

(** Some replies, to complete what a request has begun. *)
Definition some_env : env (Effects KubeClient HTTPBackend) := λ _ c,
  match c with
  | inl _ => tt
  | inr (inl c) => cluster_answer [] [] c
  | inr (inr (ClientDo _)) => Err (ErrorString "")
  end.

(** ** Claims *)

Section StackClaims.
Context `{sorter : !SliceSort, ranger : !MapRange, lib : !GoLib}.

(** A request to the backend among the calls of the running program. *)
Definition backend_event (out : OutRequest) (r : result error Response) : event (Effects KubeClient HTTPBackend) :=
  pool_event (ev (I := HTTPBackend) (ClientDo out) r).

(** C1. The whole program, under any interleaving of any requests and any replies
    of the cluster and the backend: every request other than a GET that reaches
    the backend was made for an incoming request, and is either that request
    forwarded, which was not routed to an update handler; or made for a
    well-formed resize request, asking for that size before that request has
    changed anything, or asking to terminate an evictable machine which this
    request has made ready; or made for a well-formed termination request, for
    the machine it names, which this request has made ready. *)
Theorem pool_changes_are_accounted_for (c : DefaultCloudPoolClient) (s : system KubeClient HTTPBackend)
    l1 i out x l2 :
  sys_reachable (CloudPoolClient0 := HTTPCloudPoolClient c) s →
  sys_log s = l1 ++ (i, backend_event out x) :: l2 → Out_Method out ≠ "GET"%string →
  ∃ r, sys_requests s !! i = Some r ∧
    let path := route (Method (In_Request r)) (URLPath (In_Request r)) in
    let before := service_events (events_of i l1) in
    (path = ToBackend ∧ out = forwarded c (In_Request r)) ∨
    (∃ n, path = ToSetDesiredSize ∧ asks_size r n ∧
       ((backend_asks c (ClientDo out) (Resize n) ∧
         Forall (λ e : event (sum_iface KubeClient HTTPBackend),
           service_changes (CloudPoolClient0 := HTTPCloudPoolClient c) (projT1 e) = false) before) ∨
        ∃ v, backend_asks c (ClientDo out) (Terminate (ID (PairMachine v)) true) ∧
          ExternalID (Node_Spec (NodeOf (KubeNode v))) = ID (PairMachine v) ∧
          Evictable (Membership (PairMachine v)) = true ∧ ready_to_terminate v before)) ∨
    (∃ id dec, path = ToTerminateMachine ∧ asks_termination r id dec ∧
       backend_asks c (ClientDo out) (Terminate id dec) ∧
       ∃ v, ID (PairMachine v) = id ∧ ExternalID (Node_Spec (NodeOf (KubeNode v))) = id ∧
         Evictable (Membership (PairMachine v)) = true ∧ ready_to_terminate v before).
Proof.
  intros Hs Hl Hm.
  assert (backend_changes (ClientDo out) = true) as Hch by (apply negb_true_iff; by apply String.eqb_neq).
  destruct (history_of_call _ _ _ _ _ Hs Hl) as (r & q & Hr & Ha). exists r. split; [done|].
  destruct (after_completes some_env _ _ _ Ha) as (t' & o & Hruns).
  rewrite <- app_assoc in Hruns. simpl in Hruns.
  destruct (request_backend_call _ _ _ _ _ _ Hruns eq_refl)
    as [(Hp & Hf)|[(n & y & v & Hp & Hn & Hrun)|(id & dec & y & v & Hp & Hn & Hrun)]].
  - left. by split.
  - right. left. exists n. split_and!; [done..|].
    destruct (resize_change _ _ _ _ _ _ Hrun eq_refl Hch) as [[? ?]|(p & ? & ? & ? & Hready)]; [by left|].
    right. exists p. split_and!; [done..|by apply prepared_is_ready].
  - right. right. exists id, dec. destruct (termination_change _ _ _ _ _ _ _ Hrun eq_refl Hch) as (p & ? & ? & ? & ? & Hready).
    split_and!; [done..|]. exists p. split_and!; [done..|by apply prepared_is_ready].
Qed.

(** C9. Updates are isolated: from the moment a request takes the update lock
    until it gives it back, whatever another request does is to forward itself
    to the backend; it makes no call to the cluster, asks for no update of the
    pool of its own and does not touch the lock. *)
Theorem updates_are_isolated {K B : Iface} `{!NodeScaler K, !CloudPoolClient B} (s : system K B) l1 i l2 j e l3 :
  sys_reachable s →
  sys_log s = l1 ++ (i, ev (I := Effects K B) (inl Lock) tt) :: l2 ++ (j, e) :: l3 →
  (i, ev (I := Effects K B) (inl Unlock) tt) ∉ l2 → j ≠ i →
  ∃ r c x, sys_requests s !! j = Some r ∧ e = pool_event (ev (I := B) c x) ∧ cp_forwards c (In_Request r).
Proof.
  intros Hs Hl Hno Hne. rewrite app_comm_cons, app_assoc in Hl. eapply isolated_call; [exact Hs|exact Hl| |done].
  by apply holding_since_lock.
Qed.

(** C13. A request that has the update lock gives it back, or panics with it, after
    finitely many steps of its own, each of which it can take, whatever the
    cluster and the backend answer and whatever the other requests do
    meanwhile. *)
Theorem lock_is_given_back (c : DefaultCloudPoolClient) (s : system KubeClient HTTPBackend) (i : nat) :
  sys_reachable (CloudPoolClient0 := HTTPCloudPoolClient c) s → sys_holder s = Some i →
  inevitable (CloudPoolClient0 := HTTPCloudPoolClient c) i (lock_settled i) s.
Proof.
  intros Hs Hh. destruct (holder_thread _ _ Hs Hh) as [p Hp]. by eapply (lock_inevitably_settled some_env).
Qed.

(** C14. The requests come to rest: from every reachable state, unless new
    requests arrive, the program can take only finitely many steps, in whatever
    order and with whatever replies; and where it can take none, every request
    has been answered or has died, or the holder of the update lock has died
    with it and the requests that are left wait for the lock. *)
Theorem requests_come_to_rest (c : DefaultCloudPoolClient) (s : system KubeClient HTTPBackend) :
  sys_reachable (CloudPoolClient0 := HTTPCloudPoolClient c) s →
  Acc (λ s2 s1 : system KubeClient HTTPBackend, ∃ i, thread_step i s1 s2) s ∧
  (at_rest s →
   (∀ i p, sys_threads s !! i = Some p → finished p) ∨
   ∃ h m, sys_holder s = Some h ∧ sys_threads s !! h = Some (Panic m) ∧
     ∀ i p, sys_threads s !! i = Some p → finished p ∨ ∃ k, p = Vis (I := Effects KubeClient HTTPBackend) (inl Lock) k).
Proof.
  intros Hs. split; [apply steps_terminate|]. intros Hrest. pose proof (rest_waits some_env s) as Hw.
  destruct (sys_holder s) as [h|] eqn:Hh; [right|left; intros i p Hp; by destruct (Hw i p Hrest Hp) as [|[? _]]].
  destruct (holder_thread _ _ Hs Hh) as [p Hp]. exists h. destruct p as [w|m|call k].
  - exfalso. pose proof (reachable_stack_invariant _ Hs) as Hinv. pose proof (lock_in_order _ _ _ Hinv Hp) as Hl.
    destruct Hinv as (_ & _ & Hb & _). simpl in Hl. rewrite Hb, Hh in Hl. by apply bool_decide_eq_false in Hl.
  - exists m. split_and!; [done|done|]. intros i p Hi. destruct (Hw i p Hrest Hi) as [|[_ ?]]; [by left|by right].
  - exfalso. destruct (holder_can_step some_env _ _ _ _ Hs Hh Hp) as (s' & Hstep). by eapply Hrest.
Qed.
End StackClaims.

(** ** Witnesses *)

Section Solo.
Context `{sorter : !SliceSort, ranger : !MapRange, lib : !GoLib}.
Context {K B : Iface} `{!NodeScaler K, !CloudPoolClient B}.

(** A request that is alone can perform any of its runs. *)
Lemma solo_run r h p log t o :
  sys_reachable (MkSystem (K := K) (B := B) h [r] [p] log) → runs p t o →
  ∃ s, sys_reachable s ∧ sys_requests s = [r] ∧ sys_log s = log ++ map (pair 0%nat) t.
Proof.
  revert h log t. induction p as [w|m|c k IH]; intros h log t Hs Hr; simpl in Hr.
  1-2: destruct Hr as [-> _]; eexists; split; [exact Hs|]; split; [done|]; simpl; by rewrite app_nil_r.
  destruct Hr as (x & t' & -> & Hr).
  assert (Hstep : ∃ h', sys_reachable (MkSystem h' [r] [k x] (log ++ [(0%nat, ev (I := Effects K B) c x)]))).
  { destruct c as [[]|c].
    - destruct x. exists (Some 0%nat). eapply sys_next; [exact Hs|]. apply (sys_thread 0).
      assert (h = None) as ->; [|by apply (thread_lock 0 [r] [_])].
      pose proof (reachable_stack_invariant _ Hs) as Hinv. pose proof (lock_in_order _ 0 _ Hinv eq_refl) as Hw. simpl in Hw.
      destruct Hinv as (_ & Hnone & Hb & _). simpl in Hb, Hnone. destruct h as [j|]; [exfalso|done]. destruct j as [|j].
      + rewrite Hb in Hw. by apply bool_decide_eq_false in Hw.
      + specialize (Hb (S j)). rewrite Hnone, bool_decide_true in Hb by (done || lia). discriminate Hb.
    - destruct x. exists None. eapply sys_next; [exact Hs|]. apply (sys_thread 0). by apply (thread_unlock 0 h [r] [_]).
    - exists h. eapply sys_next; [exact Hs|]. apply (sys_thread 0). by apply (thread_call 0 h [r] [_]). }
  destruct Hstep as (h' & Hs'). destruct (IH x h' _ t' Hs' Hr) as (s & H1 & H2 & H3). exists s. split_and!; [done..|].
  rewrite H3, <- app_assoc. done.
Qed.

Lemma events_of_alone t : events_of (K := K) (B := B) 0 (map (pair 0%nat) t) = t.
Proof. induction t as [|e t IH]; [done|]. simpl. f_equal. apply IH. Qed.
End Solo.

#[local] Existing Instance map_to_list_range.
#[local] Existing Instance insertion_sort.
#[local] Instance witness_lib : GoLib := plain_lib.
#[local] Instance witness_client : CloudPoolClient HTTPBackend := HTTPCloudPoolClient sample_client.

(** The sample cluster and pool, and a free lock. *)
Definition sample_effects : env (Effects KubeClient HTTPBackend) := λ past c,
  match c with
  | inl _ => tt
  | inr c => sample_services [] c
  end.

Definition sample_request_program : Prog (Effects KubeClient HTTPBackend) Writer := request_program (resize_post 2).
Definition sample_request_trace : trace (Effects KubeClient HTTPBackend) := (exec sample_effects [] sample_request_program).1.
Definition trace_before : trace (Effects KubeClient HTTPBackend) := take (length sample_request_trace - 2) sample_request_trace.

Lemma sample_request_trace_end :
  sample_request_trace = trace_before ++
    [backend_event (terminate_request "i-3" true) accepted; ev (I := Effects KubeClient HTTPBackend) (inl Unlock) tt].
Proof. vm_compute. reflexivity. Qed.

Lemma sample_run_reachable :
  ∃ s, sys_reachable s ∧ sys_requests s = [resize_post 2] ∧ sys_log s = map (pair 0%nat) sample_request_trace.
Proof.
  assert (sys_reachable (MkSystem None [resize_post 2] [sample_request_program] [])) as Hs.
  { eapply sys_next; [apply sys_start|]. apply (sys_arrive None [] [] []). }
  exact (solo_run _ _ _ [] _ _ Hs (exec_runs sample_effects sample_request_program [])).
Qed.

Lemma pool_changes_are_accounted_for_witness :
  ∃ n v, asks_size (resize_post 2) n ∧ enc_terminate "i-3" true = enc_terminate (ID (PairMachine v)) true ∧
    ready_to_terminate v (service_events trace_before).
Proof.
  destruct sample_run_reachable as (s & Hs & Hreq & Hlog).
  rewrite sample_request_trace_end, map_app in Hlog.
  destruct (pool_changes_are_accounted_for sample_client s _ 0 (terminate_request "i-3" true) accepted _ Hs Hlog)
    as (r & Hr & [(Hp & _)|[(n & _ & Hn & [(Ha & _)|(v & Ha & _ & _ & Hv)])|(id & dec & Hp & _)]]); [discriminate|..];
    rewrite Hreq in Hr; injection Hr as <-.
  - vm_compute in Hp. discriminate Hp.
  - destruct Ha as (_ & Hu & _). vm_compute in Hu. discriminate Hu.
  - exists n, v. rewrite events_of_alone in Hv.
    split; [exact Hn|]. split; [exact (terminate_request_id _ _ _ _ Ha)|exact Hv].
  - vm_compute in Hp. discriminate Hp.
Defined.

(** A resize that has just taken the lock. *)
Lemma locked_system_reachable :
  ∃ p, sys_reachable (MkSystem (K := KubeClient) (B := HTTPBackend) (Some 0%nat) [resize_post 2] [p]
    [(0%nat, ev (I := Effects KubeClient HTTPBackend) (inl Lock) tt)]).
Proof.
  assert (match sample_request_program with Vis (inl Lock) _ => True | _ => False end) as E by (vm_compute; exact I).
  assert (sys_reachable (MkSystem None [resize_post 2] [sample_request_program] [])) as Hs.
  { eapply sys_next; [apply sys_start|]. apply (sys_arrive None [] [] []). }
  destruct sample_request_program as [w|m|[[]|c] k]; try contradiction. exists (k tt).
  eapply sys_next; [exact Hs|]. apply (sys_thread 0). by apply (thread_lock 0 [_] [_] []).
Qed.

Lemma lock_is_given_back_witness : ∃ s : system KubeClient HTTPBackend, sys_holder s = Some 0%nat ∧ inevitable 0 (lock_settled 0) s.
Proof.
  destruct locked_system_reachable as (p & Hs). eexists. split; [|exact (lock_is_given_back sample_client _ 0 Hs eq_refl)].
  reflexivity.
Defined.

(** While it holds the lock, a second request is forwarded. *)
Definition pool_get : Incoming := MkIncoming (MkRequest "GET" (path_url "/pool") ∅ "10.0.0.2:4711" "") None.

Lemma forwarding_system_reachable :
  ∃ s e, sys_reachable (K := KubeClient) (B := HTTPBackend) s ∧ sys_requests s = [resize_post 2; pool_get] ∧
    sys_log s = [(0%nat, ev (I := Effects KubeClient HTTPBackend) (inl Lock) tt); (1%nat, e)].
Proof.
  destruct locked_system_reachable as (p & Hs).
  pose proof (sys_next _ _ Hs (sys_arrive _ _ _ _ pool_get)) as Hs1. simpl in Hs1.
  assert (match request_program pool_get : Prog (Effects KubeClient HTTPBackend) Writer with
          | Vis (inr (inr (ClientDo _))) _ => True | _ => False end) as E by (vm_compute; exact I).
  destruct (request_program pool_get) as [w|m|[c|[c|[out]]] k]; try contradiction.
  eexists _, (ev (I := Effects KubeClient HTTPBackend) (inr (inr (ClientDo out))) accepted). split.
  - eapply sys_next; [exact Hs1|]. apply (sys_thread 1).
    apply (thread_call 1 _ _ [p; _] _ (inr (ClientDo out)) k accepted). reflexivity.
  - split; reflexivity.
Qed.

Lemma updates_are_isolated_witness :
  ∃ c, cp_forwards (CloudPoolClient := witness_client) c (In_Request pool_get).
Proof.
  destruct forwarding_system_reachable as (s & e & Hs & Hreq & Hlog).
  destruct (updates_are_isolated s [] 0 [] 1 e [] Hs Hlog) as (r & c & x & Hr & _ & Hf); [set_solver|discriminate|].
  rewrite Hreq in Hr. injection Hr as <-. exists c. exact Hf.
Defined.

Lemma requests_come_to_rest_witness :
  ∃ s : system KubeClient HTTPBackend, sys_holder s = Some 0%nat ∧ Acc (λ s2 s1 : system KubeClient HTTPBackend, ∃ i, thread_step i s1 s2) s.
Proof.
  destruct locked_system_reachable as (p & Hs). eexists. split; [|exact (proj1 (requests_come_to_rest sample_client _ Hs))]. reflexivity.
Defined.
