(* ===== verification/Concurrent.v ===== *)
(** * The effect of an update among other requests

    The update lock keeps the updates apart ([updates_are_isolated] in
    [Stack]), but other requests are forwarded while an update runs.  Here the
    running program of [Stack] works on services with a state ([Backends]), and
    the results say what an incoming resize or termination request does to the
    cluster and the pool between taking and giving back the lock, and how it is
    answered, when what is forwarded meanwhile only reads.

    Reads between the calls of an update leave the promises of the services as
    they are ([quiet_backends]), so the results on a single update apply. *)
From stdpp Require Import base tactics list strings gmap.
From Stdlib Require Import ZArith Lia.
From S2P Require Import Prelude Strconv GoStd Quantity KubeTypes Json NodeInfo Samples QuasiScheduler NodeScaler CloudPool Url PoolClient Messages Proxy System World Backends Server Stack.

Local Open Scope Z_scope.

(** ** Reads in between *)

Section Quiet.
Context `{sorter : !SliceSort, ranger : !MapRange, lib : !GoLib}.
Variable c : DefaultCloudPoolClient.
Context {W : Type} `{!BackendState W, !Backends c W}.

Inductive calm : W → W → Prop :=
| calm_refl w : calm w w
| calm_read w out r w1 w2 : Out_Method out = "GET"%string → calm w w1 → react c w1 (http_ev out r) w2 → calm w w2.

Lemma calm_same w w' : calm w w' → same_state w w'.
Proof.
  induction 1 as [|w out r w1 w2 Hm _ IH H]; [done|]. eapply same_state_trans; [exact IH|]. by eapply http_reads.
Qed.

(** A call, after some reads of the pool. *)
Definition quiet_react (w : W) (e : event (sum_iface KubeClient HTTPBackend)) (w' : W) : Prop :=
  ∃ w1, calm w w1 ∧ react c w1 e w'.

Lemma quiet_view w e w' : quiet_react w e w' → ∃ w1, same_state w w1 ∧ view_of w1 = view_of w ∧ react c w1 e w'.
Proof. intros (w1 & Hc%calm_same & H). exists w1. split_and!; [done|by apply same_state_view|done]. Qed.

(** The promises do not notice them. *)
Definition quiet_backends : Backends c W.
Proof.
  refine {| react := quiet_react |}.
  - apply (infos_unique c).
  - intros w items w' (w1 & (E & _) & _ & H)%quiet_view. rewrite <- E. by eapply kube_lists.
  - intros w name n w' (w1 & (E & _) & _ & H)%quiet_view. rewrite <- E. by eapply kube_gets.
  - intros w name pods w' (w1 & (E & _) & _ & H)%quiet_view i. rewrite <- E. by eapply kube_pods.
  - intros w k r w' Hk (w1 & Hs & _ & H)%quiet_view. eapply same_state_trans; [exact Hs|]. by eapply kube_reads.
  - intros w k r w' Hk (w1 & _ & <- & H)%quiet_view. by eapply kube_drains.
  - intros w n r w' (w1 & _ & <- & H)%quiet_view. by eapply kube_deletes.
  - intros w out r w' Hm (w1 & Hs & _ & H)%quiet_view. eapply same_state_trans; [exact Hs|]. by eapply http_reads.
  - intros w out resp w' pool Hm Hu (w1 & (_ & E & _) & _ & H)%quiet_view. rewrite <- E. by eapply http_reports.
  - intros w out id dec r w' Hm Hu Hb (w1 & _ & <- & H)%quiet_view. by eapply http_terminates.
  - intros w out n r w' Hm Hu Hb (w1 & (E & _) & _ & H)%quiet_view. rewrite <- E. by eapply http_resizes.
Defined.

(** A call to the services, among the calls of the program. *)
Definition reads_pool (e : event (Effects KubeClient HTTPBackend)) : Prop :=
  match projT1 e with inr (inr (ClientDo out)) => Out_Method out = "GET"%string | _ => False end.

(** The calls of request [i] in a log in which the other requests only read. *)
Lemma replay_quiet i log w0 w w' :
  calm w0 w → (∀ j e, (j, e) ∈ log → j ≠ i → reads_pool e) → replay (react c) w (service_events log.*2) w' →
  ∃ w1, replay quiet_react w0 (service_events (events_of i log)) w1 ∧ calm w1 w'.
Proof.
  revert w0 w. induction log as [|[j e] log IH]; intros w0 w Hc Hlog H.
  { inversion H; subst. exists w0. split; [constructor|done]. }
  assert (Htail : ∀ j e, (j, e) ∈ log → j ≠ i → reads_pool e) by (intros j' e' Hin; apply Hlog; by right).
  cbn [fmap list_fmap service_events omap list_omap events_of fst snd] in H |- *. destruct (decide (j = i)) as [->|Hne].
  - destruct e as [[l|k] r]; [by apply (IH w0 w)|]. inversion H as [|? ? w1 ? ? He Hr]; subst.
    destruct (IH w1 w1 (calm_refl w1) Htail Hr) as (w2 & H2 & Hc2). exists w2. split; [|done]. econstructor; [|exact H2]. by exists w.
  - pose proof (Hlog j e ltac:(left) Hne) as Hread. destruct e as [[l|[k|[out]]] r]; try done.
    inversion H as [|? ? w1 ? ? He Hr]; subst. apply (IH w0 w1); [|done|done]. eapply calm_read; [exact Hread|exact Hc|exact He].
Qed.
End Quiet.

(** ** One update, from locking to unlocking *)

Section Critical.
Context `{sorter : !SliceSort, ranger : !MapRange, lib : !GoLib}.
Context {K B : Iface} `{!NodeScaler K, !CloudPoolClient B}.

Definition locking : event (Effects K B) := ev (I := Effects K B) (inl Lock) tt.
Definition unlocking : event (Effects K B) := ev (I := Effects K B) (inl Unlock) tt.

(** The response to an update. *)
Definition update_response (failure : string) (err : option error) : Writer :=
  match err with
  | Some err => respond_error new_writer StatusInternalServerError err failure
  | None => WriteHeader new_writer StatusOK
  end.

(** What an update handler does once the message is read. *)
Definition update_program (p : Prog (sum_iface K B) (option error)) (failure : string) : Prog (Effects K B) Writer :=
  Vis (I := Effects K B) (inl Lock) (λ _, bind (lift_r (catch p)) (λ x,
    match x with
    | Done err => Vis (I := Effects K B) (inl Unlock) (λ _, Ret (update_response failure err))
    | Panicked m => Panic m
    end)).

Lemma update_program_runs p failure t o :
  runs (update_program p failure) t o →
  ∃ seg x, runs p seg x ∧
    t = locking :: map ev_r seg ++ (match x with Done _ => [unlocking] | Panicked _ => [] end) ∧
    o = match x with Done err => Done (update_response failure err) | Panicked m => Panicked m end.
Proof.
  intros ([] & t' & -> & H). apply runs_bind in H as [(ta & tb & x & -> & H1 & H2)|(m & -> & H1)].
  - apply runs_lift_r in H1 as (seg & -> & (x' & [= <-] & H1)%runs_catch). exists seg, x. destruct x as [err|m]; simpl in H2.
    + destruct H2 as ([] & t'' & -> & -> & ->). done.
    + destruct H2 as [-> ->]. done.
  - apply runs_lift_r in H1 as (seg & _ & (x & ? & _)%runs_catch). done.
Qed.

(** No lock is taken or given back by the calls to the services. *)
Lemma lock_not_lifted l (seg : trace (sum_iface K B)) : ev (I := Effects K B) (inl l) tt ∉ map ev_r seg.
Proof. intros ([call r] & E & _)%list_elem_of_fmap. by apply (f_equal (@projT1 _ _)) in E. Qed.

(** A history that contains unlocking is that of the whole update. *)
Lemma update_history p failure a b d t o :
  runs (update_program p failure) (a ++ locking :: b ++ unlocking :: d ++ t) o →
  ∃ err, runs p (service_events b) (Done err) ∧ b = map ev_r (service_events b) ∧ t = [] ∧ o = Done (update_response failure err).
Proof.
  intros (seg & x & Hp & Ht & ->)%update_program_runs. destruct a as [|e a].
  2: { exfalso. injection Ht as -> Ht. assert (locking ∈ map ev_r seg ++ match x with Done _ => [unlocking] | Panicked _ => [] end) as Hin.
       { rewrite <- Ht. apply elem_of_app. right. left. }
       apply elem_of_app in Hin as [Hin|Hin]; [by apply (lock_not_lifted Lock) in Hin|].
       destruct x; [|by apply not_elem_of_nil in Hin]. apply list_elem_of_singleton in Hin.
       by apply (f_equal (@projT1 _ _)) in Hin. }
  injection Ht as Ht. symmetry in Ht. apply split_app in Ht as [(b' & Hseg & _)|(a' & -> & Htail)].
  { exfalso. apply (lock_not_lifted Unlock seg). rewrite Hseg. apply elem_of_app. right. left. }
  destruct x as [err|m]; [|by destruct a']. destruct a' as [|? [|]]; [|done..]. injection Htail as Hd. symmetry in Hd.
  apply app_nil in Hd as [_ ->]. exists err. rewrite app_nil_r, service_events_lift. done.
Qed.
End Critical.

Section Requests.
Context `{sorter : !SliceSort, ranger : !MapRange, lib : !GoLib}.
Context {K B : Iface} `{!NodeScaler K, !CloudPoolClient B}.

Lemma handler_runs_update (p : Prog (sum_iface K B) (option error)) failure t o :
  runs (Vis (I := Effects K B) (inl Lock) (λ _, bind (lift_r (catch p)) (λ x, interp (I := ServerDeps) serve_call
    (bind (pure x) (λ err, bind (scall UnlockUpdate) (λ _,
      match err with
      | Some err => Ret (respond_error new_writer StatusInternalServerError err failure)
      | None => Ret (WriteHeader new_writer StatusOK)
      end)))))) t o →
  runs (update_program p failure) t o.
Proof.
  intros ([] & t' & -> & H). exists tt, t'. split; [done|]. revert H. generalize (catch p). intros q. revert t'.
  induction q as [x|m|call k IH]; intros t'; simpl; [|done|].
  - destruct x as [[err|]|m]; simpl; [..|done]; intros ([] & t'' & -> & -> & ->); by eexists tt, [].
  - intros (r & t'' & -> & H). eexists r, t''. split; [done|]. by apply IH.
Qed.

Lemma resize_request_runs r n t o :
  route (Method (In_Request r)) (URLPath (In_Request r)) = ToSetDesiredSize → asks_size r n →
  runs (request_program (K := K) (B := B) r) t o → runs (update_program (proxy_SetDesiredSize n) "failed to set desired size") t o.
Proof.
  intros Hpath (Hb & Hn & Hu) H. unfold request_program, ServeHTTP in H. rewrite Hpath in H. unfold HandleSetDesiredSize in H.
  cbv zeta in H. rewrite Hb, Hu in H. cbn [pure bind] in H.
  assert (SetDesiredSizeMessage_Validate (MkSetDesiredSizeMessage (Some n)) = None) as Hv by (apply SetDesiredSizeMessage_Validate_spec; eauto).
  rewrite Hv in H. exact (handler_runs_update _ _ _ _ H).
Qed.

Lemma terminate_request_runs r id dec t o :
  route (Method (In_Request r)) (URLPath (In_Request r)) = ToTerminateMachine → asks_termination r id dec →
  runs (request_program (K := K) (B := B) r) t o → runs (update_program (proxy_TerminateMachine id dec) "failed to terminate machine") t o.
Proof.
  intros Hpath (Hb & Hn & Hu) H. unfold request_program, ServeHTTP in H. rewrite Hpath in H. unfold HandleTerminateMachine in H.
  cbv zeta in H. rewrite Hb, Hu in H. cbn [pure bind] in H. unfold TerminateMachineMessage_Validate in H. simpl MachineID in H.
  destruct (String.eqb_spec id ""); [done|]. exact (handler_runs_update _ _ _ _ H).
Qed.

(** The calls of a request, found in the log. *)
Lemma events_of_cons_inv i (l : list (nat * event (Effects K B))) e t :
  events_of i l = e :: t → ∃ l1 l2, l = l1 ++ (i, e) :: l2 ∧ events_of i l1 = [] ∧ events_of i l2 = t.
Proof.
  induction l as [|[j x] l IH]; [done|]. cbn [events_of omap list_omap fst snd]. destruct (decide (j = i)) as [->|Hne].
  - intros [= -> Ht]. by exists [], l.
  - intros (l1 & l2 & -> & H1 & H2)%IH. exists ((j, x) :: l1), l2. split_and!; [done| |done].
    cbn [events_of omap list_omap fst snd]. by rewrite decide_False.
Qed.

Lemma events_of_app_inv i (l : list (nat * event (Effects K B))) t e t' :
  events_of i l = t ++ e :: t' →
  ∃ l1 l2, l = l1 ++ (i, e) :: l2 ∧ events_of i l1 = t ∧ events_of i l2 = t'.
Proof.
  revert l. induction t as [|x t IH]; intros l H; [by apply events_of_cons_inv|].
  apply events_of_cons_inv in H as (l1 & l2 & -> & H1 & (l3 & l4 & -> & H3 & H4)%IH).
  exists (l1 ++ (i, x) :: l3), l4. rewrite <- app_assoc. split_and!; [done| |done].
  rewrite events_of_app, H1. cbn [events_of omap list_omap fst snd]. rewrite decide_True by done. simpl. f_equal. exact H3.
Qed.

(** A request for an update that has been answered took the lock, made its
    update, and gave the lock back. *)
Lemma update_answered p failure s i r response :
  sys_reachable s → sys_requests s !! i = Some r → sys_threads s !! i = Some (Ret response) →
  (∀ t o, runs (request_program r) t o → runs (update_program p failure) t o) →
  ∃ l1 l2 l3 err, sys_log s = l1 ++ (i, locking) :: l2 ++ (i, unlocking) :: l3 ∧
    events_of i l1 = [] ∧ events_of i l3 = [] ∧ (i, unlocking) ∉ l2 ∧
    runs p (service_events (events_of i l2)) (Done err) ∧ response = update_response failure err.
Proof.
  intros Hs Hr Hq Hp. pose proof (reachable_stack_invariant _ Hs) as (_ & _ & _ & Ha). specialize (Ha i r _ Hr Hq).
  pose proof (after_runs _ _ _ [] (Done response) Ha (conj eq_refl eq_refl)) as Hrun. rewrite app_nil_r in Hrun.
  apply Hp, update_program_runs in Hrun as (seg & x & Hx & Ht & Ho). destruct x as [err|m]; [|done]. injection Ho as ->.
  apply events_of_cons_inv in Ht as (l1 & l2 & El & H1 & (l3 & l4 & -> & H3 & H4)%events_of_app_inv).
  exists l1, l3, l4, err. rewrite H3, service_events_lift. split_and!; try done.
  intros Hin. apply (lock_not_lifted Unlock seg). rewrite <- H3. unfold events_of.
  apply list_elem_of_omap. exists (i, unlocking). split; [done|]. simpl. by rewrite decide_True.
Qed.

(** The request whose calls are between locking and unlocking has run its
    update to the end and is answered. *)
Lemma update_completed (e : env (Effects K B)) p failure s i r l1 l2 l3 :
  sys_reachable s → sys_requests s !! i = Some r →
  (∀ t o, runs (request_program r) t o → runs (update_program p failure) t o) →
  sys_log s = l1 ++ (i, locking) :: l2 ++ (i, unlocking) :: l3 →
  ∃ err, runs p (service_events (events_of i l2)) (Done err) ∧ sys_threads s !! i = Some (Ret (update_response failure err)) ∧
    (i, unlocking) ∉ l2.
Proof.
  intros Hs Hr Hp Hl. pose proof (reachable_stack_invariant _ Hs) as (Hlen & _ & _ & Ha).
  destruct (lookup_lt_is_Some_2 (sys_threads s) i) as [q Hq]; [rewrite <- Hlen; by eapply lookup_lt_Some|].
  specialize (Ha i r q Hr Hq). pose proof (after_runs _ _ _ _ _ Ha (exec_runs e q [])) as Hrun. apply Hp in Hrun.
  assert (events_of i (sys_log s) = events_of i l1 ++ locking :: events_of i l2 ++ unlocking :: events_of i l3) as El.
  { rewrite Hl, !events_of_app. f_equal. cbn [events_of omap list_omap fst snd]. rewrite decide_True by done. f_equal.
    change (omap _ ?l) with (events_of i l). rewrite events_of_app. f_equal. cbn [events_of omap list_omap fst snd].
    by rewrite decide_True. }
  rewrite El, <- app_assoc in Hrun. cbn [app] in Hrun. rewrite <- app_assoc in Hrun.
  apply update_history in Hrun as (err & Hrun & Hb & Ht & Ho). exists err. split_and!; [done| |].
  - rewrite Hq. f_equal. destruct q as [w|m|call k]; simpl in Ht, Ho; [by injection Ho as ->|done|].
    destruct (exec e _ (k _)) in Ht; done.
  - intros Hin. apply (lock_not_lifted Unlock (service_events (events_of i l2))). rewrite <- Hb. unfold events_of.
    apply list_elem_of_omap. exists (i, unlocking). split; [done|]. simpl. by rewrite decide_True.
Qed.
End Requests.

(** ** Claims *)

Section ConcurrentClaims.
Context `{sorter : !SliceSort, ranger : !MapRange, lib : !GoLib}.
Variable c : DefaultCloudPoolClient.
Context {W : Type} `{!BackendState W, !Backends c W}.

#[local] Instance concurrent_client : CloudPoolClient HTTPBackend := HTTPCloudPoolClient c.

(** The other requests only read. *)
Definition others_read (i : nat) (l : list (nat * event (Effects KubeClient HTTPBackend))) : Prop :=
  ∀ j out x, (j, backend_event out x) ∈ l → j ≠ i → Out_Method out = "GET"%string.

(** The update of one request, taken out of the interleaving. *)
Lemma update_quiet s i l1 l2 l3 (w w' : W) :
  sys_reachable s → sys_log s = l1 ++ (i, locking) :: l2 ++ (i, unlocking) :: l3 → (i, unlocking) ∉ l2 → others_read i l2 →
  replay (react c) w (service_events l2.*2) w' →
  ∃ w1, replay (react c (Backends := quiet_backends c)) w (service_events (events_of i l2)) w1 ∧
    infos w' = infos w1 ∧ view_of w' = view_of w1.
Proof.
  intros Hs Hl Hno Hothers Hrep.
  destruct (replay_quiet c i l2 w w w' (calm_refl c w)) as (w1 & Hquiet & Hcalm); [|exact Hrep|].
  - intros j e Hin Hne. apply list_elem_of_split in Hin as (la & lb & ->). rewrite <- app_assoc in Hl. cbn [app] in Hl.
    rewrite app_comm_cons, app_assoc in Hl.
    destruct (isolated_call s _ i j e _ Hs Hl) as (r' & [out] & x & _ & -> & _); [|done|].
    + apply holding_since_lock. intros Hin. apply Hno. apply elem_of_app. by left.
    + apply (Hothers j out x); [|done]. apply elem_of_app. right. left.
  - exists w1. apply calm_same in Hcalm. split_and!; [done|apply Hcalm|by apply same_state_view].
Qed.

(** Two parts of a log, and what they do. *)
Lemma service_events_app (l1 l2 : trace (Effects KubeClient HTTPBackend)) :
  service_events (l1 ++ l2) = service_events l1 ++ service_events l2.
Proof. apply omap_app. Qed.

Lemma replay_parts i (l1 l2 l3 : list (nat * event (Effects KubeClient HTTPBackend))) (w0 w3 : W) :
  replay (react c) w0 (service_events (l1 ++ (i, locking) :: l2 ++ (i, unlocking) :: l3).*2) w3 →
  ∃ w1 w2, replay (react c) w0 (service_events l1.*2) w1 ∧ replay (react c) w1 (service_events l2.*2) w2 ∧
    replay (react c) w2 (service_events l3.*2) w3.
Proof.
  rewrite fmap_app, service_events_app. intros (w1 & H1 & H)%replay_app. rewrite fmap_cons, fmap_app in H.
  change (service_events (?x :: ?l)) with (service_events l) in H. rewrite service_events_app in H.
  apply replay_app in H as (w2 & H2 & H3). by exists w1, w2.
Qed.

(** C2. What an incoming resize request that has been answered has done, while
    other requests were served in any order and whatever failed: it took the
    update lock once and gave it back, and made all its calls between the two.
    If the requests that were forwarded in the meantime were reads, and the
    services keep the promises of [Backends] (n and the number of nodes at most
    2^63 - 1, ASCII machine IDs, nothing but the requests changing the cluster
    or the pool), then what changed between the two is what a resize leaves,
    as described by [resize_leaves] for its own calls: with at most n pairs of
    a worker node and an active machine only the cloudpool was asked for n,
    with more the excess, or all candidates if they are fewer, was removed.
    The answer is 200 if the resize succeeded and 500 if not. *)
Theorem resize_request_effect (n : Z) (s : system KubeClient HTTPBackend) (i : nat) (r : Incoming) (response : Writer) (w0 w3 : W) :
  sys_reachable s → sys_requests s !! i = Some r → sys_threads s !! i = Some (Ret response) →
  route (Method (In_Request r)) (URLPath (In_Request r)) = ToSetDesiredSize → asks_size r n → n ≤ MaxInt64 →
  replay (react c) w0 (service_events (sys_log s).*2) w3 →
  ∃ l1 l2 l3 w w' err,
    sys_log s = l1 ++ (i, locking) :: l2 ++ (i, unlocking) :: l3 ∧ events_of i l1 = [] ∧ events_of i l3 = [] ∧
    replay (react c) w0 (service_events l1.*2) w ∧ replay (react c) w (service_events l2.*2) w' ∧
    replay (react c) w' (service_events l3.*2) w3 ∧
    status response = Some (match err with None => StatusOK | Some _ => StatusInternalServerError end) ∧
    (others_read i l2 → Z.of_nat (length (infos w)) ≤ MaxInt64 → Forall (λ id, is_ascii_string id = true) (active_of w) →
     ∃ evs segs, service_events (events_of i l2) = concat segs ∧ implements (I := ProxyDeps) wire evs segs ∧
       resize_leaves n (infos w) (infos w') (view_of w) (view_of w') evs err).
Proof.
  intros Hs Hr Hq Hpath Hn Hmax Hrep.
  destruct (update_answered _ _ _ _ _ _ Hs Hr Hq (λ t o, resize_request_runs r n t o Hpath Hn))
    as (l1 & l2 & l3 & err & Hl & H1 & H3 & Hno & Hrun & ->).
  rewrite Hl in Hrep. apply replay_parts in Hrep as (w & w' & Hr1 & Hr2 & Hr3).
  exists l1, l2, l3, w, w', err. split_and!; try done; [by destruct err as [e|]; [apply status_respond_error|]|].
  intros Hothers Hsize Hascii. destruct (update_quiet _ _ _ _ _ _ _ Hs Hl Hno Hothers Hr2) as (w1 & Hquiet & -> & ->).
  refine (wired_resize c (Backends0 := quiet_backends c) n w w1 _ err _ Hsize Hascii Hrun Hquiet).
  destruct Hn as (_ & Hn & _). done.
Qed.

(** C10. What an incoming termination request does between taking and giving back
    the update lock, if the requests that are forwarded in the meantime are
    reads and the services keep the promises of [Backends] (an ASCII machine
    ID, nothing but the requests changing the cluster or the pool): what
    changed is what a termination leaves, as described by [terminate_leaves]
    for its own calls.  The request has been answered, with 200 if the
    termination succeeded and with 500 if not. *)
Theorem terminate_request_effect (id : string) (dec : bool) (s : system KubeClient HTTPBackend) (i : nat) (r : Incoming)
    l1 l2 l3 (w w' : W) :
  sys_reachable s → sys_requests s !! i = Some r →
  route (Method (In_Request r)) (URLPath (In_Request r)) = ToTerminateMachine → asks_termination r id dec → is_ascii_string id = true →
  sys_log s = l1 ++ (i, locking) :: l2 ++ (i, unlocking) :: l3 → others_read i l2 →
  replay (react c) w (service_events l2.*2) w' →
  ∃ err response evs segs,
    service_events (events_of i l2) = concat segs ∧ implements (I := ProxyDeps) wire evs segs ∧
    terminate_leaves id dec (infos w) (infos w') (view_of w) (view_of w') evs err ∧ sys_threads s !! i = Some (Ret response) ∧
    status response = Some (match err with None => StatusOK | Some _ => StatusInternalServerError end).
Proof.
  intros Hs Hr Hpath Hn Hascii Hl Hothers Hrep.
  destruct (update_completed some_env _ _ _ _ _ _ _ _ Hs Hr (λ t o, terminate_request_runs r id dec t o Hpath Hn) Hl)
    as (err & Hrun & Hq & Hno).
  destruct (update_quiet _ _ _ _ _ _ _ Hs Hl Hno Hothers Hrep) as (w1 & Hquiet & -> & ->).
  destruct (wired_termination c (Backends0 := quiet_backends c) id dec w w1 _ err Hascii Hrun Hquiet) as (evs & segs & He & Hi & Hleaves).
  eexists err, _, evs, segs. split_and!; [done|done|exact Hleaves|exact Hq|]. by destruct err as [e|]; [apply status_respond_error|].
Qed.
End ConcurrentClaims.

(** ** Witnesses *)

Section Runs.
Context `{sorter : !SliceSort, ranger : !MapRange, lib : !GoLib}.
Context {K B : Iface} `{!NodeScaler K, !CloudPoolClient B}.

(** A request that needs no lock can perform any of its runs. *)
Lemma thread_run i p (s : system K B) t o :
  sys_reachable s → sys_threads s !! i = Some p → runs p t o → locking ∉ t →
  ∃ s', sys_reachable s' ∧ sys_requests s' = sys_requests s ∧ sys_log s' = sys_log s ++ map (pair i) t ∧
    ∀ j, j ≠ i → sys_threads s' !! j = sys_threads s !! j.
Proof.
  revert s t. induction p as [w|m|call k IH]; intros s t Hs Hp Hr Hno; simpl in Hr.
  1-2: destruct Hr as [-> _]; exists s; split_and!; [done|done| |done]; simpl; by rewrite app_nil_r.
  destruct Hr as (x & t' & -> & Hr). apply not_elem_of_cons in Hno as [Hcall Hno].
  assert (∃ h, sys_reachable (MkSystem h (sys_requests s) (<[i := k x]> (sys_threads s)) (sys_log s ++ [(i, ev (I := Effects K B) call x)])))
    as (h & Hs').
  { destruct s as [h rs ts log]. simpl in *. destruct call as [[]|call].
    - destruct x. by destruct Hcall.
    - destruct x. exists None. eapply sys_next; [exact Hs|]. by eapply sys_thread, thread_unlock.
    - exists h. eapply sys_next; [exact Hs|]. by eapply sys_thread, thread_call. }
  destruct (IH x _ t' Hs') as (s' & H1 & H2 & H3 & H4); [|done|done|].
  - simpl. apply list_lookup_insert_eq. by eapply lookup_lt_Some.
  - exists s'. split_and!; [done|exact H2|rewrite H3; simpl; by rewrite <- app_assoc|].
    intros j Hj. rewrite H4 by done. simpl. by rewrite list_lookup_insert_ne.
Qed.

Lemma service_events_own (i : nat) (seg : trace (sum_iface K B)) :
  service_events (map (pair i) (map (@ev_r UpdateLock (sum_iface K B)) seg)).*2 = seg.
Proof. induction seg as [|[call x] seg IH]; [done|]. simpl. f_equal. exact IH. Qed.
End Runs.

#[local] Existing Instance map_to_list_range.
#[local] Existing Instance insertion_sort.
#[local] Instance concurrent_lib : GoLib := plain_lib.
#[local] Instance sample_wired : CloudPoolClient HTTPBackend := HTTPCloudPoolClient sample_client.

(** The lock and the services of the store. *)
Definition effects_step (k : call (Effects KubeClient HTTPBackend)) (s : store) : reply (Effects KubeClient HTTPBackend) k * store :=
  match k return reply (Effects KubeClient HTTPBackend) k * store with
  | inl _ => (tt, s)
  | inr k => store_step k s
  end.

Definition sample_cluster_state : cluster := Cluster three_workers three_workers_wf.

(** The answer of the store to the request that is forwarded. *)
Definition pool_read : trace (sum_iface KubeClient HTTPBackend) :=
  [http_ev (forwarded sample_client (In_Request pool_get)) (pool_step (forwarded sample_client (In_Request pool_get)) three_workers).1].

Lemma pool_get_runs : ∃ o, runs (request_program pool_get) (map ev_r pool_read) o.
Proof.
  assert (map ev_r pool_read = (serve effects_step three_workers (request_program pool_get)).1.1) as -> by (vm_compute; reflexivity).
  eexists. apply serve_runs.
Qed.

Definition interleaved_calls (p : Prog (sum_iface KubeClient HTTPBackend) (option error))
    : list (nat * event (Effects KubeClient HTTPBackend)) :=
  map (pair 1%nat) (map ev_r pool_read) ++ map (pair 0%nat) (map ev_r (serve store_step three_workers p).1.1).

(** An update, and a request that reads the pool after the update has taken
    the lock. *)
Lemma interleaved r (p : Prog (sum_iface KubeClient HTTPBackend) (option error)) :
  (serve effects_step three_workers (request_program r)).1.1 = locking :: map ev_r (serve store_step three_workers p).1.1 ++ [unlocking] →
  ∃ s, sys_reachable s ∧ sys_requests s = [r; pool_get] ∧
    sys_log s = [] ++ (0%nat, locking) :: interleaved_calls p ++ (0%nat, unlocking) :: [].
Proof.
  intros Htrace. pose proof (serve_runs effects_step (request_program r) three_workers) as Hr. rewrite Htrace in Hr. clear Htrace.
  assert (sys_reachable (MkSystem None [r] [request_program r] [])) as Hs by (eapply sys_next; [apply sys_start|apply (sys_arrive None [] [] [])]).
  destruct (request_program r) as [w|m|call k]; [by destruct Hr..|]. destruct Hr as (x & t' & Ht & Hr). injection Ht as Hx <-.
  destruct call as [[]|call]; [|discriminate Hx..]. destruct x.
  assert (sys_reachable (MkSystem (Some 0%nat) [r] [k tt] [(0%nat, locking)])) as Hs1
    by (eapply sys_next; [exact Hs|]; apply (sys_thread 0); by apply (thread_lock 0 [_] [_] [])).
  pose proof (sys_next _ _ Hs1 (sys_arrive _ _ _ _ pool_get)) as Hs2. destruct pool_get_runs as [o Hget].
  destruct (thread_run 1 _ _ _ _ Hs2 eq_refl Hget) as (s3 & Hs3 & Hreq & Hlog & Hts); [apply (lock_not_lifted Lock)|].
  destruct (thread_run 0 _ _ _ _ Hs3 (Hts 0%nat ltac:(discriminate)) Hr) as (s4 & Hs4 & Hreq4 & Hlog4 & _).
  { intros [Hin|Hin]%elem_of_app; [by apply (lock_not_lifted Lock) in Hin|]. apply list_elem_of_singleton in Hin. discriminate Hin. }
  exists s4. split_and!; [done|by rewrite Hreq4, Hreq|]. rewrite Hlog4, Hlog. unfold interleaved_calls. rewrite map_app, <- !app_assoc. done.
Qed.

Lemma interleaved_others p : others_read 0 (interleaved_calls p).
Proof.
  intros j out x [Hin|Hin]%elem_of_app Hne.
  - apply list_elem_of_singleton in Hin. apply (f_equal snd), (f_equal (@projT1 _ _)) in Hin. injection Hin as ->.
    vm_compute. reflexivity.
  - apply list_elem_of_fmap in Hin as (e & [= -> _] & _). done.
Qed.

Lemma interleaved_replay p :
  ∃ w', holds w' = (serve store_step three_workers p).2 ∧
    replay (react sample_client) sample_cluster_state (service_events (interleaved_calls p).*2) w'.
Proof.
  pose proof (serve_cluster p sample_cluster_state) as H. cbn [holds sample_cluster_state] in H. unfold interleaved_calls.
  destruct (serve store_step three_workers p) as [[t o] s]. destruct H as (_ & w' & Hw & H). exists w'. split; [done|].
  rewrite fmap_app. unfold service_events. rewrite omap_app. apply replay_app. exists sample_cluster_state.
  split; [|by rewrite <- (service_events_own 0 t) in H].
  change (omap _ _) with (service_events (map (pair 1%nat) (map (@ev_r UpdateLock (sum_iface KubeClient HTTPBackend)) pool_read)).*2).
  rewrite service_events_own. apply replay_single. split; vm_compute; reflexivity.
Qed.

(** Where the lock is taken and given back in that log. *)
Lemma interleaved_split (s : system KubeClient HTTPBackend) p l1 l2 l3 :
  sys_log s = [] ++ (0%nat, locking) :: interleaved_calls p ++ (0%nat, unlocking) :: [] →
  sys_log s = l1 ++ (0%nat, locking) :: l2 ++ (0%nat, unlocking) :: l3 → events_of 0 l1 = [] → events_of 0 l3 = [] →
  l1 = [] ∧ l2 = interleaved_calls p ∧ l3 = [].
Proof.
  generalize (interleaved_calls p) as l. intros l -> H H1 H3. destruct l1 as [|[j e] l1]; simpl in H.
  2: { injection H as <- <- _. cbn [events_of omap list_omap fst snd] in H1. rewrite decide_True in H1 by done. discriminate H1. }
  injection H as H. destruct l3 as [|x l3 _] using rev_ind.
  - apply app_inj_tail in H as [H _]. by rewrite H.
  - rewrite app_comm_cons, app_assoc in H. apply app_inj_tail in H as [_ <-]. rewrite events_of_app in H3.
    apply app_eq_nil in H3 as [_ H3]. cbn [events_of omap list_omap fst snd] in H3. rewrite decide_True in H3 by done. discriminate H3.
Qed.

Lemma interleaved_services p (s : system KubeClient HTTPBackend) :
  sys_log s = [] ++ (0%nat, locking) :: interleaved_calls p ++ (0%nat, unlocking) :: [] →
  service_events (sys_log s).*2 = service_events (interleaved_calls p).*2.
Proof.
  generalize (interleaved_calls p) as l. intros l ->. simpl. rewrite fmap_app. unfold service_events. rewrite omap_app. apply app_nil_r.
Qed.

(** A cluster of three workers is resized to two, and the pool is read while
    the resize runs. *)
Lemma resize_request_effect_witness :
  ∃ (s : system KubeClient HTTPBackend) response evs err, sys_reachable s ∧ sys_requests s = [resize_post 2; pool_get] ∧
    sys_log s = (0%nat, locking) :: interleaved_calls (proxy_SetDesiredSize 2) ++ [(0%nat, unlocking)] ∧
    sys_threads s !! 0%nat = Some (Ret response) ∧
    status response = Some (match err with None => StatusOK | Some _ => StatusInternalServerError end) ∧
    resize_leaves 2 (nodes three_workers) (nodes (serve store_step three_workers (proxy_SetDesiredSize 2)).2)
      (store_view three_workers) (store_view (serve store_step three_workers (proxy_SetDesiredSize 2)).2) evs err.
Proof.
  destruct (interleaved (resize_post 2) (proxy_SetDesiredSize 2)) as (s & Hs & Hreq & Hlog); [vm_compute; reflexivity|].
  destruct (interleaved_replay (proxy_SetDesiredSize 2)) as (w3 & <- & Hrep). rewrite <- (interleaved_services _ s Hlog) in Hrep.
  assert (sys_requests s !! 0%nat = Some (resize_post 2)) as H0 by (rewrite Hreq; reflexivity).
  assert (asks_size (resize_post 2) 2) as Hasks by (split; [reflexivity|split; [lia|vm_compute; reflexivity]]).
  destruct (update_completed some_env _ _ _ _ _ _ _ _ Hs H0 (λ t o, resize_request_runs (resize_post 2) 2 t o eq_refl Hasks) Hlog)
    as (err0 & _ & Hq & _).
  destruct (resize_request_effect sample_client 2 s 0 _ _ sample_cluster_state w3 Hs H0 Hq eq_refl Hasks
    ltac:(vm_compute; discriminate) Hrep) as (l1 & l2 & l3 & w & w' & err & Hsplit & H1 & H3 & Hr1 & _ & Hr3 & Hst & Hleaves).
  destruct (interleaved_split s _ l1 l2 l3 Hlog Hsplit H1 H3) as (-> & -> & ->).
  inversion Hr1; subst. inversion Hr3; subst.
  destruct (Hleaves (interleaved_others _) ltac:(vm_compute; discriminate) ltac:(repeat constructor)) as (evs & segs & _ & _ & Hl).
  exists s. eexists. exists evs, err. split; [exact Hs|]. split; [exact Hreq|]. split; [exact Hlog|]. split; [exact Hq|].
  split; [exact Hst|exact Hl].
Defined.

(** One of three workers is terminated on request, while the pool is read. *)
Lemma terminate_request_effect_witness :
  ∃ (s : system KubeClient HTTPBackend) response evs err, sys_reachable s ∧ sys_requests s = [terminate_post; pool_get] ∧
    sys_log s = (0%nat, locking) :: interleaved_calls (proxy_TerminateMachine "i-1" true) ++ [(0%nat, unlocking)] ∧
    sys_threads s !! 0%nat = Some (Ret response) ∧
    status response = Some (match err with None => StatusOK | Some _ => StatusInternalServerError end) ∧
    terminate_leaves "i-1" true (nodes three_workers) (nodes (serve store_step three_workers (proxy_TerminateMachine "i-1" true)).2)
      (store_view three_workers) (store_view (serve store_step three_workers (proxy_TerminateMachine "i-1" true)).2) evs err.
Proof.
  destruct (interleaved terminate_post (proxy_TerminateMachine "i-1" true)) as (s & Hs & Hreq & Hlog); [vm_compute; reflexivity|].
  destruct (interleaved_replay (proxy_TerminateMachine "i-1" true)) as (w' & <- & Hrep).
  assert (sys_requests s !! 0%nat = Some terminate_post) as H0 by (rewrite Hreq; reflexivity).
  assert (asks_termination terminate_post "i-1" true) as Hasks by (split; [reflexivity|split; [discriminate|vm_compute; reflexivity]]).
  destruct (terminate_request_effect sample_client "i-1" true s 0 _ _ _ _ sample_cluster_state w' Hs H0 eq_refl Hasks eq_refl
    Hlog (interleaved_others _) Hrep) as (err & response & evs & segs & _ & _ & Hleaves & Hthread & Hstatus).
  exists s, response, evs, err. split; [exact Hs|]. split; [exact Hreq|]. split; [exact Hlog|]. split; [exact Hthread|].
  split; [exact Hstatus|exact Hleaves].
Defined.
