(* ===== verification/Commands.v ===== *)
(** * samples/: the sample commands

    The five commands under samples/ use the packages of the program directly:
    they drain a node, list nodes, exercise the cloudpool client, and perform a
    resize or a termination through the proxy without the HTTP server.  Each
    [main] is a program over the operations of the process, of the Kubernetes
    client library, and of the two services, and takes the values of the options
    and the positional arguments; each [process] parses the command line for
    it, with the flags and the defaults of the command's [init].  [glog.Exitf] ends the process with
    status 1 and its message; other log output is left out. *)
From stdpp Require Import base tactics list strings gmap.
From Stdlib Require Import ZArith Lia Ascii.
From S2P Require Import Prelude Strconv GoStd Quantity KubeTypes Labels Json NodeInfo Samples QuasiScheduler NodeScaler CloudPool Url PoolClient Duration Flags Config Main Proxy System.

Local Open Scope go_scope.
Local Open Scope string_scope.

(** ** The commands *)

Definition Command : Iface := sum_iface Startup (sum_iface KubeClient HTTPBackend).
Definition in_setup {A} (p : Prog Startup A) : Prog Command A := lift_l p.
Definition on_services {A} (p : Prog (sum_iface KubeClient HTTPBackend) A) : Prog Command A := lift_r p.
Definition on_cluster {A} (p : Prog KubeClient A) : Prog Command A := on_services (lift_l p).
Definition on_backend {A} (p : Prog HTTPBackend A) : Prog Command A := on_services (lift_r p).

Definition Exitf (message : string) : Prog Command exit_status := Ret (Exit 1 message).
Definition finished : Prog Command exit_status := Ret (Exit 0 "").

(** The options of the commands that connect to the cluster. *)
Record ClusterOptions : Type := MkClusterOptions {
  apiServerURL : string;
  kubeConfigFile : string;
  certFile : string;
  certKeyFile : string;
  caCertFile : string }.

Section Commands.
Context `{sorter : !SliceSort, ranger : !MapRange, lib : !GoLib}.

(** samples/drain *)
Definition drain_main (opts : ClusterOptions) (args : list string) : Prog Command exit_status :=
  if String.eqb (apiServerURL opts) "" then Exitf "error: no --apiserver-url given"
  else
    let conf := MkAPIServer (apiServerURL opts) (MkAuth "" (certFile opts) (certKeyFile opts) (caCertFile opts))
                  (10 * Second) in
    let! r := in_setup (lift_r (NewKubeClient conf)) in
    match r with
    | Err err => Exitf ("could not create kubernetes client: " +:+ Error err +:+ newline)
    | Ok _ =>
        match args with
        | [] => Exitf ("error: no node to drain given" +:+ newline)
        | nodeToDrain :: _ =>
            let! r := on_cluster (GetNode nodeToDrain) in
            match r with
            | Err err => Exitf ("failed to get victim node: " +:+ Error err)
            | Ok victimNode =>
                let! (canBeScaledDown, _) := on_cluster (IsScaleDownCandidate victimNode) in
                if negb canBeScaledDown then Exitf ("node " +:+ nodeToDrain +:+ " cannot be safely scaled down")
                else
                  let! _ := on_cluster (NodeScaler.DrainNode victimNode) in
                  finished
            end
        end
    end.

(** samples/kubeclient *)
Definition kubeclient_main (opts : ClusterOptions) : Prog Command exit_status :=
  if String.eqb (apiServerURL opts) "" then Exitf "error: no --apiserver-url given"
  else
    let conf := MkAPIServer (apiServerURL opts)
                  (MkAuth (kubeConfigFile opts) (certFile opts) (certKeyFile opts) (caCertFile opts)) (10 * Second) in
    let! r := in_setup (lift_r (NewKubeClient conf)) in
    match r with
    | Err err => Exitf ("could not create kubernetes client: " +:+ Error err +:+ newline)
    | Ok _ =>
        let! r := on_cluster (invoke (I := KubeClient) KListNodes) in
        match r with
        | Err err => Exitf ("failed to list nodes: " +:+ Error err)
        | Ok _ => finished
        end
    end.

(** samples/poolclient *)
Fixpoint terminate_machines (client : DefaultCloudPoolClient) (machines : list Machine) : Prog Command exit_status :=
  match machines with
  | [] => finished
  | m :: rest =>
      let! err := on_backend (client_TerminateMachine client (ID m) true) in
      match err with
      | Some err => Exitf ("failed to terminate machine: " +:+ Error err)
      | None => terminate_machines client rest
      end
  end.

Definition poolclient_main (cloudPoolURL : string) : Prog Command exit_status :=
  if String.eqb cloudPoolURL "" then Exitf "error: no --cloudpool-url given"
  else
    let client := NewClient cloudPoolURL 0 in
    let! r := on_backend (GetPoolSize client) in
    match r with
    | Err err => Exitf ("failed to get machine pool size: " +:+ Error err)
    | Ok poolSize =>
        let! r := on_backend (GetMachinePool client) in
        match r with
        | Err err => Exitf ("failed to get machine pool: " +:+ Error err)
        | Ok machinePool =>
            let! err := on_backend (client_SetDesiredSize client (Size_DesiredSize poolSize)) in
            match err with
            | Some err => Exitf ("failed to set desired size: " +:+ Error err)
            | None => terminate_machines client (Machines machinePool)
            end
        end
    end.

(** What samples/proxy-setsize and samples/proxy-terminate do before they use
    the proxy: read the configuration and make the two clients. *)
Definition with_clients (configPath : string) (use : DefaultCloudPoolClient → Prog Command exit_status)
    : Prog Command exit_status :=
  let! opened := in_setup (proc (OpenFile configPath)) in
  match opened with
  | Some err => Exitf ("failed to open configuration file: " +:+ Error err)
  | None =>
      let! read := in_setup (proc ReadAll) in
      match read with
      | Err err => Exitf ("error: could not read config: " +:+ Error err +:+ newline)
      | Ok configBytes =>
          let! parsed := pure (NewFromJSON configBytes) in
          match parsed with
          | Err err => Exitf ("error: could not parse config: " +:+ Error err +:+ newline)
          | Ok proxyConfig =>
              let cloudPoolClient :=
                NewClient (Backend_URL (Backend proxyConfig)) (Backend_Timeout (Backend proxyConfig)) in
              let! r := in_setup (lift_r (NewKubeClient (APIServer proxyConfig))) in
              match r with
              | Err err => Exitf ("failed to create kubernetes client: " +:+ Error err)
              | Ok _ => use cloudPoolClient
              end
          end
      end
  end.

Definition defaultConfigPath : string := "/etc/elastisys/kubeaware-cloudpool-proxy/config.json".

(** samples/proxy-setsize *)
Definition setsize_main (configPath : string) (args : list string) : Prog Command exit_status :=
  match args with
  | [] => Exitf "error: no desired size given"
  | arg :: _ =>
      match Atoi arg with
      | Err e => Exitf ("illegal desired size: " +:+ num_error_text "Atoi" (Quote arg) e)
      | Ok desiredSize =>
          with_clients configPath (λ cloudPoolClient,
            let! err := on_services (proxy_SetDesiredSize (CloudPoolClient0 := HTTPCloudPoolClient cloudPoolClient) desiredSize) in
            match err with
            | Some err => Exitf ("failed to set desired size: " +:+ Error err)
            | None => finished
            end)
      end
  end.

(** samples/proxy-terminate *)
Definition terminate_main (configPath : string) (args : list string) : Prog Command exit_status :=
  match args with
  | [] => Exitf "error: no machine to terminate given"
  | machineToTerminate :: _ =>
      with_clients configPath (λ cloudPoolClient,
        let! err := on_services (proxy_TerminateMachine (CloudPoolClient0 := HTTPCloudPoolClient cloudPoolClient)
                                   machineToTerminate true) in
        match err with
        | Some err => Exitf ("failed to terminate machine: " +:+ Error err)
        | None => finished
        end)
  end.

(** ** The command lines *)

(** [flag.Parse] and what follows. *)
Definition with_flags {O} (flags : list (Flag (settings O))) (defaults : O)
    (body : O → list string → Prog Command exit_status) (args : list string) : Prog Command exit_status :=
  match flag_Parse flags args (defaults, initial_log) with
  | Err e => Ret (Exit 2 (flag_error_text e))
  | Ok (s, rest) => body s.1 rest
  end.

(** samples/drain; [HOME] is the value of the environment variable. *)
Definition drain_defaults (HOME : string) : ClusterOptions :=
  MkClusterOptions "" "" (Join [HOME; ".kube"; "pki"; "client-cert.pem"]) (Join [HOME; ".kube"; "pki"; "client-key.pem"])
    (Join [HOME; ".kube"; "pki"; "ca.pem"]).

Definition apiserver_flag : Flag (settings ClusterOptions) :=
  StringVar "apiserver-url" (λ v '(o, l),
    (MkClusterOptions v (kubeConfigFile o) (certFile o) (certKeyFile o) (caCertFile o), l)).

Definition certificate_flags : list (Flag (settings ClusterOptions)) := [
  StringVar "cert-file" (λ v '(o, l), (MkClusterOptions (apiServerURL o) (kubeConfigFile o) v (certKeyFile o) (caCertFile o), l));
  StringVar "cert-key" (λ v '(o, l), (MkClusterOptions (apiServerURL o) (kubeConfigFile o) (certFile o) v (caCertFile o), l));
  StringVar "ca-cert" (λ v '(o, l), (MkClusterOptions (apiServerURL o) (kubeConfigFile o) (certFile o) (certKeyFile o) v, l))].

Definition drain_flags : list (Flag (settings ClusterOptions)) := glog_flags ++ [apiserver_flag] ++ certificate_flags.
Definition drain_process (HOME : string) : list string → Prog Command exit_status :=
  with_flags drain_flags (drain_defaults HOME) drain_main.

(** samples/kubeclient *)
Definition kubeclient_defaults (HOME : string) : ClusterOptions := MkClusterOptions "" (Join [HOME; ".kube"; "config"]) "" "" "".

Definition kubeclient_flags : list (Flag (settings ClusterOptions)) :=
  glog_flags ++ [
    apiserver_flag;
    StringVar "kubeconfig" (λ v '(o, l), (MkClusterOptions (apiServerURL o) v (certFile o) (certKeyFile o) (caCertFile o), l))]
  ++ certificate_flags.
Definition kubeclient_process (HOME : string) : list string → Prog Command exit_status :=
  with_flags kubeclient_flags (kubeclient_defaults HOME) (λ opts _, kubeclient_main opts).

(** samples/poolclient *)
Definition poolclient_flags : list (Flag (settings string)) := glog_flags ++ [StringVar "cloudpool-url" (λ v '(_, l), (v, l))].
Definition poolclient_process : list string → Prog Command exit_status :=
  with_flags poolclient_flags "" (λ cloudPoolURL _, poolclient_main cloudPoolURL).

(** samples/proxy-setsize and samples/proxy-terminate *)
Definition config_flags : list (Flag (settings string)) := glog_flags ++ [StringVar "config-file" (λ v '(_, l), (v, l))].
Definition setsize_process : list string → Prog Command exit_status := with_flags config_flags defaultConfigPath setsize_main.
Definition terminate_process : list string → Prog Command exit_status := with_flags config_flags defaultConfigPath terminate_main.
End Commands.

(** ** Runs of the commands *)

(** The calls of a command that change the cluster or the pool. *)
Definition command_changes (c : call Command) : bool :=
  match c with
  | inl _ => false
  | inr (inl c) => kube_mutates c
  | inr (inr c) => backend_changes c
  end.

(** Calls to the cluster and to the backend, as calls of a command. *)
Definition at_cluster (t : trace KubeClient) : trace Command := map ev_r (map ev_l t).
Definition at_backend (t : trace HTTPBackend) : trace Command := map ev_r (map ev_r t).

Lemma runs_on_cluster {A} (p : Prog KubeClient A) t o : runs (on_cluster p) t o ↔ ∃ t', t = at_cluster t' ∧ runs p t' o.
Proof.
  split.
  - intros (t' & -> & H)%runs_lift_r. apply runs_lift_l in H as (t'' & -> & H). eauto.
  - intros (t' & -> & H). apply runs_lift_r. eexists. split; [done|]. apply runs_lift_l. eauto.
Qed.

Lemma runs_on_backend {A} (p : Prog HTTPBackend A) t o : runs (on_backend p) t o ↔ ∃ t', t = at_backend t' ∧ runs p t' o.
Proof.
  split.
  - intros (t' & -> & H)%runs_lift_r. apply runs_lift_r in H as (t'' & -> & H). eauto.
  - intros (t' & -> & H). apply runs_lift_r. eexists. split; [done|]. apply runs_lift_r. eauto.
Qed.

Lemma setup_changes_nothing (t : trace Startup) : Forall (λ e : event Command, command_changes (projT1 e) = false) (map ev_l t).
Proof. induction t; constructor; done. Qed.

Lemma reading_cluster {A} (p : Prog KubeClient A) t o :
  calls_only (I := KubeClient) (λ c, kube_mutates c = false) p → runs p t o →
  Forall (λ e : event Command, command_changes (projT1 e) = false) (at_cluster t).
Proof. intros Hp H. apply (calls_only_runs _ _ _ _ Hp) in H. unfold at_cluster. by rewrite !Forall_map. Qed.

Section CommandFacts.
Context `{sorter : !SliceSort, ranger : !MapRange, lib : !GoLib}.

(** Either a command got no further than its configuration, or it went on with
    a client for the backend of an accepted configuration. *)
Lemma with_clients_runs configPath use t o :
  runs (with_clients configPath use) t o →
  (∃ ts, t = map ev_l ts) ∨
  (∃ text cfg ts t', NewFromJSON text = Done (Ok cfg) ∧ t = (map ev_l ts ++ t')%list ∧
     runs (use (NewClient (Backend_URL (Backend cfg)) (Backend_Timeout (Backend cfg)))) t' o).
Proof.
  unfold with_clients. intros H.
  assert (Hs : ∀ A (p : Prog Startup A) k t, runs (bind (in_setup p) k) t o →
    (∃ ts, t = map ev_l ts) ∨ ∃ ts t' a, t = (map ev_l ts ++ t')%list ∧ runs (k a) t' o).
  { intros A p k t0 H0. apply runs_bind in H0 as [(t1 & t2 & a & -> & H1 & H2)|(m & _ & H1)];
      apply runs_lift_l in H1 as (ts & -> & _); [|by left; exists ts]. right. by exists ts, t2, a. }
  apply Hs in H as [H|(ts & t1 & [err|] & -> & H)]; [by left|destruct H as [-> _]; left; exists ts; by rewrite app_nil_r|].
  apply Hs in H as [(ts2 & ->)|(ts2 & t2 & [text|err] & -> & H)].
  1,3: left; exists (ts ++ ts2)%list; rewrite map_app; try done; destruct H as [-> _]; by rewrite app_nil_r.
  destruct (NewFromJSON text) as [[cfg|err]|m] eqn:Ecfg; cbn [pure bind] in H.
  2,3: destruct H as [-> _]; left; exists (ts ++ ts2)%list; rewrite map_app, app_nil_r; done.
  apply Hs in H as [(ts3 & ->)|(ts3 & t3 & [k|err] & -> & H)].
  1,3: left; exists (ts ++ ts2 ++ ts3)%list; rewrite !map_app; try done; destruct H as [-> _]; by rewrite app_nil_r.
  right. exists text, cfg, (ts ++ ts2 ++ ts3)%list, t3. split_and!; [done| |done]. by rewrite !map_app, <- !app_assoc.
Qed.

(** A command with wrong flags makes no call. *)
Lemma with_flags_runs {O} flags (defaults : O) body args t o :
  runs (with_flags flags defaults body args) t o →
  (∃ e, flag_Parse flags args (defaults, initial_log) = Err e ∧ t = [] ∧ o = Done (Exit 2 (flag_error_text e))) ∨
  ∃ opts log rest, flag_Parse flags args (defaults, initial_log) = Ok ((opts, log), rest) ∧ runs (body opts rest) t o.
Proof.
  unfold with_flags. destruct (flag_Parse _ _ _) as [[[opts log] rest]|e]; [right; by exists opts, log, rest|].
  intros [-> ->]. left. by exists e.
Qed.

(** The request to the backend in a command that uses the proxy is made by the
    proxy. *)
Lemma proxy_command_runs (p : Prog (sum_iface KubeClient HTTPBackend) (option error)) (failed : error → string) t o t1 e t2 :
  runs (bind (on_services p) (λ err, match err with Some err => Exitf (failed err) | None => finished end)) t o →
  t = (t1 ++ ev_r e :: t2)%list → ∃ o' u v, runs p (u ++ e :: v)%list o' ∧ t1 = map ev_r u.
Proof.
  intros H ->. assert (Hr : ∃ o', runs (on_services p) (t1 ++ ev_r e :: t2)%list o').
  { apply runs_bind in H as [(ta & tb & a & Ht & H1 & H2)|(m & _ & H1)]; [|by eexists].
    exists (Done a). assert (tb = []) as -> by (destruct a; by destruct H2). rewrite app_nil_r in Ht. by rewrite Ht. }
  destruct Hr as (o' & Hr). apply runs_lift_r in Hr as (t' & Ht & Hr). symmetry in Ht.
  apply ev_r_in_lift_r in Ht as (u & v & -> & -> & _). by exists o', u, v.
Qed.
End CommandFacts.

(** ** Claims *)

Section CommandClaims.
Context `{sorter : !SliceSort, ranger : !MapRange, lib : !GoLib}.

Lemma GetNode_reads name : calls_only (I := KubeClient) (λ c, kube_mutates c = false) (GetNode name).
Proof. unfold GetNode, getNodeInfo, getPodsOnNode. prog_walk. Qed.

(** C40. The drain command changes the cluster only by draining the node named on
    its command line, after that node was read and found safe to remove with
    respect to what was read; then it ends with status 0 (whether or not the
    drain succeeded). *)
Theorem drain_command_is_safe (HOME : string) (args : list string) (t : trace Command) (o : outcome exit_status) :
  runs (drain_process HOME args) t o →
  Forall (λ e : event Command, command_changes (projT1 e) = false) t ∨
  ∃ s name rest node ts tn tc td oe,
    flag_Parse drain_flags args (drain_defaults HOME, initial_log) = Ok (s, name :: rest) ∧ t = (map ev_l ts ++ at_cluster tn ++ at_cluster tc ++ at_cluster td)%list ∧
    runs (GetNode name) tn (Done (Ok node)) ∧ drain_spec node td oe ∧ o = Done (Exit 0 "") ∧
    ((Z.of_nat (length (Pods node)) < 2^31)%Z → Forall wf_pod (Pods node) → safe_to_remove node tc).
Proof.
  intros [(e & _ & -> & _)|(opts & log & pos & Hf & H)]%with_flags_runs; [by left|]. revert H.
  unfold drain_main. destruct (String.eqb (apiServerURL opts) ""); [intros [-> _]; by left|]. cbv zeta. intros H.
  apply runs_bind in H as [(t1 & t2 & [k|err] & -> & H1 & H)|(m & _ & H1)];
    apply runs_lift_l in H1 as (ts & -> & _); pose proof (setup_changes_nothing ts) as Hts.
  3: by left.
  2: destruct H as [-> _]; left; by rewrite app_nil_r.
  destruct pos as [|name rest]; [destruct H as [-> _]; left; by rewrite app_nil_r|].
  apply runs_bind in H as [(t3 & t4 & [node|err] & -> & H1 & H)|(m & _ & H1)];
    apply runs_on_cluster in H1 as (tn & -> & H1);
    pose proof (reading_cluster _ _ _ (GetNode_reads name) H1) as Hn.
  3: left; by apply Forall_app_2.
  2: destruct H as [-> _]; left; rewrite app_nil_r; by apply Forall_app_2.
  apply runs_bind in H as [(t5 & t6 & [b oe] & -> & H2 & H)|(m & _ & H2)];
    apply runs_on_cluster in H2 as (tc & -> & H2);
    pose proof (reading_cluster _ _ _ (IsScaleDownCandidate_reads node) H2) as Hc.
  2: left; apply Forall_app_2; [done|]; by apply Forall_app_2.
  destruct b; simpl negb in H; cbv iota in H.
  2: destruct H as [-> _]; left; rewrite app_nil_r; apply Forall_app_2; [done|]; by apply Forall_app_2.
  apply runs_bind in H as [(t7 & t8 & od & -> & H3 & H)|(m & _ & H3)]; apply runs_on_cluster in H3 as (td & -> & H3).
  2: by apply no_panic_runs in H3; [|apply no_panic_DrainNode].
  destruct H as [-> ->]. rewrite app_nil_r. right. exists (opts, log), name, rest, node, ts, tn, tc, td, od.
  split_and!; [done|done|done|by apply DrainNode_runs|done|]. intros Hlen Hwf. by eapply approved_is_safe.
Qed.

(** A request to the backend among the calls of a command. *)
Definition command_event (out : OutRequest) (x : result error Response) : event Command :=
  ev_r (http_event out x).

(** The configuration a command accepted, and the client it made from it. *)
Definition configured (c : DefaultCloudPoolClient) : Prop :=
  ∃ text cfg, NewFromJSON text = Done (Ok cfg) ∧
    c = NewClient (Backend_URL (Backend cfg)) (Backend_Timeout (Backend cfg)).

Lemma not_in_setup (ts : trace Startup) t1 out x t2 :
  map (@ev_l Startup (sum_iface KubeClient HTTPBackend)) ts ≠ (t1 ++ command_event out x :: t2)%list.
Proof. apply ev_r_in_lift_l. Qed.

(** The resize command asks the backend for a change only with a readable
    number and an accepted configuration, through the configured backend, and
    only as the proxy may: for that size when it has changed nothing, or to
    terminate an evictable machine that it has made ready. *)
Theorem resize_command_is_safe (args : list string) (t : trace Command) (o : outcome exit_status)
    t1 out x t2 :
  runs (setsize_process args) t o → t = (t1 ++ command_event out x :: t2)%list → Out_Method out ≠ "GET" →
  ∃ s arg rest n c ts u, flag_Parse config_flags args (defaultConfigPath, initial_log) = Ok (s, arg :: rest) ∧
    ParseInt arg = Some n ∧ configured c ∧
    t1 = (map ev_l ts ++ map ev_r u)%list ∧
    ((backend_asks c (ClientDo out) (Resize n) ∧
      Forall (λ e : event (sum_iface KubeClient HTTPBackend),
        service_changes (CloudPoolClient0 := HTTPCloudPoolClient c) (projT1 e) = false) u) ∨
     ∃ v, backend_asks c (ClientDo out) (Terminate (ID (PairMachine v)) true) ∧
       ExternalID (Node_Spec (NodeOf (KubeNode v))) = ID (PairMachine v) ∧
       Evictable (Membership (PairMachine v)) = true ∧ ready_to_terminate v u).
Proof.
  intros H Ht Hm. assert (backend_changes (ClientDo out) = true) as Hch by (apply negb_true_iff; by apply String.eqb_neq).
  apply with_flags_runs in H as [(e & _ & -> & _)|(configPath & log & pos & Hf & H)]; [by destruct t1|].
  unfold setsize_main in H. destruct pos as [|arg rest]; [destruct H as [-> _]; by destruct t1|].
  destruct (Atoi arg) as [n|e] eqn:En; [|destruct H as [-> _]; by destruct t1]. apply Atoi_spec in En.
  apply with_clients_runs in H as [(ts & ->)|(text & cfg & ts & t' & Hcfg & -> & H)]; [by apply not_in_setup in Ht|].
  apply split_app in Ht as [(b & Ht & _)|(a & -> & Ht)]; [by apply not_in_setup in Ht|].
  destruct (proxy_command_runs _ _ _ _ _ _ _ H Ht) as (o' & u & v & Hr & ->).
  exists (configPath, log), arg, rest, n, (NewClient (Backend_URL (Backend cfg)) (Backend_Timeout (Backend cfg))), ts, u.
  split_and!; [done|done|by exists text, cfg|done|].
  destruct (resize_change _ _ _ _ _ _ Hr eq_refl Hch) as [[Ha Hu]|(p & Ha & Hid & He & Hp)]; [by left|].
  right. exists p. split_and!; [done..|by apply prepared_is_ready].
Qed.

(** The same for the terminate command and the machine it names. *)
Theorem terminate_command_is_safe (args : list string) (t : trace Command) (o : outcome exit_status)
    t1 out x t2 :
  runs (terminate_process args) t o → t = (t1 ++ command_event out x :: t2)%list → Out_Method out ≠ "GET" →
  ∃ s id rest c ts u, flag_Parse config_flags args (defaultConfigPath, initial_log) = Ok (s, id :: rest) ∧ configured c ∧ t1 = (map ev_l ts ++ map ev_r u)%list ∧
    backend_asks c (ClientDo out) (Terminate id true) ∧
    ∃ v, ID (PairMachine v) = id ∧ ExternalID (Node_Spec (NodeOf (KubeNode v))) = id ∧
      Evictable (Membership (PairMachine v)) = true ∧ ready_to_terminate v u.
Proof.
  intros H Ht Hm. assert (backend_changes (ClientDo out) = true) as Hch by (apply negb_true_iff; by apply String.eqb_neq).
  apply with_flags_runs in H as [(e & _ & -> & _)|(configPath & log & pos & Hf & H)]; [by destruct t1|].
  unfold terminate_main in H. destruct pos as [|id rest]; [destruct H as [-> _]; by destruct t1|].
  apply with_clients_runs in H as [(ts & ->)|(text & cfg & ts & t' & Hcfg & -> & H)]; [by apply not_in_setup in Ht|].
  apply split_app in Ht as [(b & Ht & _)|(a & -> & Ht)]; [by apply not_in_setup in Ht|].
  destruct (proxy_command_runs _ _ _ _ _ _ _ H Ht) as (o' & u & v & Hr & ->).
  exists (configPath, log), id, rest, (NewClient (Backend_URL (Backend cfg)) (Backend_Timeout (Backend cfg))), ts, u.
  destruct (termination_change _ _ _ _ _ _ _ Hr eq_refl Hch) as (p & Ha & Hi & Hid & He & Hp).
  split_and!; [done|by exists text, cfg|done|done|]. exists p. split_and!; [done..|by apply prepared_is_ready].
Qed.

(** A request that asks for a change and was accepted. *)
Definition accepted_change (c : DefaultCloudPoolClient) (e : event HTTPBackend) (ch : pool_change) : Prop :=
  backend_asks c (projT1 e) ch ∧ ok_response (projT2 e).

Lemma accepted_post c path body t ch :
  posts c path body t (Done None) →
  (∀ out, Out_Method out = "POST" → Out_URL out = poolURL c (urlPath (poolURL c path)) → Out_Body out = body →
     backend_asks c (ClientDo out) ch) →
  ∃ e, t = [e] ∧ accepted_change c e ch.
Proof.
  intros [(_ & e & ?)|(out & r & -> & Hm & Hu & Hb & _ & [(Hk & _)|(_ & e & ?)])] Hask; [done| |done].
  eexists. split; [done|]. split; [by apply Hask|done].
Qed.

Lemma terminate_machines_runs c ms t m :
  runs (terminate_machines c ms) t (Done (Exit 0 m)) →
  ∃ t', t = at_backend t' ∧ Forall2 (accepted_change c) t' (map (λ m, Terminate (ID m) true) ms).
Proof.
  revert t. induction ms as [|x ms IH]; intros t H; simpl in H.
  { destruct H as [-> _]. exists []. split; [done|constructor]. }
  apply runs_bind in H as [(t1 & t2 & [err|] & -> & H1 & H)|(? & ? & _)]; [by destruct H| |done].
  apply runs_on_backend in H1 as (t' & -> & H1). apply post_runs, accepted_post with (ch := Terminate (ID x) true) in H1
    as (e & -> & He); [|by intros]. apply IH in H as (t'' & -> & H). exists (e :: t''). split; [done|]. by constructor.
Qed.

(** When the pool client command ends with status 0, the backend was read
    twice, and then it accepted, in this order and nothing else, the size it had
    itself reported and the termination, decrementing the size, of every machine
    it had reported. *)
Theorem pool_command_terminates_every_machine (args : list string) (t : trace Command) (m : string) :
  runs (poolclient_process args) t (Done (Exit 0 m)) →
  ∃ url log rest, flag_Parse poolclient_flags args ("", initial_log) = Ok ((url, log), rest) ∧
  let c := NewClient url 0 in
  ∃ t1 t2 t3 size pool, t = at_backend (t1 ++ t2 ++ t3)%list ∧
    runs (GetPoolSize c) t1 (Done (Ok size)) ∧ runs (GetMachinePool c) t2 (Done (Ok pool)) ∧
    Forall2 (accepted_change c) t3
      (Resize (Size_DesiredSize size) :: map (λ m, Terminate (ID m) true) (Machines pool)).
Proof.
  intros [(e & _ & _ & ?)|(url & log & rest & Hf & H)]%with_flags_runs; [done|]. exists url, log, rest. split; [done|].
  revert H. unfold poolclient_main. destruct (String.eqb url ""); [by intros [_ ?]|]. cbv zeta. intros H.
  apply runs_bind in H as [(u1 & u2 & [size|err] & -> & H1 & H)|(? & ? & _)]; [|by destruct H|done].
  apply runs_on_backend in H1 as (t1 & -> & H1).
  apply runs_bind in H as [(u3 & u4 & [pool|err] & -> & H2 & H)|(? & ? & _)]; [|by destruct H|done].
  apply runs_on_backend in H2 as (t2 & -> & H2).
  apply runs_bind in H as [(u5 & u6 & [err|] & -> & H3 & H)|(? & ? & _)]; [by destruct H| |done].
  apply runs_on_backend in H3 as (t3 & -> & H3).
  apply post_runs, accepted_post with (ch := Resize (Size_DesiredSize size)) in H3 as (e & -> & He); [|by intros].
  apply terminate_machines_runs in H as (t4 & -> & H).
  exists t1, t2, (e :: t4), size, pool. split_and!; [|done|done|by constructor].
  unfold at_backend. by rewrite !map_app.
Qed.

(** The commands that only look change nothing, and a command whose argument
    cannot be read makes no call at all. *)
Theorem other_commands_change_nothing (opts : ClusterOptions) (configPath : string) (args : list string)
    (t : trace Command) (o : outcome exit_status) :
  (runs (kubeclient_main opts) t o → Forall (λ e : event Command, command_changes (projT1 e) = false) t) ∧
  (runs (setsize_main configPath args) t o → (∀ arg, head args = Some arg → ParseInt arg = None) →
   t = [] ∧ ∃ msg, o = Done (Exit 1 msg)).
Proof.
  split.
  - unfold kubeclient_main. destruct (String.eqb (apiServerURL opts) ""); [by intros [-> _]|]. cbv zeta. intros H.
    apply runs_bind in H as [(t1 & t2 & [k|err] & -> & H1 & H)|(m & _ & H1)];
      apply runs_lift_l in H1 as (ts & -> & _); pose proof (setup_changes_nothing ts) as Hts; [|destruct H as [-> _]; by rewrite app_nil_r|done].
    apply Forall_app_2; [done|]. simpl in H. destruct H as ([items|err] & t3 & -> & -> & _); by repeat constructor.
  - unfold setsize_main. destruct args as [|arg rest]; [intros [-> ->]; eauto|]. intros H Hn. specialize (Hn arg eq_refl).
    destruct (Atoi arg) as [n|e] eqn:En; [apply Atoi_spec in En; congruence|]. destruct H as [-> ->]. eauto.
Qed.

Lemma Join_nonempty HOME e rest : e ≠ "" → Join (HOME :: e :: rest) ≠ "".
Proof.
  intros He. assert (∀ p, filepath_Clean p ≠ "") as Hc.
  { intros p. unfold filepath_Clean. destruct (starts_with "/" p).
    - destruct (Clean_shape p) as (elems & _ & ->). done.
    - destruct (clean_relative [] (Split "/" p)) as [|x xs] eqn:E; [done|].
      assert (∀ st es, Forall (λ s : string, s ≠ "") st → Forall (λ s : string, s ≠ "") (clean_relative st es)) as Hr.
      { intros st es. revert st. induction es as [|y es IH]; intros st Hst; [by apply Forall_rev|]. cbn [clean_relative].
        destruct (String.eqb_spec y ""); [by apply IH|]. destruct (String.eqb y "."); [by apply IH|]. cbn [orb].
        destruct (String.eqb y ".."); [|by apply IH; constructor]. destruct Hst as [|top below Ht Hb]; [apply IH; by repeat constructor|].
        destruct (String.eqb top ".."); apply IH; [by repeat constructor|done]. }
      specialize (Hr [] (Split "/" p) ltac:(constructor)). rewrite E in Hr. inversion Hr as [|? ? Hx _]; subst.
      by destruct x, xs. }
  cbn [Join]. destruct (String.eqb HOME ""); [|apply Hc]. by destruct (String.eqb_spec e "").
Qed.

(** The node lister always uses a kubeconfig file by default: whatever the home
    directory, the options for a client certificate, key and CA have no effect
    unless the kubeconfig option is given as well. *)
Theorem kubeclient_ignores_certificates (HOME url cert key ca : string) (d : bool) :
  kubeclient_process HOME (concat (map spell [Assign "apiserver-url" url d WithEquals; Assign "cert-file" cert d WithEquals;
    Assign "cert-key" key d WithEquals; Assign "ca-cert" ca d WithEquals])) =
  kubeclient_process HOME (spell (Assign "apiserver-url" url d WithEquals)).
Proof.
  unfold kubeclient_process, with_flags. set (defaults := kubeclient_defaults HOME).
  pose proof (flag_Parse_assignments kubeclient_flags [Assign "apiserver-url" url d WithEquals; Assign "cert-file" cert d WithEquals;
    Assign "cert-key" key d WithEquals; Assign "ca-cert" ca d WithEquals] [] (defaults, initial_log)) as H1.
  pose proof (flag_Parse_assignments kubeclient_flags [Assign "apiserver-url" url d WithEquals] [] (defaults, initial_log)) as H2.
  cbn [map concat] in H2. rewrite !app_nil_r in H2. rewrite app_nil_r in H1.
  assert (Hw : ∀ name v, name ∈ ["apiserver-url"; "cert-file"; "cert-key"; "ca-cert"] →
    well_spelt kubeclient_flags (Assign name v d WithEquals)).
  { intros name v Hin. rewrite !elem_of_cons, elem_of_nil in Hin. unfold well_spelt. cbn [A_name A_style].
    destruct_or?; subst; try done; (split_and!; [done..|]; eexists; split; [reflexivity|done]). }
  rewrite H1, H2 by (repeat constructor; apply Hw; set_solver). cbn [fst]. unfold defaults, kubeclient_defaults.
  cbn -[Join kubeclient_main]. unfold kubeclient_main. cbn [apiServerURL kubeConfigFile certFile certKeyFile caCertFile].
  destruct (String.eqb url ""); [done|]. unfold NewKubeClient, APIServer_Validate, Auth_Validate. cbn [API_URL API_Auth KubeConfigPath API_Timeout].
  destruct (String.eqb_spec (Join [HOME; ".kube"; "config"]) "") as [E|_]; [by apply Join_nonempty in E|]. done.
Qed.
End CommandClaims.

(** ** Witnesses *)

#[local] Existing Instance map_to_list_range.
#[local] Existing Instance insertion_sort.
#[local] Instance witness_lib : GoLib := plain_lib.

Definition sample_command_env : env Command := λ _ c,
  match c with
  | inl c => sample_process [] c
  | inr c => sample_services [] c
  end.

Definition sample_cluster_options : ClusterOptions := MkClusterOptions "https://kube:6443" "" "cert.pem" "key.pem" "ca.pem".
Definition sample_drain_line : list string := ["--apiserver-url=https://kube:6443"; "-v"; "2"; "n2"].
Definition sample_pool_line : list string := ["-cloudpool-url"; "http://pool:9010"].

Definition sample_drain : Prog Command exit_status := drain_process "/root" sample_drain_line.
Definition sample_setsize : Prog Command exit_status := setsize_process ["2"].
Definition sample_terminate_command : Prog Command exit_status := terminate_process ["i-2"].
Definition sample_poolclient : Prog Command exit_status := poolclient_process sample_pool_line.

Lemma none_changes (t : trace Command) :
  Forall (λ e : event Command, command_changes (projT1 e) = false) t →
  existsb (λ e : event Command, command_changes (projT1 e)) t = false.
Proof. induction 1 as [|e t He _ IH]; cbn [existsb]; [done|]. by rewrite He, IH. Qed.

Lemma drain_command_is_safe_witness : ∃ node td oe, drain_spec node td oe.
Proof.
  destruct (drain_command_is_safe "/root" sample_drain_line _ _ (exec_runs sample_command_env sample_drain []))
    as [H|(s & name & rest & node & ts & tn & tc & td & oe & _ & _ & _ & H & _)].
  - exfalso. apply none_changes in H. vm_compute in H. discriminate H.
  - exists node, td, oe. exact H.
Defined.

Definition setsize_trace : trace Command := (exec sample_command_env [] sample_setsize).1.
Definition terminate_command_trace : trace Command := (exec sample_command_env [] sample_terminate_command).1.

Lemma setsize_trace_end :
  setsize_trace = (removelast setsize_trace ++ [command_event (terminate_request "i-3" true) accepted])%list.
Proof. vm_compute. reflexivity. Qed.
Lemma terminate_command_trace_end :
  terminate_command_trace =
  (removelast terminate_command_trace ++ [command_event (terminate_request "i-2" true) accepted])%list.
Proof. vm_compute. reflexivity. Qed.

Lemma resize_command_is_safe_witness : ∃ n c, ParseInt "2" = Some n ∧ configured c.
Proof.
  destruct (resize_command_is_safe ["2"] setsize_trace _ (removelast setsize_trace)
    (terminate_request "i-3" true) accepted [] (exec_runs sample_command_env sample_setsize []) setsize_trace_end)
    as (s & arg & rest & n & c & ts & u & Harg & Hn & Hc & _); [discriminate|].
  vm_compute in Harg. injection Harg as _ <- _. exists n, c. split; [exact Hn|exact Hc].
Defined.

Lemma terminate_command_is_safe_witness : ∃ v, ID (PairMachine v) = "i-2" ∧ Evictable (Membership (PairMachine v)) = true.
Proof.
  destruct (terminate_command_is_safe ["i-2"] terminate_command_trace _
    (removelast terminate_command_trace) (terminate_request "i-2" true) accepted []
    (exec_runs sample_command_env sample_terminate_command []) terminate_command_trace_end)
    as (s & id & rest & c & ts & u & Hid & _ & _ & _ & v & Hv & _ & He & _); [discriminate|].
  vm_compute in Hid. injection Hid as _ <- _. exists v. split; [exact Hv|exact He].
Defined.

Lemma pool_command_terminates_every_machine_witness :
  ∃ t3 size pool, Forall2 (accepted_change sample_client) t3
    (Resize (Size_DesiredSize size) :: map (λ m, Terminate (ID m) true) (Machines pool)).
Proof.
  assert ((exec sample_command_env [] sample_poolclient).2 = Done (Exit 0 "")) as E by (vm_compute; reflexivity).
  pose proof (exec_runs sample_command_env sample_poolclient []) as H. rewrite E in H.
  destruct (pool_command_terminates_every_machine sample_pool_line _ "" H) as (url & log & rest & Hf & t1 & t2 & t3 & size & pool & _ & _ & _ & Hc).
  vm_compute in Hf. injection Hf as <- _ _. exists t3, size, pool. exact Hc.
Defined.

Lemma other_commands_change_nothing_witness :
  (exec sample_command_env [] (setsize_main defaultConfigPath ["two"])).1 = [].
Proof.
  refine (proj1 (proj2 (other_commands_change_nothing sample_cluster_options defaultConfigPath ["two"] _ _)
    (exec_runs sample_command_env (setsize_main defaultConfigPath ["two"]) []) _)).
  intros arg [= <-]. reflexivity.
Defined.
